(* ===== verification/_CoqProject ===== *)
-Q . S2P
Prelude.v
Binary64.v
Data.v
PyStr.v
Graph.v
Carry.v
Network.v
NetworkSpec.v
Totality.v
Constraints.v
Balance.v
Maps.v
Results.v
Server.v
Scenario.v
