(* ===== verification/Prelude.v ===== *)
(** * Verification of the offshore-wind supply-chain planner ([src/calc.py], [src/sample.py])

    The program reads two CSV tables (facilities and routes), builds a
    time-expanded network of (location, month) nodes with three kinds of
    edges, generates an integer program over per-edge flow variables, asks
    SCIP for a cost-minimal solution and reports the flows.  The Flask
    handler of [sample.py] runs the whole pipeline on an upload, draws one
    map per month ([build_maps], lines 742-871) and keeps the last result
    in a process-wide cache.  Everything of interest
    happens in the single function [optimize] of [calc.py] (lines
    143-739); the development splits it along its loops.

    ** Files of the development (in dependency order)

    - [Prelude]    (this file) the Python-exception monad [exc] with its
                   notation [x <- m ;; k] in [calc_scope], the loop
                   combinator [exc_fold] (a [for] loop that stops at the
                   first exception) and its invariant, trace and totality
                   lemmas, Python's [int()] on floats ([py_int],
                   truncation toward zero), the first-match search behind
                   [list.index] ([py_find]), sums of rationals and integers
                   ([qsum], [zsum]) with their algebra, and the hint
                   databases [calc] and [calc_rw].
    - [Binary64]   Python's [float]: IEEE 754 binary64 round-to-nearest-even
                   on rationals ([fl]), with the standard error bound,
                   non-negativity and exactness on integers below [2^53];
                   its results are checked against CPython on the values
                   the program meets (0.1, 1.852, 1/3, ties).
    - [Data]       the fixed vocabularies of [calc.py]: [num_product_list]
                   ([Product], with the pseudo-product [Vessel]), [sign],
                   [layer_network_list] ([Month]), the eight roles of
                   [Node.role] in dictionary order ([Role]), node layers
                   (a month or the sentinel ["10000月"]), CSV cells and
                   Python's [float()] (rounded by [fl]) and [int()] (which
                   accepts integer text only, with surrounding spaces and
                   a sign) on them.
    - [PyStr]      Python's [len(s)] and [s[:-1]] on a name held as its
                   UTF-8 bytes, as [build_maps] labels a node (lines
                   819-823), proved to count and drop code points.
    - [Graph]      the networkx [DiGraph] [build_maps] fills: two
                   insertion-ordered dictionaries ([odict]) with
                   [add_node], [add_edge], the attribute assignments (which
                   raise [KeyError] on a missing node or edge) and the
                   [nodes()]/[edges()] views, with the representation
                   invariant [graph_ok] kept by every operation.
    - [Carry]      lines 165-284 of [optimize]: one facility row becomes
                   twelve month nodes ([build_month_node], [row_nodes]);
                   role flags from the facility kind, the fractional
                   capacity carry-over in binary64 ([carry_task], the
                   remainder dictionary [sss] threaded from month to
                   month), costs and the installation gate ([cost_task],
                   [install_capacity]).  Theorems: the twelve capacities
                   add up to [w * K] with [K] within one unit, plus the
                   rounding allowance [carry_err x], of twelve times the
                   monthly value (C4; the rounding can hand out one unit
                   more than [floor(12 x)], [float_carry_exceeds_floor]),
                   the installation capacity of every month node on each
                   side of the month of [row[31]] (C5), and the [KeyError]
                   of the unguarded module branch (C6).
    - [Network]    lines 143-445: the node list and the three edge lists
                   ([BState]) built row by row with first-match node lookup
                   ([build_nodes], [build_network]), the aggregate demand
                   nodes and their sink edges, the route edges with the
                   vessel cost of lines 423-428 in binary64, and the
                   supply/demand table.  Theorems: every edge the builder
                   emits has the shape the code intends (a route stays
                   within its month or feeds an aggregate node, production
                   edges sit on month nodes, storage links a month to the
                   next) (C14); a route naming an unknown location raises
                   [ValueError] (C15); on every route up to [max_route_km]
                   the float vessel cost is the exact integer closed form,
                   a day rate (20200000 from a base port to a site, 5948000
                   otherwise) times the sailing days rounded up plus the
                   distance, and at least [5948000 + distance] on a route
                   of positive length (C16).
    - [NetworkSpec] which production edges the builder emits, stated as a
                   function of the facility table ([row_production]: per
                   row, month and active capability of the row's kind and
                   flags, wet storage excluded); the production list of
                   every successful build is exactly that list (C20).
    - [Totality]   which tables the builder reads without raising, as
                   boolean checks per row ([facility_row_ok],
                   [route_row_ok]); on tables that pass them
                   [build_network] returns a network (C19).  The proof
                   follows the loops: the carry-over and cost loops with
                   the entries of [sss], [node.cost] and [node.capacity]
                   they need, the month loop with the keys of the months
                   already added (so the storage edge finds the previous
                   month), the aggregate node, then the route rows against
                   the node keys of the facility table.
    - [Constraints] lines 447-691: the variables of every edge, the list of
                   constraints in the order the code adds them
                   ([gen_constraints]), the objective, and what a feasible
                   assignment means edge by edge: the bill-of-materials
                   table for production edges (C1), conservation and the
                   vessel budget on routes (C7), storage limited to
                   foundations (C8), and the cargo ban on the two
                   hard-coded sink routes (C9).  A cost or capacity that
                   is not a number reaches pyscipopt's arithmetic, which
                   raises [NotImplementedError] ([pv_float]).
    - [Balance]    the global consequence of the constraint system: summing
                   the mass-balance rows over all nodes of a well-formed
                   network ([wf_network]: distinct node ids, every edge end
                   a node), every feasible plan installs the demand and
                   makes a foundation and four modules per turbine (C2), and
                   needs four units of steel per turbine (C3); the
                   network [build_network] builds from tables with distinct
                   location names is well formed (C10); the objective of a
                   built network is, at every assignment, the priced cost
                   [charged_cost]: outgoing vessel flow at the route's
                   vessel cost, each production edge's output at its unit
                   cost, stored foundations at the storage cost (C17).
    - [Maps]       [build_maps]: per month, the graph of the month's nodes
                   (position and four counts from the solution) and routes
                   (per-product quantities), then the folium elements drawn
                   from it ([element]: a line per route carrying cargo, a
                   circle and a label per location).  Theorems: on every
                   network the builder produces, no node or route end lacks
                   its position, so [build_maps] never raises and returns
                   one map per month in calendar order (C21); with distinct
                   node ids, the lines of a month's map are exactly the
                   month's routes that carry something, drawn between the
                   positions of their ends (C22), which refines the
                   graph-based drawing to a statement about routes; after
                   the lines come, once per location of the month and in
                   table order, its circle and its label (C24).
    - [Results]    lines 693-739 and [sample.py]: the solver as an interface
                   ([IPSolver], whose law is that an optimal answer is
                   feasible), [optimize]'s return value, the per-(month,
                   location) production and storage tables of [show()], and
                   the handler, which calls [build_maps] and writes the
                   global cache field by field, as a function on (cache,
                   request).  Theorems: the production table reports each
                   edge's output quantity (C12), the storage table the
                   foundations each storage edge keeps (C18), a location
                   with the wet-storage flag and no capacity makes every
                   upload fail (C25), as does an active capability with no
                   cost (C23).
    - [Server]     the threaded development server ([app.run(debug=True)]):
                   each request is a thread of atomic reads and writes of
                   [GLOBAL_CACHE] ([thread_of], lines 87-101), and [step]
                   interleaves them.  Theorems: under every interleaving
                   each field of the cache and of a rendered page is empty
                   or comes from a successful upload (C13); serving the
                   requests one after another ([serve]) is one of the
                   schedules (C11), and a thread run alone is [show].
    - [Scenario]   a five-node network with a feasible plan, and a
                   three-location pair of CSV tables run through the whole
                   pipeline ([build_network], [gen_constraints], a
                   certificate-checking solver, [build_maps], the handler),
                   each checked by evaluation; the witnesses of the claims,
                   and examples of the behaviours the findings report
                   (duplicate node ids, the crash on an infeasible upload,
                   the empty labels of one-letter names, a page mixing two
                   states of the cache).

    ** Modelling choices

    - Python floats are binary64 values, modelled as the rationals they
      denote; every float operation of the program is the exact operation
      followed by the rounding [fl] ([Binary64]).  Overflow to [inf] and
      [nan] are not modelled: the values of the program (capacities, costs
      and distances from the tables) stay far below [1.8e308], and
      [float()] of the texts ["inf"] and ["nan"] is treated as a
      [ValueError]; C4 assumes a monthly value of at most [2^40].
    - The vessel-cost day count is a float ceiling; it is proved equal to
      the exact integer ceiling by evaluation over every distance from 0
      to [max_route_km] = 3000 km (longer than any route between Japanese
      ports), which is the bound of C16.
    - A CSV cell is [CEmpty], a canonical integer literal [CInt], another
      float literal [CDec] (with its text), or any other text [CText];
      [float()] accepts the two numeric forms, [int()] [CInt] and integer
      text; both raise [ValueError] otherwise.  Reading past the end of a
      row raises [IndexError].
    - Python [str] values are Rocq strings holding their UTF-8 bytes; the
      only code-point operations of the program ([len] and slicing in
      [build_maps]) are written on the bytes and proved to agree with the
      code-point semantics ([PyStr]).
    - Dictionaries whose insertion order is observed ([maps_by_month], the
      result tables, networkx's node and adjacency dictionaries) are
      association lists in insertion order.
    - Python dictionaries keyed by role are functions [Role -> option V];
      a missing key raises [KeyError] on read.
    - Exceptions are values of [exc]; every step returns the error the
      Python code would raise, and nothing after it runs.  All loops are
      folds over finite lists, so every definition is total and no fuel
      is needed.
    - The solver is an interface ([IPSolver]): a status and an assignment
      of non-negative integers to the variables (SCIP's [vtype='I'] with
      its default lower bound 0), with the law that an assignment reported
      optimal satisfies every generated constraint, evaluated exactly in
      [Q].  Every theorem about feasible assignments therefore holds of
      whatever a sound solver returns; the solution values are taken as
      the integers [int(getVal)] gives, SCIP's tolerances aside.
    - The web server is modelled at the granularity of item reads and
      writes of [GLOBAL_CACHE], each atomic under the interpreter lock.

    ** Not modelled
    - The HTML that folium renders from the drawn elements, the constant
      CSS of lines 855-866 and the Jinja templates: text for the browser,
      with no further logic.  The elements themselves are modelled.
    - SCIP's branch-and-bound and its numerical tolerances.
    - HTTP itself: file streams, templates, [index()].
*)

From stdpp Require Export base list.
From Stdlib Require Export QArith Qround Lqa ZArith String.
From Stdlib Require Import Lia.

Declare Scope calc_scope.
Delimit Scope calc_scope with calc.

(** String equality, as Python compares [str] values. *)
#[export] Instance string_eq_decision : EqDecision string := string_dec.

(** Membership of a [str] in a list, as Python's [in]. *)
#[export] Instance In_string_dec (x : string) l : Decision (In x l) := in_dec string_dec x l.

(** ** Python exceptions *)

Inductive py_error :=
| ValueError
| KeyError
| IndexError
| TypeError
| NotImplementedError   (* pyscipopt's answer to an operand that is not a number *)
| StopIteration.

#[export] Instance py_error_eq_dec : EqDecision py_error.
Proof. solve_decision. Defined.

(** A computation that returns a value or raises. *)
Definition exc (A : Type) : Type := sum py_error A.

Definition ret {A} (a : A) : exc A := inr a.
Definition raise {A} (e : py_error) : exc A := inl e.

Definition exc_bind {A B} (m : exc A) (k : A -> exc B) : exc B :=
  match m with
  | inl e => inl e
  | inr a => k a
  end.

Notation "x <- m ;; k" := (exc_bind m (fun x => k))
  (at level 100, m at next level, right associativity) : calc_scope.

Local Open Scope calc_scope.

(** [for x in l: body] over an accumulator, stopping at the first raise. *)
Fixpoint exc_fold {A S} (f : S -> A -> exc S) (l : list A) (s : S) : exc S :=
  match l with
  | [] => ret s
  | x :: l' => s' <- f s x ;; exc_fold f l' s'
  end.

(** ** Python's [list.index] followed by subscript: the first match *)

Fixpoint py_find {A} (p : A -> bool) (l : list A) : exc A :=
  match l with
  | [] => raise ValueError
  | x :: l' => if p x then ret x else py_find p l'
  end.

(** ** Rationals: Python's [int()] on a float and sums *)

(** [int(x)] truncates toward zero. *)
Definition py_int (q : Q) : Z := Z.quot (Qnum q) (Zpos (Qden q)).

Fixpoint qsum (l : list Q) : Q :=
  match l with
  | [] => 0
  | x :: l' => x + qsum l'
  end.

Definition zsum (l : list Z) : Z := fold_right Z.add 0%Z l.

(** ** Lemmas on the monads, searches and sums *)

Lemma exc_bind_inr {A B} (m : exc A) (k : A -> exc B) (b : B) :
  exc_bind m k = inr b -> exists a, m = inr a /\ k a = inr b.
Proof. destruct m; simpl; [discriminate | eauto]. Qed.

Lemma exc_bind_inl {A B} (m : exc A) (k : A -> exc B) e :
  m = inl e -> exc_bind m k = inl e.
Proof. intros ->. reflexivity. Qed.

Lemma exc_fold_app {A S} (f : S -> A -> exc S) l1 l2 s :
  exc_fold f (l1 ++ l2) s = exc_bind (exc_fold f l1 s) (exc_fold f l2).
Proof.
  revert s; induction l1 as [|x l1 IH]; intros s; simpl; [reflexivity|].
  destruct (f s x); simpl; [reflexivity | apply IH].
Qed.

(** An invariant of the accumulator preserved by every successful step
    holds of the result of the whole loop. *)
Lemma exc_fold_inv {A S} (P : S -> Prop) (f : S -> A -> exc S) l s s' :
  (forall s0 x s1, In x l -> P s0 -> f s0 x = inr s1 -> P s1) ->
  P s -> exc_fold f l s = inr s' -> P s'.
Proof.
  revert s; induction l as [|x l IH]; intros s Hstep Hs Hrun; simpl in Hrun.
  - inversion Hrun; subst; exact Hs.
  - destruct (f s x) as [e|s1] eqn:E; simpl in Hrun; [discriminate|].
    apply (IH s1); [intros; eapply Hstep; eauto; right; auto | | exact Hrun].
    eapply Hstep; eauto; left; auto.
Qed.

(** A property that every successful step establishes, whatever the
    accumulator before it, holds after a loop over a non-empty list. *)
Lemma exc_fold_establish {A S} (P : S -> Prop) (f : S -> A -> exc S) l s s' :
  l <> [] -> (forall s0 x s1, In x l -> f s0 x = inr s1 -> P s1) ->
  exc_fold f l s = inr s' -> P s'.
Proof.
  destruct l as [|x l]; intros Hne Hstep Hrun; [congruence|]. simpl in Hrun.
  destruct (f s x) as [e|s1] eqn:E; simpl in Hrun; [discriminate|].
  apply (exc_fold_inv P f l s1 s'); [| eapply Hstep; eauto; left; auto | exact Hrun].
  intros s0 y s2 Hy _ Hs; eapply Hstep; eauto; right; auto.
Qed.

(** A loop whose every step succeeds on the states of an invariant
    succeeds, and its result satisfies the invariant. *)
Lemma exc_fold_total {A S} (P : S -> Prop) (f : S -> A -> exc S) l s :
  (forall s0 x, In x l -> P s0 -> exists s1, f s0 x = inr s1 /\ P s1) ->
  P s -> exists s', exc_fold f l s = inr s' /\ P s'.
Proof.
  revert s; induction l as [|x l IH]; intros s Hstep Hs; [exists s; split; [reflexivity | exact Hs]|].
  destruct (Hstep s x (or_introl eq_refl) Hs) as [s1 [E H1]]; cbn [exc_fold]; rewrite E; cbn.
  apply IH; [intros s0 y Hy; apply Hstep; right; exact Hy | exact H1].
Qed.

(** A loop whose every step appends [h x] to an observed list appends the
    concatenation of all [h x]. *)
Lemma exc_fold_trace {A S B} (f : S -> A -> exc S) (g : S -> list B) (h : A -> list B) l s s' :
  (forall s0 x s1, In x l -> f s0 x = inr s1 -> g s1 = g s0 ++ h x) ->
  exc_fold f l s = inr s' -> g s' = g s ++ flat_map h l.
Proof.
  revert s; induction l as [|x l IH]; intros s Hstep Hrun; simpl in Hrun.
  - injection Hrun as <-; rewrite app_nil_r; reflexivity.
  - destruct (f s x) as [e|s1] eqn:E; simpl in Hrun; [discriminate|].
    rewrite (IH s1), (Hstep s x s1), <- app_assoc; [reflexivity | left; reflexivity | exact E | |].
    + intros; eapply Hstep; eauto; right; assumption.
    + exact Hrun.
Qed.

(** Totality of a loop whose invariant mentions the iterations done so
    far: [P pre s] holds after the prefix [pre] of the list. *)
Lemma exc_fold_total_prefix {A S} (P : list A -> S -> Prop) (f : S -> A -> exc S) l s :
  (forall pre x post s0, l = pre ++ x :: post -> P pre s0 ->
     exists s1, f s0 x = inr s1 /\ P (pre ++ [x]) s1) ->
  P [] s -> exists s', exc_fold f l s = inr s' /\ P l s'.
Proof.
  intros Hstep Hs.
  enough (G : forall pre post s0, l = pre ++ post -> P pre s0 ->
                exists s', exc_fold f post s0 = inr s' /\ P l s') by exact (G [] l s eq_refl Hs).
  intros pre post; revert pre; induction post as [|x post IH]; intros pre s0 E Hs0.
  - rewrite app_nil_r in E; subst; exists s0; split; [reflexivity | exact Hs0].
  - destruct (Hstep pre x post s0 E Hs0) as [s1 [E1 H1]]; cbn [exc_fold]; rewrite E1; cbn [exc_bind].
    apply (IH (pre ++ [x])); [rewrite <- app_assoc; exact E | exact H1].
Qed.

(** In a loop over keyed items with distinct keys, the entry of key [r]
    at the end is the one the iteration of [r] left, when the other
    iterations do not touch it. *)
Lemma exc_fold_key {S K V} (f : S -> nat * K -> exc S) (get : S -> K -> V) l s s' ti r :
  (forall s0 tj t s1, f s0 (tj, t) = inr s1 -> t <> r -> get s1 r = get s0 r) ->
  List.NoDup (map snd l) -> In (ti, r) l -> exc_fold f l s = inr s' ->
  exists mid mid', f mid (ti, r) = inr mid' /\ get s' r = get mid' r.
Proof.
  intros Hfr Hnd Hin Hrun. apply in_split in Hin as (l1 & l2 & ->).
  rewrite exc_fold_app in Hrun. apply exc_bind_inr in Hrun as [mid [_ Hrun]]. cbn [exc_fold] in Hrun.
  destruct (f mid (ti, r)) as [e|mid'] eqn:E; cbn [exc_bind] in Hrun; [discriminate|].
  exists mid, mid'; split; [exact E|].
  refine (exc_fold_inv (fun s => get s r = get mid' r) _ _ _ _ _ eq_refl Hrun).
  intros s0 [tj t] s1 Hin E0 Hs. rewrite (Hfr _ _ _ _ Hs); [exact E0|]. intros ->.
  rewrite map_app in Hnd; cbn [map] in Hnd. apply List.NoDup_remove_2 in Hnd.
  apply Hnd, in_app_iff; right; apply in_map_iff; exists (tj, r); auto.
Qed.

Lemma py_find_spec {A} (p : A -> bool) l x :
  py_find p l = inr x -> In x l /\ p x = true.
Proof.
  induction l as [|y l IH]; simpl; [discriminate|].
  destruct (p y) eqn:E; intros H.
  - inversion H; subst; auto.
  - destruct (IH H); auto.
Qed.

Lemma py_find_none {A} (p : A -> bool) l :
  (forall x, In x l -> p x = false) -> py_find p l = inl ValueError.
Proof.
  induction l as [|y l IH]; simpl; intros H; [reflexivity|].
  rewrite (H y (or_introl eq_refl)). apply IH; auto.
Qed.

(** The only exception [list.index] raises. *)
Lemma py_find_spec_inl {A} (p : A -> bool) l e : py_find p l = inl e -> e = ValueError.
Proof.
  induction l as [|y l IH]; simpl; intros H; [unfold raise in H; congruence|].
  destruct (p y); [discriminate | exact (IH H)].
Qed.

Lemma py_find_app_l {A} (p : A -> bool) l1 l2 x :
  py_find p l1 = inr x -> py_find p (l1 ++ l2) = inr x.
Proof.
  induction l1 as [|y l1 IH]; simpl; [discriminate|].
  destruct (p y); auto.
Qed.

(** [list.index] succeeds as soon as some element matches. *)
Lemma py_find_some {A} (p : A -> bool) l x :
  In x l -> p x = true -> exists y, py_find p l = inr y.
Proof.
  induction l as [|y l IH]; [intros []|]; intros [<-|Hin] Hx; cbn [py_find].
  - rewrite Hx; eexists; reflexivity.
  - destruct (p y); [exists y; reflexivity | exact (IH Hin Hx)].
Qed.

Lemma py_find_app_r {A} (p : A -> bool) l1 l2 :
  (forall x, In x l1 -> p x = false) -> py_find p (l1 ++ l2) = py_find p l2.
Proof.
  induction l1 as [|y l1 IH]; simpl; intros H; [reflexivity|].
  rewrite (H y (or_introl eq_refl)). apply IH; auto.
Qed.

Lemma flat_map_ext_in {A B} (f g : A -> list B) l :
  (forall x, In x l -> f x = g x) -> flat_map f l = flat_map g l.
Proof.
  induction l as [|x l IH]; intros H; [reflexivity|]; cbn.
  rewrite H, IH; [reflexivity | intros; apply H; right; assumption | left; reflexivity].
Qed.

(** ** Strings as lists of characters *)

Lemma list_ascii_of_string_app (a b : string) :
  list_ascii_of_string (a ++ b) = list_ascii_of_string a ++ list_ascii_of_string b.
Proof. induction a as [|c a IH]; simpl; [reflexivity | rewrite IH; reflexivity]. Qed.

Lemma list_ascii_of_string_inj (a b : string) :
  list_ascii_of_string a = list_ascii_of_string b -> a = b.
Proof.
  intros H; rewrite <- (string_of_list_ascii_of_string a), <- (string_of_list_ascii_of_string b), H.
  reflexivity.
Qed.

(** Splitting at the last occurrence of a separator [u]. *)
Lemma app_sep_inj {A} (u : A) (x y l1 l2 : list A) :
  x ++ u :: l1 = y ++ u :: l2 -> ~ In u l1 -> ~ In u l2 -> x = y /\ l1 = l2.
Proof.
  revert y; induction x as [|a x IH]; intros [|b y] H N1 N2; cbn in H.
  - injection H as ->; auto.
  - injection H as -> H; exfalso; apply N1; rewrite H; apply in_app_iff; right; left; reflexivity.
  - injection H as <- H; exfalso; apply N2; rewrite <- H; apply in_app_iff; right; left; reflexivity.
  - injection H as -> H; destruct (IH y H N1 N2) as [-> ->]; auto.
Qed.

Local Open Scope Q_scope.

Lemma py_int_floor (q : Q) : 0 <= q -> py_int q = Qfloor q.
Proof.
  destruct q as [n d]; unfold py_int, Qfloor, Qle; simpl; intros H.
  rewrite Z.mul_1_r in H. apply Z.quot_div_nonneg; lia.
Qed.

Lemma py_int_le (q : Q) : 0 <= q -> inject_Z (py_int q) <= q.
Proof. intros H; rewrite py_int_floor by exact H; apply Qfloor_le. Qed.

Lemma py_int_lt (q : Q) : 0 <= q -> q < inject_Z (py_int q + 1).
Proof. intros H; rewrite py_int_floor by exact H; apply Qlt_floor. Qed.

Lemma py_int_nonneg (q : Q) : 0 <= q -> (0 <= py_int q)%Z.
Proof.
  intros H; rewrite py_int_floor by exact H.
  change 0%Z with (Qfloor 0); apply Qfloor_resp_le; exact H.
Qed.

Lemma py_int_Z (z : Z) : py_int (inject_Z z) = z.
Proof. unfold py_int; simpl; apply Z.quot_1_r. Qed.

Lemma py_int_compat (q r : Q) : q == r -> 0 <= q -> py_int q = py_int r.
Proof.
  intros E H. rewrite !py_int_floor; [| rewrite <- E |]; auto.
  apply Z.le_antisymm; apply Qfloor_resp_le; rewrite E; apply Qle_refl.
Qed.

Lemma qsum_app l1 l2 : qsum (l1 ++ l2) == qsum l1 + qsum l2.
Proof. induction l1 as [|x l1 IH]; simpl; [ring|]. rewrite IH; ring. Qed.

Lemma qsum_map_plus {A} (f g : A -> Q) l :
  qsum (map (fun x => f x + g x) l) == qsum (map f l) + qsum (map g l).
Proof. induction l as [|x l IH]; simpl; [ring|]. rewrite IH; ring. Qed.

Lemma qsum_map_scale {A} (c : Q) (f : A -> Q) l :
  qsum (map (fun x => c * f x) l) == c * qsum (map f l).
Proof. induction l as [|x l IH]; simpl; [ring|]. rewrite IH; ring. Qed.

Lemma qsum_map_le {A} (f g : A -> Q) l :
  (forall x, In x l -> f x <= g x) -> qsum (map f l) <= qsum (map g l).
Proof.
  induction l as [|x l IH]; simpl; intros H; [apply Qle_refl|].
  apply Qplus_le_compat; auto.
Qed.

Lemma qsum_map_ext {A} (f g : A -> Q) l :
  (forall x, In x l -> f x == g x) -> qsum (map f l) == qsum (map g l).
Proof.
  induction l as [|x l IH]; simpl; intros H; [reflexivity|].
  rewrite (H x (or_introl eq_refl)), IH; [reflexivity | auto].
Qed.

Lemma qsum_map_nonneg {A} (f : A -> Q) l :
  (forall x, In x l -> 0 <= f x) -> 0 <= qsum (map f l).
Proof.
  induction l as [|x l IH]; simpl; intros H; [apply Qle_refl|].
  pose proof (H x (or_introl eq_refl)). pose proof (IH (fun y Hy => H y (or_intror Hy))).
  lra.
Qed.

(** Exchanging the order of a double sum. *)
Lemma qsum_swap {A B} (f : A -> B -> Q) (la : list A) (lb : list B) :
  qsum (map (fun a => qsum (map (fun b => f a b) lb)) la)
  == qsum (map (fun b => qsum (map (fun a => f a b) la)) lb).
Proof.
  induction la as [|a la IH]; simpl.
  - induction lb; simpl; [reflexivity | rewrite <- IHlb; ring].
  - rewrite IH, <- qsum_map_plus; reflexivity.
Qed.

Lemma qsum_filter {A} (p : A -> bool) (f : A -> Q) l :
  qsum (map f (List.filter p l)) == qsum (map (fun x => if p x then f x else 0) l).
Proof.
  induction l as [|x l IH]; [reflexivity|].
  cbn [List.filter map qsum]; destruct (p x); cbn [map qsum].
  - apply Qplus_comp; [reflexivity | exact IH].
  - rewrite Qplus_0_l; exact IH.
Qed.

(** A whole number between [q - 1] and [q] is the floor of [q]. *)
Lemma Qfloor_unique (q : Q) (z : Z) :
  inject_Z z <= q -> q < inject_Z (z + 1) -> Qfloor q = z.
Proof.
  intros H1 H2.
  assert (A : (z <= Qfloor q)%Z).
  { rewrite <- (Qfloor_Z z). apply Qfloor_resp_le; exact H1. }
  assert (B : (Qfloor q < z + 1)%Z).
  { rewrite Zlt_Qlt. exact (Qle_lt_trans _ _ _ (Qfloor_le q) H2). }
  lia.
Qed.

Lemma inject_Z_zsum (l : list Z) : inject_Z (zsum l) == qsum (map inject_Z l).
Proof.
  induction l as [|z l IH]; simpl; [reflexivity|].
  rewrite inject_Z_plus, IH; reflexivity.
Qed.

Close Scope Q_scope.

(** ** Integer sums *)

Local Open Scope Z_scope.

Lemma zsum_app l1 l2 : zsum (l1 ++ l2) = zsum l1 + zsum l2.
Proof. induction l1 as [|x l1 IH]; simpl; lia. Qed.

Lemma zsum_map_plus {A} (f g : A -> Z) l :
  zsum (map (fun x => f x + g x) l) = zsum (map f l) + zsum (map g l).
Proof. induction l as [|x l IH]; simpl; lia. Qed.

Lemma zsum_map_minus {A} (f g : A -> Z) l :
  zsum (map (fun x => f x - g x) l) = zsum (map f l) - zsum (map g l).
Proof. induction l as [|x l IH]; simpl; lia. Qed.

Lemma zsum_map_scale {A} (c : Z) (f : A -> Z) l :
  zsum (map (fun x => c * f x) l) = c * zsum (map f l).
Proof. induction l as [|x l IH]; simpl; lia. Qed.

Lemma zsum_map_le {A} (f g : A -> Z) l :
  (forall x, In x l -> f x <= g x) -> zsum (map f l) <= zsum (map g l).
Proof.
  induction l as [|x l IH]; simpl; intros H; [lia|].
  pose proof (H x (or_introl eq_refl)); pose proof (IH (fun y Hy => H y (or_intror Hy))); lia.
Qed.

Lemma zsum_map_ext {A} (f g : A -> Z) l :
  (forall x, In x l -> f x = g x) -> zsum (map f l) = zsum (map g l).
Proof. intros H; apply Z.le_antisymm; apply zsum_map_le; intros x Hx; rewrite H; auto; lia. Qed.

Lemma zsum_map_nonneg {A} (f : A -> Z) l :
  (forall x, In x l -> 0 <= f x) -> 0 <= zsum (map f l).
Proof.
  induction l as [|x l IH]; simpl; intros H; [lia|].
  pose proof (H x (or_introl eq_refl)); pose proof (IH (fun y Hy => H y (or_intror Hy))); lia.
Qed.

Lemma zsum_map_zero {A} (f : A -> Z) l :
  (forall x, In x l -> f x = 0) -> zsum (map f l) = 0.
Proof.
  induction l as [|x l IH]; simpl; intros H; [reflexivity|].
  rewrite H, IH by auto; reflexivity.
Qed.

(** Exchanging the order of a double sum. *)
Lemma zsum_swap {A B} (f : A -> B -> Z) (la : list A) (lb : list B) :
  zsum (map (fun a => zsum (map (fun b => f a b) lb)) la)
  = zsum (map (fun b => zsum (map (fun a => f a b) la)) lb).
Proof.
  induction la as [|a la IH]; simpl.
  - induction lb; simpl; lia.
  - rewrite IH, <- zsum_map_plus; reflexivity.
Qed.

Lemma zsum_filter {A} (p : A -> bool) (f : A -> Z) l :
  zsum (map f (List.filter p l)) = zsum (map (fun x => if p x then f x else 0) l).
Proof. induction l as [|x l IH]; [reflexivity|]; simpl; destruct (p x); simpl; lia. Qed.

(** Among distinct keys, exactly one is equal to a key of the list. *)
Lemma zsum_indicator (k : string) (v : Z) (ids : list string) :
  List.NoDup ids -> In k ids ->
  zsum (map (fun id => if String.eqb k id then v else 0) ids) = v.
Proof.
  induction 1 as [|id ids Hn Hd IH]; intros Hk; [destruct Hk|]; simpl.
  destruct (String.eqb_spec k id) as [->|Hne].
  - rewrite zsum_map_zero; [lia|].
    intros x Hx; destruct (String.eqb_spec id x); congruence.
  - destruct Hk as [->|Hk]; [congruence|]. rewrite IH; auto.
Qed.

(** Grouping the elements of a list by a key drawn from a list of
    distinct keys: the per-key sums add up to the total. *)
Lemma zsum_partition {A} (key : A -> string) (f : A -> Z) (ids : list string) (l : list A) :
  List.NoDup ids -> (forall a, In a l -> In (key a) ids) ->
  zsum (map (fun id => zsum (map f (List.filter (fun a => String.eqb (key a) id) l))) ids)
  = zsum (map f l).
Proof.
  intros Hd Hk.
  rewrite (zsum_map_ext _ (fun id => zsum (map (fun a => if String.eqb (key a) id then f a else 0) l)))
    by (intros; apply zsum_filter).
  rewrite (zsum_swap (fun id a => if String.eqb (key a) id then f a else 0)).
  apply zsum_map_ext; intros a Ha; apply zsum_indicator; auto.
Qed.

Close Scope Z_scope.

(** ** Automation shared by the components *)

Create HintDb calc discriminated.
Create Rewrite HintDb calc_rw.
#[export] Hint Resolve py_int_le py_int_lt py_int_nonneg : calc.
#[export] Hint Resolve Qle_refl : calc.

(** Run a successful [exc] computation one bind at a time, naming the
    intermediate results. *)
Ltac exc_inv H :=
  repeat match type of H with
  | exc_bind ?m _ = inr _ =>
      let a := fresh "a" in let Ha := fresh "Ha" in
      apply exc_bind_inr in H; destruct H as [a [Ha H]]
  | inr _ = inr _ => injection H as H
  end.

(** The same, also opening the pairs a step destructures with
    [let '(a, b) := x in]. *)
Ltac exc_inv_pairs H :=
  repeat match type of H with
  | exc_bind ?m _ = inr _ =>
      let a := fresh "a" in let Ha := fresh "Ha" in
      apply exc_bind_inr in H; destruct H as [a [Ha H]]
  | (match ?x with pair _ _ => _ end) = inr _ => destruct x
  end.
