(* ===== verification/Binary64.v ===== *)
(** * Python floats: IEEE 754 binary64 rounding on rationals

    Every [float] value of the program is a binary64 number, and every
    arithmetic operation on floats ([+], [-], [*], [/], the conversion of
    an [int] and [float()] of a decimal string) returns the binary64 value
    nearest to the exact result, ties to even.  This file defines that
    rounding, [fl], on rationals: a nonzero value [x] is written
    [m * 2^e] with a 53-bit integer [m] ([ulp_exp] picks [e], never below
    the exponent [-1074] of the least subnormal), and [m] is the nearest
    integer to [x * 2^-e] ([round_ne]).  The exponent is not bounded above:
    values beyond [1.8e308], which the program would turn into [inf], are
    not modelled.  The lemmas are the standard error model
    [|fl x - x| <= |x| * 2^-53 + 2^-1075], non-negativity, and exactness
    on integers below [2^53]. *)

From S2P Require Import Prelude.
From Stdlib Require Import Qabs.

Local Open Scope Z_scope.

Definition prec : Z := 53.
Definition emin : Z := -1074.

(** [2^e] as a rational, for any integer [e]. *)
Definition pow2 (e : Z) : Q := if 0 <=? e then inject_Z (2 ^ e) else 1 # Z.to_pos (2 ^ (- e)).

(** The nearest integer to [n/d] ([d > 0]), ties to the even one. *)
Definition round_ne (n d : Z) : Z :=
  let q := n / d in
  let r := n mod d in
  match Z.compare (2 * r) d with
  | Lt => q
  | Gt => q + 1
  | Eq => if Z.even q then q else q + 1
  end.

(** [n/d * 2^-e] as a fraction of integers. *)
Definition scaled (n d e : Z) : Z * Z := (n * 2 ^ Z.max 0 (- e), d * 2 ^ Z.max 0 e).

(** The first guess of the exponent of the last place of [n/d > 0] at 53
    bits, from the binary logarithms: it puts the scaled value in
    [[2^52, 2^54)]. *)
Definition exp_guess (n d : Z) : Z := Z.log2 n - Z.log2 d - prec.

(** One halving more when the scaled value is at least [2^53]. *)
Definition exp_norm (n d : Z) : Z :=
  let e1 := exp_guess n d in
  let '(N, D) := scaled n d e1 in if 2 ^ prec * D <=? N then e1 + 1 else e1.

(** Not below the exponent of the subnormals. *)
Definition ulp_exp (n d : Z) : Z := Z.max emin (exp_norm n d).

Definition round_pos (n d : Z) : Q :=
  let e := ulp_exp n d in
  let '(N, D) := scaled n d e in
  (inject_Z (round_ne N D) * pow2 e)%Q.

(** The binary64 value nearest to [x], ties to even, in lowest terms. *)
Definition fl (x : Q) : Q :=
  let y := Qred x in
  Qred (match Qnum y with
        | Z0 => 0%Q
        | Zpos n => round_pos (Zpos n) (Zpos (Qden y))
        | Zneg n => (- round_pos (Zpos n) (Zpos (Qden y)))%Q
        end).

(** [float(k)] of a Python [int]. *)
Definition float_of_int (z : Z) : Q := fl (inject_Z z).

(** The unit roundoff [2^-53] and half the least subnormal [2^-1075]. *)
Definition unit_roundoff : Q := 1 # 9007199254740992.
Definition underflow : Q := 1 # (2 ^ 1075).

(** ** Powers of two *)

Lemma pow2_nonneg e : 0 <= e -> pow2 e = inject_Z (2 ^ e).
Proof. intros H; unfold pow2; rewrite (proj2 (Z.leb_le 0 e) H); reflexivity. Qed.

Lemma pow2_neg e : 0 <= e -> (pow2 (- e) * inject_Z (2 ^ e) == 1)%Q.
Proof.
  intros H. destruct (Z.eq_dec e 0) as [->|Hne]; [reflexivity|].
  unfold pow2. rewrite (proj2 (Z.leb_gt 0 (- e)) ltac:(lia)), Z.opp_involutive.
  assert (P : 0 < 2 ^ e) by (apply Z.pow_pos_nonneg; lia).
  unfold Qeq, Qmult, inject_Z; cbn. rewrite Pos.mul_1_r, Z2Pos.id by exact P. lia.
Qed.

Lemma pow2_pos e : (0 < pow2 e)%Q.
Proof.
  unfold pow2; destruct (0 <=? e) eqn:E.
  - apply Z.leb_le in E. unfold Qlt; cbn. pose proof (Z.pow_pos_nonneg 2 e ltac:(lia) E); lia.
  - reflexivity.
Qed.

Lemma pow2_succ e : (pow2 (e + 1) == 2 * pow2 e)%Q.
Proof.
  destruct (Z_le_gt_dec 0 e) as [H|H].
  - rewrite !pow2_nonneg by lia. rewrite Z.pow_add_r by lia. unfold Qeq, Qmult, inject_Z; cbn. lia.
  - destruct (Z.eq_dec e (-1)) as [->|Hne].
    + reflexivity.
    + unfold pow2. rewrite (proj2 (Z.leb_gt 0 e) ltac:(lia)), (proj2 (Z.leb_gt 0 (e + 1)) ltac:(lia)).
      replace (- e) with (- (e + 1) + 1) by lia. rewrite Z.pow_add_r by lia.
      assert (P : 0 < 2 ^ (- (e + 1))) by (apply Z.pow_pos_nonneg; lia).
      unfold Qeq, Qmult; cbn. rewrite !Pos2Z.inj_mul, !Z2Pos.id by lia. lia.
Qed.

(** ** Rounding to the nearest integer *)

Lemma round_ne_spec n d : 0 < d -> 2 * Z.abs (round_ne n d * d - n) <= d.
Proof.
  intros Hd. unfold round_ne.
  pose proof (Z.div_mod n d ltac:(lia)) as E. pose proof (Z.mod_pos_bound n d Hd) as B.
  set (q := n / d) in *; set (r := n mod d) in *.
  destruct (Z.compare_spec (2 * r) d); [destruct (Z.even q)|..]; lia.
Qed.

Lemma round_ne_nonneg n d : 0 < d -> 0 <= n -> 0 <= round_ne n d.
Proof.
  intros Hd Hn. unfold round_ne. pose proof (Z.div_pos n d Hn Hd).
  destruct (Z.compare _ _); [destruct (Z.even _)|..]; lia.
Qed.

Lemma round_ne_exact n : round_ne n 1 = n.
Proof. unfold round_ne. rewrite Z.div_1_r, Z.mod_1_r. reflexivity. Qed.

(** ** The exponent *)

Lemma pow2_max_pos e : 0 < 2 ^ Z.max 0 e.
Proof. apply Z.pow_pos_nonneg; lia. Qed.

Lemma scaled_succ n d e :
  fst (scaled n d e) * snd (scaled n d (e + 1)) = 2 * fst (scaled n d (e + 1)) * snd (scaled n d e).
Proof.
  unfold scaled; cbn [fst snd].
  destruct (Z_le_gt_dec 0 e) as [H|H].
  - rewrite (Z.max_l 0 (- e)), (Z.max_l 0 (- (e + 1))), (Z.max_r 0 e), (Z.max_r 0 (e + 1)) by lia.
    rewrite Z.pow_add_r by lia. cbn. ring.
  - rewrite (Z.max_r 0 (- e)), (Z.max_r 0 (- (e + 1))), (Z.max_l 0 e), (Z.max_l 0 (e + 1)) by lia.
    replace (- e) with (- (e + 1) + 1) by lia. rewrite Z.pow_add_r by lia. cbn. ring.
Qed.

Lemma exp_guess_bounds n d :
  0 < n -> 0 < d ->
  2 ^ 52 * snd (scaled n d (exp_guess n d)) < fst (scaled n d (exp_guess n d)) /\
  fst (scaled n d (exp_guess n d)) < 2 ^ 54 * snd (scaled n d (exp_guess n d)).
Proof.
  intros Hn Hd. unfold scaled, exp_guess, prec; cbn [fst snd].
  destruct (Z.log2_spec n Hn) as [Ln Un]. destruct (Z.log2_spec d Hd) as [Ld Ud].
  set (a := Z.log2 n) in *; set (b := Z.log2 d) in *.
  assert (Ha : 0 <= a) by apply Z.log2_nonneg. assert (Hb : 0 <= b) by apply Z.log2_nonneg.
  set (A := Z.max 0 (- (a - b - 53))). set (B := Z.max 0 (a - b - 53)).
  assert (HA : 0 <= A) by lia. assert (HB : 0 <= B) by lia.
  assert (E : 53 + b + B = a + A) by lia.
  assert (PA : 0 < 2 ^ A) by (apply Z.pow_pos_nonneg; lia).
  assert (PB : 0 < 2 ^ B) by (apply Z.pow_pos_nonneg; lia).
  assert (X : 2 ^ 53 * 2 ^ b * 2 ^ B = 2 ^ a * 2 ^ A)
    by (rewrite <- !Z.pow_add_r by lia; f_equal; lia).
  rewrite Z.pow_succ_r in Un, Ud by lia.
  change (2 ^ 53) with (2 * 2 ^ 52) in X. change (2 ^ 54) with (2 * 2 * 2 ^ 52).
  split; nia.
Qed.

Lemma exp_norm_bounds n d :
  0 < n -> 0 < d ->
  2 ^ 52 * snd (scaled n d (exp_norm n d)) <= fst (scaled n d (exp_norm n d)) /\
  fst (scaled n d (exp_norm n d)) < 2 ^ 53 * snd (scaled n d (exp_norm n d)).
Proof.
  intros Hn Hd. pose proof (exp_guess_bounds n d Hn Hd) as [L U].
  unfold exp_norm. set (e1 := exp_guess n d) in *.
  replace (scaled n d e1) with (fst (scaled n d e1), snd (scaled n d e1)) by (destruct (scaled n d e1); reflexivity).
  unfold prec. destruct (Z.leb_spec (2 ^ 53 * snd (scaled n d e1)) (fst (scaled n d e1))) as [G|G];
    [|split; lia].
  pose proof (scaled_succ n d e1) as S.
  assert (P2 : 0 < snd (scaled n d (e1 + 1))) by (unfold scaled; cbn [snd]; pose proof (pow2_max_pos (e1 + 1)); nia).
  change (2 ^ 53) with (2 * 2 ^ 52) in *. change (2 ^ 54) with (2 * 2 * 2 ^ 52) in U.
  split; nia.
Qed.

(** ** The rounding error *)

Lemma Qdiv_Zpos k p : (inject_Z k / inject_Z (Zpos p) == k # p)%Q.
Proof. unfold Qeq, Qdiv, Qmult, Qinv, inject_Z; cbn. rewrite Pos.mul_1_l. ring. Qed.

Lemma scaled_den_pos n d e : 0 < d -> 0 < snd (scaled n d e).
Proof. intros Hd; unfold scaled; cbn [snd]; pose proof (pow2_max_pos e); nia. Qed.

Lemma scaled_value n d e :
  0 < d -> (inject_Z (fst (scaled n d e)) / inject_Z (snd (scaled n d e)) * pow2 e == inject_Z n / inject_Z d)%Q.
Proof.
  intros Hd. assert (Dz : ~ (inject_Z d == 0)%Q) by (intros E; unfold Qeq in E; cbn in E; lia).
  unfold scaled; cbn [fst snd]. destruct (Z_le_gt_dec 0 e) as [H|H].
  - rewrite (Z.max_l 0 (- e)), (Z.max_r 0 e), pow2_nonneg by lia.
    assert (P : ~ (inject_Z (2 ^ e) == 0)%Q) by (intros E; unfold Qeq in E; cbn in E; pose proof (Z.pow_pos_nonneg 2 e); lia).
    rewrite Z.pow_0_r, !inject_Z_mult. field; auto.
  - rewrite (Z.max_r 0 (- e)), (Z.max_l 0 e) by lia. pose proof (pow2_neg (- e) ltac:(lia)) as N.
    rewrite Z.opp_involutive in N.
    rewrite Z.pow_0_r, !inject_Z_mult.
    transitivity (inject_Z n / inject_Z d * (pow2 e * inject_Z (2 ^ (- e))))%Q; [field; auto|].
    rewrite N; field; auto.
Qed.

(** The rounded value is within half a unit in the last place. *)
Lemma round_pos_abs n d :
  0 < n -> 0 < d -> (Qabs (round_pos n d - inject_Z n / inject_Z d) <= pow2 (ulp_exp n d) / 2)%Q.
Proof.
  intros Hn Hd. unfold round_pos. set (e := ulp_exp n d).
  pose proof (scaled_value n d e Hd) as V. pose proof (scaled_den_pos n d e Hd) as HD.
  destruct (scaled n d e) as [N D]; cbn [fst snd] in *. rewrite <- V.
  pose proof (round_ne_spec N D HD) as R. set (m := round_ne N D) in *.
  destruct D as [|p|p]; try lia. rewrite Qdiv_Zpos.
  assert (E : (inject_Z m * pow2 e - (N # p) * pow2 e == ((m * Zpos p - N) # p) * pow2 e)%Q)
    by (unfold Qeq, Qminus, Qplus, Qmult, Qopp, inject_Z; cbn; rewrite !Pos2Z.inj_mul; ring).
  rewrite E, Qabs_Qmult, (Qabs_pos (pow2 e)) by (apply Qlt_le_weak, pow2_pos).
  pose proof (pow2_pos e) as P.
  assert (H2 : (Qabs ((m * Zpos p - N) # p) <= 1 # 2)%Q) by (unfold Qle, Qabs; cbn; lia).
  assert (X : (pow2 e / 2 == (1 # 2) * pow2 e)%Q) by field. rewrite X.
  apply Qmult_le_compat_r; [exact H2 | apply Qlt_le_weak, P].
Qed.

Lemma scaled_lower n d e :
  0 < d -> 2 ^ 52 * snd (scaled n d e) <= fst (scaled n d e) ->
  (inject_Z (2 ^ 52) <= inject_Z (fst (scaled n d e)) / inject_Z (snd (scaled n d e)))%Q.
Proof.
  intros Hd H. pose proof (scaled_den_pos n d e Hd) as HD.
  destruct (scaled n d e) as [N [|p|p]]; cbn [fst snd] in *; try lia.
  rewrite Qdiv_Zpos. unfold Qle; cbn. lia.
Qed.

Lemma underflow_nonneg : (0 <= underflow)%Q.
Proof. unfold underflow, Qle; cbn; lia. Qed.

Lemma underflow_le : (underflow <= unit_roundoff)%Q.
Proof. unfold underflow, unit_roundoff, Qle; cbn; lia. Qed.

Lemma le_plus_underflow a : (a <= a + underflow)%Q.
Proof. pose proof underflow_nonneg; lra. Qed.

(** The standard error model: relative error [2^-53] in the normal
    range, absolute error [2^-1075] below it. *)
Lemma round_pos_rel n d :
  0 < n -> 0 < d ->
  (Qabs (round_pos n d - inject_Z n / inject_Z d) <= inject_Z n / inject_Z d * unit_roundoff + underflow)%Q.
Proof.
  intros Hn Hd. eapply Qle_trans; [apply round_pos_abs; assumption|].
  assert (Q0 : (0 <= inject_Z n / inject_Z d)%Q).
  { apply Qle_shift_div_l; [unfold Qlt; cbn; lia | rewrite Qmult_0_l; unfold Qle; cbn; lia]. }
  assert (U0 : (0 <= unit_roundoff)%Q) by (unfold Qle; cbn; lia).
  unfold ulp_exp. destruct (Z.max_spec emin (exp_norm n d)) as [[_ ->]|[_ ->]].
  - set (e := exp_norm n d). pose proof (exp_norm_bounds n d Hn Hd) as [L _].
    pose proof (scaled_lower n d e Hd L) as A. rewrite <- (scaled_value n d e Hd).
    set (a := (inject_Z (fst (scaled n d e)) / inject_Z (snd (scaled n d e)))%Q) in *.
    pose proof (pow2_pos e) as P.
    assert (X : (pow2 e / 2 == inject_Z (2 ^ 52) * pow2 e * unit_roundoff)%Q)
      by (change (inject_Z (2 ^ 52)) with (4503599627370496 # 1); unfold unit_roundoff; field).
    rewrite X. apply (Qle_trans _ (a * pow2 e * unit_roundoff)); [|apply le_plus_underflow].
    apply Qmult_le_compat_r; [apply Qmult_le_compat_r; [exact A | lra] | exact U0].
  - assert (X : (pow2 emin / 2 == underflow)%Q) by (vm_compute; reflexivity).
    rewrite X. assert (0 <= inject_Z n / inject_Z d * unit_roundoff)%Q by (apply Qmult_le_0_compat; assumption).
    pose proof underflow_nonneg; lra.
Qed.

Lemma round_pos_nonneg n d : 0 <= n -> 0 < d -> (0 <= round_pos n d)%Q.
Proof.
  intros Hn Hd. unfold round_pos. pose proof (scaled_den_pos n d (ulp_exp n d) Hd) as HD.
  assert (HN : 0 <= fst (scaled n d (ulp_exp n d))) by (unfold scaled; cbn [fst]; pose proof (pow2_max_pos (- ulp_exp n d)); nia).
  destruct (scaled n d (ulp_exp n d)) as [N D]; cbn [fst snd] in *.
  apply Qmult_le_0_compat; [|apply Qlt_le_weak, pow2_pos].
  change 0%Q with (inject_Z 0). rewrite <- Zle_Qle. apply round_ne_nonneg; assumption.
Qed.

(** ** The rounding [fl] *)

Lemma fl_compat x y : (x == y)%Q -> fl x = fl y.
Proof. intros E; unfold fl; rewrite (Qred_complete x y E); reflexivity. Qed.

Lemma Qmake_pos_div n p : (Zpos n # p == inject_Z (Zpos n) / inject_Z (Zpos p))%Q.
Proof. symmetry; apply Qdiv_Zpos. Qed.

(** The error of [fl], relative to its argument, plus the underflow term. *)
Lemma fl_error x : (Qabs (fl x - x) <= Qabs x * unit_roundoff + underflow)%Q.
Proof.
  unfold fl. rewrite Qred_correct. set (y := Qred x). assert (Y : (y == x)%Q) by apply Qred_correct.
  rewrite <- Y. clearbody y. destruct y as [[|n|n] p]; cbn [Qnum Qden].
  - apply (Qle_trans _ 0); [unfold Qle; cbn; lia|].
    pose proof underflow_nonneg. pose proof (Qabs_nonneg (0 # p)).
    assert (0 <= Qabs (0 # p) * unit_roundoff)%Q by (apply Qmult_le_0_compat; [lra | unfold Qle; cbn; lia]).
    lra.
  - rewrite Qmake_pos_div, (Qabs_pos (inject_Z (Zpos n) / inject_Z (Zpos p))).
    + apply round_pos_rel; lia.
    + rewrite <- Qmake_pos_div. unfold Qle; cbn; lia.
  - assert (E : (Zneg n # p == - (inject_Z (Zpos n) / inject_Z (Zpos p)))%Q)
      by (rewrite <- Qmake_pos_div; reflexivity).
    rewrite E. setoid_replace (- round_pos (Zpos n) (Zpos p) - - (inject_Z (Zpos n) / inject_Z (Zpos p)))%Q
      with (- (round_pos (Zpos n) (Zpos p) - inject_Z (Zpos n) / inject_Z (Zpos p)))%Q using relation Qeq by ring.
    rewrite !Qabs_opp, (Qabs_pos (inject_Z (Zpos n) / inject_Z (Zpos p))).
    + apply round_pos_rel; lia.
    + rewrite <- Qmake_pos_div. unfold Qle; cbn; lia.
Qed.

Lemma fl_nonneg x : (0 <= x)%Q -> (0 <= fl x)%Q.
Proof.
  intros Hx. unfold fl. rewrite Qred_correct. set (y := Qred x).
  assert (Y : (y == x)%Q) by apply Qred_correct. rewrite <- Y in Hx. clearbody y.
  destruct y as [[|n|n] p]; cbn [Qnum Qden].
  - lra.
  - apply round_pos_nonneg; lia.
  - exfalso. unfold Qle in Hx; cbn in Hx; lia.
Qed.

(** Integers below [2^53] are floats: [float(k)] is [k]. *)
Lemma round_pos_int z : 0 < z < 2 ^ 53 -> (round_pos z 1 == inject_Z z)%Q.
Proof.
  intros Hz. unfold round_pos. set (e := ulp_exp z 1).
  assert (He : e <= 0).
  { unfold e, ulp_exp. destruct (Z.max_spec emin (exp_norm z 1)) as [[_ ->]|[_ ->]]; [|unfold emin; lia].
    pose proof (exp_norm_bounds z 1 ltac:(lia) ltac:(lia)) as [L _].
    set (e' := exp_norm z 1) in *. unfold scaled in L; cbn [fst snd] in L.
    destruct (Z_le_gt_dec e' 0) as [|G]; [assumption|].
    rewrite (Z.max_r 0 e'), (Z.max_l 0 (- e')), Z.pow_0_r in L by lia.
    assert (2 <= 2 ^ e') by (replace 2 with (2 ^ 1) at 1 by reflexivity; apply Z.pow_le_mono_r; lia).
    change (2 ^ 53) with (2 * 2 ^ 52) in Hz. nia. }
  unfold scaled. rewrite (Z.max_l 0 e), (Z.max_r 0 (- e)), Z.pow_0_r, Z.mul_1_r by lia.
  rewrite round_ne_exact, inject_Z_mult.
  pose proof (pow2_neg (- e) ltac:(lia)) as N. rewrite Z.opp_involutive in N.
  transitivity (inject_Z z * (pow2 e * inject_Z (2 ^ (- e))))%Q; [ring | rewrite N; ring].
Qed.

Lemma Qred_inject_Z z : Qred (inject_Z z) = inject_Z z.
Proof.
  unfold Qred, inject_Z; cbn [Qnum Qden].
  pose proof (Z.ggcd_gcd z 1) as G. pose proof (Z.ggcd_correct_divisors z 1) as D.
  destruct (Z.ggcd z 1) as [g [a b]]; cbn in G. rewrite Z.gcd_1_r in G. subst g.
  destruct D as [Ea Eb]. rewrite Z.mul_1_l in Ea, Eb. subst. reflexivity.
Qed.

Lemma fl_int z : 0 <= z < 2 ^ 53 -> fl (inject_Z z) = inject_Z z.
Proof.
  intros Hz. destruct (Z.eq_dec z 0) as [->|Hne]; [reflexivity|].
  unfold fl. rewrite Qred_inject_Z.
  destruct z as [|zp|zp]; try lia. cbn [Qnum Qden inject_Z].
  rewrite (Qred_complete _ _ (round_pos_int (Zpos zp) ltac:(lia))).
  apply Qred_inject_Z.
Qed.

(** The error model on a non-negative argument, as two linear bounds. *)
Lemma fl_bounds x :
  (0 <= x)%Q -> (x - (x * unit_roundoff + underflow) <= fl x <= x + (x * unit_roundoff + underflow))%Q.
Proof.
  intros Hx. pose proof (fl_error x) as E. rewrite (Qabs_pos x Hx) in E.
  apply Qabs_Qle_condition in E as [A B]. split; lra.
Qed.

(** ** Values of CPython, by evaluation *)

(** [float('0.1')], [float('1.852')] and [float('0.3333333333333333')]
    as [float.as_integer_ratio()] prints them. *)
Example fl_tenth : fl (1 # 10) = (3602879701896397 # 36028797018963968)%Q.
Proof. vm_compute. reflexivity. Qed.

Example fl_knot_factor : fl (1852 # 1000) = (8340666509890159 # 4503599627370496)%Q.
Proof. vm_compute. reflexivity. Qed.

Example fl_third : fl (3333333333333333 # 10000000000000000) = (6004799503160661 # 18014398509481984)%Q.
Proof. vm_compute. reflexivity. Qed.

(** [float(2**53 + 1) == 2**53] and [float(2**53 + 3) == 2**53 + 4]:
    ties go to the even mantissa. *)
Example fl_ties_even : fl (inject_Z (2 ^ 53 + 1)) = inject_Z (2 ^ 53) /\ fl (inject_Z (2 ^ 53 + 3)) = inject_Z (2 ^ 53 + 4).
Proof. split; vm_compute; reflexivity. Qed.
