(* ===== verification/Data.v ===== *)
(** * The fixed vocabularies of [calc.py] and its CSV cells

    Products ([num_product_list], line 11), signs ([sign], line 12), months
    ([layer_network_list], line 10), the eight roles of [Node.role] in the
    insertion order of line 186, node layers (a month, or the sentinel
    month ["10000月"] of the aggregate demand node, line 349), the constant
    day rates of lines 16-21, and CSV cells with Python's [float()] and
    [int()] on them. *)

From S2P Require Import Prelude Binary64.
From Stdlib Require Import DecimalString Ascii.

Local Open Scope calc_scope.

(** ** Products, signs and months *)

Inductive Product :=
| Steel | Module | HalfBody1 | HalfBody3 | Foundation | Turbine
| TurbineInstalled | Vessel.

#[export] Instance Product_eq_dec : EqDecision Product.
Proof. solve_decision. Defined.

(** [num_product_list]: the order is the order of every loop over products. *)
Definition num_product_list : list Product :=
  [Steel; Module; HalfBody1; HalfBody3; Foundation; Turbine; TurbineInstalled; Vessel].

Definition product_label (p : Product) : string :=
  match p with
  | Steel => "鋼材" | Module => "モジュール" | HalfBody1 => "ハーフボディ1"
  | HalfBody3 => "ハーフボディ3" | Foundation => "浮体基礎" | Turbine => "風車"
  | TurbineInstalled => "風車（設置済）" | Vessel => "船舶"
  end.

Inductive Sign := Plus | Minus.

#[export] Instance Sign_eq_dec : EqDecision Sign.
Proof. solve_decision. Defined.

Definition sign : list Sign := [Plus; Minus].

(** The strings of [sign]. *)
Definition sign_label (s : Sign) : string :=
  match s with Plus => "plus" | Minus => "minus" end.

Inductive Month := M11 | M12 | M1 | M2 | M3 | M4 | M5 | M6 | M7 | M8 | M9 | M10.

#[export] Instance Month_eq_dec : EqDecision Month.
Proof. solve_decision. Defined.

(** [layer_network_list]: the planning horizon starts in November. *)
Definition layer_network_list : list Month :=
  [M11; M12; M1; M2; M3; M4; M5; M6; M7; M8; M9; M10].

Definition month_label (m : Month) : string :=
  match m with
  | M11 => "11月" | M12 => "12月" | M1 => "1月" | M2 => "2月" | M3 => "3月"
  | M4 => "4月" | M5 => "5月" | M6 => "6月" | M7 => "7月" | M8 => "8月"
  | M9 => "9月" | M10 => "10月"
  end.

(** [layer_network_list.index(m)]. *)
Definition month_index (m : Month) : nat :=
  match m with
  | M11 => 0 | M12 => 1 | M1 => 2 | M2 => 3 | M3 => 4 | M4 => 5
  | M5 => 6 | M6 => 7 | M7 => 8 | M8 => 9 | M9 => 10 | M10 => 11
  end.

(** [layer_network_list.index(f"{s}月")]: raises [ValueError] when the
    label is not one of the twelve. *)
Definition month_of_label (s : string) : exc Month :=
  py_find (fun m => String.eqb (month_label m) s) layer_network_list.

(** A node's layer: one of the twelve months, or the sentinel ["10000月"]
    of the aggregate demand node. *)
Inductive Layer := LMonth (m : Month) | LSentinel.

#[export] Instance Layer_eq_dec : EqDecision Layer.
Proof. solve_decision. Defined.

Definition layer_label (l : Layer) : string :=
  match l with LMonth m => month_label m | LSentinel => "10000月" end.

(** ** Roles, in the key order of the dictionary built on line 186 *)

Inductive Role :=
| ModuleFab | HalfBody1Fab | HalfBody3Fab | FoundationFab
| OffshoreFoundationFab | TurbineAssembly | TurbineInstallation | WetStorage.

#[export] Instance Role_eq_dec : EqDecision Role.
Proof. solve_decision. Defined.

Definition role_list : list Role :=
  [ModuleFab; HalfBody1Fab; HalfBody3Fab; FoundationFab;
   OffshoreFoundationFab; TurbineAssembly; TurbineInstallation; WetStorage].

(** [list(node.role.items())[:-1]]: the seven production roles with their
    [task_index]. *)
Definition task_list : list (nat * Role) :=
  [(0, ModuleFab); (1, HalfBody1Fab); (2, HalfBody3Fab); (3, FoundationFab);
   (4, OffshoreFoundationFab); (5, TurbineAssembly); (6, TurbineInstallation)].

Definition role_label (r : Role) : string :=
  match r with
  | ModuleFab => "モジュール製作" | HalfBody1Fab => "ハーフボディ1製作"
  | HalfBody3Fab => "ハーフボディ3製作" | FoundationFab => "浮体基礎製作"
  | OffshoreFoundationFab => "洋上での浮体基礎製作" | TurbineAssembly => "風車組立"
  | TurbineInstallation => "風車設置" | WetStorage => "仮置"
  end.

(** [cost_mapping] (lines 465-473): the product each production role
    outputs, on which its unit cost is charged. *)
Definition cost_mapping (r : Role) : option Product :=
  match r with
  | ModuleFab => Some Module | HalfBody1Fab => Some HalfBody1
  | HalfBody3Fab => Some HalfBody3 | FoundationFab => Some Foundation
  | OffshoreFoundationFab => Some Foundation | TurbineAssembly => Some Turbine
  | TurbineInstallation => Some TurbineInstalled | WetStorage => None
  end.

(** Facility kinds compared on lines 188-207 and 340. *)
Definition kind_small : string := "小型造船所".
Definition kind_medium : string := "中型造船所".
Definition kind_large : string := "大型造船所".
Definition kind_base_port : string := "基地港湾".
Definition kind_site : string := "設置海域".

(** ** Vessel day rates (lines 16-21) *)

Definition ship_installation_cost : Z := 10100000.
Definition ship_foundation_cost : Z := 2 * 1487000.

(** ** CSV cells *)

(** A cell of a CSV row: empty, an integer literal (whose text is the
    canonical decimal of [z]), any other text [float()] accepts as a
    finite number, with its exact decimal value and its text (leading
    zeros, a sign, surrounding whitespace, underscores and exponents
    included), or any other text.  Texts [float()] reads as [inf] or
    [nan] are kept as [CText]: the model has no infinite or NaN floats. *)
Inductive cell :=
| CEmpty
| CInt (z : Z)
| CDec (q : Q) (s : string)
| CText (s : string).

(** Python truthiness of a string: only the empty string is false. *)
Definition truthy (c : cell) : bool :=
  match c with CEmpty => false | _ => true end.

(** [float(c)]: the binary64 value nearest to the decimal. *)
Definition py_float (c : cell) : exc Q :=
  match c with
  | CInt z => ret (fl (inject_Z z))
  | CDec q _ => ret (fl q)
  | _ => raise ValueError
  end.

(** The text [int()] accepts (after [str.strip()]): an optional sign, then
    decimal digits with single underscores between them. *)
Definition is_digit (a : ascii) : bool := (48 <=? N_of_ascii a)%N && (N_of_ascii a <=? 57)%N.

(** The ASCII whitespace [str.strip()] removes. *)
Definition is_space (a : ascii) : bool :=
  existsb (Ascii.eqb a) [" "; "009"; "010"; "011"; "012"; "013"]%char.

Fixpoint drop_spaces (l : list ascii) : list ascii :=
  match l with
  | a :: l' => if is_space a then drop_spaces l' else l
  | [] => []
  end.

Fixpoint int_digits (l : list ascii) : bool :=
  match l with
  | [] => false
  | [d] => is_digit d
  | d :: (u :: l') as rest =>
      is_digit d && (if Ascii.eqb u "_" then int_digits l' else int_digits rest)
  end.

Definition strip (l : list ascii) : list ascii :=
  rev (drop_spaces (rev (drop_spaces l))).

Definition int_text (s : string) : bool :=
  match strip (list_ascii_of_string s) with
  | a :: l => if Ascii.eqb a "+" || Ascii.eqb a "-" then int_digits l else int_digits (a :: l)
  | [] => false
  end.

(** [int(c)]: an integer literal, or a float-looking text that is an
    integer literal for [int()] ([" 05"], ["+5"], ["1_000"]); a text with
    a point or an exponent raises [ValueError]. *)
Definition py_int_cell (c : cell) : exc Z :=
  match c with
  | CInt z => ret z
  | CDec q s => if int_text s then ret (Qfloor q) else raise ValueError
  | _ => raise ValueError
  end.

(** [row[i]]. *)
Definition row_at (row : list cell) (i : nat) : exc cell :=
  match nth_error row i with
  | Some c => ret c
  | None => raise IndexError
  end.

(** [row[i] == s] for a text column. *)
Definition cell_is (c : cell) (s : string) : bool :=
  match c with CText t => String.eqb t s | _ => false end.

(** [f"{c}"] for the cells the program formats into a month label. *)
Definition cell_text (c : cell) : string :=
  match c with
  | CEmpty => ""
  | CInt z => NilZero.string_of_int (Z.to_int z)
  | CDec _ s => s
  | CText s => s
  end.

(** ** Sanity checks of the vocabularies *)

Example month_of_label_5 : month_of_label (cell_text (CInt 5) ++ "月") = inr M5.
Proof. reflexivity. Qed.

(** [int()] on float-looking texts: [int(" 05")], [int("+1_000")] are
    integers, [int("1.0")] and [int("1__0")] raise. *)
Example int_text_cases :
  map int_text [" 05"; "+1_000"; "1.0"; "1__0"; "_1"; "-"]%string = [true; true; false; false; false; false].
Proof. reflexivity. Qed.

Example month_of_label_13 : month_of_label (cell_text (CInt 13) ++ "月") = inl ValueError.
Proof. reflexivity. Qed.
