(* ===== verification/PyStr.v ===== *)
(** * Python [str] slicing and length on UTF-8 text ([build_maps], lines 819-823)

    The CSV files are decoded as UTF-8 ([sample.py], lines 26-27), so a
    location name is a Python [str]: a sequence of code points.  The
    development keeps names as the bytes of their UTF-8 encoding (a Rocq
    [string]), so the two [str] operations [build_maps] applies to a node
    name, [node_name[:-1]] and [len(display_name)], are written here on
    the bytes: a code point is one lead byte followed by its continuation
    bytes [10xxxxxx].  The theorems show that the byte-level definitions
    are Python's code-point operations: on the encoding of any list of
    code points, [py_len] counts the code points and [py_drop_last] drops
    the last one. *)

From S2P Require Import Prelude.
From Stdlib Require Import Ascii.

Local Open Scope Z_scope.

(** ** Bytes *)

Definition byte_of (z : Z) : ascii := ascii_of_N (Z.to_N z).
Definition byte_val (a : ascii) : Z := Z.of_N (N_of_ascii a).

(** A continuation byte, [10xxxxxx]. *)
Definition is_cont (a : ascii) : bool := Z.land (byte_val a) 192 =? 128.

(** ** The two operations of lines 819 and 821 *)

(** [len(s)]: the number of code points, i.e. of the bytes that start
    one. *)
Definition py_len (s : string) : nat :=
  List.length (List.filter (fun a => negb (is_cont a)) (list_ascii_of_string s)).

(** On the reversed bytes: skip the continuation bytes of the last code
    point, then its lead byte. *)
Fixpoint drop_last_code_point (r : list ascii) : list ascii :=
  match r with
  | [] => []
  | a :: r' => if is_cont a then drop_last_code_point r' else r'
  end.

(** [s[:-1]]; the empty string stays empty. *)
Definition py_drop_last (s : string) : string :=
  string_of_list_ascii (rev (drop_last_code_point (rev (list_ascii_of_string s)))).

(** ** UTF-8 (RFC 3629), the decoding of [TextIOWrapper(encoding='utf-8-sig')] *)

Definition code_point (c : Z) : Prop := 0 <= c < 1114112.

Definition cont_byte (x : Z) : ascii := byte_of (Z.lor 128 (Z.land x 63)).

Definition utf8_code_point (c : Z) : list ascii :=
  if c <? 128 then [byte_of c]
  else if c <? 2048 then [byte_of (Z.lor 192 (Z.shiftr c 6)); cont_byte c]
  else if c <? 65536 then
    [byte_of (Z.lor 224 (Z.shiftr c 12)); cont_byte (Z.shiftr c 6); cont_byte c]
  else [byte_of (Z.lor 240 (Z.shiftr c 18)); cont_byte (Z.shiftr c 12);
        cont_byte (Z.shiftr c 6); cont_byte c].

Definition utf8_encode (cs : list Z) : string :=
  string_of_list_ascii (flat_map utf8_code_point cs).

(** ** Byte classes by exhaustive check over a range *)

Lemma range_check (P : Z -> bool) (n : nat) :
  forallb (fun k => P (Z.of_nat k)) (seq 0 n) = true ->
  forall x, 0 <= x < Z.of_nat n -> P x = true.
Proof.
  intros H x Hx. rewrite forallb_forall in H.
  rewrite <- (Z2Nat.id x) by lia. apply H, in_seq. lia.
Qed.

Lemma lead_byte_ok (b x : Z) (n : nat) :
  forallb (fun k => negb (is_cont (byte_of (Z.lor b (Z.of_nat k))))) (seq 0 n) = true ->
  0 <= x < Z.of_nat n -> is_cont (byte_of (Z.lor b x)) = false.
Proof.
  intros H Hx. apply negb_true_iff.
  exact (range_check (fun x => negb (is_cont (byte_of (Z.lor b x)))) n H x Hx).
Qed.

Lemma cont_byte_is_cont x : is_cont (cont_byte x) = true.
Proof.
  unfold cont_byte. apply (range_check (fun y => is_cont (byte_of (Z.lor 128 y))) 64);
    [vm_compute; reflexivity|].
  change 63 with (Z.ones 6); rewrite Z.land_ones by lia.
  pose proof (Z.mod_pos_bound x (2 ^ 6)); cbn in *; lia.
Qed.

Lemma shiftr_lt c k n : 0 <= c < n * 2 ^ k -> 0 <= k -> 0 <= Z.shiftr c k < n.
Proof.
  intros Hc Hk. rewrite Z.shiftr_div_pow2 by lia.
  assert (0 < 2 ^ k) by (apply Z.pow_pos_nonneg; lia).
  split; [apply Z.div_pos; lia | apply Z.div_lt_upper_bound; lia].
Qed.

(** The encoding of a code point is a lead byte and continuation bytes. *)
Lemma utf8_code_point_shape c :
  code_point c ->
  exists a rest, utf8_code_point c = a :: rest /\ is_cont a = false /\
                 Forall (fun b => is_cont b = true) rest.
Proof.
  unfold code_point, utf8_code_point; intros Hc.
  destruct (Z.ltb_spec c 128); [|destruct (Z.ltb_spec c 2048); [|destruct (Z.ltb_spec c 65536)]];
    eexists _, _; (split; [reflexivity|]);
    (split; [|repeat constructor; apply cont_byte_is_cont]).
  - replace c with (Z.lor 0 c) by reflexivity.
    apply (lead_byte_ok 0 c 128); [vm_compute; reflexivity | lia].
  - apply (lead_byte_ok 192 _ 32); [vm_compute; reflexivity|].
    apply shiftr_lt; cbn; lia.
  - apply (lead_byte_ok 224 _ 16); [vm_compute; reflexivity|].
    apply shiftr_lt; cbn; lia.
  - apply (lead_byte_ok 240 _ 8); [vm_compute; reflexivity|].
    apply shiftr_lt; cbn; lia.
Qed.

Lemma count_leads_shape a rest :
  is_cont a = false -> Forall (fun b => is_cont b = true) rest ->
  List.length (List.filter (fun b => negb (is_cont b)) (a :: rest)) = 1%nat.
Proof.
  intros Ha Hr; cbn [List.filter]; rewrite Ha; cbn [negb List.length].
  f_equal. induction Hr as [|b rest Hb _ IH]; [reflexivity|].
  cbn [List.filter]; rewrite Hb; exact IH.
Qed.

Lemma drop_last_shape a rest tail :
  is_cont a = false -> Forall (fun b => is_cont b = true) rest ->
  drop_last_code_point (rev (a :: rest) ++ tail) = tail.
Proof.
  intros Ha Hr. induction rest as [|b rest IH] using rev_ind; [cbn; rewrite Ha; reflexivity|].
  apply Forall_app in Hr as [Hr Hb]; inversion_clear Hb.
  cbn [rev] in *. rewrite rev_app_distr; cbn [rev app drop_last_code_point].
  match goal with H : is_cont b = true |- _ => rewrite H end.
  exact (IH Hr).
Qed.

(** [len()] of the model counts code points: on the UTF-8 bytes of
    any sequence of code points, [py_len] is the length of the sequence,
    as Python's [len] of the decoded [str] is. *)
Lemma py_len_utf8 cs :
  Forall code_point cs -> py_len (utf8_encode cs) = List.length cs.
Proof.
  unfold py_len, utf8_encode; rewrite list_ascii_of_string_of_list_ascii.
  induction 1 as [|c cs Hc _ IH]; [reflexivity|].
  cbn [flat_map]. rewrite List.filter_app, length_app, IH.
  destruct (utf8_code_point_shape c Hc) as (a & rest & -> & Ha & Hr).
  rewrite (count_leads_shape a rest Ha Hr); reflexivity.
Qed.

(** Slicing drops one code point: [s[:-1]] of the UTF-8 bytes of a
    name is the UTF-8 bytes of the name without its last character
    (whatever the byte length of that character), as the comment of line
    819 intends. *)
Lemma py_drop_last_utf8 cs c :
  code_point c -> py_drop_last (utf8_encode (cs ++ [c])) = utf8_encode cs.
Proof.
  intros Hc. unfold py_drop_last, utf8_encode. rewrite list_ascii_of_string_of_list_ascii.
  rewrite flat_map_app; cbn [flat_map]; rewrite app_nil_r, rev_app_distr.
  destruct (utf8_code_point_shape c Hc) as (a & rest & -> & Ha & Hr).
  rewrite drop_last_shape by assumption. rewrite rev_involutive; reflexivity.
Qed.
