(* ===== verification/Graph.v ===== *)
(** * The networkx [DiGraph] of [build_maps] (lines 748-803)

    [build_maps] keeps one [nx.DiGraph] per month.  A [DiGraph] is two
    insertion-ordered dictionaries: [_node] (node to attribute dictionary)
    and [_adj] (node to successor to edge-attribute dictionary).  They are
    written here as association lists in insertion order ([odict]), with
    the four operations the code calls: [add_node], [add_edge], the item
    assignments [G.nodes[n][k] = x] and [G.edges[u, v][k] = x] (which raise
    [KeyError] on a missing node or edge), and the two views [G.nodes()]
    and [G.edges(data=True)] in networkx's iteration order.  The
    representation invariant [graph_ok] (the two dictionaries have the
    same keys, without repetition, and every successor is a node) holds
    of the empty graph and is preserved by every operation. *)

From S2P Require Import Prelude.

Local Open Scope calc_scope.

(** ** Insertion-ordered dictionaries keyed by [str] *)

Definition odict (V : Type) : Type := list (string * V).

Fixpoint od_lookup {V} (k : string) (d : odict V) : option V :=
  match d with
  | [] => None
  | (k', v) :: d' => if String.eqb k k' then Some v else od_lookup k d'
  end.

(** [d[k] = v]: an existing key keeps its place, a new key goes last. *)
Fixpoint od_set {V} (k : string) (v : V) (d : odict V) : odict V :=
  match d with
  | [] => [(k, v)]
  | (k', v') :: d' => if String.eqb k k' then (k', v) :: d' else (k', v') :: od_set k v d'
  end.

(** [d[k]] on the right of an assignment. *)
Definition od_get {V} (k : string) (d : odict V) : exc V :=
  match od_lookup k d with Some v => ret v | None => raise KeyError end.

(** ** Graphs *)

(** The attribute values [build_maps] stores: a position [[lat, lon]] or
    an [int]. *)
Inductive attr :=
| APos (p : Q * Q)
| AInt (z : Z).

Record graph := mkGraph {
  g_node : odict (odict attr);
  g_adj : odict (odict (odict attr))
}.

Definition graph_empty : graph := mkGraph [] [].

(** [G.add_node(n)]: a new node gets empty attributes and no successors;
    an existing one is left as it is. *)
Definition nx_add_node (g : graph) (n : string) : graph :=
  match od_lookup n (g_node g) with
  | Some _ => g
  | None => mkGraph (g_node g ++ [(n, [])]) (g_adj g ++ [(n, [])])
  end.

(** [G.add_edge(u, v)]: both ends become nodes; an existing edge keeps
    its attributes. *)
Definition nx_add_edge (g : graph) (u v : string) : graph :=
  let g1 := nx_add_node (nx_add_node g u) v in
  let nbrs := default [] (od_lookup u (g_adj g1)) in
  mkGraph (g_node g1) (od_set u (od_set v (default [] (od_lookup v nbrs)) nbrs) (g_adj g1)).

(** [G.nodes[n][k] = x]. *)
Definition nx_set_node_attr (g : graph) (n k : string) (x : attr) : exc graph :=
  d <- od_get n (g_node g) ;;
  ret (mkGraph (od_set n (od_set k x d) (g_node g)) (g_adj g)).

(** [G.edges[u, v][k] = x]. *)
Definition nx_set_edge_attr (g : graph) (u v k : string) (x : attr) : exc graph :=
  nbrs <- od_get u (g_adj g) ;;
  d <- od_get v nbrs ;;
  ret (mkGraph (g_node g) (od_set u (od_set v (od_set k x d) nbrs) (g_adj g))).

(** [G.nodes()]. *)
Definition nx_nodes (g : graph) : list string := map fst (g_node g).

(** [G.edges(data=True)]: by source in node order, then by successor in
    insertion order. *)
Definition nx_edges (g : graph) : list (string * string * odict attr) :=
  flat_map (fun un => map (fun vd => (fst un, fst vd, snd vd)) (snd un)) (g_adj g).

(** [G.nodes[n][k]] and [G.edges[u, v]], when present. *)
Definition node_attr (g : graph) (n k : string) : option attr :=
  match od_lookup n (g_node g) with Some d => od_lookup k d | None => None end.

Definition edge_attrs (g : graph) (u v : string) : option (odict attr) :=
  match od_lookup u (g_adj g) with Some nbrs => od_lookup v nbrs | None => None end.

(** ** The representation invariant *)

Record graph_ok (g : graph) : Prop := {
  gok_keys : map fst (g_node g) = map fst (g_adj g);
  gok_nodup : List.NoDup (map fst (g_node g));
  gok_succ : forall u nbrs v, In (u, nbrs) (g_adj g) -> In v (map fst nbrs) ->
                              In v (map fst (g_node g));
  gok_nbrs : forall u nbrs, In (u, nbrs) (g_adj g) -> List.NoDup (map fst nbrs)
}.

(** ** Dictionary lemmas *)

Section Odict.
Context {V : Type}.

Lemma od_lookup_in (k : string) (d : odict V) :
  In k (map fst d) <-> exists v, od_lookup k d = Some v.
Proof.
  induction d as [|[k' v'] d IH]; cbn; [split; [intros []|intros [? ?]; discriminate]|].
  destruct (String.eqb_spec k k') as [->|Hne]; [split; eauto|].
  rewrite <- IH; split; [intros [->|H]; [congruence|exact H] | auto].
Qed.

Lemma od_lookup_none (k : string) (d : odict V) :
  od_lookup k d = None <-> ~ In k (map fst d).
Proof.
  rewrite od_lookup_in; destruct (od_lookup k d); split; intros H;
    [discriminate | exfalso; eauto | intros [? ?]; discriminate | reflexivity].
Qed.

Lemma od_lookup_In (k : string) (d : odict V) v : od_lookup k d = Some v -> In (k, v) d.
Proof.
  induction d as [|[k' v'] d IH]; cbn; [discriminate|].
  destruct (String.eqb_spec k k') as [->|]; [intros [= ->]; left; reflexivity|].
  intros H; right; auto.
Qed.

Lemma od_keys_set_in (k : string) v (d : odict V) :
  In k (map fst d) -> map fst (od_set k v d) = map fst d.
Proof.
  induction d as [|[k' v'] d IH]; cbn; [intros []|].
  destruct (String.eqb_spec k k') as [->|Hne]; cbn; [reflexivity|].
  intros [->|H]; [congruence|]. rewrite IH by exact H; reflexivity.
Qed.

Lemma od_keys_set (k : string) v (d : odict V) :
  map fst (od_set k v d) = if decide (In k (map fst d)) then map fst d else map fst d ++ [k].
Proof.
  destruct (decide _) as [H|H]; [apply od_keys_set_in, H|].
  induction d as [|[k' v'] d IH]; cbn in *; [reflexivity|].
  destruct (String.eqb_spec k k') as [->|Hne]; [tauto|]; cbn.
  rewrite IH by tauto; reflexivity.
Qed.

Lemma od_lookup_set (k k' : string) v (d : odict V) :
  od_lookup k' (od_set k v d) = if String.eqb k' k then Some v else od_lookup k' d.
Proof.
  induction d as [|[k0 v0] d IH]; cbn; [reflexivity|].
  destruct (String.eqb_spec k k0) as [->|Hne]; cbn.
  - destruct (String.eqb k' k0); reflexivity.
  - rewrite IH. destruct (String.eqb_spec k' k) as [->|]; [|reflexivity].
    apply String.eqb_neq in Hne; rewrite Hne; reflexivity.
Qed.

Lemma od_set_NoDup (k : string) v (d : odict V) :
  List.NoDup (map fst d) -> List.NoDup (map fst (od_set k v d)).
Proof.
  intros H; rewrite od_keys_set; destruct (decide _) as [_|Hk]; [exact H|].
  apply List.NoDup_app; [exact H | repeat constructor; intros [] |].
  intros a Ha [<-|[]]; contradiction.
Qed.

Lemma od_lookup_app (k : string) (d1 d2 : odict V) :
  od_lookup k (d1 ++ d2) = match od_lookup k d1 with Some v => Some v | None => od_lookup k d2 end.
Proof.
  induction d1 as [|[k0 v0] d1 IH]; cbn; [reflexivity|].
  destruct (String.eqb k k0); [reflexivity | exact IH].
Qed.

(** In a dictionary without repeated keys, a listed pair is what a
    lookup finds. *)
Lemma od_lookup_NoDup (k : string) v (d : odict V) :
  List.NoDup (map fst d) -> In (k, v) d <-> od_lookup k d = Some v.
Proof.
  intros Hd; split; [|apply od_lookup_In].
  induction d as [|[k0 v0] d IH]; cbn; [intros []|]. inversion_clear Hd as [|? ? Hn Hd'].
  intros [[= -> ->]|H]; [rewrite String.eqb_refl; reflexivity|].
  destruct (String.eqb_spec k k0) as [->|]; [|auto].
  exfalso; apply Hn, in_map_iff; exists (k0, v); auto.
Qed.

Lemma od_set_In (k k' : string) v (d : odict V) v' :
  In (k', v') (od_set k v d) -> (k' = k /\ v' = v) \/ In (k', v') d.
Proof.
  induction d as [|[k0 v0] d IH]; cbn; [intros [[= <- <-]|[]]; left; auto|].
  destruct (String.eqb_spec k k0) as [->|Hne]; cbn.
  - intros [[= <- <-]|H]; auto.
  - intros [H|H]; [right; left; exact H|]. destruct (IH H); auto.
Qed.

End Odict.

#[export] Hint Rewrite @od_lookup_set : calc_rw.

Lemma NoDup_snoc {A} (l : list A) x : List.NoDup l -> ~ In x l -> List.NoDup (l ++ [x]).
Proof.
  intros Hl Hx; apply List.NoDup_app; [exact Hl | repeat constructor; intros [] | ].
  intros a Ha [<-|[]]; contradiction.
Qed.

(** ** The operations preserve the invariant *)

Section Ops.
Implicit Types (g : graph) (n u v k : string).

Lemma graph_ok_empty : graph_ok graph_empty.
Proof. constructor; cbn; [reflexivity | constructor | intros ? ? ? [] | intros ? ? []]. Qed.

Lemma nx_add_node_nodes g n :
  nx_nodes (nx_add_node g n) = if decide (In n (nx_nodes g)) then nx_nodes g else nx_nodes g ++ [n].
Proof.
  unfold nx_add_node, nx_nodes. destruct (od_lookup n (g_node g)) eqn:E.
  - rewrite decide_True; [reflexivity|]. apply od_lookup_in; eauto.
  - rewrite decide_False by (apply od_lookup_none, E). cbn; rewrite map_app; reflexivity.
Qed.

Lemma nx_add_node_mem g n x :
  In x (nx_nodes (nx_add_node g n)) <-> In x (nx_nodes g) \/ x = n.
Proof.
  rewrite nx_add_node_nodes; destruct (decide _) as [H|H]; rewrite ?in_app_iff; cbn.
  - split; [auto | intros [Hx| ->]; auto].
  - split; intros [Hx|Hx]; auto; destruct Hx as [->|[]]; auto.
Qed.

Lemma nx_add_node_ok g n : graph_ok g -> graph_ok (nx_add_node g n).
Proof.
  intros [Hk Hd Hs Hn]; unfold nx_add_node. destruct (od_lookup n (g_node g)) eqn:E; [constructor; auto|].
  apply od_lookup_none in E. constructor; cbn [g_node g_adj]; rewrite ?map_app; cbn [map fst].
  - rewrite Hk; reflexivity.
  - apply NoDup_snoc; assumption.
  - intros u nbrs v Hu Hv; apply in_app_iff in Hu as [Hu|[[= -> <-]|[]]]; [|destruct Hv].
    apply in_app_iff; left; eapply Hs; eauto.
  - intros u nbrs Hu; apply in_app_iff in Hu as [Hu|[[= -> <-]|[]]]; [eauto | constructor].
Qed.

Lemma nx_add_node_attr g n n' k :
  In n' (nx_nodes g) -> node_attr (nx_add_node g n) n' k = node_attr g n' k.
Proof.
  intros Hn'; unfold nx_add_node, node_attr. destruct (od_lookup n (g_node g)) eqn:E; [reflexivity|].
  cbn. apply od_lookup_in in Hn' as [d Hd].
  enough (od_lookup n' (g_node g ++ [(n, [])]) = od_lookup n' (g_node g)) as -> by reflexivity.
  clear E; induction (g_node g) as [|[k0 v0] l IH]; cbn in *; [discriminate|].
  destruct (String.eqb n' k0); [reflexivity | auto].
Qed.

Lemma nx_add_edge_nodes g u v :
  g_node (nx_add_edge g u v) = g_node (nx_add_node (nx_add_node g u) v).
Proof. reflexivity. Qed.

Lemma nx_add_edge_ok g u v : graph_ok g -> graph_ok (nx_add_edge g u v).
Proof.
  intros Hg. pose proof (nx_add_node_ok _ v (nx_add_node_ok _ u Hg)) as [Hk Hd Hs Hn].
  set (g1 := nx_add_node (nx_add_node g u) v) in *.
  assert (Hu : In u (map fst (g_adj g1))).
  { rewrite <- Hk. change (In u (nx_nodes g1)). apply nx_add_node_mem; left; apply nx_add_node_mem; auto. }
  assert (Hv : In v (map fst (g_node g1))) by (apply nx_add_node_mem; auto).
  unfold nx_add_edge; fold g1. constructor; cbn.
  - rewrite od_keys_set_in by exact Hu; exact Hk.
  - exact Hd.
  - intros u' nbrs v' Hin Hv'. apply od_set_In in Hin as [[-> ->]|Hin]; [|eauto].
    rewrite od_keys_set in Hv'. destruct (od_lookup u (g_adj g1)) as [nb|] eqn:E; cbn in Hv'.
    + apply od_lookup_In in E. destruct (decide _); [eauto|].
      apply in_app_iff in Hv' as [Hv'|[<-|[]]]; eauto.
    + destruct Hv' as [<-|[]]; exact Hv.
  - intros u' nbrs Hin. apply od_set_In in Hin as [[-> ->]|Hin]; [|eauto]. apply od_set_NoDup.
    destruct (od_lookup u (g_adj g1)) as [nb|] eqn:E; cbn; [eapply Hn, od_lookup_In, E | constructor].
Qed.

Lemma nx_add_edge_attr g u v n k :
  In n (nx_nodes g) -> node_attr (nx_add_edge g u v) n k = node_attr g n k.
Proof.
  intros Hn. unfold node_attr; rewrite nx_add_edge_nodes; fold (node_attr (nx_add_node (nx_add_node g u) v) n k).
  rewrite nx_add_node_attr by (apply nx_add_node_mem; auto). apply nx_add_node_attr, Hn.
Qed.

Lemma nx_add_edge_mem g u v x :
  In x (nx_nodes (nx_add_edge g u v)) <-> In x (nx_nodes g) \/ x = u \/ x = v.
Proof.
  unfold nx_nodes at 1; rewrite nx_add_edge_nodes; fold (nx_nodes (nx_add_node (nx_add_node g u) v)).
  rewrite !nx_add_node_mem; tauto.
Qed.

Lemma nx_add_edge_present g u v : graph_ok g -> exists d, edge_attrs (nx_add_edge g u v) u v = Some d.
Proof.
  intros Hg. unfold edge_attrs, nx_add_edge; cbn [g_adj]. rewrite od_lookup_set, String.eqb_refl.
  rewrite od_lookup_set, String.eqb_refl; eauto.
Qed.

Lemma nx_set_node_attr_ok g n k x :
  graph_ok g -> In n (nx_nodes g) ->
  exists g', nx_set_node_attr g n k x = inr g' /\ graph_ok g' /\ nx_nodes g' = nx_nodes g /\
             g_adj g' = g_adj g /\
             forall n' k', node_attr g' n' k' =
                           if String.eqb n' n && String.eqb k' k then Some x else node_attr g n' k'.
Proof.
  intros [Hk Hd Hs H4] Hn. unfold nx_nodes in Hn; pose proof Hn as Hn0.
  apply od_lookup_in in Hn as [d Ed]. unfold nx_set_node_attr, od_get; rewrite Ed; cbn.
  eexists; split; [reflexivity|]. unfold nx_nodes; cbn [g_node g_adj].
  rewrite od_keys_set_in by exact Hn0. split; [constructor; cbn; rewrite ?od_keys_set_in; auto|].
  split; [reflexivity | split; [reflexivity|]].
  intros n' k'; unfold node_attr; cbn [g_node]. rewrite od_lookup_set.
  destruct (String.eqb_spec n' n) as [->|]; cbn; [rewrite Ed, od_lookup_set; reflexivity | reflexivity].
Qed.

Lemma nx_set_edge_attr_ok g u v k x d :
  graph_ok g -> edge_attrs g u v = Some d ->
  exists g', nx_set_edge_attr g u v k x = inr g' /\ graph_ok g' /\ g_node g' = g_node g /\
             edge_attrs g' u v = Some (od_set k x d) /\
             forall u' v', String.eqb u' u && String.eqb v' v = false -> edge_attrs g' u' v' = edge_attrs g u' v'.
Proof.
  intros [Hk Hd Hs H4] He. unfold edge_attrs in He.
  destruct (od_lookup u (g_adj g)) as [nbrs|] eqn:Eu; [|discriminate].
  unfold nx_set_edge_attr, od_get; rewrite Eu; cbn; rewrite He; cbn.
  eexists; split; [reflexivity|]. cbn [g_node g_adj].
  assert (Hu : In u (map fst (g_adj g))) by (apply od_lookup_in; eauto).
  assert (Hv : In v (map fst nbrs)) by (apply od_lookup_in; eauto).
  split; [constructor; cbn; [rewrite od_keys_set_in by exact Hu; exact Hk | exact Hd | |]|].
  { intros u' nb v' Hin Hv'. apply od_set_In in Hin as [[-> ->]|Hin]; [|eauto].
    rewrite od_keys_set_in in Hv' by exact Hv. eapply Hs; [apply od_lookup_In, Eu | exact Hv']. }
  { intros u' nb Hin. apply od_set_In in Hin as [[-> ->]|Hin]; [|eauto].
    apply od_set_NoDup; eapply H4, od_lookup_In, Eu. }
  split; [reflexivity|]. unfold edge_attrs; cbn [g_adj].
  rewrite od_lookup_set, String.eqb_refl, od_lookup_set, String.eqb_refl. split; [reflexivity|].
  intros u' v' Hne. rewrite od_lookup_set. destruct (String.eqb_spec u' u) as [->|]; [|reflexivity].
  rewrite Eu, od_lookup_set. cbn in Hne. destruct (String.eqb v' v); [discriminate | reflexivity].
Qed.

Lemma nx_add_node_edge_attrs g n u v : edge_attrs (nx_add_node g n) u v = edge_attrs g u v.
Proof.
  unfold nx_add_node, edge_attrs. destruct (od_lookup n (g_node g)); [reflexivity|]; cbn [g_adj].
  rewrite od_lookup_app. destruct (od_lookup u (g_adj g)); [reflexivity|]; cbn.
  destruct (String.eqb u n); reflexivity.
Qed.

Lemma nx_add_node_attr_any g n n' k : node_attr (nx_add_node g n) n' k = node_attr g n' k.
Proof.
  unfold nx_add_node, node_attr. destruct (od_lookup n (g_node g)); [reflexivity|]; cbn [g_node].
  rewrite od_lookup_app. destruct (od_lookup n' (g_node g)); [reflexivity|]; cbn.
  destruct (String.eqb n' n); reflexivity.
Qed.

Lemma nx_set_node_attr_spec g n k x g' :
  nx_set_node_attr g n k x = inr g' ->
  g_adj g' = g_adj g /\
  forall n' k', node_attr g' n' k' = if String.eqb n' n && String.eqb k' k then Some x else node_attr g n' k'.
Proof.
  unfold nx_set_node_attr, od_get. destruct (od_lookup n (g_node g)) as [d|] eqn:Ed; cbn; [|discriminate].
  intros [= <-]; split; [reflexivity|]. intros n' k'; unfold node_attr; cbn [g_node].
  rewrite od_lookup_set. destruct (String.eqb_spec n' n) as [->|]; cbn; [rewrite Ed, od_lookup_set|]; reflexivity.
Qed.

Lemma nx_set_node_attr_nodes g n k x g' : nx_set_node_attr g n k x = inr g' -> nx_nodes g' = nx_nodes g.
Proof.
  unfold nx_set_node_attr, od_get, nx_nodes. destruct (od_lookup n (g_node g)) as [d|] eqn:Ed; cbn; [|discriminate].
  intros [= <-]; cbn. apply od_keys_set_in, od_lookup_in; eauto.
Qed.

(** [add_edge] creates the edge with empty attributes, or keeps it. *)
Lemma nx_add_edge_attrs g u v u' v' :
  edge_attrs (nx_add_edge g u v) u' v' =
  if String.eqb u' u && String.eqb v' v then Some (default [] (edge_attrs g u v)) else edge_attrs g u' v'.
Proof.
  set (g1 := nx_add_node (nx_add_node g u) v).
  assert (E1 : forall a b, edge_attrs g1 a b = edge_attrs g a b)
    by (intros; unfold g1; rewrite !nx_add_node_edge_attrs; reflexivity).
  rewrite <- !E1. unfold nx_add_edge; fold g1. unfold edge_attrs at 1; cbn [g_adj].
  rewrite od_lookup_set. destruct (String.eqb_spec u' u) as [->|]; cbn; [|reflexivity].
  rewrite od_lookup_set. unfold edge_attrs.
  destruct (String.eqb v' v), (od_lookup u (g_adj g1)); reflexivity.
Qed.

(** [G.edges(data=True)] lists exactly the edges with their attributes. *)
Lemma nx_edges_spec g u v d :
  graph_ok g -> In (u, v, d) (nx_edges g) <-> edge_attrs g u v = Some d.
Proof.
  intros [Hk Hd _ Hn]. unfold nx_edges, edge_attrs. rewrite Hk in Hd. rewrite in_flat_map. split.
  - intros ([u' nbrs] & Hun & Hin). apply in_map_iff in Hin as ([v' d'] & [= <- <- <-] & Hvd); cbn.
    rewrite (proj1 (od_lookup_NoDup _ _ _ Hd) Hun). apply od_lookup_NoDup; [eapply Hn; exact Hun | exact Hvd].
  - destruct (od_lookup u (g_adj g)) as [nbrs|] eqn:E; [|discriminate]. intros Hv.
    apply od_lookup_In in E. exists (u, nbrs); split; [exact E|].
    apply in_map_iff; exists (v, d); split; [reflexivity | apply od_lookup_In, Hv].
Qed.

End Ops.

(** The representation invariant of the [DiGraph] model (node and
    adjacency dictionaries with the same keys, no key twice, every
    successor a node, no successor twice) is preserved by every operation
    [build_maps] performs on a graph, including the item assignments when
    they succeed. *)
Lemma graph_ops_ok g :
  graph_ok g ->
  (forall n, graph_ok (nx_add_node g n)) /\ (forall u v, graph_ok (nx_add_edge g u v)) /\
  (forall n k x g', nx_set_node_attr g n k x = inr g' -> graph_ok g') /\
  (forall u v k x g', nx_set_edge_attr g u v k x = inr g' -> graph_ok g').
Proof.
  intros Hg. split; [intros n; apply nx_add_node_ok, Hg|]. split; [intros u v; apply nx_add_edge_ok, Hg|].
  split.
  - intros n k x g' E. assert (Hn : In n (nx_nodes g)).
    { unfold nx_set_node_attr, od_get in E. apply od_lookup_in.
      destruct (od_lookup n (g_node g)); [eauto | discriminate]. }
    destruct (nx_set_node_attr_ok g n k x Hg Hn) as (g1 & E1 & H1 & _); congruence.
  - intros u v k x g' E. destruct (edge_attrs g u v) as [d|] eqn:Ed.
    + destruct (nx_set_edge_attr_ok g u v k x d Hg Ed) as (g1 & E1 & H1 & _); congruence.
    + unfold nx_set_edge_attr, od_get, edge_attrs in *.
      destruct (od_lookup u (g_adj g)); cbn in E; [|discriminate]. rewrite Ed in E; discriminate.
Qed.
