(* ===== verification/Carry.v ===== *)
(** * One facility row becomes twelve month nodes ([optimize], lines 169-281)

    [Node] is the Python class of lines 24-59.  [build_month_node] is the
    body of the month loop up to [node_list.append(node)]: role flags from
    the facility kind (lines 186-225), the fractional capacity carry-over
    through the dictionary [sss] (lines 229-257), costs and the
    installation gate (lines 262-275), and the steel supply (line 279).
    [row_nodes] runs it over the twelve months, threading [sss].

    The carry-over is computed as Python computes it, in binary64
    ([Binary64.fl] after every addition and subtraction), because the
    rounding changes the integers handed out: a monthly value of
    [0.3333333333333333] gives four units over twelve months, not the
    three of [floor(12 * x)] ([float_carry_exceeds_floor]).  The theorems
    bound the remainder and show that the twelve integer capacities add
    up to [w * K] ([w] = 4 for module fabrication, whose capacity is
    counted in modules, four per foundation) with [K] within one unit and
    the rounding allowance [carry_err x] of [12 * x]; they pin the
    installation gate of lines 270-275 month by month, and the
    [KeyError] of the unguarded module branch. *)

From S2P Require Import Prelude Binary64 Data.
From Stdlib Require Import Qabs.

Local Open Scope calc_scope.

(** ** Python dictionaries keyed by role *)

Abbreviation dict V := (Role -> option V).

Definition dict_empty {V} : dict V := fun _ => None.

Definition dict_set {V} (d : dict V) (k : Role) (v : V) : dict V :=
  fun k' => if decide (k' = k) then Some v else d k'.

(** [d[k]] raises [KeyError] on a missing key. *)
Definition dict_get {V} (d : dict V) (k : Role) : exc V :=
  match d k with Some v => ret v | None => raise KeyError end.

(** ** The [Node] class *)

Record Node := mkNode {
  name : string;
  month : Layer;
  lat : Q;
  lon : Q;
  kind : cell;
  role : Role -> bool;
  cost : dict (option Q);
  capacity : dict Z;
  wet_storage_capacity : option Z;
  wet_storage_cost : option Q;
  steel : Z;
  turbine : Z
}.

(** [node.node_id = f"({node.name}_{node.month})"]. *)
Definition node_id (n : Node) : string :=
  "(" ++ name n ++ "_" ++ layer_label (month n) ++ ")".

(** The id looked up by [f'({name}_{month})'] on lines 296, 319, 367, 400. *)
Definition id_of (nm : string) (l : Layer) : string :=
  "(" ++ nm ++ "_" ++ layer_label l ++ ")".

(** ** Role flags (lines 186-225) *)

(** The if/elif chain on [node.kind] (lines 188-207). *)
Definition kind_roles (k : cell) : list Role :=
  if cell_is k kind_small then [ModuleFab; HalfBody1Fab]
  else if cell_is k kind_medium then [ModuleFab; HalfBody1Fab; HalfBody3Fab]
  else if cell_is k kind_large then [ModuleFab; HalfBody1Fab; HalfBody3Fab; FoundationFab]
  else if cell_is k kind_base_port then [TurbineAssembly]
  else if cell_is k kind_site then [TurbineInstallation]
  else [].

(** The full [node.role] dictionary: the kind decides the fabrication,
    assembly and installation flags; [row[4]] and [row[7]] decide wet
    storage and offshore foundation fabrication. *)
Definition node_role (k wet offshore : cell) (r : Role) : bool :=
  match r with
  | WetStorage => cell_is wet "TRUE"
  | OffshoreFoundationFab => cell_is offshore "TRUE"
  | _ => bool_decide (r ∈ kind_roles k)
  end.

(** ** Fractional capacity carry-over (lines 229-257) *)

(** [sss] at the first month: a zero remainder for each active production
    role (lines 233-238). *)
Definition sss_init (role : Role -> bool) : dict Q :=
  fun r => if decide (r = WetStorage) then None
           else if role r then Some 0%Q else None.

(** [sss[task] + float(row[i]) if row[i] else 0]: the condition first,
    then the dictionary read, then the conversion. *)
Definition carry_value (sss : dict Q) (task : Role) (c : cell) : exc Q :=
  if truthy c then s <- dict_get sss task ;; x <- py_float c ;; ret (fl (s + x))
  else ret 0%Q.

(** [node.capacity[task] = 4 * int(sss[task])] and
    [sss[task] = sss[task] - node.capacity[task]/4] (lines 246-248): the
    true division [int / int] and the float subtraction are rounded. *)
Definition module_carry (v : Q) : Z * Q :=
  let k := (4 * py_int v)%Z in (k, fl (v - fl (inject_Z k / 4))).

(** [node.capacity[task] = int(sss[task])] and
    [sss[task] = sss[task] - node.capacity[task]] (lines 255-257): the
    [int] is converted to a float, then the subtraction is rounded. *)
Definition plain_carry (v : Q) : Z * Q :=
  let k := py_int v in (k, fl (v - fl (inject_Z k))).

(** One iteration of the loop of line 241.  Module fabrication runs
    whether or not the role is active; its capacity is four times the
    whole part and only the fraction is carried. *)
Definition carry_task (row : list cell) (role : Role -> bool)
    (st : dict Q * dict Z) (t : nat * Role) : exc (dict Q * dict Z) :=
  let '(ti, task) := t in
  let '(sss, caps) := st in
  if decide (task = ModuleFab) then
    c <- row_at row (10 + 3 * ti) ;;
    v <- carry_value sss task c ;;
    let '(k, rest) := module_carry v in
    ret (dict_set sss task rest, dict_set caps task k)
  else if role task then
    c <- row_at row (10 + 3 * ti) ;;
    v <- carry_value sss task c ;;
    let '(k, rest) := plain_carry v in
    ret (dict_set sss task rest, dict_set caps task k)
  else ret st.

(** ** Costs and the installation gate (lines 262-275) *)

(** The installation capacity of month [m]: zero before the month named in
    [row[31]], [int(row[28])] (or zero for an empty cell) from it on. *)
Definition install_capacity (row : list cell) (m : Month) : exc Z :=
  c31 <- row_at row 31 ;;
  th <- month_of_label (cell_text c31 ++ "月") ;;
  if Nat.leb (month_index th) (month_index m) then
    c28 <- row_at row 28 ;;
    if truthy c28 then py_int_cell c28 else ret 0%Z
  else ret 0%Z.

Definition cost_task (row : list cell) (role : Role -> bool) (m : Month)
    (st : dict (option Q) * dict Z) (t : nat * Role) : exc (dict (option Q) * dict Z) :=
  let '(ti, task) := t in
  let '(costs, caps) := st in
  costs' <- (if role task then
               c <- row_at row (9 + 3 * ti) ;;
               if truthy c then x <- py_float c ;; ret (dict_set costs task (Some x))
               else ret (dict_set costs task None)
             else ret costs) ;;
  if role TurbineInstallation then
    k <- install_capacity row m ;;
    ret (costs', dict_set caps TurbineInstallation k)
  else ret (costs', caps).

(** ** One month node (lines 171-281) *)

(** [float(row[i])], [int(row[i]) if row[i] else d]. *)
Definition float_at (row : list cell) (i : nat) : exc Q :=
  c <- row_at row i ;; py_float c.

Definition int_or (row : list cell) (i : nat) (d : Z) : exc Z :=
  c <- row_at row i ;; if truthy c then py_int_cell c else ret d.

(** Lines 211-220: the wet-storage cost and capacity. *)
Definition wet_storage (row : list cell) (wet : cell) : exc (option Q * option Z) :=
  if cell_is wet "TRUE" then
    c5 <- row_at row 5 ;;
    wcost <- (if truthy c5 then x <- py_float c5 ;; ret (Some x) else ret None) ;;
    c6 <- row_at row 6 ;;
    wcap <- (if truthy c6 then z <- py_int_cell c6 ;; ret (Some z) else ret None) ;;
    ret (wcost, wcap)
  else ret (Some 0%Q, Some 0%Z).

(** The node of month [m] (at position [index] of [layer_network_list]),
    given the remainders [sss] left by the previous month; returns the
    node and the new remainders. *)
Definition build_month_node (row : list cell) (index : nat) (m : Month)
    (sss : dict Q) : exc (Node * dict Q) :=
  c0 <- row_at row 0 ;;
  la <- float_at row 1 ;;
  lo <- float_at row 2 ;;
  c3 <- row_at row 3 ;;
  c4 <- row_at row 4 ;;
  w <- wet_storage row c4 ;;
  let '(wcost, wcap) := w in
  c7 <- row_at row 7 ;;
  let roles := node_role c3 c4 c7 in
  let sss0 := if Nat.eqb index 0 then sss_init roles else sss in
  cr <- exc_fold (carry_task row roles) task_list (sss0, dict_empty) ;;
  let '(sss1, caps) := cr in
  cc <- exc_fold (cost_task row roles m) task_list (dict_empty, caps) ;;
  let '(costs, caps1) := cc in
  st <- int_or row 29 0 ;;
  ret ({| name := cell_text c0; month := LMonth m; lat := la; lon := lo;
          kind := c3; role := roles; cost := costs; capacity := caps1;
          wet_storage_capacity := wcap; wet_storage_cost := wcost;
          steel := st; turbine := 0 |}, sss1).

(** The month loop of line 169, nodes only, with [sss] threaded. *)
Fixpoint row_nodes_from (row : list cell) (index : nat) (ms : list Month)
    (sss : dict Q) : exc (list Node) :=
  match ms with
  | [] => ret []
  | m :: ms' =>
      r <- build_month_node row index m sss ;;
      ns <- row_nodes_from row (S index) ms' (snd r) ;;
      ret (fst r :: ns)
  end.

Definition row_nodes (row : list cell) : exc (list Node) :=
  row_nodes_from row 0 layer_network_list dict_empty.

(** The capacities of [n] successive months for a nominal monthly value
    [x], starting from the remainder [s], and the final remainder, for a
    carry update [step] applied to the accumulated value. *)
Fixpoint carry_seq (step : Q -> Z * Q) (x : Q) (n : nat) (s : Q) : list Z * Q :=
  match n with
  | O => ([], s)
  | S n' =>
      let '(k, s') := step (fl (s + x)) in
      let '(ks, sn) := carry_seq step x n' s' in (k :: ks, sn)
  end.

(** The update applied to a role: the module rule or the plain rule. *)
Definition role_step (r : Role) : Q -> Z * Q :=
  if decide (r = ModuleFab) then module_carry else plain_carry.

Definition role_weight (r : Role) : Z := if decide (r = ModuleFab) then 4%Z else 1%Z.

(** The bound on what the two roundings of one month can add to or take
    from the capacity, for a nominal monthly value [x]; and the largest
    remainder a month can leave (the float value of a fraction below 1
    may round up by one unit). *)
Definition carry_bound (x : Q) : Q := ((x + 4) * unit_roundoff + 2 * underflow)%Q.
Definition rem_max : Q := (1 + 2 * unit_roundoff)%Q.

(** The allowance of C4 over twelve months. *)
Definition carry_err (x : Q) : Q := (12 * carry_bound x + 2 * unit_roundoff)%Q.

(** ** Sample rows used by the witnesses *)

(** A medium shipyard: modules at 1.5 per month, half-hull 1 at 0.5,
    half-hull 3 at 2, steel supply 40. *)
Definition sample_shipyard_row : list cell :=
  [CText "A"; CInt 35; CInt 139; CText kind_medium; CText "FALSE"; CEmpty; CEmpty;
   CText "FALSE"; CEmpty;
   CInt 100; CDec (3#2) "1.5"; CEmpty;  CInt 50; CDec (1#2) "0.5"; CEmpty;
   CInt 70; CInt 2; CEmpty;  CEmpty; CEmpty; CEmpty;  CEmpty; CEmpty; CEmpty;
   CEmpty; CEmpty; CEmpty;  CEmpty; CEmpty; CInt 40; CEmpty; CInt 5].

(** The same shipyard with half-hull 1 at [0.3333333333333333] a month. *)
Definition sample_third_row : list cell :=
  firstn 13 sample_shipyard_row ++
  CDec (3333333333333333 # 10000000000000000) "0.3333333333333333" :: skipn 14 sample_shipyard_row.

(** A base port that fills in the module-capacity column anyway. *)
Definition sample_port_row : list cell :=
  [CText "P"; CInt 35; CInt 139; CText kind_base_port; CText "FALSE"; CEmpty; CEmpty;
   CText "FALSE"; CEmpty;
   CEmpty; CInt 1; CEmpty;  CEmpty; CEmpty; CEmpty;
   CEmpty; CEmpty; CEmpty;  CEmpty; CEmpty; CEmpty;  CEmpty; CEmpty; CEmpty;
   CInt 10; CInt 1; CEmpty;  CEmpty; CEmpty; CEmpty; CEmpty; CInt 5].

(** An installation site that can install two turbines a month from May. *)
Definition sample_site_row : list cell :=
  [CText "S"; CInt 40; CInt 140; CText kind_site; CText "FALSE"; CEmpty; CEmpty;
   CText "FALSE"; CEmpty;
   CEmpty; CEmpty; CEmpty;  CEmpty; CEmpty; CEmpty;
   CEmpty; CEmpty; CEmpty;  CEmpty; CEmpty; CEmpty;  CEmpty; CEmpty; CEmpty;
   CEmpty; CEmpty; CEmpty;  CInt 0; CInt 2; CEmpty; CInt 3; CInt 5].

Definition sample_shipyard_nodes : list Node :=
  match row_nodes sample_shipyard_row with inr ns => ns | inl _ => [] end.

Definition sample_site_m6 : Node * dict Q :=
  match build_month_node sample_site_row 0 M6 dict_empty with
  | inr r => r | inl _ => (mkNode "" LSentinel 0 0 CEmpty (fun _ => false) dict_empty
                           dict_empty None None 0 0, dict_empty)
  end.

(** ** Dictionary lemmas *)

Lemma dict_set_eq {V} (d : dict V) k v : dict_set d k v k = Some v.
Proof. unfold dict_set; destruct (decide (k = k)); congruence. Qed.

Lemma dict_set_ne {V} (d : dict V) k k' v : k' <> k -> dict_set d k v k' = d k'.
Proof. intros H; unfold dict_set; destruct (decide (k' = k)); congruence. Qed.

#[export] Hint Rewrite @dict_set_eq : calc_rw.

(** ** The carry-over as a sequence of monthly capacities *)

Section CarrySeq.
Variable step : Q -> Z * Q.
Variable w : Z.
Hypothesis step_spec : forall v, (0 <= v <= 4503599627370496)%Q ->
  fst (step v) = (w * py_int v)%Z /\ snd (step v) = fl (v - inject_Z (py_int v)).

Local Open Scope Q_scope.

(** One month: the capacity [int(v)] of [v = fl(s + x)] differs from
    [s + x - s'] (what the exact carry-over would hand out) by at most
    [carry_bound x], and the new remainder [s'] stays in [[0, rem_max]]. *)
Lemma carry_step_bounds (x s : Q) :
  0 <= x <= 1099511627776 -> 0 <= s <= rem_max ->
  0 <= fl (s + x) <= 4503599627370496 /\
  Qabs (inject_Z (py_int (fl (s + x))) - (s + x - fl (fl (s + x) - inject_Z (py_int (fl (s + x))))))
    <= carry_bound x /\
  0 <= fl (fl (s + x) - inject_Z (py_int (fl (s + x)))) <= rem_max.
Proof.
  unfold carry_bound, rem_max; intros Hx Hs.
  pose proof underflow_nonneg. pose proof underflow_le.
  pose proof (fl_bounds (s + x) ltac:(lra)) as [V1 V2]. pose proof (fl_nonneg (s + x) ltac:(lra)) as V0.
  set (v := fl (s + x)) in *. unfold unit_roundoff in *.
  pose proof (py_int_le v V0) as K1. pose proof (py_int_lt v V0) as K2. rewrite inject_Z_plus in K2.
  change (inject_Z 1) with 1 in K2. set (k := inject_Z (py_int v)) in *.
  pose proof (fl_bounds (v - k) ltac:(lra)) as [Y1 Y2]. pose proof (fl_nonneg (v - k) ltac:(lra)).
  set (s' := fl (v - k)) in *. unfold unit_roundoff in *.
  split; [lra|]. split; [apply Qabs_Qle_condition; split; lra | lra].
Qed.

(** Invariant of the loop: the capacities handed out so far are [w]
    times a whole number [K], within [n * carry_bound x] of
    [start + n*x - remainder], and the remainder stays in [[0, rem_max]]. *)
Lemma carry_seq_inv (x : Q) (n : nat) (s : Q) :
  0 <= x <= 1099511627776 -> 0 <= s <= rem_max ->
  exists K, zsum (fst (carry_seq step x n s)) = (w * K)%Z /\
    Qabs (inject_Z K - (s + inject_Z (Z.of_nat n) * x - snd (carry_seq step x n s)))
      <= inject_Z (Z.of_nat n) * carry_bound x /\
    0 <= snd (carry_seq step x n s) <= rem_max.
Proof.
  revert s; induction n as [|n IH]; intros s Hx Hs; cbn [carry_seq fst snd].
  - exists 0%Z; split; [cbn; lia|]. split; [|exact Hs].
    setoid_replace (inject_Z 0 - (s + inject_Z (Z.of_nat 0) * x - s)) with 0 using relation Qeq by (cbn; ring).
    change (inject_Z (Z.of_nat 0)) with 0. rewrite Qmult_0_l. apply Qle_refl.
  - destruct (carry_step_bounds x s Hx Hs) as [Hv [Hk Hs']].
    destruct (step_spec (fl (s + x)) Hv) as [E1 E2].
    destruct (step (fl (s + x))) as [k s'] eqn:E; cbn [fst snd] in E1, E2; subst k s'.
    destruct (IH _ Hx Hs') as [K [HK [HKq Hb]]].
    destruct (carry_seq step x n _) as [ks sn]; cbn [fst snd zsum] in *.
    exists (py_int (fl (s + x)) + K)%Z; split; [unfold zsum in *; cbn [fold_right]; rewrite HK; lia|].
    split; [|exact Hb].
    set (s' := fl (fl (s + x) - inject_Z (py_int (fl (s + x))))) in *.
    set (k := py_int (fl (s + x))) in *.
    setoid_replace (inject_Z (k + K) - (s + inject_Z (Z.of_nat (S n)) * x - sn))
      with ((inject_Z k - (s + x - s')) + (inject_Z K - (s' + inject_Z (Z.of_nat n) * x - sn)))
      using relation Qeq by (rewrite Nat2Z.inj_succ, <- Z.add_1_r, !inject_Z_plus; change (inject_Z 1) with 1; ring).
    eapply Qle_trans; [apply Qabs_triangle|].
    rewrite Nat2Z.inj_succ, <- Z.add_1_r, inject_Z_plus; change (inject_Z 1) with 1. lra.
Qed.

(** Over [n] months from a zero remainder: [K] is within
    [n * carry_bound x] of [n*x], one remainder below. *)
Lemma carry_seq_total (x : Q) (n : nat) :
  0 <= x <= 1099511627776 ->
  exists K, zsum (fst (carry_seq step x n 0)) = (w * K)%Z /\
    inject_Z (Z.of_nat n) * x - rem_max - inject_Z (Z.of_nat n) * carry_bound x <= inject_Z K /\
    inject_Z K <= inject_Z (Z.of_nat n) * x + inject_Z (Z.of_nat n) * carry_bound x.
Proof.
  intros Hx. destruct (carry_seq_inv x n 0 Hx) as [K [HK [Hq [Hb0 Hb1]]]];
    [unfold rem_max, unit_roundoff; lra|].
  exists K; split; [exact HK|]. apply Qabs_Qle_condition in Hq as [A B]. split; lra.
Qed.
End CarrySeq.

(** ** The row loop computes the carry-over sequence *)

Lemma carry_task_frame row roles sss caps ti t sss' caps' r :
  carry_task row roles (sss, caps) (ti, t) = inr (sss', caps') -> r <> t ->
  sss' r = sss r /\ caps' r = caps r.
Proof.
  intros H Hne; unfold carry_task in H.
  destruct (decide (t = ModuleFab)); [|destruct (roles t)];
    [..| injection H as <- <-; auto];
    exc_inv H; first [destruct (module_carry a0) | destruct (plain_carry a0)];
    injection H as <- <-; rewrite !dict_set_ne by exact Hne; auto.
Qed.

Lemma carry_task_self row roles sss caps ti t sss' caps' c x s :
  carry_task row roles (sss, caps) (ti, t) = inr (sss', caps') ->
  (t = ModuleFab \/ roles t = true) ->
  row_at row (10 + 3 * ti) = inr c -> py_float c = inr x -> sss t = Some s ->
  sss' t = Some (snd (role_step t (fl (s + x)))) /\ caps' t = Some (fst (role_step t (fl (s + x)))).
Proof.
  intros H Hact Hc Hx Hs.
  assert (Hv : carry_value sss t c = inr (fl (s + x))%Q).
  { unfold carry_value, dict_get; rewrite Hs.
    destruct c; simpl in Hx; try discriminate; injection Hx as <-; reflexivity. }
  unfold carry_task, role_step in *.
  destruct (decide (t = ModuleFab)) as [Ht|Ht].
  - rewrite Hc in H; cbn [exc_bind] in H; rewrite Hv in H; cbn [exc_bind] in H.
    destruct (module_carry (fl (s + x))%Q).
    injection H as <- <-; rewrite !dict_set_eq; split; reflexivity.
  - destruct Hact as [|Hact]; [contradiction|]. rewrite Hact, Hc in H; cbn [exc_bind] in H.
    rewrite Hv in H; cbn [exc_bind] in H. destruct (plain_carry (fl (s + x))%Q).
    injection H as <- <-; rewrite !dict_set_eq; split; reflexivity.
Qed.

Lemma carry_task_frame' row roles st st' ti t r :
  carry_task row roles st (ti, t) = inr st' -> r <> t ->
  fst st' r = fst st r /\ snd st' r = snd st r.
Proof. destruct st, st'; apply carry_task_frame. Qed.

Lemma carry_fold_frame row roles l st st' r :
  ~ In r (map snd l) -> exc_fold (carry_task row roles) l st = inr st' ->
  fst st' r = fst st r /\ snd st' r = snd st r.
Proof.
  intros Hr. apply (exc_fold_inv (fun s => fst s r = fst st r /\ snd s r = snd st r)); [|auto].
  intros s0 [ti t] s1 Hin [E1 E2] Hstep; cbv beta.
  destruct (carry_task_frame' _ _ _ _ _ _ r Hstep) as [A B]; [|split; congruence].
  intros ->; apply Hr, in_map_iff; exists (ti, t); auto.
Qed.

(** The loop over the seven tasks changes the entry of role [r] only in
    the iteration of [r]. *)
Lemma carry_fold_key row roles l st st' ti r :
  List.NoDup (map snd l) -> In (ti, r) l -> exc_fold (carry_task row roles) l st = inr st' ->
  exists mid mid', carry_task row roles mid (ti, r) = inr mid' /\
    fst mid r = fst st r /\ fst st' r = fst mid' r /\ snd st' r = snd mid' r.
Proof.
  revert st; induction l as [|[tj t] l IH]; intros st Hnd Hin Hrun; [destruct Hin|].
  cbn [exc_fold map snd] in Hrun, Hnd. apply NoDup_cons_iff in Hnd as [Hnot Hnd].
  destruct (carry_task row roles st (tj, t)) as [e|s1] eqn:E; cbn [exc_bind] in Hrun;
    [discriminate|].
  destruct Hin as [Heq|Hin].
  - injection Heq as H1 H2; subst tj t. exists st, s1; split; [exact E|]; split; [reflexivity|].
    destruct (carry_fold_frame _ _ _ _ _ r Hnot Hrun); auto.
  - destruct (IH s1 Hnd Hin Hrun) as [mid [mid' [Hm [H1 [H2 H3]]]]].
    exists mid, mid'; split; [exact Hm|]; split; [|auto].
    rewrite H1. refine (proj1 (carry_task_frame' _ _ _ _ _ _ r E _)).
    intros Heq; subst t. apply Hnot, in_map_iff. exists (ti, r); auto.
Qed.

Lemma cost_task_caps row roles m st st' ti t r :
  r <> TurbineInstallation -> cost_task row roles m st (ti, t) = inr st' ->
  snd st' r = snd st r.
Proof.
  destruct st as [costs caps]; intros Hr H; unfold cost_task in H.
  apply exc_bind_inr in H as [c' [_ H]].
  destruct (roles TurbineInstallation).
  - apply exc_bind_inr in H as [k [_ H]]. injection H as <-; apply dict_set_ne, Hr.
  - injection H as <-; reflexivity.
Qed.

Lemma cost_fold_caps row roles m l st st' r :
  r <> TurbineInstallation -> exc_fold (cost_task row roles m) l st = inr st' ->
  snd st' r = snd st r.
Proof.
  intros Hr. apply (exc_fold_inv (fun s => snd s r = snd st r)); [|reflexivity].
  intros s0 [ti t] s1 _ E Hstep; cbv beta.
  rewrite (cost_task_caps _ _ _ _ _ _ _ _ Hr Hstep); exact E.
Qed.

Lemma task_list_roles_NoDup : List.NoDup (map snd task_list).
Proof. simpl; repeat constructor; simpl; intuition discriminate. Qed.

Lemma task_list_not_storage ti r : In (ti, r) task_list -> r <> WetStorage.
Proof. simpl; intuition congruence. Qed.

(** One month: an active role other than installation gets the capacity
    and remainder of one carry step from the remainder of the previous
    month (zero in the first month). *)
Lemma build_month_node_capacity row index m sss n sss' ti r c x s :
  build_month_node row index m sss = inr (n, sss') ->
  In (ti, r) task_list -> r <> TurbineInstallation -> role n r = true ->
  row_at row (10 + 3 * ti) = inr c -> py_float c = inr x ->
  (if Nat.eqb index 0 then Some 0%Q else sss r) = Some s ->
  capacity n r = Some (fst (role_step r (fl (s + x)))) /\
  sss' r = Some (snd (role_step r (fl (s + x)))).
Proof.
  intros H Hin Hr Hrole Hc Hx Hs. unfold build_month_node in H.
  apply exc_bind_inr in H as [c0 [_ H]]. apply exc_bind_inr in H as [la [_ H]].
  apply exc_bind_inr in H as [lo [_ H]]. apply exc_bind_inr in H as [c3 [_ H]].
  apply exc_bind_inr in H as [c4 [_ H]]. apply exc_bind_inr in H as [[wc wk] [_ H]].
  apply exc_bind_inr in H as [c7 [_ H]]. apply exc_bind_inr in H as [[sss1 caps] [Hcr H]].
  apply exc_bind_inr in H as [[costs caps1] [Hcc H]]. apply exc_bind_inr in H as [st [_ H]].
  injection H as <- <-; simpl in Hrole |- *.
  destruct (carry_fold_key _ _ _ _ _ _ _ task_list_roles_NoDup Hin Hcr)
    as [[ms mc] [[ms' mc'] [Hm [H1 [H2 H3]]]]]; simpl in H1, H2, H3.
  pose proof (cost_fold_caps _ _ _ _ _ _ r Hr Hcc) as Hcap; simpl in Hcap.
  assert (Hms : ms r = Some s).
  { rewrite H1. destruct (Nat.eqb index 0); [|exact Hs].
    unfold sss_init. rewrite Hrole. injection Hs as <-.
    destruct (decide (r = WetStorage)); [|reflexivity].
    exfalso; exact (task_list_not_storage _ _ Hin e). }
  destruct (carry_task_self _ _ _ _ _ _ _ _ _ _ _ Hm (or_intror Hrole) Hc Hx Hms) as [A B].
  rewrite Hcap, H3, H2; split; assumption.
Qed.

Lemma row_nodes_from_capacity row ms index sss ns ti r c x s :
  row_nodes_from row index ms sss = inr ns ->
  In (ti, r) task_list -> r <> TurbineInstallation ->
  (forall n, In n ns -> role n r = true) ->
  row_at row (10 + 3 * ti) = inr c -> py_float c = inr x ->
  (if Nat.eqb index 0 then Some 0%Q else sss r) = Some s ->
  map (fun n => capacity n r) ns = map Some (fst (carry_seq (role_step r) x (List.length ms) s)).
Proof.
  revert index sss ns s; induction ms as [|m ms IH]; intros index sss ns s H Hin Hr Hrole Hc Hx Hs.
  - injection H as <-; reflexivity.
  - simpl in H. apply exc_bind_inr in H as [[n sss'] [Hb H]].
    apply exc_bind_inr in H as [ns' [Hrest H]]; injection H as <-; simpl in Hrest.
    destruct (build_month_node_capacity _ _ _ _ _ _ _ _ _ _ _ Hb Hin Hr
                (Hrole n (or_introl eq_refl)) Hc Hx Hs) as [A B].
    simpl. destruct (role_step r (fl (s + x))) as [k s'] eqn:E; simpl in A, B.
    rewrite (IH (S index) sss' ns' s' Hrest Hin Hr (fun n' H' => Hrole n' (or_intror H')) Hc Hx B).
    destruct (carry_seq (role_step r) x (List.length ms) s'); simpl; rewrite A; reflexivity.
Qed.

(** Both updates hand out [w] times the whole part of the accumulated
    float and carry its rounded fraction, on the range where [int()]
    fits a float exactly. *)
Lemma role_step_spec r v :
  (0 <= v <= 4503599627370496)%Q ->
  fst (role_step r v) = (role_weight r * py_int v)%Z /\
  snd (role_step r v) = fl (v - inject_Z (py_int v)).
Proof.
  intros Hv. pose proof (py_int_nonneg v (proj1 Hv)) as K0.
  assert (K1 : (py_int v < 2 ^ 53)%Z).
  { pose proof (py_int_le v (proj1 Hv)) as L.
    assert (inject_Z (py_int v) <= inject_Z 4503599627370496)%Q by (eapply Qle_trans; [exact L | apply Hv]).
    rewrite <- Zle_Qle in *. cbn; lia. }
  unfold role_step, role_weight, module_carry, plain_carry.
  destruct (decide (r = ModuleFab)); cbn [fst snd]; split; try reflexivity; try lia.
  - f_equal. f_equal. rewrite (fl_compat _ (inject_Z (py_int v))) by (rewrite inject_Z_mult; field).
    apply fl_int; lia.
  - rewrite fl_int by lia. reflexivity.
Qed.

(** C4: over the twelve months of a facility row, the integer capacities
    of an active production role (installation excepted, whose capacity is
    overwritten by the gate) add up to [w * K] ([w] = 4 for module
    fabrication, 1 otherwise) where [K] is within one unit, plus the
    float rounding of the monthly additions ([carry_err x], of order
    [12 x / 2^53]), below twelve times the monthly value [x] that
    [float()] reads, and never above it by more than the rounding: the
    carry-over hands out the whole capacity and loses at most the last
    remainder. *)
Theorem row_capacity_total row ns ti r c x :
  row_nodes row = inr ns ->
  In (ti, r) task_list -> r <> TurbineInstallation ->
  (forall n, In n ns -> role n r = true) ->
  row_at row (10 + 3 * ti) = inr c -> py_float c = inr x -> (0 <= x <= 1099511627776)%Q ->
  exists K, zsum (map (fun n => default 0%Z (capacity n r)) ns) = (role_weight r * K)%Z /\
    (12 * x - 1 - carry_err x <= inject_Z K <= 12 * x + carry_err x)%Q.
Proof.
  intros H Hin Hr Hrole Hc Hx Hx0.
  pose proof (row_nodes_from_capacity _ _ _ _ _ _ _ _ _ 0%Q H Hin Hr Hrole Hc Hx eq_refl) as E.
  apply (f_equal (map (default 0%Z))) in E. rewrite !map_map in E; cbn in E.
  rewrite map_id in E. rewrite E.
  destruct (carry_seq_total _ _ (role_step_spec r) x 12 Hx0) as [K [HK [L U]]].
  exists K; split; [exact HK|]. unfold carry_err, rem_max in *.
  change (inject_Z (Z.of_nat 12)) with 12 in L, U.
  assert (0 <= unit_roundoff)%Q by (unfold unit_roundoff, Qle; cbn; lia). split; lra.
Qed.

(** ** The installation gate *)

Lemma cost_task_install row roles m st st' ti t k :
  roles TurbineInstallation = true -> install_capacity row m = inr k ->
  cost_task row roles m st (ti, t) = inr st' -> snd st' TurbineInstallation = Some k.
Proof.
  destruct st as [costs caps]; intros Hi Hk H; unfold cost_task in H.
  apply exc_bind_inr in H as [c' [_ H]]. rewrite Hi, Hk in H.
  injection H as <-; apply dict_set_eq.
Qed.

(** The installation capacity of a month node is the value of the gate
    [install_capacity] for its month; the carried-over value is
    discarded. *)
Lemma install_capacity_node row index m sss n sss' :
  build_month_node row index m sss = inr (n, sss') ->
  role n TurbineInstallation = true ->
  exists k, install_capacity row m = inr k /\ capacity n TurbineInstallation = Some k.
Proof.
  intros H Hi. unfold build_month_node in H.
  apply exc_bind_inr in H as [c0 [_ H]]. apply exc_bind_inr in H as [la [_ H]].
  apply exc_bind_inr in H as [lo [_ H]]. apply exc_bind_inr in H as [c3 [_ H]].
  apply exc_bind_inr in H as [c4 [_ H]]. apply exc_bind_inr in H as [[wc wk] [_ H]].
  apply exc_bind_inr in H as [c7 [_ H]]. apply exc_bind_inr in H as [[sss1 caps] [_ H]].
  apply exc_bind_inr in H as [[costs caps1] [Hcc H]]. apply exc_bind_inr in H as [st [_ H]].
  injection H as <- <-; simpl in Hi |- *.
  refine (exc_fold_establish
    (fun s => exists k, install_capacity row m = inr k /\ snd s TurbineInstallation = Some k)
    _ _ _ _ _ _ Hcc); [unfold task_list; congruence|].
  intros s0 [ti t] s1 _ Hs. destruct s0 as [cs0 cp0].
  pose proof Hs as Hs'. unfold cost_task in Hs'.
  apply exc_bind_inr in Hs' as [c' [_ Hs']]. simpl in Hs'. rewrite Hi in Hs'.
  apply exc_bind_inr in Hs' as [k [Hk _]].
  exists k; split; [exact Hk|]. exact (cost_task_install _ _ _ _ _ _ _ _ Hi Hk Hs).
Qed.

Lemma install_capacity_before row m th c31 :
  row_at row 31 = inr c31 -> month_of_label (cell_text c31 ++ "月") = inr th ->
  (month_index m < month_index th)%nat -> install_capacity row m = inr 0%Z.
Proof.
  intros H31 Hth Hlt; unfold install_capacity; rewrite H31; simpl; rewrite Hth; simpl.
  destruct (Nat.leb_spec (month_index th) (month_index m)); [lia | reflexivity].
Qed.

Lemma install_capacity_from row m th c31 :
  row_at row 31 = inr c31 -> month_of_label (cell_text c31 ++ "月") = inr th ->
  (month_index th <= month_index m)%nat -> install_capacity row m = int_or row 28 0.
Proof.
  intros H31 Hth Hle; unfold install_capacity; rewrite H31; simpl; rewrite Hth; simpl.
  destruct (Nat.leb_spec (month_index th) (month_index m)); [reflexivity | lia].
Qed.

(** C5: the installation gate of lines 270-275 in every month of an
    installation site whose [row[31]] names month [th]: from [th] on,
    [th] itself included, the node's installation capacity is
    [int(row[28])] (zero for an empty cell); in the months before [th]
    it is zero. *)
Theorem install_capacity_of_node row index m sss n sss' c31 th k :
  build_month_node row index m sss = inr (n, sss') ->
  role n TurbineInstallation = true ->
  row_at row 31 = inr c31 -> month_of_label (cell_text c31 ++ "月") = inr th ->
  int_or row 28 0 = inr k ->
  ((month_index th <= month_index m)%nat -> capacity n TurbineInstallation = Some k) /\
  ((month_index m < month_index th)%nat -> capacity n TurbineInstallation = Some 0%Z).
Proof.
  intros H Hi H31 Hth Hk.
  destruct (install_capacity_node _ _ _ _ _ _ H Hi) as [k' [Hg ->]]. split; intros Hlt.
  - rewrite (install_capacity_from _ _ _ _ H31 Hth Hlt), Hk in Hg; congruence.
  - rewrite (install_capacity_before _ _ _ _ H31 Hth Hlt) in Hg; congruence.
Qed.

(** ** Module fabrication outside shipyards *)

(** C6: the module-fabrication update runs for every facility, but [sss]
    only has keys for active roles: a facility that does not fabricate
    modules (a base port, an installation site, an unclassified site) and
    has a non-empty module-capacity cell makes the first month raise
    [KeyError], instead of the value being ignored. *)
Theorem module_carry_keyerror row roles caps c :
  roles ModuleFab = false -> row_at row 10 = inr c -> truthy c = true ->
  carry_task row roles (sss_init roles, caps) (0%nat, ModuleFab) = inl KeyError.
Proof.
  intros Hm Hc Ht; unfold carry_task; simpl. rewrite Hc; simpl.
  unfold carry_value, dict_get, sss_init; rewrite Ht, Hm; reflexivity.
Qed.

(** ** Witnesses *)

Lemma row_capacity_total_witness :
  exists K, zsum (map (fun n => default 0%Z (capacity n HalfBody1Fab)) sample_shipyard_nodes) = (1 * K)%Z /\
    (12 * (1 # 2) - 1 - carry_err (1 # 2) <= inject_Z K <= 12 * (1 # 2) + carry_err (1 # 2))%Q.
Proof.
  apply (row_capacity_total sample_shipyard_row _ 1 HalfBody1Fab (CDec (1#2) "0.5") (1#2));
    [vm_compute; reflexivity | simpl; auto | discriminate | | reflexivity | vm_compute; reflexivity | split; discriminate].
  intros n Hn; vm_compute in Hn; repeat destruct Hn as [<-|Hn]; try reflexivity; destruct Hn.
Defined.

Lemma install_capacity_of_node_witness :
  capacity (fst sample_site_m6) TurbineInstallation = Some 2%Z.
Proof.
  refine (proj1 (install_capacity_of_node sample_site_row 0 M6 dict_empty _ (snd sample_site_m6)
                   (CInt 5) M5 2 _ _ _ _ _) _); vm_compute; try reflexivity; lia.
Defined.

Lemma module_carry_keyerror_witness :
  carry_task sample_port_row (node_role (CText kind_base_port) (CText "FALSE") (CText "FALSE"))
    (sss_init (node_role (CText kind_base_port) (CText "FALSE") (CText "FALSE")), dict_empty)
    (0%nat, ModuleFab) = inl KeyError.
Proof. apply (module_carry_keyerror _ _ _ (CInt 1)); vm_compute; reflexivity. Defined.

Example sample_port_row_raises : row_nodes sample_port_row = inl KeyError.
Proof. vm_compute. reflexivity. Qed.

(** The float carry-over is not the exact one: at [0.3333333333333333]
    a month, CPython's loop hands out 4 half-hulls over the year, while
    the floor of the nominal total the specification names is 3 (the
    float sum reaches [4.0] after rounding). *)
Example float_carry_exceeds_floor :
  zsum (map (fun n => default 0%Z (capacity n HalfBody1Fab))
            (match row_nodes sample_third_row with inr ns => ns | inl _ => [] end)) = 4%Z /\
  Qfloor (12 * (3333333333333333 # 10000000000000000)) = 3%Z.
Proof. split; vm_compute; reflexivity. Qed.
