(* ===== verification/Network.v ===== *)
(** * The time-expanded network ([optimize], lines 143-445)

    The builder threads the four lists of [optimize] ([node_list],
    [transportation_list], [production_list], [storage_list]) through the
    facility rows and then the route rows, appending as the code appends.
    Node references are resolved as the code resolves them: by the first
    node of [node_list] whose [node_id] string equals the formatted id
    (lines 296, 319-320, 367, 400-401), raising [ValueError] when there is
    none.  Edge records are the classes [Transportation_Edge],
    [Production_Edge] and [Storage_Edge] (lines 63-139); a value stored in
    an edge's [cost] or [capacity] is kept as Python holds it ([pyval]):
    a number, the raw CSV string of a route's vessel capacity (line 425),
    or [None].  The vessel cost of lines 423-428 is computed in binary64
    as Python computes it ([knots_divisor], [sailing_days]); that its
    float ceiling equals the exact integer ceiling is checked by
    evaluation for every distance up to [max_route_km]. *)

From S2P Require Import Prelude Binary64 Data Carry.
From Stdlib Require Import Ascii.

Local Open Scope calc_scope.

(** ** Python values stored in the edge dictionaries *)

Inductive pyval :=
| PNum (q : Q)
| PStr (c : cell)
| PNone.

Definition pv_of_int (z : Z) : pyval := PNum (inject_Z z).
Definition pv_of_opt_q (o : option Q) : pyval := match o with Some q => PNum q | None => PNone end.
Definition pv_of_opt_z (o : option Z) : pyval := match o with Some z => pv_of_int z | None => PNone end.

(** ** Edges *)

Record TEdge := mkTEdge {
  t_source : Node;
  t_target : Node;
  t_month : option Month;          (* [None] on the sink edges of line 369 *)
  t_cost : Product -> pyval;
  t_capacity : Product -> pyval
}.

(** A production edge is a self-loop: [source] and [target] are the same
    node object (lines 298-299). *)
Record PEdge := mkPEdge {
  p_node : Node;
  p_function : Role;
  p_cost : pyval;
  p_capacity : pyval
}.

Definition p_source (e : PEdge) : Node := p_node e.
Definition p_target (e : PEdge) : Node := p_node e.

Record SEdge := mkSEdge {
  s_source : Node;
  s_target : Node;
  s_month : Month;
  s_cost : pyval;
  s_capacity : pyval
}.

(** ** The builder state *)

Record BState := mkBState {
  node_list : list Node;
  transportation_list : list TEdge;
  production_list : list PEdge;
  storage_list : list SEdge
}.

Definition bstate_empty : BState := mkBState [] [] [] [].

Definition add_node (st : BState) (n : Node) : BState :=
  mkBState (node_list st ++ [n]) (transportation_list st) (production_list st) (storage_list st).
Definition add_tedge (st : BState) (e : TEdge) : BState :=
  mkBState (node_list st) (transportation_list st ++ [e]) (production_list st) (storage_list st).
Definition add_pedge (st : BState) (e : PEdge) : BState :=
  mkBState (node_list st) (transportation_list st) (production_list st ++ [e]) (storage_list st).
Definition add_sedge (st : BState) (e : SEdge) : BState :=
  mkBState (node_list st) (transportation_list st) (production_list st) (storage_list st ++ [e]).

(** [node_list[[x.node_id for x in node_list].index(id)]]. *)
Definition find_node (ns : list Node) (id : string) : exc Node :=
  py_find (fun n => String.eqb (node_id n) id) ns.

(** ** Facility rows *)

(** Lines 291-307: one production edge per active role of the new node,
    attached to the first node carrying its id. *)
Definition add_production_edges (node : Node) (m : Month) (st : BState) : exc BState :=
  exc_fold (fun st' (t : nat * Role) =>
              let task := snd t in
              if role node task then
                ny <- find_node (node_list st') (id_of (name node) (LMonth m)) ;;
                c <- dict_get (cost node) task ;;
                k <- dict_get (capacity node) task ;;
                ret (add_pedge st' (mkPEdge ny task (pv_of_opt_q c) (pv_of_int k)))
              else ret st')
           task_list st.

(** The month before [m] in [layer_network_list]. *)
Definition prev_month (m : Month) : Month :=
  match m with
  | M11 => M11 | M12 => M11 | M1 => M12 | M2 => M1 | M3 => M2 | M4 => M3
  | M5 => M4 | M6 => M5 | M7 => M6 | M8 => M7 | M9 => M8 | M10 => M9
  end.

(** Lines 315-333: from the second month on, a storage edge from the
    previous month's node to this month's, whether or not the location
    has wet storage. *)
Definition add_storage_edge (node : Node) (index : nat) (m : Month) (st : BState) : exc BState :=
  if Nat.eqb index 0 then ret st
  else
    nf <- find_node (node_list st) (id_of (name node) (LMonth (prev_month m))) ;;
    nt <- find_node (node_list st) (id_of (name node) (LMonth m)) ;;
    ret (add_sedge st (mkSEdge nf nt (prev_month m) (pv_of_opt_q (wet_storage_cost node))
                                (pv_of_opt_z (wet_storage_capacity node)))).

(** One iteration of the month loop of line 169. *)
Definition month_step (row : list cell) (acc : BState * dict Q) (im : nat * Month)
    : exc (BState * dict Q) :=
  let '(st, sss) := acc in
  let '(index, m) := im in
  r <- build_month_node row index m sss ;;
  let '(node, sss') := r in
  let st1 := add_node st node in
  st2 <- add_production_edges node m st1 ;;
  st3 <- add_storage_edge node index m st2 ;;
  ret (st3, sss').

Definition enumerate_months : list (nat * Month) :=
  combine (seq 0 12) layer_network_list.

(** Lines 340-377: the aggregate demand node of an installation site and
    its twelve sink edges. *)
Definition add_aggregate (row : list cell) (st : BState) : exc BState :=
  c3 <- row_at row 3 ;;
  if cell_is c3 kind_site then
    c0 <- row_at row 0 ;;
    la <- float_at row 1 ;;
    lo <- float_at row 2 ;;
    tb <- int_or row 30 0 ;;
    let agg := {| name := cell_text c0; month := LSentinel; lat := la; lon := lo;
                  kind := c3; role := fun r => bool_decide (r = TurbineInstallation);
                  cost := dict_empty; capacity := dict_empty;
                  wet_storage_capacity := None; wet_storage_cost := None;
                  steel := 0; turbine := tb |} in
    let st1 := add_node st agg in
    exc_fold (fun st' m =>
                n1 <- find_node (node_list st') (id_of (name agg) (LMonth m)) ;;
                ret (add_tedge st' (mkTEdge n1 agg None (fun _ => pv_of_int 0)
                                            (fun _ => pv_of_int 10000))))
             layer_network_list st1
  else ret st.

(** [if not row or not row[0]: continue]. *)
Definition skip_row (row : list cell) : bool :=
  match row with [] => true | c :: _ => negb (truthy c) end.

Definition node_row_step (st : BState) (row : list cell) : exc BState :=
  if skip_row row then ret st
  else
    r <- exc_fold (month_step row) enumerate_months (st, dict_empty) ;;
    add_aggregate row (fst r).

(** [next(reader_node, None)] drops the header row first. *)
Definition build_nodes (node_rows : list (list cell)) : exc BState :=
  exc_fold node_row_step (tl node_rows) bstate_empty.

(** ** Route rows (lines 390-432) *)

(** [24 * speed * 1.852]: the [int] product, converted to a float and
    multiplied by the float nearest to [1.852]. *)
Definition knots_divisor (knots : Z) : Q := fl (float_of_int (24 * knots) * fl (1852 # 1000)).

(** [math.ceil(int(row[3]) / (24 * speed * 1.852))]: the distance as a
    float, the rounded quotient, its exact ceiling. *)
Definition sailing_days (d : Z) (knots : Z) : Z :=
  Qceiling (fl (float_of_int d / knots_divisor knots)).

(** The distances below [d0 + fuel] at which the float day count is the
    exact integer ceiling [(1000 d + div - 1) / div]: a check run by
    evaluation. *)
Fixpoint days_agree (knots div d0 : Z) (fuel : nat) : bool :=
  match fuel with
  | O => true
  | S f => Z.eqb (sailing_days d0 knots) ((1000 * d0 + div - 1) / div) && days_agree knots div (d0 + 1) f
  end.

(** The longest route the checks cover, in kilometres: more than the
    length of the Japanese archipelago the route tables describe. *)
Definition max_route_km : Z := 3000.

(** Lines 423-428: the vessel cost of a route. *)
Definition vessel_cost (src tgt : Node) (d : Z) : Z :=
  if cell_is (kind src) kind_base_port && cell_is (kind tgt) kind_site then
    2 * ship_installation_cost * sailing_days d 10 + d
  else 2 * ship_foundation_cost * sailing_days d 5 + d.

Definition route_cost (src tgt : Node) (d : Z) (p : Product) : pyval :=
  match p with Vessel => pv_of_int (vessel_cost src tgt d) | _ => pv_of_int 0 end.

Definition route_capacity (c4 : cell) (p : Product) : pyval :=
  match p with Vessel => PStr c4 | _ => pv_of_int 1000 end.

Definition route_month_step (sname tname : string) (row : list cell) (st : BState) (m : Month)
    : exc BState :=
  src <- find_node (node_list st) (id_of sname (LMonth m)) ;;
  tgt <- find_node (node_list st) (id_of tname (LMonth m)) ;;
  c3 <- row_at row 3 ;;
  d <- py_int_cell c3 ;;
  c4 <- row_at row 4 ;;
  ret (add_tedge st (mkTEdge src tgt (Some m) (route_cost src tgt d) (route_capacity c4))).

Definition edge_row_step (st : BState) (row : list cell) : exc BState :=
  if skip_row row then ret st
  else
    c0 <- row_at row 0 ;;
    c1 <- row_at row 1 ;;
    exc_fold (route_month_step (cell_text c0) (cell_text c1) row) layer_network_list st.

(** The whole network of [optimize], before any variable is created. *)
Definition build_network (node_rows edge_rows : list (list cell)) : exc BState :=
  st <- build_nodes node_rows ;;
  exc_fold edge_row_step (tl edge_rows) st.

(** ** Supply and demand (lines 435-445) *)

Definition calc_supply_demand (n : Node) (p : Product) : Z :=
  match p with
  | Steel => steel n
  | TurbineInstalled => - turbine n
  | _ => 0
  end.

(** ** Node identity *)

(** What [node_id] is made of: the location name and the layer. *)
Definition node_key (n : Node) : string * Layer := (name n, month n).

(** [row[0]], the location name of a facility row. *)
Definition row_name (row : list cell) : string :=
  match row with c :: _ => cell_text c | [] => ""%string end.

Definition row_is_site (row : list cell) : bool :=
  match nth_error row 3 with Some c => cell_is c kind_site | None => false end.

(** The nodes a facility row adds: its twelve months, then the aggregate
    node of an installation site. *)
Definition row_keys (row : list cell) : list (string * Layer) :=
  map (fun m => (row_name row, LMonth m)) layer_network_list ++
  (if row_is_site row then [(row_name row, LSentinel)] else []).

(** The rows the facility loop does not skip (lines 164-167). *)
Definition facility_rows (node_rows : list (list cell)) : list (list cell) :=
  List.filter (fun r => negb (skip_row r)) (tl node_rows).

(** ** Every edge is attached to nodes of the node list *)

Record closed (st : BState) : Prop := {
  cl_t : forall e, In e (transportation_list st) ->
           In (t_source e) (node_list st) /\ In (t_target e) (node_list st);
  cl_p : forall e, In e (production_list st) -> In (p_node e) (node_list st);
  cl_s : forall e, In e (storage_list st) ->
           In (s_source e) (node_list st) /\ In (s_target e) (node_list st)
}.

(** The shape of the edges of the time-expanded network: routes join two
    nodes of their month, sink edges join a month node of a location to
    that location's aggregate node, storage edges join two consecutive
    months of one location, and production edges sit on month nodes. *)
Record shaped (st : BState) : Prop := {
  sh_t : forall e, In e (transportation_list st) ->
           (exists m, t_month e = Some m /\ snd (node_key (t_source e)) = LMonth m /\
                      snd (node_key (t_target e)) = LMonth m) \/
           (exists m, t_month e = None /\ snd (node_key (t_source e)) = LMonth m /\
                      node_key (t_target e) = (fst (node_key (t_source e)), LSentinel));
  sh_p : forall e, In e (production_list st) -> exists m, snd (node_key (p_node e)) = LMonth m;
  sh_s : forall e, In e (storage_list st) ->
           exists nm m, m <> M11 /\ s_month e = prev_month m /\
                        node_key (s_source e) = (nm, LMonth (prev_month m)) /\
                        node_key (s_target e) = (nm, LMonth m)
}.

Lemma find_node_in ns id n : find_node ns id = inr n -> In n ns /\ node_id n = id.
Proof.
  unfold find_node; intros H; apply py_find_spec in H as [Hin Heq].
  split; [exact Hin | apply String.eqb_eq, Heq].
Qed.

Lemma closed_empty : closed bstate_empty.
Proof. constructor; intros _ []. Qed.

Lemma closed_add_node st n : closed st -> closed (add_node st n).
Proof.
  intros [Ht Hp Hs]; constructor; cbn; intros e He; rewrite ?in_app_iff;
    [destruct (Ht e He) | | destruct (Hs e He)]; auto.
Qed.

Lemma closed_add_tedge st e :
  closed st -> In (t_source e) (node_list st) -> In (t_target e) (node_list st) ->
  closed (add_tedge st e).
Proof.
  intros [Ht Hp Hs] H1 H2; constructor; cbn; auto.
  intros e' He'; apply in_app_iff in He' as [He'|[<-|[]]]; auto.
Qed.

Lemma closed_add_pedge st e : closed st -> In (p_node e) (node_list st) -> closed (add_pedge st e).
Proof.
  intros [Ht Hp Hs] H; constructor; cbn; auto.
  intros e' He'; apply in_app_iff in He' as [He'|[<-|[]]]; auto.
Qed.

Lemma closed_add_sedge st e :
  closed st -> In (s_source e) (node_list st) -> In (s_target e) (node_list st) ->
  closed (add_sedge st e).
Proof.
  intros [Ht Hp Hs] H1 H2; constructor; cbn; auto.
  intros e' He'; apply in_app_iff in He' as [He'|[<-|[]]]; auto.
Qed.

#[export] Hint Resolve closed_empty closed_add_node closed_add_tedge closed_add_pedge
  closed_add_sedge : calc.

(** Run a successful builder step, resolving each node lookup to a member
    of the node list. *)
Ltac builder_inv H :=
  repeat match type of H with
  | exc_bind ?m _ = inr _ =>
      let a := fresh "a" in let Ha := fresh "Ha" in
      apply exc_bind_inr in H; destruct H as [a [Ha H]];
      try (apply find_node_in in Ha; destruct Ha as [Ha ?])
  | inr _ = inr _ => injection H as <-
  | ret _ = inr _ => unfold ret in H; injection H as <-
  end.

Lemma add_production_edges_closed node m st st' :
  closed st -> add_production_edges node m st = inr st' -> closed st'.
Proof.
  intros Hc H; refine (exc_fold_inv _ _ _ _ _ _ Hc H).
  intros s0 [ti t] s1 _ Hc0 Hs; cbn [snd] in Hs.
  destruct (role node t); [builder_inv Hs | injection Hs as <-; exact Hc0].
  apply closed_add_pedge; [exact Hc0 | exact Ha].
Qed.

Lemma add_storage_edge_closed node index m st st' :
  closed st -> add_storage_edge node index m st = inr st' -> closed st'.
Proof.
  unfold add_storage_edge; intros Hc H.
  destruct (Nat.eqb index 0); [injection H as <-; exact Hc|].
  builder_inv H; apply closed_add_sedge; [exact Hc | exact Ha | exact Ha0].
Qed.

Lemma month_step_closed row acc im acc' :
  closed (fst acc) -> month_step row acc im = inr acc' -> closed (fst acc').
Proof.
  destruct acc as [st sss], im as [index m]; cbn [fst]; intros Hc H; unfold month_step in H.
  apply exc_bind_inr in H as [[node sss'] [_ H]].
  apply exc_bind_inr in H as [st2 [H2 H]]. apply exc_bind_inr in H as [st3 [H3 H]].
  injection H as <-. eapply add_storage_edge_closed; [|exact H3].
  eapply add_production_edges_closed; [|exact H2]. auto with calc.
Qed.

Lemma add_aggregate_closed row st st' : closed st -> add_aggregate row st = inr st' -> closed st'.
Proof.
  unfold add_aggregate; intros Hc H. apply exc_bind_inr in H as [c3 [_ H]].
  destruct (cell_is c3 kind_site); [|injection H as <-; exact Hc].
  builder_inv H.
  (* the aggregate node stays in the list while the sink edges are added *)
  revert H; match goal with |- exc_fold _ _ ?s = _ -> _ => set (st1 := s) end.
  intros H; apply (exc_fold_inv (fun s => closed s /\ node_list s = node_list st1)) in H as [H _].
  - exact H.
  - intros s0 m s1 _ [Hc0 Hn0] Hs; builder_inv Hs; split; [|exact Hn0].
    apply closed_add_tedge; [exact Hc0 | assumption |].
    rewrite Hn0; cbn; apply in_app_iff; right; left; reflexivity.
  - split; [apply closed_add_node, Hc | reflexivity].
Qed.

Lemma node_row_step_closed st row st' : closed st -> node_row_step st row = inr st' -> closed st'.
Proof.
  unfold node_row_step; intros Hc H. destruct (skip_row row); [injection H as <-; exact Hc|].
  apply exc_bind_inr in H as [[st1 sss] [H1 H]].
  eapply add_aggregate_closed; [|exact H].
  refine (exc_fold_inv (fun acc => closed (fst acc)) (month_step row) enumerate_months
            (st, dict_empty) (st1, sss) _ Hc H1).
  intros s0 x s1 _; apply month_step_closed.
Qed.

Lemma route_month_step_closed sn tn row st m st' :
  closed st -> route_month_step sn tn row st m = inr st' -> closed st'.
Proof.
  unfold route_month_step; intros Hc H; builder_inv H.
  apply closed_add_tedge; [exact Hc | exact Ha | exact Ha0].
Qed.

Lemma edge_row_step_closed st row st' : closed st -> edge_row_step st row = inr st' -> closed st'.
Proof.
  unfold edge_row_step; intros Hc H. destruct (skip_row row); [injection H as <-; exact Hc|].
  apply exc_bind_inr in H as [c0 [_ H]]. apply exc_bind_inr in H as [c1 [_ H]].
  exact (exc_fold_inv closed _ _ _ _ (fun s0 m s1 _ => route_month_step_closed _ _ row s0 m s1) Hc H).
Qed.

(** Every edge [build_network] creates joins nodes of the node list it
    builds: node lookups return members of the list, the list only grows,
    and the aggregate node is added before its sink edges. *)
Lemma build_network_closed node_rows edge_rows st :
  build_network node_rows edge_rows = inr st -> closed st.
Proof.
  unfold build_network, build_nodes; intros H.
  apply exc_bind_inr in H as [st0 [H0 H]].
  refine (exc_fold_inv closed _ _ _ _ (fun s0 r s1 _ => edge_row_step_closed s0 r s1) _ H).
  exact (exc_fold_inv closed _ _ _ _ (fun s0 r s1 _ => node_row_step_closed s0 r s1) closed_empty H0).
Qed.

(** ** The node list a facility table produces *)

Lemma row_at_0_name row c : row_at row 0 = inr c -> row_name row = cell_text c.
Proof. destruct row; cbn; [discriminate | intros H; injection H as ->; reflexivity]. Qed.

Lemma row_at_3_site row c : row_at row 3 = inr c -> row_is_site row = cell_is c kind_site.
Proof. unfold row_at, row_is_site; destruct (nth_error row 3); [intros H; injection H as ->|]; easy. Qed.

Lemma build_month_node_key row index m sss n sss' :
  build_month_node row index m sss = inr (n, sss') -> node_key n = (row_name row, LMonth m).
Proof.
  unfold build_month_node; intros H. apply exc_bind_inr in H as [c0 [H0 H]].
  exc_inv_pairs H. unfold ret in H; injection H as <- _. rewrite (row_at_0_name _ _ H0); reflexivity.
Qed.

Lemma add_production_edges_nodes node m st st' :
  add_production_edges node m st = inr st' -> node_list st' = node_list st.
Proof.
  intros H; refine (exc_fold_inv (fun s => node_list s = node_list st) _ _ _ _ _ eq_refl H).
  intros s0 [ti t] s1 _ E Hs; cbn [snd] in Hs.
  destruct (role node t); [builder_inv Hs; exact E | injection Hs as <-; exact E].
Qed.

Lemma add_storage_edge_nodes node index m st st' :
  add_storage_edge node index m st = inr st' -> node_list st' = node_list st.
Proof.
  unfold add_storage_edge; destruct (Nat.eqb index 0); intros H; [injection H as <-|builder_inv H];
    reflexivity.
Qed.

Lemma month_step_keys row acc im acc' :
  month_step row acc im = inr acc' ->
  map node_key (node_list (fst acc')) = map node_key (node_list (fst acc)) ++ [(row_name row, LMonth (snd im))].
Proof.
  destruct acc as [st sss], im as [index m]; unfold month_step; intros H.
  apply exc_bind_inr in H as [[node sss'] [Hb H]].
  apply exc_bind_inr in H as [st2 [H2 H]]. apply exc_bind_inr in H as [st3 [H3 H]].
  injection H as <-; cbn [fst snd].
  rewrite (add_storage_edge_nodes _ _ _ _ _ H3), (add_production_edges_nodes _ _ _ _ H2).
  cbn [node_list add_node]; rewrite map_app; cbn [map].
  rewrite (build_month_node_key _ _ _ _ _ _ Hb); reflexivity.
Qed.

Lemma add_aggregate_keys row st st' :
  add_aggregate row st = inr st' ->
  map node_key (node_list st') =
  map node_key (node_list st) ++ (if row_is_site row then [(row_name row, LSentinel)] else []).
Proof.
  unfold add_aggregate; intros H. apply exc_bind_inr in H as [c3 [H3 H]].
  rewrite (row_at_3_site _ _ H3). destruct (cell_is c3 kind_site);
    [|injection H as <-; rewrite app_nil_r; reflexivity].
  apply exc_bind_inr in H as [c0 [H0 H]]. exc_inv H.
  match type of H with exc_fold _ _ ?s = _ => set (st1 := s) in H end.
  assert (E : node_list st' = node_list st1).
  { refine (exc_fold_inv (fun s => node_list s = node_list st1) _ _ _ _ _ eq_refl H).
    intros s0 m s1 _ E Hs; builder_inv Hs; exact E. }
  rewrite E; subst st1; cbn [node_list add_node]; rewrite map_app; cbn [map].
  rewrite (row_at_0_name _ _ H0); reflexivity.
Qed.

Lemma node_row_step_keys st row st' :
  node_row_step st row = inr st' ->
  map node_key (node_list st') =
  map node_key (node_list st) ++ (if skip_row row then [] else row_keys row).
Proof.
  unfold node_row_step; destruct (skip_row row);
    [intros H; injection H as <-; rewrite app_nil_r; reflexivity|].
  intros H; apply exc_bind_inr in H as [[st1 sss] [H1 H]].
  rewrite (add_aggregate_keys _ _ _ H).
  rewrite (exc_fold_trace (month_step row) (fun acc => map node_key (node_list (fst acc)))
             (fun im => [(row_name row, LMonth (snd im))]) _ _ _
             (fun s0 x s1 _ => month_step_keys row s0 x s1) H1).
  unfold row_keys; cbn [fst]; rewrite <- app_assoc; reflexivity.
Qed.

Lemma flat_map_skip (rows : list (list cell)) :
  flat_map (fun r => if skip_row r then [] else row_keys r) rows =
  flat_map row_keys (List.filter (fun r => negb (skip_row r)) rows).
Proof.
  induction rows as [|r rows IH]; [reflexivity|]; cbn [flat_map List.filter].
  destruct (skip_row r); cbn [negb flat_map]; rewrite IH; reflexivity.
Qed.

Lemma build_nodes_keys node_rows st :
  build_nodes node_rows = inr st ->
  map node_key (node_list st) = flat_map row_keys (facility_rows node_rows).
Proof.
  unfold build_nodes, facility_rows; intros H.
  rewrite (exc_fold_trace node_row_step (fun s => map node_key (node_list s))
             (fun r => if skip_row r then [] else row_keys r) _ _ _
             (fun s0 r s1 _ => node_row_step_keys s0 r s1) H).
  apply flat_map_skip.
Qed.

Lemma edge_row_step_nodes st row st' : edge_row_step st row = inr st' -> node_list st' = node_list st.
Proof.
  unfold edge_row_step; destruct (skip_row row); intros H; [injection H as <-; reflexivity|].
  apply exc_bind_inr in H as [c0 [_ H]]. apply exc_bind_inr in H as [c1 [_ H]].
  refine (exc_fold_inv (fun s => node_list s = node_list st) _ _ _ _ _ eq_refl H).
  intros s0 m s1 _ E Hs; unfold route_month_step in Hs; builder_inv Hs; exact E.
Qed.

Lemma build_network_keys node_rows edge_rows st :
  build_network node_rows edge_rows = inr st ->
  map node_key (node_list st) = flat_map row_keys (facility_rows node_rows).
Proof.
  unfold build_network; intros H. apply exc_bind_inr in H as [st0 [H0 H]].
  rewrite (exc_fold_inv (fun s => node_list s = node_list st0) _ _ _ _
             (fun s0 r s1 _ E Hs => eq_trans (edge_row_step_nodes _ _ _ Hs) E) eq_refl H).
  exact (build_nodes_keys _ _ H0).
Qed.

(** ** Distinct locations give distinct node ids *)

Lemma layer_label_inj l1 l2 : layer_label l1 = layer_label l2 -> l1 = l2.
Proof. destruct l1 as [[]|], l2 as [[]|]; cbn; intros H; (reflexivity || discriminate). Qed.

Lemma layer_label_no_sep l :
  ~ In "_"%char (list_ascii_of_string (layer_label l) ++ [")"%char]).
Proof. destruct l as [[]|]; vm_compute; intuition discriminate. Qed.

(** [f"({name}_{month})"] determines the name and the layer: no layer
    label contains an underscore, so the id splits at its last one. *)
Lemma id_of_inj a b l1 l2 : id_of a l1 = id_of b l2 -> a = b /\ l1 = l2.
Proof.
  unfold id_of; intros H. apply (f_equal list_ascii_of_string) in H.
  rewrite !list_ascii_of_string_app in H; cbn [list_ascii_of_string app] in H.
  injection H as H.
  destruct (app_sep_inj _ _ _ _ _ H (layer_label_no_sep l1) (layer_label_no_sep l2)) as [Ha Hl].
  apply app_inj_tail in Hl as [Hl _].
  split; [apply list_ascii_of_string_inj, Ha | apply layer_label_inj, list_ascii_of_string_inj, Hl].
Qed.

Lemma node_id_key n : node_id n = id_of (fst (node_key n)) (snd (node_key n)).
Proof. reflexivity. Qed.

Lemma NoDup_node_ids ns : List.NoDup (map node_key ns) -> List.NoDup (map node_id ns).
Proof.
  intros H. rewrite (map_ext node_id (fun n => id_of (fst (node_key n)) (snd (node_key n))))
    by (intros; apply node_id_key).
  rewrite <- (map_map node_key (fun k => id_of (fst k) (snd k))).
  apply NoDup_map_NoDup_ForallPairs; [|exact H].
  intros [a l1] [b l2] _ _ E; cbn [fst snd] in E; destruct (id_of_inj _ _ _ _ E) as [-> ->]; reflexivity.
Qed.

Lemma row_keys_names row k : In k (row_keys row) -> fst k = row_name row.
Proof.
  unfold row_keys; rewrite in_app_iff, in_map_iff; intros [[m [<- _]]|Hk]; [reflexivity|].
  destruct (row_is_site row); [destruct Hk as [<-|[]]; reflexivity | destruct Hk].
Qed.

Lemma row_keys_NoDup row : List.NoDup (row_keys row).
Proof.
  unfold row_keys; destruct (row_is_site row); cbn;
    repeat constructor; cbn; intuition discriminate.
Qed.

Lemma NoDup_flat_row_keys rows :
  List.NoDup (map row_name rows) -> List.NoDup (flat_map row_keys rows).
Proof.
  induction rows as [|r rows IH]; cbn [map flat_map]; intros H; [constructor|].
  apply NoDup_cons_iff in H as [Hr Hd].
  apply List.NoDup_app; [apply row_keys_NoDup | auto |].
  intros k Hk Hk'. apply in_flat_map in Hk' as [r' [Hr' Hk'']].
  apply Hr. rewrite <- (row_keys_names _ _ Hk), (row_keys_names _ _ Hk'').
  apply in_map, Hr'.
Qed.

(** The nodes of a network built from a facility table whose (non-skipped)
    rows name distinct locations have distinct ids. *)
Lemma build_network_node_ids node_rows edge_rows st :
  build_network node_rows edge_rows = inr st ->
  List.NoDup (map row_name (facility_rows node_rows)) ->
  List.NoDup (map node_id (node_list st)).
Proof.
  intros H Hd; apply NoDup_node_ids; rewrite (build_network_keys _ _ _ H).
  apply NoDup_flat_row_keys, Hd.
Qed.

(** ** The shape of the edges *)

Lemma find_node_key ns nm l n :
  find_node ns (id_of nm l) = inr n -> In n ns /\ node_key n = (nm, l).
Proof.
  intros H; apply find_node_in in H as [Hin Hid]; split; [exact Hin|].
  rewrite node_id_key in Hid; apply id_of_inj in Hid as [A B].
  destruct (node_key n); cbn in *; subst; reflexivity.
Qed.

Lemma shaped_empty : shaped bstate_empty.
Proof. constructor; intros _ []. Qed.

Lemma shaped_add_node st n : shaped st -> shaped (add_node st n).
Proof. intros [Ht Hp Hs]; constructor; assumption. Qed.

Lemma shaped_add_tedge st e :
  shaped st ->
  (exists m, t_month e = Some m /\ snd (node_key (t_source e)) = LMonth m /\
             snd (node_key (t_target e)) = LMonth m) \/
  (exists m, t_month e = None /\ snd (node_key (t_source e)) = LMonth m /\
             node_key (t_target e) = (fst (node_key (t_source e)), LSentinel)) ->
  shaped (add_tedge st e).
Proof.
  intros [Ht Hp Hs] He; constructor; cbn [transportation_list production_list storage_list add_tedge add_pedge add_sedge]; auto.
  intros e' H'; apply in_app_iff in H' as [H'|[<-|[]]]; auto.
Qed.

Lemma shaped_add_pedge st e :
  shaped st -> (exists m, snd (node_key (p_node e)) = LMonth m) -> shaped (add_pedge st e).
Proof.
  intros [Ht Hp Hs] He; constructor; cbn [transportation_list production_list storage_list add_tedge add_pedge add_sedge]; auto.
  intros e' H'; apply in_app_iff in H' as [H'|[<-|[]]]; auto.
Qed.

Lemma shaped_add_sedge st e :
  shaped st ->
  (exists nm m, m <> M11 /\ s_month e = prev_month m /\
                node_key (s_source e) = (nm, LMonth (prev_month m)) /\
                node_key (s_target e) = (nm, LMonth m)) ->
  shaped (add_sedge st e).
Proof.
  intros [Ht Hp Hs] He; constructor; cbn [transportation_list production_list storage_list add_tedge add_pedge add_sedge]; auto.
  intros e' H'; apply in_app_iff in H' as [H'|[<-|[]]]; auto.
Qed.

Lemma enumerate_months_index i m : In (i, m) enumerate_months -> i = month_index m.
Proof.
  cbn; intros H; repeat (destruct H as [H|H]; [injection H as <- <-; reflexivity|]); destruct H.
Qed.

(** Resolve the node lookups of a successful builder step to their keys. *)
Ltac builder_keys H :=
  repeat match type of H with
  | exc_bind ?m _ = inr _ =>
      let a := fresh "a" in let Ha := fresh "Ha" in
      apply exc_bind_inr in H; destruct H as [a [Ha H]];
      try (apply find_node_key in Ha; destruct Ha as [? Ha])
  | inr _ = inr _ => injection H as <-
  | ret _ = inr _ => unfold ret in H; injection H as <-
  end.

Lemma add_production_edges_shaped node m st st' :
  shaped st -> add_production_edges node m st = inr st' -> shaped st'.
Proof.
  intros Hc H; refine (exc_fold_inv _ _ _ _ _ _ Hc H).
  intros s0 [ti t] s1 _ Hc0 Hs; cbn [snd] in Hs.
  destruct (role node t); [builder_keys Hs | injection Hs as <-; exact Hc0].
  apply shaped_add_pedge; [exact Hc0|]. exists m; cbn [p_node]; rewrite Ha; reflexivity.
Qed.

Lemma add_storage_edge_shaped node index m st st' :
  index = month_index m -> shaped st -> add_storage_edge node index m st = inr st' -> shaped st'.
Proof.
  unfold add_storage_edge; intros Hi Hc H.
  destruct (Nat.eqb index 0) eqn:E0; [injection H as <-; exact Hc|].
  builder_keys H; apply shaped_add_sedge; [exact Hc|].
  exists (name node), m; cbn [s_month s_source s_target]; repeat split; [|exact Ha|exact Ha0].
  intros ->; subst index; discriminate.
Qed.

Lemma month_step_shaped row acc im acc' :
  In im enumerate_months -> shaped (fst acc) -> month_step row acc im = inr acc' -> shaped (fst acc').
Proof.
  destruct acc as [st sss], im as [index m]; cbn [fst]; intros Hi Hc H; unfold month_step in H.
  apply exc_bind_inr in H as [[node sss'] [_ H]].
  apply exc_bind_inr in H as [st2 [H2 H]]. apply exc_bind_inr in H as [st3 [H3 H]].
  injection H as <-. eapply add_storage_edge_shaped; [exact (enumerate_months_index _ _ Hi) | | exact H3].
  eapply add_production_edges_shaped; [|exact H2]. apply shaped_add_node, Hc.
Qed.

Lemma add_aggregate_shaped row st st' : shaped st -> add_aggregate row st = inr st' -> shaped st'.
Proof.
  unfold add_aggregate; intros Hc H. apply exc_bind_inr in H as [c3 [_ H]].
  destruct (cell_is c3 kind_site); [|injection H as <-; exact Hc].
  builder_inv H.
  refine (exc_fold_inv shaped _ _ _ _ _ (shaped_add_node _ _ Hc) H).
  intros s0 m s1 _ Hc0 Hs; builder_keys Hs. apply shaped_add_tedge; [exact Hc0|].
  right; exists m; cbn [t_month t_source t_target].
  match goal with K : node_key _ = (_, LMonth m) |- _ => rewrite K end; repeat split; reflexivity.
Qed.

Lemma node_row_step_shaped st row st' : shaped st -> node_row_step st row = inr st' -> shaped st'.
Proof.
  unfold node_row_step; intros Hc H. destruct (skip_row row); [injection H as <-; exact Hc|].
  apply exc_bind_inr in H as [[st1 sss] [H1 H]].
  eapply add_aggregate_shaped; [|exact H].
  refine (exc_fold_inv (fun acc => shaped (fst acc)) (month_step row) enumerate_months
            (st, dict_empty) (st1, sss) _ Hc H1).
  intros s0 x s1 Hx; apply month_step_shaped, Hx.
Qed.

Lemma route_month_step_shaped sn tn row st m st' :
  shaped st -> route_month_step sn tn row st m = inr st' -> shaped st'.
Proof.
  unfold route_month_step; intros Hc H; builder_keys H.
  apply shaped_add_tedge; [exact Hc|]. left; exists m; cbn [t_month t_source t_target].
  rewrite Ha, Ha0; repeat split.
Qed.

Lemma edge_row_step_shaped st row st' : shaped st -> edge_row_step st row = inr st' -> shaped st'.
Proof.
  unfold edge_row_step; intros Hc H. destruct (skip_row row); [injection H as <-; exact Hc|].
  apply exc_bind_inr in H as [c0 [_ H]]. apply exc_bind_inr in H as [c1 [_ H]].
  exact (exc_fold_inv shaped _ _ _ _ (fun s0 m s1 _ => route_month_step_shaped _ _ row s0 m s1) Hc H).
Qed.

(** C14: the network [build_network] builds is time-expanded as the
    specification describes it: every route edge joins two nodes of the
    month it belongs to, every sink edge joins a month node of a location
    to the aggregate node of the same location, every storage edge joins
    the nodes of one location in two consecutive months (never into the
    first month) and records the earlier one, and every production edge
    sits on a month node. *)
Theorem build_network_shaped node_rows edge_rows st :
  build_network node_rows edge_rows = inr st -> shaped st.
Proof.
  unfold build_network, build_nodes; intros H.
  apply exc_bind_inr in H as [st0 [H0 H]].
  refine (exc_fold_inv shaped _ _ _ _ (fun s0 r s1 _ => edge_row_step_shaped s0 r s1) _ H).
  exact (exc_fold_inv shaped _ _ _ _ (fun s0 r s1 _ => node_row_step_shaped s0 r s1) shaped_empty H0).
Qed.

(** ** Routes naming an unknown location *)

Lemma find_node_absent ns nm l :
  (forall n, In n ns -> name n <> nm) -> find_node ns (id_of nm l) = inl ValueError.
Proof.
  intros H; apply py_find_none; intros n Hn; apply String.eqb_neq; intros E.
  rewrite node_id_key in E; apply id_of_inj in E as [E _]. exact (H n Hn E).
Qed.

(** C15: a route row whose source or target names a location that has no
    node raises [ValueError] from the first month's lookup (lines
    400-401), the fatal lookup failure of the specification. *)
Theorem route_unknown_location st row c0 c1 :
  skip_row row = false -> row_at row 0 = inr c0 -> row_at row 1 = inr c1 ->
  (forall n, In n (node_list st) -> name n <> cell_text c0) \/
  (forall n, In n (node_list st) -> name n <> cell_text c1) ->
  edge_row_step st row = inl ValueError.
Proof.
  intros Hs H0 H1 Hu; unfold edge_row_step; rewrite Hs, H0, H1; cbn [exc_bind].
  unfold layer_network_list; cbn [exc_fold]; unfold route_month_step.
  destruct (find_node (node_list st) (id_of (cell_text c0) (LMonth M11))) as [e|src] eqn:Es;
    cbn [exc_bind].
  - apply py_find_spec_inl in Es as ->; reflexivity.
  - destruct Hu as [Hu|Hu].
    + rewrite (find_node_absent _ _ _ Hu) in Es; discriminate.
    + rewrite (find_node_absent _ _ _ Hu); reflexivity.
Qed.

(** ** Vessel costs in integer arithmetic *)

Lemma days_agree_spec knots div d0 fuel :
  days_agree knots div d0 fuel = true ->
  forall d, (d0 <= d < d0 + Z.of_nat fuel)%Z -> sailing_days d knots = ((1000 * d + div - 1) / div)%Z.
Proof.
  revert d0; induction fuel as [|f IH]; intros d0 H d Hd; [lia|].
  cbn [days_agree] in H; apply andb_prop in H as [H1 H2].
  destruct (Z.eq_dec d d0) as [->|Hne]; [apply Z.eqb_eq, H1|].
  apply (IH (d0 + 1)%Z H2); lia.
Qed.

(** [math.ceil(d / (24*10*1.852))] in floats is the integer ceiling of
    [1000 d / 444480] on every distance up to [max_route_km], and at five
    knots of [1000 d / 222240]: no float quotient of an exact multiple of
    a day's sailing lands above the integer.  Checked by evaluation. *)
Lemma sailing_days_10 d : (0 <= d <= max_route_km)%Z -> sailing_days d 10 = ((1000 * d + 444479) / 444480)%Z.
Proof.
  intros Hd. rewrite (days_agree_spec 10 444480 0 (S (Z.to_nat max_route_km)));
    [f_equal; lia | vm_compute; reflexivity | unfold max_route_km in *; lia].
Qed.

Lemma sailing_days_5 d : (0 <= d <= max_route_km)%Z -> sailing_days d 5 = ((1000 * d + 222239) / 222240)%Z.
Proof.
  intros Hd. rewrite (days_agree_spec 5 222240 0 (S (Z.to_nat max_route_km)));
    [f_equal; lia | vm_compute; reflexivity | unfold max_route_km in *; lia].
Qed.

(** C16: the vessel cost of a route (lines 423-428), computed with
    Python floats, is on every route up to [max_route_km] the exact
    integer formula of the specification: two vessels' day rate times
    the sailing days [ceil(d / (24 * speed * 1.852))] rounded up in exact
    arithmetic, plus the distance; a route of positive length is
    charged at least one day. *)
Theorem vessel_cost_closed_form src tgt d :
  (0 <= d <= max_route_km)%Z ->
  vessel_cost src tgt d =
  (if cell_is (kind src) kind_base_port && cell_is (kind tgt) kind_site
   then 20200000 * ((1000 * d + 444479) / 444480) + d
   else 5948000 * ((1000 * d + 222239) / 222240) + d)%Z /\
  ((0 < d)%Z -> (5948000 + d <= vessel_cost src tgt d)%Z).
Proof.
  intros Hd. unfold vessel_cost, ship_installation_cost, ship_foundation_cost.
  rewrite (sailing_days_10 d Hd), (sailing_days_5 d Hd). split; [destruct (_ && _); lia|].
  intros Hd0. assert (A : (1 <= (1000 * d + 444479) / 444480)%Z)
    by (apply Z.div_le_lower_bound; lia).
  assert (B : (1 <= (1000 * d + 222239) / 222240)%Z) by (apply Z.div_le_lower_bound; lia).
  destruct (_ && _); lia.
Qed.
