(* ===== verification/NetworkSpec.v ===== *)
(** * Which production edges the builder creates (lines 165-307)

    The specification asks for one production edge per active capability
    of every month node.  This file states that description as a function
    of the facility table ([row_production]: for every facility row, every
    month and every capability the row's cells make active, in the order
    of [task_list], wet storage excluded) and proves that the builder's
    [production_list] is exactly that list, by the (location, month) key of
    the edge's node and its function.  The key of the node an edge is
    attached to is the one looked up, even when two rows share a name,
    because a node id determines its key ([find_node_key]). *)

From S2P Require Import Prelude Data Carry Network.
From Stdlib Require Import Ascii.

Local Open Scope calc_scope.

(** The capability flags of a facility row (lines 186-225): the kind in
    [row[3]], the wet-storage flag in [row[4]], the offshore flag in
    [row[7]]. *)
Definition row_roles (row : list cell) : Role -> bool :=
  node_role (nth 3 row CEmpty) (nth 4 row CEmpty) (nth 7 row CEmpty).

(** The production edges a facility row should give: for every month, one
    per active capability of [task_list] (line 291 drops wet storage). *)
Definition row_production (row : list cell) : list ((string * Layer) * Role) :=
  flat_map (fun m => map (fun t => ((row_name row, LMonth m), t)) (List.filter (row_roles row) (map snd task_list)))
           layer_network_list.

(** The key of a production edge: the (location, month) of its node and
    its function. *)
Definition pedge_key (e : PEdge) : (string * Layer) * Role := (node_key (p_node e), p_function e).

(** ** Lemmas *)

Lemma row_at_nth row i c : row_at row i = inr c -> nth i row CEmpty = c.
Proof.
  unfold row_at; destruct (nth_error row i) eqn:E; [intros [= <-]; apply nth_error_nth, E | discriminate].
Qed.

Lemma build_month_node_roles row index m sss n sss' :
  build_month_node row index m sss = inr (n, sss') -> role n = row_roles row.
Proof.
  unfold build_month_node; intros H. exc_inv_pairs H. unfold ret in H; injection H as <- _. cbn [role].
  unfold row_roles. rewrite (row_at_nth _ _ _ Ha2), (row_at_nth _ _ _ Ha3), (row_at_nth _ _ _ Ha5).
  reflexivity.
Qed.

Lemma flat_map_guard {A B} (p : A -> bool) (g : A -> B) l :
  flat_map (fun x => if p x then [g x] else []) l = map g (List.filter p l).
Proof. induction l as [|x l IH]; cbn; [reflexivity|]; destruct (p x); cbn; rewrite IH; reflexivity. Qed.

Lemma flat_map_map_snd {A B C} (h : B -> list C) (l : list (A * B)) :
  flat_map h (map snd l) = flat_map (fun x => h (snd x)) l.
Proof. induction l as [|x l IH]; cbn; [reflexivity|]; rewrite IH; reflexivity. Qed.

Lemma add_production_edges_keys node m st st' :
  add_production_edges node m st = inr st' ->
  map pedge_key (production_list st') =
  map pedge_key (production_list st) ++
  map (fun t => ((name node, LMonth m), t)) (List.filter (role node) (map snd task_list)).
Proof.
  intros H. rewrite <- flat_map_guard, flat_map_map_snd.
  refine (exc_fold_trace _ (fun s => map pedge_key (production_list s))
            (fun t => if role node (snd t) then [((name node, LMonth m), snd t)] else []) _ _ _ _ H).
  intros s0 [ti t] s1 _ Hs; cbn [snd] in *. destruct (role node t); [|injection Hs as <-; rewrite app_nil_r; reflexivity].
  exc_inv Hs. unfold ret in Hs; injection Hs as <-. cbn [production_list add_pedge].
  rewrite map_app; cbn [map]. unfold pedge_key at 2; cbn [p_node p_function].
  rewrite (proj2 (find_node_key _ _ _ _ Ha)); reflexivity.
Qed.

Lemma add_storage_edge_production node index m st st' :
  add_storage_edge node index m st = inr st' -> production_list st' = production_list st.
Proof.
  unfold add_storage_edge; destruct (Nat.eqb index 0); intros H; [injection H as <-|builder_inv H];
    reflexivity.
Qed.

Lemma month_step_production row acc im acc' :
  month_step row acc im = inr acc' ->
  map pedge_key (production_list (fst acc')) =
  map pedge_key (production_list (fst acc)) ++
  map (fun t => ((row_name row, LMonth (snd im)), t)) (List.filter (row_roles row) (map snd task_list)).
Proof.
  destruct acc as [st sss], im as [index m]; unfold month_step; intros H.
  apply exc_bind_inr in H as [[node sss'] [Hb H]].
  apply exc_bind_inr in H as [st2 [H2 H]]. apply exc_bind_inr in H as [st3 [H3 H]].
  injection H as <-; cbn [fst snd].
  rewrite (add_storage_edge_production _ _ _ _ _ H3), (add_production_edges_keys _ _ _ _ H2).
  pose proof (build_month_node_key _ _ _ _ _ _ Hb) as Hk; injection Hk as Hn _.
  rewrite Hn, (build_month_node_roles _ _ _ _ _ _ Hb); reflexivity.
Qed.

Lemma add_aggregate_production row st st' :
  add_aggregate row st = inr st' -> production_list st' = production_list st.
Proof.
  unfold add_aggregate; intros H. apply exc_bind_inr in H as [c3 [_ H]].
  destruct (cell_is c3 kind_site); [|injection H as <-; reflexivity].
  exc_inv H.
  match type of H with exc_fold _ _ ?s = _ => set (st1 := s) in H end.
  refine (exc_fold_inv (fun s => production_list s = production_list st1) _ _ _ _ _ eq_refl H).
  intros s0 m s1 _ E Hs; builder_inv Hs; exact E.
Qed.

Lemma node_row_step_production st row st' :
  node_row_step st row = inr st' ->
  map pedge_key (production_list st') =
  map pedge_key (production_list st) ++ (if skip_row row then [] else row_production row).
Proof.
  unfold node_row_step; destruct (skip_row row);
    [intros H; injection H as <-; rewrite app_nil_r; reflexivity|].
  intros H; apply exc_bind_inr in H as [[st1 sss] [H1 H]].
  rewrite (add_aggregate_production _ _ _ H).
  exact (exc_fold_trace (month_step row) (fun acc => map pedge_key (production_list (fst acc)))
           (fun im => map (fun t => ((row_name row, LMonth (snd im)), t))
                          (List.filter (row_roles row) (map snd task_list))) _ _ _
           (fun s0 x s1 _ => month_step_production row s0 x s1) H1).
Qed.

Lemma edge_row_step_production st row st' :
  edge_row_step st row = inr st' -> production_list st' = production_list st.
Proof.
  unfold edge_row_step; destruct (skip_row row); intros H; [injection H as <-; reflexivity|].
  apply exc_bind_inr in H as [c0 [_ H]]. apply exc_bind_inr in H as [c1 [_ H]].
  refine (exc_fold_inv (fun s => production_list s = production_list st) _ _ _ _ _ eq_refl H).
  intros s0 m s1 _ E Hs; unfold route_month_step in Hs; builder_inv Hs; exact E.
Qed.

(** ** The production edges of the whole network *)

(** C20: the production edges [build_network] creates are, in order, one
    per facility row, month and active capability of the row: the edge of
    capability [t] at month [m] of row [row] is attached to the node of
    location [row[0]] and month [m], and has function [t]; no edge is
    created for wet storage or for a capability the row's kind and flags do
    not give, and the route rows add none. *)
Theorem build_network_production nr er st :
  build_network nr er = inr st ->
  map pedge_key (production_list st) = flat_map row_production (facility_rows nr).
Proof.
  unfold build_network; intros H. apply exc_bind_inr in H as [st0 [H0 H]].
  rewrite (exc_fold_inv (fun s => production_list s = production_list st0) _ _ _ _
             (fun s0 r s1 _ E Hs => eq_trans (edge_row_step_production _ _ _ Hs) E) eq_refl H).
  unfold build_nodes in H0; unfold facility_rows.
  rewrite (exc_fold_trace node_row_step (fun s => map pedge_key (production_list s))
             (fun r => if skip_row r then [] else row_production r) _ _ _
             (fun s0 r s1 _ => node_row_step_production s0 r s1) H0).
  cbn [production_list bstate_empty map app]; clear H0 H.
  induction (tl nr) as [|r rows IH]; [reflexivity|]; cbn [flat_map List.filter].
  destruct (skip_row r); cbn [negb flat_map]; rewrite ?IH; reflexivity.
Qed.
