(* ===== verification/Totality.v ===== *)
(** * When the network builder succeeds ([optimize], lines 158-432)

    Every read of a CSV cell in the builder can raise: [row[i]] past the
    end of a row ([IndexError]), [float()] or [int()] of a malformed cell
    ([ValueError]), the remainder dictionary [sss] of the module branch
    ([KeyError], C6), the month label of [row[31]] and the node lookups
    ([ValueError]).  This file states, as boolean checks on the tables,
    what a facility row and a route row must contain for none of these to
    happen ([facility_row_ok], [route_row_ok]: the columns the code reads
    are present, hold numbers where the code converts them, the module
    column is empty unless the location fabricates modules, the month of
    [row[31]] is a month label, and a route names locations of the
    facility table), and proves that on such tables [build_network]
    returns a network.  Each check is one of the code's conditions; the
    proof goes through the builder loop by loop, with the node keys of the
    rows already read as the loop invariant. *)

From S2P Require Import Prelude Data Carry Network NetworkSpec.
From Stdlib Require Import Ascii.

Local Open Scope calc_scope.

(** ** The checks *)

(** [float(c)] and [int(c)] succeed. *)
Definition is_float (c : cell) : bool := match c with CInt _ | CDec _ _ => true | _ => false end.
Definition is_int (c : cell) : bool := match c with CInt _ => true | _ => false end.

(** [float(c) if c else d] and [int(c) if c else d] succeed. *)
Definition opt_float (c : cell) : bool := negb (truthy c) || is_float c.
Definition opt_int (c : cell) : bool := negb (truthy c) || is_int c.

Definition exc_ok {A} (m : exc A) : bool := match m with inr _ => true | inl _ => false end.

(** The two cells of task [ti]: the capacity [row[10+3*ti]] is converted
    when the role is active and always for module fabrication (line 244),
    the cost [row[9+3*ti]] when the role is active (line 265). *)
Definition task_cells_ok (row : list cell) (t : nat * Role) : bool :=
  let '(ti, r) := t in
  implb (row_roles row r || bool_decide (r = ModuleFab)) (opt_float (nth (10 + 3 * ti) row CEmpty)) &&
  implb (row_roles row r) (opt_float (nth (9 + 3 * ti) row CEmpty)).

(** A facility row the builder reads without raising. *)
Definition facility_row_ok (row : list cell) : bool :=
  (32 <=? List.length row)%nat &&
  is_float (nth 1 row CEmpty) && is_float (nth 2 row CEmpty) &&
  (if cell_is (nth 4 row CEmpty) "TRUE"
   then opt_float (nth 5 row CEmpty) && opt_int (nth 6 row CEmpty) else true) &&
  forallb (task_cells_ok row) task_list &&
  implb (truthy (nth 10 row CEmpty)) (row_roles row ModuleFab) &&
  implb (row_roles row TurbineInstallation)
        (exc_ok (month_of_label (cell_text (nth 31 row CEmpty) ++ "月")) && opt_int (nth 28 row CEmpty)) &&
  opt_int (nth 29 row CEmpty) &&
  implb (row_is_site row) (opt_int (nth 30 row CEmpty)).

(** A route row the builder reads without raising, given the names of the
    facility table. *)
Definition route_row_ok (names : list string) (row : list cell) : bool :=
  skip_row row ||
  ((5 <=? List.length row)%nat &&
   existsb (String.eqb (cell_text (nth 0 row CEmpty))) names &&
   existsb (String.eqb (cell_text (nth 1 row CEmpty))) names &&
   is_int (nth 3 row CEmpty)).

(** The remainders a month hands to the next: one per active task and for
    module fabrication. *)
Definition sss_ready (row : list cell) (sss : dict Q) : Prop :=
  forall r, In r (map snd task_list) -> r = ModuleFab \/ row_roles row r = true -> is_Some (sss r).

(** The cost and capacity entries [add_production_edges] reads. *)
Definition node_ready (n : Node) : Prop :=
  forall r, In r (map snd task_list) -> role n r = true -> is_Some (cost n r) /\ is_Some (capacity n r).

(** What the loop of line 241 reads from [sss]: the entry of every active
    task, and the module entry when the module cell is not empty. *)
Definition carry_ready (row : list cell) (sss : dict Q) : Prop :=
  forall r, In r (map snd task_list) ->
  row_roles row r = true \/ (r = ModuleFab /\ truthy (nth 10 row CEmpty) = true) -> is_Some (sss r).

(** [facility_row_ok] as propositions, one field per check. *)
Record facility_row_spec (row : list cell) : Prop := {
  fr_length : (32 <= List.length row)%nat;
  fr_lat : is_float (nth 1 row CEmpty) = true;
  fr_lon : is_float (nth 2 row CEmpty) = true;
  fr_wet : cell_is (nth 4 row CEmpty) "TRUE" = true ->
           opt_float (nth 5 row CEmpty) = true /\ opt_int (nth 6 row CEmpty) = true;
  fr_tasks : forall t, In t task_list -> task_cells_ok row t = true;
  fr_module : truthy (nth 10 row CEmpty) = true -> row_roles row ModuleFab = true;
  fr_install : row_roles row TurbineInstallation = true ->
               exc_ok (month_of_label (cell_text (nth 31 row CEmpty) ++ "月")) = true /\
               opt_int (nth 28 row CEmpty) = true;
  fr_steel : opt_int (nth 29 row CEmpty) = true;
  fr_site : row_is_site row = true -> opt_int (nth 30 row CEmpty) = true
}.

(** ** Cells *)

Lemma row_at_ok row i : (i < List.length row)%nat -> row_at row i = inr (nth i row CEmpty).
Proof.
  intros H; unfold row_at. destruct (nth_error row i) eqn:E; [|apply nth_error_None in E; lia].
  rewrite (nth_error_nth _ _ _ E); reflexivity.
Qed.

Lemma py_float_ok c : is_float c = true -> exists x, py_float c = inr x.
Proof. destruct c; cbn; try discriminate; eexists; reflexivity. Qed.

Lemma py_int_cell_ok c : is_int c = true -> exists z, py_int_cell c = inr z.
Proof. destruct c; cbn; try discriminate; eexists; reflexivity. Qed.

Lemma opt_float_ok c : opt_float c = true -> truthy c = true -> exists x, py_float c = inr x.
Proof. unfold opt_float; intros H Ht; rewrite Ht in H; apply py_float_ok, H. Qed.

Lemma opt_int_ok c : opt_int c = true -> truthy c = true -> exists z, py_int_cell c = inr z.
Proof. unfold opt_int; intros H Ht; rewrite Ht in H; apply py_int_cell_ok, H. Qed.

Lemma int_or_ok row i d :
  (i < List.length row)%nat -> opt_int (nth i row CEmpty) = true -> exists z, int_or row i d = inr z.
Proof.
  intros Hi Hc; unfold int_or; rewrite row_at_ok by exact Hi; cbn [exc_bind].
  destruct (truthy (nth i row CEmpty)) eqn:T; [exact (opt_int_ok _ Hc T) | eexists; reflexivity].
Qed.

Lemma float_at_ok row i :
  (i < List.length row)%nat -> is_float (nth i row CEmpty) = true -> exists x, float_at row i = inr x.
Proof. intros Hi Hc; unfold float_at; rewrite row_at_ok by exact Hi; exact (py_float_ok _ Hc). Qed.

(** Totality of an [exc_fold] goal from an invariant [P] (left as the
    step and start goals). *)
Ltac fold_total P :=
  match goal with
  | |- exists _, exc_fold ?f ?l ?s = inr _ =>
      let st' := fresh "st'" in let E := fresh "E" in
      cut (exists s', exc_fold f l s = inr s' /\ P s');
      [intros [st' [E _]]; exists st'; exact E | apply (exc_fold_total P f l s)]
  end.

Ltac ok_split H := repeat match type of H with (_ && _) = true => apply andb_prop in H as [H ?] end.

Lemma facility_row_okP row : facility_row_ok row = true -> facility_row_spec row.
Proof.
  unfold facility_row_ok; intros H; ok_split H.
  constructor; try assumption.
  - apply Nat.leb_le; assumption.
  - intros E; match goal with Hw : (if cell_is _ _ then _ else _) = true |- _ => rewrite E in Hw end.
    apply andb_prop; assumption.
  - apply forallb_forall; assumption.
  - intros T; match goal with Hm : implb (truthy _) _ = true |- _ => rewrite T in Hm end; assumption.
  - intros T; match goal with Hi : implb (row_roles _ _) _ = true |- _ => rewrite T in Hi end.
    apply andb_prop; assumption.
  - intros T; match goal with Hs : implb (row_is_site _) _ = true |- _ => rewrite T in Hs end; assumption.
Qed.

Lemma task_list_bound ti t : In (ti, t) task_list -> (ti <= 6)%nat.
Proof. intros H; repeat (destruct H as [H|H]; [injection H as <- _; lia|]); destruct H. Qed.

Lemma task_list_module ti : In (ti, ModuleFab) task_list -> ti = 0%nat.
Proof. intros H; repeat (destruct H as [H|H]; [injection H as <-; congruence|]); destruct H. Qed.

Lemma dict_set_some {V} (d : dict V) k v r : is_Some (d r) -> is_Some (dict_set d k v r).
Proof. unfold dict_set; destruct (decide (r = k)); [eexists; reflexivity | exact id]. Qed.

Lemma dict_set_self {V} (d : dict V) k v : is_Some (dict_set d k v k).
Proof. rewrite dict_set_eq; eexists; reflexivity. Qed.

#[local] Hint Resolve dict_set_some dict_set_self : calc.

Lemma implb_true a b : implb a b = true -> a = true -> b = true.
Proof. destruct a, b; easy. Qed.

Lemma task_in_roles ti t : In (ti, t) task_list -> In t (map snd task_list).
Proof. intros H; apply in_map_iff; exists (ti, t); auto. Qed.

(** ** The carry-over loop of line 241 *)

Lemma carry_task_total row sss caps ti t :
  facility_row_spec row -> In (ti, t) task_list -> carry_ready row sss ->
  exists st', carry_task row (row_roles row) (sss, caps) (ti, t) = inr st' /\ carry_ready row (fst st').
Proof.
  intros Hs Hin Hr. pose proof (task_list_bound _ _ Hin). pose proof (fr_length _ Hs).
  pose proof (fr_tasks _ Hs _ Hin) as Hc; unfold task_cells_ok in Hc; apply andb_prop in Hc as [Hc _].
  assert (Hv : row_roles row t = true \/ t = ModuleFab ->
               exists v, carry_value sss t (nth (10 + 3 * ti) row CEmpty) = inr v).
  { intros Hact. unfold carry_value. destruct (truthy _) eqn:T; [|eexists; reflexivity].
    destruct (Hr t (task_in_roles _ _ Hin)) as [x Hx].
    { destruct Hact as [A | ->]; [left; exact A | right; split; [reflexivity|]].
      rewrite (task_list_module _ Hin) in T; exact T. }
    unfold dict_get; rewrite Hx; cbn [exc_bind].
    destruct (opt_float_ok _ (implb_true _ _ Hc ltac:(destruct Hact as [-> | ->]; [reflexivity|]; apply orb_true_r)) T)
      as [y ->]; eexists; reflexivity. }
  unfold carry_task; rewrite row_at_ok by lia; cbn [exc_bind].
  destruct (decide (t = ModuleFab)) as [->|Hne].
  - destruct (Hv (or_intror eq_refl)) as [v ->]; cbn [exc_bind]; destruct (module_carry v).
    eexists; split; [reflexivity|]; intros r Hr' Ha; apply dict_set_some, Hr; assumption.
  - destruct (row_roles row t) eqn:A; [|eexists; split; [reflexivity | exact Hr]].
    destruct (Hv (or_introl eq_refl)) as [v ->]; cbn [exc_bind]; destruct (plain_carry v).
    eexists; split; [reflexivity|]; intros r Hr' Ha; apply dict_set_some, Hr; assumption.
Qed.

Lemma carry_task_sets row roles st ti r st' :
  carry_task row roles st (ti, r) = inr st' -> r = ModuleFab \/ roles r = true ->
  is_Some (fst st' r) /\ is_Some (snd st' r).
Proof.
  destruct st as [sss caps]; unfold carry_task; intros H Hact.
  destruct (decide (r = ModuleFab)); [|destruct Hact as [|Hact]; [contradiction|]; rewrite Hact in H];
    exc_inv H; first [destruct (module_carry a0) | destruct (plain_carry a0)];
    injection H as <-; split; apply dict_set_self.
Qed.

Lemma carry_fold_total row sss caps :
  facility_row_spec row -> carry_ready row sss ->
  exists st', exc_fold (carry_task row (row_roles row)) task_list (sss, caps) = inr st' /\
    forall ti r, In (ti, r) task_list -> r = ModuleFab \/ row_roles row r = true ->
                 is_Some (fst st' r) /\ is_Some (snd st' r).
Proof.
  intros Hs Hr.
  destruct (exc_fold_total (fun s => carry_ready row (fst s)) (carry_task row (row_roles row)) task_list (sss, caps)) as [st' [E _]];
    [intros [s0 c0] [ti t] Hin H0; exact (carry_task_total row s0 c0 ti t Hs Hin H0) | exact Hr |].
  exists st'; split; [exact E|]; intros ti r Hin Hact.
  destruct (carry_fold_key _ _ _ _ _ _ _ task_list_roles_NoDup Hin E) as [mid [mid' [Hm [_ [H2 H3]]]]].
  rewrite H2, H3; exact (carry_task_sets _ _ _ _ _ _ Hm Hact).
Qed.

(** ** The cost loop of line 262 and the installation gate *)

Lemma install_capacity_ok row m :
  facility_row_spec row -> row_roles row TurbineInstallation = true -> exists k, install_capacity row m = inr k.
Proof.
  intros Hs Ht. pose proof (fr_length _ Hs). destruct (fr_install _ Hs Ht) as [Hm H28].
  unfold install_capacity; rewrite row_at_ok by lia; cbn [exc_bind].
  destruct (month_of_label _) as [e|th]; [discriminate|cbn [exc_bind]].
  destruct (Nat.leb _ _); [|eexists; reflexivity].
  rewrite row_at_ok by lia; cbn [exc_bind].
  destruct (truthy _) eqn:T; [exact (opt_int_ok _ H28 T) | eexists; reflexivity].
Qed.

Lemma cost_task_total row m st ti t :
  facility_row_spec row -> In (ti, t) task_list ->
  exists st', cost_task row (row_roles row) m st (ti, t) = inr st'.
Proof.
  intros Hs Hin. pose proof (task_list_bound _ _ Hin). pose proof (fr_length _ Hs).
  pose proof (fr_tasks _ Hs _ Hin) as Hc; unfold task_cells_ok in Hc; apply andb_prop in Hc as [_ Hc].
  destruct st as [costs caps]; unfold cost_task.
  assert (Hc' : exists costs', (if row_roles row t then
               c <- row_at row (9 + 3 * ti) ;;
               if truthy c then x <- py_float c ;; ret (dict_set costs t (Some x))
               else ret (dict_set costs t None)
             else ret costs) = inr costs').
  { destruct (row_roles row t) eqn:A; [|eexists; reflexivity].
    rewrite row_at_ok by lia; cbn [exc_bind]. destruct (truthy _) eqn:T; [|eexists; reflexivity].
    destruct (opt_float_ok _ (implb_true _ _ Hc eq_refl) T) as [x ->]; eexists; reflexivity. }
  destruct Hc' as [costs' ->]; cbn [exc_bind].
  destruct (row_roles row TurbineInstallation) eqn:A; [|eexists; reflexivity].
  destruct (install_capacity_ok row m Hs A) as [k ->]; eexists; reflexivity.
Qed.

Lemma cost_task_frame row roles m st tj t st' r :
  cost_task row roles m st (tj, t) = inr st' -> t <> r -> fst st' r = fst st r.
Proof.
  destruct st as [costs caps]; unfold cost_task; intros H Hne.
  apply exc_bind_inr in H as [costs' [Hc H]].
  assert (E : costs' r = costs r).
  { destruct (roles t); [|injection Hc as <-; reflexivity].
    exc_inv Hc. destruct (truthy a); exc_inv Hc; injection Hc as <-; apply dict_set_ne; congruence. }
  destruct (roles TurbineInstallation); [exc_inv H|]; injection H as <-; exact E.
Qed.

Lemma cost_task_sets row roles m st ti r st' :
  cost_task row roles m st (ti, r) = inr st' -> roles r = true -> is_Some (fst st' r).
Proof.
  destruct st as [costs caps]; unfold cost_task; intros H A; rewrite A in H.
  apply exc_bind_inr in H as [costs' [Hc H]]. exc_inv Hc.
  assert (E : is_Some (costs' r)) by (destruct (truthy a); exc_inv Hc; injection Hc as <-; apply dict_set_self).
  destruct (roles TurbineInstallation); [exc_inv H|]; injection H as <-; exact E.
Qed.

Lemma cost_task_install_set row roles m st ti t st' :
  cost_task row roles m st (ti, t) = inr st' -> roles TurbineInstallation = true ->
  is_Some (snd st' TurbineInstallation).
Proof.
  destruct st as [costs caps]; unfold cost_task; intros H A; rewrite A in H.
  apply exc_bind_inr in H as [costs' [_ H]]. exc_inv H. injection H as <-; apply dict_set_self.
Qed.

Lemma cost_fold_total row m caps :
  facility_row_spec row ->
  exists st', exc_fold (cost_task row (row_roles row) m) task_list (dict_empty, caps) = inr st' /\
    (forall ti r, In (ti, r) task_list -> row_roles row r = true -> is_Some (fst st' r)) /\
    (forall r, r <> TurbineInstallation -> snd st' r = caps r) /\
    (row_roles row TurbineInstallation = true -> is_Some (snd st' TurbineInstallation)).
Proof.
  intros Hs.
  destruct (exc_fold_total (fun _ => True) (cost_task row (row_roles row) m) task_list (dict_empty, caps))
    as [st' [E _]]; [intros s0 [ti t] Hin _; destruct (cost_task_total row m s0 ti t Hs Hin) as [s1 ?]; eauto | exact I |].
  exists st'; split; [exact E|]; split; [|split].
  - intros ti r Hin A.
    destruct (exc_fold_key _ (fun s r => fst s r) _ _ _ _ _
                (fun s0 tj t s1 H Hne => cost_task_frame _ _ _ _ _ _ _ _ H Hne)
                task_list_roles_NoDup Hin E) as [mid [mid' [Hm ->]]].
    exact (cost_task_sets _ _ _ _ _ _ _ Hm A).
  - intros r Hr; exact (cost_fold_caps _ _ _ _ _ _ _ Hr E).
  - intros A; refine (exc_fold_establish (fun s => is_Some (snd s TurbineInstallation)) _ _ _ _ _ _ E); [discriminate|].
    intros s0 [ti t] s1 _ Hst; exact (cost_task_install_set _ _ _ _ _ _ _ Hst A).
Qed.

(** ** One month node *)

Lemma wet_storage_ok row :
  facility_row_spec row -> exists w, wet_storage row (nth 4 row CEmpty) = inr w.
Proof.
  intros Hs. pose proof (fr_length _ Hs). unfold wet_storage.
  destruct (cell_is _ _) eqn:W; [|eexists; reflexivity]. destruct (fr_wet _ Hs W) as [H5 H6].
  rewrite row_at_ok by lia; cbn [exc_bind].
  destruct (truthy (nth 5 row CEmpty)) eqn:T5; [destruct (opt_float_ok _ H5 T5) as [x ->]|];
    cbn [exc_bind ret]; rewrite row_at_ok by lia; cbn [exc_bind];
    (destruct (truthy (nth 6 row CEmpty)) eqn:T6; [destruct (opt_int_ok _ H6 T6) as [z ->]|]);
    eexists; reflexivity.
Qed.

(** The remainders the first month starts from ([sss_init]) or the
    previous month left are what the carry loop reads. *)
Lemma carry_ready_start row index sss :
  facility_row_spec row -> (index = 0%nat \/ sss_ready row sss) ->
  carry_ready row (if Nat.eqb index 0 then sss_init (row_roles row) else sss).
Proof.
  intros Hs Hi r Hr Ha. destruct (Nat.eqb_spec index 0) as [E|E].
  - unfold sss_init. destruct (decide (r = WetStorage)) as [->|_].
    { apply in_map_iff in Hr as [[ti t] [E' Hin]]. exfalso; exact (task_list_not_storage _ _ Hin E'). }
    destruct Ha as [-> | [-> T]]; [|rewrite (fr_module _ Hs T)]; eexists; reflexivity.
  - destruct Hi as [|Hi]; [contradiction|]. apply Hi; [exact Hr|].
    destruct Ha as [A | [-> _]]; [right; exact A | left; reflexivity].
Qed.

Lemma build_month_node_total row index m sss :
  facility_row_spec row -> (index = 0%nat \/ sss_ready row sss) ->
  exists n sss', build_month_node row index m sss = inr (n, sss') /\ sss_ready row sss' /\ node_ready n.
Proof.
  intros Hs Hi. pose proof (fr_length _ Hs). unfold build_month_node.
  rewrite (row_at_ok row 0) by lia; cbn [exc_bind].
  destruct (float_at_ok row 1) as [la ->]; [lia | exact (fr_lat _ Hs) |]; cbn [exc_bind].
  destruct (float_at_ok row 2) as [lo ->]; [lia | exact (fr_lon _ Hs) |]; cbn [exc_bind].
  rewrite (row_at_ok row 3), (row_at_ok row 4) by lia; cbn [exc_bind].
  destruct (wet_storage_ok row Hs) as [[wc wk] ->]; cbn [exc_bind].
  rewrite (row_at_ok row 7) by lia; cbn [exc_bind].
  change (node_role (nth 3 row CEmpty) (nth 4 row CEmpty) (nth 7 row CEmpty)) with (row_roles row).
  destruct (carry_fold_total row _ dict_empty Hs (carry_ready_start row index sss Hs Hi))
    as [[sss1 caps] [-> Hcar]]; cbn [exc_bind].
  destruct (cost_fold_total row m caps Hs) as [[costs caps1] [-> [Hco [Hcf Hti]]]]; cbn [exc_bind].
  destruct (int_or_ok row 29 0) as [st ->]; [lia | exact (fr_steel _ Hs) |]; cbn [exc_bind].
  eexists _, _; split; [reflexivity|]; split.
  - intros r Hr Ha. apply in_map_iff in Hr as [[ti t] [<- Hin]].
    exact (proj1 (Hcar ti t Hin Ha)).
  - intros r Hr A; cbn [role cost capacity] in *. apply in_map_iff in Hr as [[ti t] [<- Hin]].
    split; [exact (Hco ti t Hin A)|]. cbn [snd] in *.
    destruct (decide (t = TurbineInstallation)) as [->|Hne]; [exact (Hti A)|].
    rewrite (Hcf t Hne). exact (proj2 (Hcar ti t Hin (or_intror A))).
Qed.

(** ** Node lookups *)

Lemma find_node_some ns nm l : In (nm, l) (map node_key ns) -> exists n, find_node ns (id_of nm l) = inr n.
Proof.
  intros H; apply in_map_iff in H as [n [Hk Hin]]. apply (py_find_some _ _ n Hin).
  apply String.eqb_eq; rewrite node_id_key, Hk; reflexivity.
Qed.

Lemma month_in_list m : In m layer_network_list.
Proof. destruct m; cbn; tauto. Qed.

Lemma add_production_edges_total node m st :
  node_ready node -> In (name node, LMonth m) (map node_key (node_list st)) ->
  exists st', add_production_edges node m st = inr st'.
Proof.
  intros Hn Hk; unfold add_production_edges.
  fold_total (fun s => node_list s = node_list st); [|reflexivity].
  intros s0 [ti t] Hin E0; cbn [snd]. destruct (role node t) eqn:A; [|eexists; split; [reflexivity | exact E0]].
  rewrite E0. destruct (find_node_some _ _ _ Hk) as [ny ->]; cbn [exc_bind].
  destruct (Hn t (task_in_roles _ _ Hin) A) as [[c Hc] [k Hk']].
  unfold dict_get; rewrite Hc, Hk'; cbn [exc_bind ret]. eexists; split; [reflexivity | exact E0].
Qed.

Lemma add_storage_edge_total node index m st :
  (index = 0%nat \/ In (name node, LMonth (prev_month m)) (map node_key (node_list st))) ->
  In (name node, LMonth m) (map node_key (node_list st)) ->
  exists st', add_storage_edge node index m st = inr st'.
Proof.
  intros Hp Hk; unfold add_storage_edge. destruct (Nat.eqb_spec index 0); [eexists; reflexivity|].
  destruct Hp as [|Hp]; [contradiction|].
  destruct (find_node_some _ _ _ Hp) as [nf ->]; destruct (find_node_some _ _ _ Hk) as [nt ->].
  eexists; reflexivity.
Qed.

(** ** The month loop of line 169 *)

(** In [enumerate(layer_network_list)], every month but the first comes
    after the month before it. *)
Lemma enumerate_months_prev pre i m post :
  enumerate_months = pre ++ (i, m) :: post -> i <> 0%nat -> In (prev_month m) (map snd pre).
Proof.
  intros E Hi.
  assert (Hk : (List.length pre < 12)%nat)
    by (apply (f_equal (@List.length _)) in E; rewrite length_app in E; cbn in E; lia).
  assert (Hp : pre = firstn (List.length pre) enumerate_months)
    by (rewrite E, firstn_app, Nat.sub_diag, firstn_all; cbn; rewrite app_nil_r; reflexivity).
  assert (Hx : nth (List.length pre) enumerate_months (0%nat, M11) = (i, m))
    by (rewrite E, app_nth2, Nat.sub_diag by lia; reflexivity).
  rewrite Hp; clear E Hp. revert Hx Hk; generalize (List.length pre) as k; intros k Hx Hk.
  do 12 (destruct k as [|k]; [cbn in Hx; injection Hx as <- <-; first [cbn; tauto | congruence] |]).
  lia.
Qed.

Lemma enumerate_months_first i m post : enumerate_months = [] ++ (i, m) :: post -> i = 0%nat.
Proof. cbn; intros E; injection E as <-; reflexivity. Qed.

Lemma month_step_total row st sss pre i m post :
  facility_row_spec row -> enumerate_months = pre ++ (i, m) :: post ->
  (pre = [] \/ sss_ready row sss) ->
  (forall im, In im pre -> In (row_name row, LMonth (snd im)) (map node_key (node_list st))) ->
  exists st' sss', month_step row (st, sss) (i, m) = inr (st', sss') /\ sss_ready row sss' /\
    map node_key (node_list st') = map node_key (node_list st) ++ [(row_name row, LMonth m)].
Proof.
  intros Hs E Hp Hkeys.
  assert (Hi : i = 0%nat \/ sss_ready row sss)
    by (destruct Hp as [->|Hp]; [left; exact (enumerate_months_first _ _ _ E) | right; exact Hp]).
  destruct (build_month_node_total row i m sss Hs Hi) as (n & sss' & Hb & Hr & Hn).
  pose proof (build_month_node_key _ _ _ _ _ _ Hb) as Hk; injection Hk as Hname _.
  assert (Hnew : In (name n, LMonth m) (map node_key (node_list (add_node st n)))).
  { cbn [node_list add_node]; rewrite map_app; apply in_app_iff; right; left.
    rewrite (build_month_node_key _ _ _ _ _ _ Hb), Hname; reflexivity. }
  destruct (add_production_edges_total n m _ Hn Hnew) as [st2 H2].
  pose proof (add_production_edges_nodes _ _ _ _ H2) as N2.
  destruct (add_storage_edge_total n i m st2) as [st3 H3]; [|rewrite N2; exact Hnew|].
  { destruct (Nat.eq_dec i 0) as [|Hi0]; [left; assumption|right].
    pose proof (enumerate_months_prev _ _ _ _ E Hi0) as Hprev.
    apply in_map_iff in Hprev as [im [Him Hin]].
    rewrite N2; cbn [node_list add_node]; rewrite map_app; apply in_app_iff; left.
    rewrite Hname, <- Him; exact (Hkeys im Hin). }
  assert (Hrun : month_step row (st, sss) (i, m) = inr (st3, sss'))
    by (unfold month_step; rewrite Hb; cbn [exc_bind]; rewrite H2; cbn [exc_bind]; rewrite H3; reflexivity).
  exists st3, sss'; split; [exact Hrun|]; split; [exact Hr|].
  exact (month_step_keys _ _ _ _ Hrun).
Qed.

Lemma month_loop_total row st :
  facility_row_spec row ->
  exists r, exc_fold (month_step row) enumerate_months (st, dict_empty) = inr r /\
    forall m, In (row_name row, LMonth m) (map node_key (node_list (fst r))).
Proof.
  intros Hs.
  destruct (exc_fold_total_prefix
              (fun pre acc => (pre = [] \/ sss_ready row (snd acc)) /\
                 forall im, In im pre -> In (row_name row, LMonth (snd im)) (map node_key (node_list (fst acc))))
              (month_step row) enumerate_months (st, dict_empty)) as [r [E [_ Hk]]].
  - intros pre [i m] post [st0 sss0] Epre [Hp Hkeys].
    destruct (month_step_total row st0 sss0 pre i m post Hs Epre Hp Hkeys) as (st1 & sss1 & Hrun & Hr & Hk1).
    exists (st1, sss1); split; [exact Hrun|]; split; [right; exact Hr|].
    intros im Him; cbn [fst]; rewrite Hk1; apply in_app_iff.
    apply in_app_iff in Him as [Him | [<- | []]]; [left; exact (Hkeys im Him) | right; left; reflexivity].
  - split; [left; reflexivity | intros _ []].
  - exists r; split; [exact E|]; intros m. apply (Hk (month_index m, m)).
    destruct m; cbn; tauto.
Qed.

(** ** Facility rows *)

Lemma add_aggregate_total row st :
  facility_row_spec row -> (forall m, In (row_name row, LMonth m) (map node_key (node_list st))) ->
  exists st', add_aggregate row st = inr st'.
Proof.
  intros Hs Hk. pose proof (fr_length _ Hs). unfold add_aggregate.
  rewrite (row_at_ok row 3) by lia; cbn [exc_bind].
  destruct (cell_is _ kind_site) eqn:S; [|eexists; reflexivity].
  rewrite (row_at_ok row 0) by lia; cbn [exc_bind].
  destruct (float_at_ok row 1) as [la ->]; [lia | exact (fr_lat _ Hs) |]; cbn [exc_bind].
  destruct (float_at_ok row 2) as [lo ->]; [lia | exact (fr_lon _ Hs) |]; cbn [exc_bind].
  destruct (int_or_ok row 30 0) as [tb ->]; [lia | | cbn [exc_bind]].
  { apply (fr_site _ Hs). rewrite (row_at_3_site row (nth 3 row CEmpty)) by (apply row_at_ok; lia). exact S. }
  rewrite <- (row_at_0_name row (nth 0 row CEmpty)) by (apply row_at_ok; lia).
  match goal with |- exists _, exc_fold _ _ (add_node st ?agg) = _ => set (st1 := add_node st agg) end.
  fold_total (fun s => node_list s = node_list st1); [|reflexivity].
  intros s0 m _ E0; cbn [name]; rewrite E0.
  destruct (find_node_some (node_list st1) (row_name row) (LMonth m)) as [n1 ->];
    [subst st1; cbn [node_list add_node]; rewrite map_app; apply in_app_iff; left; apply Hk|].
  eexists; split; [reflexivity | exact E0].
Qed.

Lemma node_row_step_total st row :
  (skip_row row = false -> facility_row_spec row) -> exists st', node_row_step st row = inr st'.
Proof.
  intros Hs; unfold node_row_step. destruct (skip_row row); [eexists; reflexivity|].
  destruct (month_loop_total row st (Hs eq_refl)) as [r [-> Hk]]; cbn [exc_bind].
  exact (add_aggregate_total row (fst r) (Hs eq_refl) Hk).
Qed.

Lemma build_nodes_total nr :
  forallb facility_row_ok (facility_rows nr) = true -> exists st, build_nodes nr = inr st.
Proof.
  intros Hok; unfold build_nodes. fold_total (fun _ : BState => True); [|exact I].
  intros s0 row Hin _. destruct (node_row_step_total s0 row) as [s1 ->]; [|eexists; split; [reflexivity | exact I]].
  intros Hskip; apply facility_row_okP, (proj1 (forallb_forall _ _) Hok).
  unfold facility_rows; apply filter_In; split; [exact Hin | rewrite Hskip; reflexivity].
Qed.

(** ** Route rows *)

Lemma name_keys rows s m :
  existsb (String.eqb s) (map row_name rows) = true -> In (s, LMonth m) (flat_map row_keys rows).
Proof.
  intros H; apply existsb_exists in H as [x [Hx E]]; apply String.eqb_eq in E; subst x.
  apply in_map_iff in Hx as [fr [<- Hfr]]. apply in_flat_map; exists fr; split; [exact Hfr|].
  unfold row_keys; apply in_app_iff; left; apply in_map_iff; exists m; split; [reflexivity | apply month_in_list].
Qed.

Lemma edge_row_step_total nr st row :
  map node_key (node_list st) = flat_map row_keys (facility_rows nr) ->
  route_row_ok (map row_name (facility_rows nr)) row = true ->
  exists st', edge_row_step st row = inr st'.
Proof.
  intros Hk Hok; unfold edge_row_step, route_row_ok in *.
  destruct (skip_row row); [eexists; reflexivity|]. cbn [orb] in Hok; ok_split Hok.
  apply Nat.leb_le in Hok.
  rewrite (row_at_ok row 0), (row_at_ok row 1) by lia; cbn [exc_bind].
  fold_total (fun s => node_list s = node_list st); [|reflexivity].
  intros s0 m _ E0; unfold route_month_step; rewrite E0.
  destruct (find_node_some (node_list st) (cell_text (nth 0 row CEmpty)) (LMonth m)) as [src ->];
    [rewrite Hk; apply name_keys; assumption|]; cbn [exc_bind].
  destruct (find_node_some (node_list st) (cell_text (nth 1 row CEmpty)) (LMonth m)) as [tgt ->];
    [rewrite Hk; apply name_keys; assumption|]; cbn [exc_bind].
  rewrite (row_at_ok row 3) by lia; cbn [exc_bind].
  destruct (py_int_cell_ok (nth 3 row CEmpty)) as [d ->]; [assumption|]; cbn [exc_bind].
  rewrite (row_at_ok row 4) by lia; eexists; split; [reflexivity | exact E0].
Qed.

(** ** The whole builder *)

(** C19: on a facility table whose rows pass [facility_row_ok] and a route
    table whose rows pass [route_row_ok] (every column the code reads is
    present and converts, the module column is empty at a location that
    does not fabricate modules, the start month of an installation site
    is a month label, every route names two locations of the facility
    table), [build_network] returns a network: none of the [row[i]],
    [float()], [int()], [sss[task]], [node.cost[task]],
    [node.capacity[task]] or [list.index] of lines 165-432 raises. *)
Theorem build_network_total nr er :
  forallb facility_row_ok (facility_rows nr) = true ->
  forallb (route_row_ok (map row_name (facility_rows nr))) (tl er) = true ->
  exists st, build_network nr er = inr st.
Proof.
  intros Hn He. destruct (build_nodes_total nr Hn) as [st0 H0].
  pose proof (build_nodes_keys _ _ H0) as Hk.
  unfold build_network; rewrite H0; cbn [exc_bind].
  fold_total (fun s => node_list s = node_list st0); [|reflexivity].
  intros s0 row Hin E0.
  destruct (edge_row_step_total nr s0 row) as [s1 Hs1];
    [rewrite E0; exact Hk | exact (proj1 (forallb_forall _ _) He row Hin) |].
  exists s1; split; [exact Hs1 | rewrite (edge_row_step_nodes _ _ _ Hs1); exact E0].
Qed.
