(* ===== verification/Constraints.v ===== *)
(** * The integer program ([optimize], lines 447-691)

    Every edge owns integer variables indexed by (product, sign); the
    variable of the [i]-th transportation edge is [XT i p s], and likewise
    [XP] for production and [XS] for storage edges; [XTV] and [XSV] are the
    reporting copies [flow_value] of lines 460 and 549.  A constraint is a
    comparison of two linear expressions over these variables, as the code
    writes it with [model.addCons]; [gen_constraints] returns them in the
    order the code adds them, block by block, and [objective] is the
    expression of lines 673-691.  SCIP's variables are non-negative
    integers ([addVar(vtype='I')], default lower bound 0), so a solution is
    an assignment [var -> Z] with non-negative values, and it is feasible
    when every constraint holds, evaluated exactly in [Q].

    The theorems describe what feasibility means edge by edge: the
    constraints of a production edge hold exactly when its flows follow the
    per-function bill-of-materials table of the specification ([bom_bound],
    [bom_conversion]), although the code adds every conversion equality to
    every production edge; transportation edges conserve every product and
    pay the vessel budget; storage edges carry only foundations within
    their capacity. *)

From S2P Require Import Prelude Data Carry Network.

Local Open Scope calc_scope.
Local Open Scope Z_scope.

(** ** Variables, linear expressions and constraints *)

Inductive var :=
| XT (i : nat) (p : Product) (s : Sign)
| XTV (i : nat) (p : Product) (s : Sign)
| XP (i : nat) (p : Product) (s : Sign)
| XS (i : nat) (p : Product) (s : Sign)
| XSV (i : nat) (p : Product) (s : Sign).

(** A linear expression: coefficients times variables, plus a constant. *)
Record lin := mkLin { terms : list (Q * var); const : Q }.

Inductive cmp := CLe | CGe | CEq.

(** [model.addCons(lhs <= rhs)] and its variants. *)
Record cons := mkCons { c_lhs : lin; c_op : cmp; c_rhs : lin }.

Definition lvar (x : var) : lin := mkLin [(1%Q, x)] 0.
Definition lconst (q : Q) : lin := mkLin [] q.
Definition lscale (c : Q) (e : lin) : lin :=
  mkLin (map (fun t => (c * fst t, snd t)%Q) (terms e)) (c * const e).
Definition ladd (e1 e2 : lin) : lin := mkLin (terms e1 ++ terms e2) (const e1 + const e2).
Definition lsum (xs : list var) : lin := mkLin (map (fun x => (1%Q, x)) xs) 0.

Definition cle (a b : lin) : cons := mkCons a CLe b.
Definition cge (a b : lin) : cons := mkCons a CGe b.
Definition ceq (a b : lin) : cons := mkCons a CEq b.

(** ** Solutions *)

Definition assignment := var -> Z.

Definition eval_lin (σ : assignment) (e : lin) : Q :=
  (qsum (map (fun t => fst t * inject_Z (σ (snd t))) (terms e)) + const e)%Q.

Definition sat (σ : assignment) (c : cons) : Prop :=
  match c_op c with
  | CLe => (eval_lin σ (c_lhs c) <= eval_lin σ (c_rhs c))%Q
  | CGe => (eval_lin σ (c_rhs c) <= eval_lin σ (c_lhs c))%Q
  | CEq => (eval_lin σ (c_lhs c) == eval_lin σ (c_rhs c))%Q
  end.

Definition satb (σ : assignment) (c : cons) : bool :=
  match c_op c with
  | CLe => Qle_bool (eval_lin σ (c_lhs c)) (eval_lin σ (c_rhs c))
  | CGe => Qle_bool (eval_lin σ (c_rhs c)) (eval_lin σ (c_lhs c))
  | CEq => Qeq_bool (eval_lin σ (c_lhs c)) (eval_lin σ (c_rhs c))
  end.

(** Integer variables with SCIP's default lower bound 0. *)
Definition nonneg (σ : assignment) : Prop := forall x, (0 <= σ x)%Z.

Definition feasible (σ : assignment) (cs : list cons) : Prop :=
  nonneg σ /\ Forall (sat σ) cs.

(** ** Python values in constraints *)

(** [var <= v] and [v * var] accept a number, or a string that [float()]
    parses (pyscipopt's [_is_number] tries [float()]); anything else,
    [None] included, makes [Expr.__mul__] or [_expr_richcmp] raise
    [NotImplementedError]. *)
Definition pv_float (v : pyval) : exc Q :=
  match v with
  | PNum q => ret q
  | PStr c => match py_float c with inr q => ret q | inl _ => raise NotImplementedError end
  | PNone => raise NotImplementedError
  end.

(** [enumerate(l)]. *)
Definition ienum {A} (l : list A) : list (nat * A) := combine (seq 0 (List.length l)) l.

(** [for x in l: cs += f(x)], stopping at the first raise. *)
Definition exc_concat_map {A B} (f : A -> exc (list B)) (l : list A) : exc (list B) :=
  exc_fold (fun acc x => ys <- f x ;; ret (acc ++ ys)) l [].

Definition prods_signs : list (Product * Sign) := list_prod num_product_list sign.

(** ** Lines 448-461 and 531-550: the two copies of every flow *)

Definition t_copy_cons (ie : nat * TEdge) : list cons :=
  map (fun ps => ceq (lvar (XT (fst ie) (fst ps) (snd ps))) (lvar (XTV (fst ie) (fst ps) (snd ps))))
      prods_signs.

Definition s_copy_cons (ie : nat * SEdge) : list cons :=
  map (fun ps => ceq (lvar (XS (fst ie) (fst ps) (snd ps))) (lvar (XSV (fst ie) (fst ps) (snd ps))))
      prods_signs.

(** ** Capacities (lines 484-566) *)

(** [production_edge.calc_capacity] of lines 488-522, as a multiple of the
    edge's capacity: the consumed and produced product of each function
    are bounded, everything else is bounded by zero.  Line 522 stores a
    four-element key that line 561 never finds: an edge of any other
    function raises [KeyError]. *)
Definition prod_calc_capacity (f : Role) (p : Product) (s : Sign) (cap : pyval) : exc pyval :=
  let full := ret cap in
  let zero := ret (pv_of_int 0) in
  match f with
  | ModuleFab =>
      if (bool_decide (p = Steel) && bool_decide (s = Plus))
         || (bool_decide (p = Module) && bool_decide (s = Minus)) then full else zero
  | HalfBody1Fab =>
      if (bool_decide (p = Module) && bool_decide (s = Plus))
         || (bool_decide (p = HalfBody1) && bool_decide (s = Minus)) then full else zero
  | HalfBody3Fab =>
      if bool_decide (p = Module) && bool_decide (s = Plus) then
        c <- pv_float cap ;; ret (PNum (3 * c)%Q)
      else if bool_decide (p = HalfBody3) && bool_decide (s = Minus) then full else zero
  | FoundationFab | OffshoreFoundationFab =>
      if (bool_decide (p = HalfBody1) && bool_decide (s = Plus))
         || (bool_decide (p = HalfBody3) && bool_decide (s = Plus))
         || (bool_decide (p = Foundation) && bool_decide (s = Minus)) then full else zero
  | TurbineAssembly =>
      if (bool_decide (p = Foundation) && bool_decide (s = Plus))
         || (bool_decide (p = Turbine) && bool_decide (s = Minus)) then full else zero
  | TurbineInstallation =>
      if (bool_decide (p = Turbine) && bool_decide (s = Plus))
         || (bool_decide (p = TurbineInstalled) && bool_decide (s = Minus)) then full else zero
  | WetStorage => raise KeyError
  end.

Definition t_cap_cons (ie : nat * TEdge) : exc (list cons) :=
  exc_concat_map (fun ps =>
    c <- pv_float (t_capacity (snd ie) (fst ps)) ;;
    ret [cle (lvar (XT (fst ie) (fst ps) (snd ps))) (lconst c)]) prods_signs.

Definition p_cap_cons (ie : nat * PEdge) : exc (list cons) :=
  exc_concat_map (fun ps =>
    v <- prod_calc_capacity (p_function (snd ie)) (fst ps) (snd ps) (p_capacity (snd ie)) ;;
    c <- pv_float v ;;
    ret [cle (lvar (XP (fst ie) (fst ps) (snd ps))) (lconst c)]) prods_signs.

(** Lines 541-545: only the foundation product has the storage capacity. *)
Definition s_calc_capacity (e : SEdge) (p : Product) : pyval :=
  if bool_decide (p = Foundation) then s_capacity e else pv_of_int 0.

Definition s_cap_cons (ie : nat * SEdge) : exc (list cons) :=
  exc_concat_map (fun ps =>
    c <- pv_float (s_calc_capacity (snd ie) (fst ps)) ;;
    ret [cle (lvar (XS (fst ie) (fst ps) (snd ps))) (lconst c)]) prods_signs.

(** ** The vessel budget (lines 570-593) *)

(** The vessel-equivalents of one unit of each product on a route. *)
Definition vessel_weights : list (Q * Product) :=
  [((1#12)%Q, Module); ((1#10)%Q, HalfBody1); ((2#5)%Q, HalfBody3); ((1#2)%Q, Foundation);
   (1%Q, Steel); (1%Q, Turbine)].

Definition vessel_load (i : nat) (s : Sign) : lin :=
  mkLin (map (fun wp => (fst wp, XT i (snd wp) s)) vessel_weights) 0.

Definition t_vessel_cons (ie : nat * TEdge) : list cons :=
  map (fun s => cge (lvar (XT (fst ie) Vessel s)) (vessel_load (fst ie) s)) sign.

(** Line 584, inside a loop over products that repeats it. *)
Definition p_vessel_cons (ie : nat * PEdge) : list cons :=
  flat_map (fun _ => map (fun s => ceq (lvar (XP (fst ie) Vessel s)) (lconst 0)) sign)
           num_product_list.

Definition s_vessel_cons (ie : nat * SEdge) : list cons :=
  map (fun _ => ceq (lvar (XS (fst ie) Vessel Minus)) (lconst 0)) num_product_list.

(** Lines 591-593 and 608-610: the sink edges of two named sites get no
    vessel flow. *)
Definition special_vessel_cons (target_id : string) (ie : nat * TEdge) : list cons :=
  if String.eqb (node_id (t_target (snd ie))) target_id
  then [ceq (lvar (XT (fst ie) Vessel Minus)) (lconst 0)] else [].

Definition noshiro6_id : string := "(能代沖6_10000月)".
Definition noshiro_id : string := "(能代沖_10000月)".

(** ** Lines 598-605: plus and minus flows of a transport or storage edge
    are equal *)

Definition t_pm_cons (ie : nat * TEdge) : list cons :=
  map (fun p => ceq (lvar (XT (fst ie) p Plus)) (lvar (XT (fst ie) p Minus))) num_product_list.

Definition s_pm_cons (ie : nat * SEdge) : list cons :=
  map (fun p => ceq (lvar (XS (fst ie) p Plus)) (lvar (XS (fst ie) p Minus))) num_product_list.

(** ** Lines 617-647: the B-matrix, added to every production edge; only
    the two half-hull equalities depend on the function. *)
Definition bmat_cons (ie : nat * PEdge) : list cons :=
  let j := fst ie in
  let x p s := lvar (XP j p s) in
  [ceq (x Steel Plus) (x Module Minus)] ++
  (if bool_decide (p_function (snd ie) = HalfBody1Fab)
   then [ceq (x Module Plus) (x HalfBody1 Minus)] else []) ++
  (if bool_decide (p_function (snd ie) = HalfBody3Fab)
   then [ceq (x Module Plus) (lscale (inject_Z 3) (x HalfBody3 Minus))] else []) ++
  [ceq (x HalfBody1 Plus) (x HalfBody3 Plus);
   ceq (ladd (lscale (1#2)%Q (x HalfBody1 Plus)) (lscale (1#2)%Q (x HalfBody3 Plus)))
       (x Foundation Minus);
   ceq (x Foundation Plus) (x Turbine Minus);
   ceq (x Turbine Plus) (x TurbineInstalled Minus)].

(** ** Lines 656-670: mass balance of every node and real product *)

Definition out_vars (st : BState) (id : string) (p : Product) : list var :=
  map (fun ie => XT (fst ie) p Plus)
      (List.filter (fun ie => String.eqb (node_id (t_source (snd ie))) id)
                   (ienum (transportation_list st))) ++
  map (fun ie => XP (fst ie) p Plus)
      (List.filter (fun ie => String.eqb (node_id (p_source (snd ie))) id)
                   (ienum (production_list st))) ++
  map (fun ie => XS (fst ie) p Plus)
      (List.filter (fun ie => String.eqb (node_id (s_source (snd ie))) id)
                   (ienum (storage_list st))).

Definition in_vars (st : BState) (id : string) (p : Product) : list var :=
  map (fun ie => XT (fst ie) p Minus)
      (List.filter (fun ie => String.eqb (node_id (t_target (snd ie))) id)
                   (ienum (transportation_list st))) ++
  map (fun ie => XP (fst ie) p Minus)
      (List.filter (fun ie => String.eqb (node_id (p_target (snd ie))) id)
                   (ienum (production_list st))) ++
  map (fun ie => XS (fst ie) p Minus)
      (List.filter (fun ie => String.eqb (node_id (s_target (snd ie))) id)
                   (ienum (storage_list st))).

(** [quicksum(plus_edge) - quicksum(minus_edge) <= supply]. *)
Definition balance_cons (st : BState) (n : Node) (p : Product) : cons :=
  cle (ladd (lsum (out_vars st (node_id n) p)) (lscale (-1)%Q (lsum (in_vars st (node_id n) p))))
      (lconst (inject_Z (calc_supply_demand n p))).

Definition real_products : list Product := removelast num_product_list.

Definition balance_block (st : BState) : list cons :=
  flat_map (fun n => map (balance_cons st n) real_products) (node_list st).

(** ** The whole constraint list, in the order of [optimize] *)

Definition gen_constraints (st : BState) : exc (list cons) :=
  let T := ienum (transportation_list st) in
  let P := ienum (production_list st) in
  let S := ienum (storage_list st) in
  tcap <- exc_concat_map t_cap_cons T ;;
  pcap <- exc_concat_map p_cap_cons P ;;
  scap <- exc_concat_map s_cap_cons S ;;
  ret (flat_map t_copy_cons T ++ flat_map s_copy_cons S ++
       tcap ++ pcap ++ scap ++
       flat_map t_vessel_cons T ++ flat_map p_vessel_cons P ++ flat_map s_vessel_cons S ++
       flat_map (special_vessel_cons noshiro6_id) T ++
       flat_map t_pm_cons T ++ flat_map s_pm_cons S ++
       flat_map (special_vessel_cons noshiro_id) T ++
       flat_map bmat_cons P ++
       balance_block st).

(** ** The objective (lines 672-691) *)

(** [production_edge.calc_cost] of lines 475-481: the unit cost is charged
    on the product the function outputs. *)
Definition p_calc_cost (e : PEdge) (p : Product) : pyval :=
  if bool_decide (cost_mapping (p_function e) = Some p) then p_cost e else pv_of_int 0.

Definition s_calc_cost (e : SEdge) (p : Product) : pyval :=
  if bool_decide (p = Foundation) then s_cost e else pv_of_int 0.

Definition cost_terms {E} (cost : E -> Product -> pyval) (x : nat -> Product -> Sign -> var)
    (ie : nat * E) : exc (list (Q * var)) :=
  exc_concat_map (fun p => c <- pv_float (cost (snd ie) p) ;; ret [(c, x (fst ie) p Minus)])
                 num_product_list.

Definition objective (st : BState) : exc lin :=
  tc <- exc_concat_map (cost_terms t_cost XT) (ienum (transportation_list st)) ;;
  pc <- exc_concat_map (cost_terms p_calc_cost XP) (ienum (production_list st)) ;;
  sc <- exc_concat_map (cost_terms s_calc_cost XS) (ienum (storage_list st)) ;;
  ret (mkLin (tc ++ pc ++ sc) 0).

(** ** The bill-of-materials table of the specification *)

(** The multiple of the capacity that bounds each (product, sign) of a
    function; zero forbids the flow. *)
Definition bom_bound (f : Role) (p : Product) (s : Sign) : Z :=
  match f, p, s with
  | ModuleFab, Steel, Plus | ModuleFab, Module, Minus => 1
  | HalfBody1Fab, Module, Plus | HalfBody1Fab, HalfBody1, Minus => 1
  | HalfBody3Fab, Module, Plus => 3
  | HalfBody3Fab, HalfBody3, Minus => 1
  | FoundationFab, HalfBody1, Plus | FoundationFab, HalfBody3, Plus
  | FoundationFab, Foundation, Minus => 1
  | OffshoreFoundationFab, HalfBody1, Plus | OffshoreFoundationFab, HalfBody3, Plus
  | OffshoreFoundationFab, Foundation, Minus => 1
  | TurbineAssembly, Foundation, Plus | TurbineAssembly, Turbine, Minus => 1
  | TurbineInstallation, Turbine, Plus | TurbineInstallation, TurbineInstalled, Minus => 1
  | _, _, _ => 0
  end%Z.

(** The conversion equalities of each function. *)
Definition bom_conversion (f : Role) (x : Product -> Sign -> Z) : Prop :=
  match f with
  | ModuleFab => x Steel Plus = x Module Minus
  | HalfBody1Fab => x Module Plus = x HalfBody1 Minus
  | HalfBody3Fab => x Module Plus = (3 * x HalfBody3 Minus)%Z
  | FoundationFab | OffshoreFoundationFab =>
      x HalfBody1 Plus = x HalfBody3 Plus /\
      (x HalfBody1 Plus + x HalfBody3 Plus = 2 * x Foundation Minus)%Z
  | TurbineAssembly => x Foundation Plus = x Turbine Minus
  | TurbineInstallation => x Turbine Plus = x TurbineInstalled Minus
  | WetStorage => False
  end.

Definition bom_spec (f : Role) (cap : Z) (x : Product -> Sign -> Z) : Prop :=
  (forall p s, (x p s <= bom_bound f p s * cap)%Z) /\ bom_conversion f x.

(** All the constraints the code adds for one production edge. *)
Definition p_edge_cons (ie : nat * PEdge) : exc (list cons) :=
  c <- p_cap_cons ie ;; ret (c ++ p_vessel_cons ie ++ bmat_cons ie).

(** ** Evaluation of linear expressions *)

Local Open Scope Q_scope.

Lemma eval_lvar σ x : eval_lin σ (lvar x) == inject_Z (σ x).
Proof. unfold eval_lin; simpl; ring. Qed.

Lemma eval_lconst σ q : eval_lin σ (lconst q) == q.
Proof. unfold eval_lin; simpl; ring. Qed.

Lemma eval_lscale σ c e : eval_lin σ (lscale c e) == c * eval_lin σ e.
Proof.
  unfold eval_lin, lscale; simpl. rewrite map_map; simpl.
  rewrite (qsum_map_ext _ (fun t => c * (fst t * inject_Z (σ (snd t))))) by (intros; ring).
  rewrite qsum_map_scale; ring.
Qed.

Lemma eval_ladd σ e1 e2 : eval_lin σ (ladd e1 e2) == eval_lin σ e1 + eval_lin σ e2.
Proof. unfold eval_lin, ladd; simpl. rewrite map_app, qsum_app; ring. Qed.

Lemma eval_lsum σ xs : eval_lin σ (lsum xs) == qsum (map (fun x => inject_Z (σ x)) xs).
Proof.
  unfold eval_lin, lsum; simpl. rewrite map_map; simpl.
  rewrite (qsum_map_ext _ (fun x => inject_Z (σ x))) by (intros; ring). ring.
Qed.

(** ** The shapes of constraint the code writes *)

Lemma sat_le_const σ x q : sat σ (cle (lvar x) (lconst q)) <-> inject_Z (σ x) <= q.
Proof. unfold sat, cle, ceq; cbn [c_op c_lhs c_rhs]; rewrite eval_lvar, eval_lconst; reflexivity. Qed.

Lemma sat_le_int σ x k : sat σ (cle (lvar x) (lconst (inject_Z k))) <-> (σ x <= k)%Z.
Proof. rewrite sat_le_const, Zle_Qle; reflexivity. Qed.

Lemma sat_eq_vars σ x y : sat σ (ceq (lvar x) (lvar y)) <-> σ x = σ y.
Proof. unfold sat, cle, ceq; cbn [c_op c_lhs c_rhs]; rewrite !eval_lvar; apply inject_Z_injective. Qed.

Lemma sat_eq_zero σ x : sat σ (ceq (lvar x) (lconst 0)) <-> σ x = 0%Z.
Proof.
  unfold sat, cle, ceq; cbn [c_op c_lhs c_rhs]; rewrite eval_lvar, eval_lconst.
  change 0 with (inject_Z 0); apply inject_Z_injective.
Qed.

Lemma sat_eq_scaled σ x y (k : Z) :
  sat σ (ceq (lvar x) (lscale (inject_Z k) (lvar y))) <-> σ x = (k * σ y)%Z.
Proof.
  unfold sat, cle, ceq; cbn [c_op c_lhs c_rhs]; rewrite eval_lscale, !eval_lvar, <- inject_Z_mult.
  apply inject_Z_injective.
Qed.

Lemma sat_eq_halves σ a b c :
  sat σ (ceq (ladd (lscale (1#2) (lvar a)) (lscale (1#2) (lvar b))) (lvar c)) <->
  (σ a + σ b = 2 * σ c)%Z.
Proof.
  unfold sat, cle, ceq; cbn [c_op c_lhs c_rhs]; rewrite eval_ladd, !eval_lscale, !eval_lvar.
  rewrite <- inject_Z_injective, inject_Z_plus, inject_Z_mult.
  change (inject_Z 2) with 2. split; intros; lra.
Qed.

Lemma satb_sat σ c : satb σ c = true <-> sat σ c.
Proof.
  unfold satb, sat; destruct (c_op c); [apply Qle_bool_iff | apply Qle_bool_iff | apply Qeq_bool_iff].
Qed.

Close Scope Q_scope.

(** ** Loops that collect constraints *)

Lemma exc_concat_map_Forall {A B} (P : B -> Prop) (f : A -> exc (list B)) l ys :
  exc_concat_map f l = inr ys ->
  (Forall P ys <-> forall x zs, In x l -> f x = inr zs -> Forall P zs).
Proof.
  unfold exc_concat_map.
  assert (G : forall acc, exc_fold (fun acc x => zs <- f x ;; ret (acc ++ zs)) l acc = inr ys ->
              (Forall P ys <-> Forall P acc /\ forall x zs, In x l -> f x = inr zs -> Forall P zs)).
  { induction l as [|x l IH]; intros acc H; simpl in H.
    - injection H as <-. split; [intros; split; [auto | intros ? ? []] | tauto].
    - destruct (f x) as [e|zs] eqn:E; simpl in H; [discriminate|].
      rewrite (IH _ H), Forall_app. split.
      + intros [[Ha Hz] Hr]; split; [exact Ha|].
        intros y ws [<-|Hy] Hw; [congruence | eauto].
      + intros [Ha Hr]; split; [split; [exact Ha | eapply Hr; [left|]; eauto]|].
        intros y ws Hy Hw; eapply Hr; [right|]; eauto. }
  intros H; rewrite (G [] H). split; [tauto | intros; split; [constructor | auto]].
Qed.

Lemma exc_concat_map_ok {A B} (f : A -> exc (list B)) l :
  (forall x, In x l -> exists zs, f x = inr zs) -> exists ys, exc_concat_map f l = inr ys.
Proof.
  unfold exc_concat_map. generalize (@nil B) as acc.
  induction l as [|x l IH]; intros acc H; simpl; [eauto|].
  destruct (H x (or_introl eq_refl)) as [zs ->]; simpl.
  apply IH; intros; apply H; right; auto.
Qed.

Lemma Forall_flat_map {A B} (P : B -> Prop) (f : A -> list B) l :
  Forall P (flat_map f l) <-> forall x, In x l -> Forall P (f x).
Proof.
  induction l as [|x l IH]; simpl; [split; [intros _ ? []|constructor]|].
  rewrite Forall_app, IH. split; [intros [A1 B1] y [<-|Hy]; auto | intros H; split; auto].
Qed.

Lemma in_num_product_list p : In p num_product_list.
Proof. destruct p; simpl; tauto. Qed.

Lemma in_prods_signs p s : In (p, s) prods_signs.
Proof. apply in_prod; [apply in_num_product_list | destruct s; simpl; tauto]. Qed.

Lemma Forall_map_iff {A B} (P : B -> Prop) (f : A -> B) l :
  Forall P (map f l) <-> forall x, In x l -> P (f x).
Proof. rewrite Forall_map, List.Forall_forall; reflexivity. Qed.

(** ** Production edges follow the bill-of-materials table *)

(** The capacity rows of a production edge, given the integer bound
    [b p s] that [calc_capacity] yields for each (product, sign). *)
Lemma p_cap_cons_ok j e (b : Product -> Sign -> Z) :
  (forall p s, exists v, prod_calc_capacity (p_function e) p s (p_capacity e) = inr v /\
                         pv_float v = inr (inject_Z (b p s))) ->
  exists cs, p_cap_cons (j, e) = inr cs.
Proof.
  intros Tab; apply exc_concat_map_ok; intros [p s] _; cbn [fst snd].
  destruct (Tab p s) as [v [-> Hq]]; cbn [exc_bind]; rewrite Hq; simpl; eauto.
Qed.

Lemma p_cap_cons_sat σ j e (b : Product -> Sign -> Z) cs :
  (forall p s, exists v, prod_calc_capacity (p_function e) p s (p_capacity e) = inr v /\
                         pv_float v = inr (inject_Z (b p s))) ->
  p_cap_cons (j, e) = inr cs ->
  (Forall (sat σ) cs <-> forall p s, (σ (XP j p s) <= b p s)%Z).
Proof.
  intros Tab H. rewrite (exc_concat_map_Forall _ _ _ _ H). split.
  - intros Hall p s. destruct (Tab p s) as [v [Hv Hq]].
    specialize (Hall (p, s) [cle (lvar (XP j p s)) (lconst (inject_Z (b p s)))] (in_prods_signs p s)).
    cbn [fst snd] in Hall; rewrite Hv in Hall; cbn [exc_bind] in Hall; rewrite Hq in Hall.
    specialize (Hall eq_refl). apply Forall_cons_iff in Hall as [Hs _].
    apply sat_le_int in Hs; exact Hs.
  - intros Hb [p s] zs _ Hz; cbn [fst snd] in Hz. destruct (Tab p s) as [v [Hv Hq]].
    rewrite Hv in Hz; cbn [exc_bind] in Hz; rewrite Hq in Hz.
    injection Hz as <-. constructor; [apply sat_le_int, Hb | constructor].
Qed.

Lemma p_vessel_cons_sat σ j e :
  Forall (sat σ) (p_vessel_cons (j, e)) <-> forall s, σ (XP j Vessel s) = 0%Z.
Proof.
  unfold p_vessel_cons; rewrite Forall_flat_map. split.
  - intros H s. specialize (H Steel (or_introl eq_refl)).
    destruct s; simpl in H; apply Forall_cons_iff in H as [H1 H]; 
      [|apply Forall_cons_iff in H as [H1' _]]; apply sat_eq_zero; assumption.
  - intros H _ _; simpl; repeat constructor; apply sat_eq_zero, H.
Qed.

(** What the B-matrix block asks of one production edge, whatever its
    function. *)
Lemma bmat_cons_sat σ j e :
  let x p s := σ (XP j p s) in
  Forall (sat σ) (bmat_cons (j, e)) <->
  x Steel Plus = x Module Minus /\
  (p_function e = HalfBody1Fab -> x Module Plus = x HalfBody1 Minus) /\
  (p_function e = HalfBody3Fab -> x Module Plus = (3 * x HalfBody3 Minus)%Z) /\
  x HalfBody1 Plus = x HalfBody3 Plus /\
  (x HalfBody1 Plus + x HalfBody3 Plus = 2 * x Foundation Minus)%Z /\
  x Foundation Plus = x Turbine Minus /\
  x Turbine Plus = x TurbineInstalled Minus.
Proof.
  intros x; unfold bmat_cons; cbn [fst snd]. rewrite !Forall_app, !Forall_cons_iff.
  rewrite !sat_eq_vars, sat_eq_halves.
  case_bool_decide as H1; case_bool_decide as H3;
    rewrite ?Forall_cons_iff, ?sat_eq_vars, ?sat_eq_scaled, ?Forall_nil_iff; subst x;
    intuition (try congruence).
Qed.

(** All the bounds and signs of one production edge, for [lia]. *)
Ltac bom_facts Hb N :=
  let facts p := (pose proof (Hb p Plus); pose proof (Hb p Minus);
                  pose proof (N p Plus); pose proof (N p Minus)) in
  facts Steel; facts Module; facts HalfBody1; facts HalfBody3; facts Foundation;
  facts Turbine; facts TurbineInstalled.

(** C1: the constraints the code adds for a production edge (capacity
    bounds for every product and sign, zero vessel flow, and the whole
    B-matrix) hold exactly when the edge's flows follow the
    bill-of-materials table of its function: each flow within its
    multiple of the capacity (zero for products the function neither
    consumes nor produces) and the function's conversion ratios.  The
    conversion equalities of the other functions, which the code also
    adds, are implied by the zero bounds. *)
Theorem production_edge_constraints σ j e c :
  nonneg σ -> p_capacity e = pv_of_int c -> p_function e <> WetStorage ->
  exists cs, p_edge_cons (j, e) = inr cs /\
  (Forall (sat σ) cs <-> bom_spec (p_function e) c (fun p s => σ (XP j p s))).
Proof.
  intros Hn Hc Hf.
  assert (Tab : forall p s, exists v,
             prod_calc_capacity (p_function e) p s (p_capacity e) = inr v /\
             pv_float v = inr (inject_Z (bom_bound (p_function e) p s * c))).
  { rewrite Hc; intros p s; destruct (p_function e); [..| congruence]; destruct p, s; cbn;
      eexists; (split; [reflexivity|]); cbn [bom_bound];
      rewrite ?Z.mul_1_l, ?Z.mul_0_l, ?inject_Z_mult; reflexivity. }
  destruct (p_cap_cons_ok j e _ Tab) as [cs Hcs].
  exists (cs ++ p_vessel_cons (j, e) ++ bmat_cons (j, e)).
  split; [unfold p_edge_cons; rewrite Hcs; reflexivity|].
  rewrite !Forall_app, (p_cap_cons_sat σ j e _ cs Tab Hcs), p_vessel_cons_sat, bmat_cons_sat.
  unfold bom_spec, bom_conversion.
  assert (N : forall p s, (0 <= σ (XP j p s))%Z) by (intros; apply Hn).
  destruct (p_function e); [..| congruence].
  all: split; [intros [Hb [Hv Hm]]; split; [exact Hb|]
              | intros [Hb Hconv]; split; [exact Hb|]; split;
                [intros s; specialize (Hb Vessel s); specialize (N Vessel s);
                 destruct s; cbn [bom_bound] in Hb; lia|]].
  all: bom_facts Hb N; cbn [bom_bound] in *; intuition (try discriminate; lia).
Qed.

(** ** Feasibility of the whole list, edge by edge *)


Record edge_facts (σ : assignment) (st : BState) : Prop := {
  ef_t : forall i e, In (i, e) (ienum (transportation_list st)) ->
           Forall (sat σ) (t_vessel_cons (i, e)) /\ Forall (sat σ) (t_pm_cons (i, e)) /\
           forall zs, t_cap_cons (i, e) = inr zs -> Forall (sat σ) zs;
  ef_p : forall j e, In (j, e) (ienum (production_list st)) ->
           forall zs, p_edge_cons (j, e) = inr zs -> Forall (sat σ) zs;
  ef_s : forall k e, In (k, e) (ienum (storage_list st)) ->
           Forall (sat σ) (s_pm_cons (k, e)) /\ Forall (sat σ) (s_vessel_cons (k, e)) /\
           forall zs, s_cap_cons (k, e) = inr zs -> Forall (sat σ) zs;
  ef_special : forall i e, In (i, e) (ienum (transportation_list st)) ->
           Forall (sat σ) (special_vessel_cons noshiro6_id (i, e)) /\
           Forall (sat σ) (special_vessel_cons noshiro_id (i, e));
  ef_bal : Forall (sat σ) (balance_block st)
}.

Lemma gen_constraints_facts σ st cs :
  gen_constraints st = inr cs -> Forall (sat σ) cs -> edge_facts σ st.
Proof.
  unfold gen_constraints; intros H Hs.
  destruct (exc_concat_map t_cap_cons _) as [|tcap] eqn:Et; simpl in H; [discriminate|].
  destruct (exc_concat_map p_cap_cons _) as [|pcap] eqn:Ep; simpl in H; [discriminate|].
  destruct (exc_concat_map s_cap_cons _) as [|scap] eqn:Es; simpl in H; [discriminate|].
  injection H as <-. rewrite !Forall_app, !Forall_flat_map in Hs.
  rewrite (exc_concat_map_Forall _ _ _ _ Et), (exc_concat_map_Forall _ _ _ _ Ep),
    (exc_concat_map_Forall _ _ _ _ Es) in Hs.
  destruct Hs as (_ & _ & Htc & Hpc & Hsc & Htv & Hpv & Hsv & Hsp6 & Htpm & Hspm & Hsp & Hbm & Hbal).
  constructor; [..|exact Hbal].
  - intros i e Hi; split; [exact (Htv _ Hi)|]; split; [exact (Htpm _ Hi)|].
    intros zs Hz; exact (Htc _ _ Hi Hz).
  - intros j e Hj zs Hz. unfold p_edge_cons in Hz.
    destruct (p_cap_cons (j, e)) as [|c] eqn:Ec; cbn [exc_bind] in Hz; [discriminate|].
    unfold ret in Hz.
    assert (Hz' : zs = c ++ p_vessel_cons (j, e) ++ bmat_cons (j, e)) by congruence.
    subst zs. rewrite !Forall_app; split; [exact (Hpc _ _ Hj Ec)|].
    split; [exact (Hpv _ Hj) | exact (Hbm _ Hj)].
  - intros k e Hk; split; [exact (Hspm _ Hk)|]; split; [exact (Hsv _ Hk)|].
    intros zs Hz; exact (Hsc _ _ Hk Hz).
  - intros i e Hi; split; [exact (Hsp6 _ Hi) | exact (Hsp _ Hi)].
Qed.

Lemma exc_concat_map_each {A B} (f : A -> exc (list B)) l ys x :
  exc_concat_map f l = inr ys -> In x l -> exists zs, f x = inr zs.
Proof.
  unfold exc_concat_map. generalize (@nil B) as acc.
  induction l as [|y l IH]; intros acc H Hx; [destruct Hx|]; simpl in H.
  destruct (f y) as [e|zs] eqn:E; simpl in H; [discriminate|].
  destruct Hx as [<-|Hx]; eauto.
Qed.

(** Every production edge of a network whose constraints are generated
    has its capacity rows generated. *)
Lemma gen_constraints_pcap st cs j e :
  gen_constraints st = inr cs -> In (j, e) (ienum (production_list st)) ->
  exists zs, p_cap_cons (j, e) = inr zs.
Proof.
  unfold gen_constraints; intros H Hj.
  destruct (exc_concat_map t_cap_cons _) as [|tcap]; simpl in H; [discriminate|].
  destruct (exc_concat_map p_cap_cons _) as [|pcap] eqn:Ep; simpl in H; [discriminate|].
  exact (exc_concat_map_each _ _ _ _ Ep Hj).
Qed.

Lemma sat_vessel σ i s :
  sat σ (cge (lvar (XT i Vessel s)) (vessel_load i s)) <->
  (5 * σ (XT i Module s) + 6 * σ (XT i HalfBody1 s) + 24 * σ (XT i HalfBody3 s) +
   30 * σ (XT i Foundation s) + 60 * σ (XT i Steel s) + 60 * σ (XT i Turbine s)
   <= 60 * σ (XT i Vessel s))%Z.
Proof.
  unfold sat, cge; cbn [c_op c_lhs c_rhs]. rewrite eval_lvar.
  unfold eval_lin, vessel_load, vessel_weights; cbn [terms const map fst snd qsum].
  rewrite Zle_Qle, !inject_Z_plus, !inject_Z_mult.
  change (inject_Z 5) with 5%Q; change (inject_Z 6) with 6%Q; change (inject_Z 24) with 24%Q;
  change (inject_Z 30) with 30%Q; change (inject_Z 60) with 60%Q.
  split; intros; lra.
Qed.

(** C7: in a feasible solution every transportation edge carries the same
    quantity of each product in and out, and its vessel flow covers the
    weighted load of the products (1/12 per module, 1/10 per half-hull 1,
    2/5 per half-hull 3, 1/2 per foundation, 1 per unit of steel or
    turbine; written here with the common denominator 60), for both signs. *)
Theorem transport_edge_feasible σ st cs i e :
  gen_constraints st = inr cs -> Forall (sat σ) cs ->
  In (i, e) (ienum (transportation_list st)) ->
  (forall p, σ (XT i p Plus) = σ (XT i p Minus)) /\
  (forall s, 5 * σ (XT i Module s) + 6 * σ (XT i HalfBody1 s) + 24 * σ (XT i HalfBody3 s) +
             30 * σ (XT i Foundation s) + 60 * σ (XT i Steel s) + 60 * σ (XT i Turbine s)
             <= 60 * σ (XT i Vessel s)).
Proof.
  intros Hg Hs Hi. destruct (ef_t _ _ (gen_constraints_facts _ _ _ Hg Hs) i e Hi) as [Hv [Hpm _]].
  unfold t_vessel_cons, t_pm_cons in *; rewrite Forall_map_iff in Hv; rewrite Forall_map_iff in Hpm. split.
  - intros p; apply sat_eq_vars, (Hpm p (in_num_product_list p)).
  - intros s; apply sat_vessel, Hv; destruct s; simpl; tauto.
Qed.

Lemma s_cap_cons_ok k e (f : Product -> Q) :
  (forall p, pv_float (s_calc_capacity e p) = inr (f p)) -> exists zs, s_cap_cons (k, e) = inr zs.
Proof.
  intros Hc; apply exc_concat_map_ok; intros [p s] _; cbn [fst snd].
  rewrite Hc; simpl; eauto.
Qed.

Lemma s_cap_cons_sat σ k e (f : Product -> Q) zs :
  (forall p, pv_float (s_calc_capacity e p) = inr (f p)) -> s_cap_cons (k, e) = inr zs ->
  (Forall (sat σ) zs <-> forall p s, (inject_Z (σ (XS k p s)) <= f p)%Q).
Proof.
  intros Hc H. rewrite (exc_concat_map_Forall _ _ _ _ H). split.
  - intros Hall p s.
    specialize (Hall (p, s) [cle (lvar (XS k p s)) (lconst (f p))] (in_prods_signs p s)).
    cbn [fst snd] in Hall. rewrite Hc in Hall.
    specialize (Hall eq_refl). apply Forall_cons_iff in Hall as [Hs _].
    apply sat_le_const in Hs; exact Hs.
  - intros Hall [p s] zs' _ Hz; cbn [fst snd] in Hz.
    rewrite Hc in Hz. injection Hz as <-.
    constructor; [apply sat_le_const, Hall | constructor].
Qed.

(** C8: in a feasible solution a storage edge whose capacity is the
    integer [c] (the wet-storage capacity of line 329) carries at most [c]
    floating foundations and nothing else, carries no vessel, and has the
    same flow in and out; a location without wet storage (capacity 0)
    keeps nothing from one month to the next. *)
Theorem storage_edge_feasible σ st cs k e c :
  gen_constraints st = inr cs -> feasible σ cs ->
  In (k, e) (ienum (storage_list st)) -> s_capacity e = pv_of_int c ->
  (forall p, σ (XS k p Plus) = σ (XS k p Minus)) /\
  (forall s, (σ (XS k Foundation s) <= c)%Z) /\
  (forall p s, p <> Foundation -> σ (XS k p s) = 0%Z).
Proof.
  intros Hg [Hn Hs] Hk Hc.
  destruct (ef_s _ _ (gen_constraints_facts _ _ _ Hg Hs) k e Hk) as [Hpm [_ Hcap]].
  assert (Hf : forall p, pv_float (s_calc_capacity e p) =
                         inr (inject_Z (if bool_decide (p = Foundation) then c else 0))).
  { intros p; unfold s_calc_capacity; rewrite Hc; case_bool_decide; reflexivity. }
  destruct (s_cap_cons_ok k e _ Hf) as [zs Hz].
  pose proof (proj1 (s_cap_cons_sat σ k e _ zs Hf Hz) (Hcap zs Hz)) as Hb; cbn beta in Hb.
  unfold s_pm_cons in Hpm; rewrite Forall_map_iff in Hpm.
  split; [|split].
  - intros p; apply sat_eq_vars, (Hpm p (in_num_product_list p)).
  - intros s; specialize (Hb Foundation s); rewrite bool_decide_eq_true_2 in Hb by reflexivity.
    rewrite Zle_Qle; exact Hb.
  - intros p s Hp; specialize (Hb p s); rewrite bool_decide_eq_false_2 in Hb by exact Hp.
    rewrite <- Zle_Qle in Hb; specialize (Hn (XS k p s)); lia.
Qed.

Lemma special_vessel_cons_sat σ id i e :
  node_id (t_target e) = id -> Forall (sat σ) (special_vessel_cons id (i, e)) ->
  σ (XT i Vessel Minus) = 0%Z.
Proof.
  intros Hid H; unfold special_vessel_cons in H; cbn [fst snd] in H.
  rewrite Hid, String.eqb_refl in H. apply Forall_cons_iff in H as [H _].
  apply sat_eq_zero, H.
Qed.

(** C9: on a route into one of the two named aggregate nodes (lines
    591-593 and 608-610), a feasible solution carries no steel, module,
    half-hull, foundation or turbine, in either sign: the code does not
    exempt these routes from the vessel budget, it forces their vessel
    flow to zero, so only products of weight zero (the installed turbine)
    can use them. *)
Theorem special_route_no_cargo σ st cs i e :
  gen_constraints st = inr cs -> feasible σ cs ->
  In (i, e) (ienum (transportation_list st)) ->
  node_id (t_target e) = noshiro_id \/ node_id (t_target e) = noshiro6_id ->
  forall p s, In p [Steel; Module; HalfBody1; HalfBody3; Foundation; Turbine] ->
  σ (XT i p s) = 0%Z.
Proof.
  intros Hg [Hn Hs] Hi Hid p s Hp.
  pose proof (gen_constraints_facts _ _ _ Hg Hs) as Ef.
  assert (Hv : σ (XT i Vessel Minus) = 0%Z).
  { destruct (ef_special _ _ Ef i e Hi) as [H6 H].
    destruct Hid as [Hid|Hid]; eapply special_vessel_cons_sat; eassumption. }
  destruct (ef_t _ _ Ef i e Hi) as [Hw [Hpm _]].
  unfold t_vessel_cons, t_pm_cons in *; rewrite Forall_map_iff in Hw; rewrite Forall_map_iff in Hpm.
  assert (Hw' := proj1 (sat_vessel σ i Minus) (Hw Minus ltac:(cbn; tauto))); rewrite Hv in Hw'.
  assert (Hpm' := fun p => proj1 (sat_eq_vars _ _ _) (Hpm p (in_num_product_list p))); cbn [fst] in Hpm'.
  assert (N : forall p s, (0 <= σ (XT i p s))%Z) by (intros; apply Hn).
  pose proof (N Module Minus); pose proof (N HalfBody1 Minus); pose proof (N HalfBody3 Minus);
  pose proof (N Foundation Minus); pose proof (N Steel Minus); pose proof (N Turbine Minus).
  destruct s; [rewrite Hpm'|]; cbn in Hp; intuition (subst; lia).
Qed.
