(* ===== verification/Balance.v ===== *)
(** * The global bill of materials of a feasible plan

    Summing the mass-balance rows of [optimize] (lines 656-670) over all
    nodes, the flows of transportation and storage edges cancel (their
    plus and minus flows are equal, lines 598-605) and only production
    remains.  Chaining the per-edge conversion relations of the B-matrix
    (lines 617-647) with the zero bounds of [calc_capacity] gives, for
    every feasible assignment, that the plan installs at least the total
    demand, produces a foundation and four modules per installed turbine,
    and consumes at least four units of steel per turbine demanded.

    The sum needs the network to be well formed ([wf_network]): node ids
    are distinct and every edge end is the id of a node of [node_list]. *)

From S2P Require Import Prelude Data Carry Network Constraints.

Local Open Scope calc_scope.
Local Open Scope Z_scope.

(** ** Well-formed networks and total flows *)

Record wf_network (st : BState) : Prop := {
  wf_nodup : List.NoDup (map node_id (node_list st));
  wf_t : forall e, In e (transportation_list st) ->
           In (node_id (t_source e)) (map node_id (node_list st)) /\
           In (node_id (t_target e)) (map node_id (node_list st));
  wf_p : forall e, In e (production_list st) ->
           In (node_id (p_node e)) (map node_id (node_list st));
  wf_s : forall e, In e (storage_list st) ->
           In (node_id (s_source e)) (map node_id (node_list st)) /\
           In (node_id (s_target e)) (map node_id (node_list st))
}.

#[export] Instance NoDup_string_dec (l : list string) : Decision (List.NoDup l).
Proof.
  induction l as [|x l IH]; [left; constructor|].
  destruct (in_dec string_dec x l) as [Hx|Hx].
  - right; intros Hd; inversion Hd; contradiction.
  - destruct IH as [Hd|Hd]; [left; constructor; assumption | right; intros H; inversion H; contradiction].
Defined.

Definition wf_networkb (st : BState) : bool :=
  let ids := map node_id (node_list st) in
  bool_decide (List.NoDup ids) &&
  forallb (fun e => bool_decide (In (node_id (t_source e)) ids) &&
                    bool_decide (In (node_id (t_target e)) ids)) (transportation_list st) &&
  forallb (fun e => bool_decide (In (node_id (p_node e)) ids)) (production_list st) &&
  forallb (fun e => bool_decide (In (node_id (s_source e)) ids) &&
                    bool_decide (In (node_id (s_target e)) ids)) (storage_list st).

(** The total flow of product [p] with sign [s] over the edges of a list. *)
Definition edge_flow {E} (x : nat -> Product -> Sign -> var) (l : list E)
    (σ : assignment) (p : Product) (s : Sign) : Z :=
  zsum (map (fun ie => σ (x (fst ie) p s)) (ienum l)).

Definition prod_flow (σ : assignment) (st : BState) (p : Product) (s : Sign) : Z :=
  edge_flow XP (production_list st) σ p s.

Definition total_supply (st : BState) (p : Product) : Z :=
  zsum (map (fun n => calc_supply_demand n p) (node_list st)).

Definition total_demand (st : BState) : Z := zsum (map turbine (node_list st)).
Definition total_steel (st : BState) : Z := zsum (map steel (node_list st)).

(** Every unit cost the objective reads is non-negative. *)
(** The number a cost value stands for, when [pv_float] accepts it. *)
Definition cost_value (v : pyval) : Q := match pv_float v with inr q => q | inl _ => 0%Q end.

(** The cost of a plan as the specification prices it: each route's
    vessel cost per vessel movement, each production edge's unit cost
    per unit of the product its function outputs, each storage edge's
    cost per foundation kept; all on the outgoing ([minus]) copies. *)
Definition charged_cost (σ : assignment) (st : BState) : Q :=
  (qsum (map (fun ie => cost_value (t_cost (snd ie) Vessel) * inject_Z (σ (XT (fst ie) Vessel Minus)))
             (ienum (transportation_list st))) +
   qsum (map (fun ie => match cost_mapping (p_function (snd ie)) with
                        | Some p => cost_value (p_cost (snd ie)) * inject_Z (σ (XP (fst ie) p Minus))
                        | None => 0
                        end) (ienum (production_list st))) +
   qsum (map (fun ie => cost_value (s_cost (snd ie)) * inject_Z (σ (XS (fst ie) Foundation Minus)))
             (ienum (storage_list st))))%Q.

(** Route and sink edges charge nothing for the products they carry, only
    for the vessel. *)
Definition tcost_ok (st : BState) : Prop :=
  forall e, In e (transportation_list st) -> forall p, p <> Vessel -> t_cost e p = pv_of_int 0.

(** ** Lemmas *)

Lemma wf_networkb_spec st : wf_networkb st = true -> wf_network st.
Proof.
  unfold wf_networkb; rewrite !andb_true_iff, !forallb_forall.
  intros [[[Hd Ht] Hp] Hs]; apply bool_decide_eq_true in Hd; constructor; [exact Hd|..].
  - intros e He; specialize (Ht e He); apply andb_true_iff in Ht as [A B].
    apply bool_decide_eq_true in A, B; auto.
  - intros e He; specialize (Hp e He); apply bool_decide_eq_true in Hp; auto.
  - intros e He; specialize (Hs e He); apply andb_true_iff in Hs as [A B].
    apply bool_decide_eq_true in A, B; auto.
Qed.

Lemma ienum_in {A} (l : list A) i a : In (i, a) (ienum l) -> In a l.
Proof. apply in_combine_r. Qed.

Lemma zsum_map_vars σ {A} (g : A -> var) l : zsum (map σ (map g l)) = zsum (map (fun a => σ (g a)) l).
Proof. rewrite map_map; reflexivity. Qed.

Lemma eval_lsum_Z σ xs : (eval_lin σ (lsum xs) == inject_Z (zsum (map σ xs)))%Q.
Proof. rewrite eval_lsum, inject_Z_zsum, map_map; reflexivity. Qed.

Lemma sat_balance σ st n p :
  sat σ (balance_cons st n p) <->
  zsum (map σ (out_vars st (node_id n) p)) - zsum (map σ (in_vars st (node_id n) p))
  <= calc_supply_demand n p.
Proof.
  unfold sat, balance_cons, cle; cbn [c_op c_lhs c_rhs].
  rewrite eval_ladd, eval_lscale, !eval_lsum_Z, eval_lconst, Zle_Qle.
  unfold Z.sub; rewrite inject_Z_plus, inject_Z_opp.
  split; intros; lra.
Qed.

(** Summing, over distinct node ids, the edges whose end is the node. *)
Lemma node_sum {E} (l : list E) (key : E -> string) (g : nat * E -> Z) (ns : list Node) :
  List.NoDup (map node_id ns) -> (forall e, In e l -> In (key e) (map node_id ns)) ->
  zsum (map (fun n => zsum (map g (List.filter (fun ie => String.eqb (key (snd ie)) (node_id n))
                                              (ienum l)))) ns)
  = zsum (map g (ienum l)).
Proof.
  intros Hd Hk.
  rewrite <- (map_map node_id (fun id => zsum (map g (List.filter
              (fun ie => String.eqb (key (snd ie)) id) (ienum l))))).
  apply (zsum_partition (fun ie => key (snd ie))); [exact Hd|].
  intros [i e] Hi; apply Hk, (ienum_in _ _ _ Hi).
Qed.

(** The sum of the mass-balance rows of one product: production is the
    only net source of a product, up to the supply of the nodes. *)
Lemma balance_total σ st p :
  wf_network st -> In p real_products ->
  Forall (sat σ) (balance_block st) ->
  (forall i, In i (map fst (ienum (transportation_list st))) -> σ (XT i p Plus) = σ (XT i p Minus)) ->
  (forall k, In k (map fst (ienum (storage_list st))) -> σ (XS k p Plus) = σ (XS k p Minus)) ->
  prod_flow σ st p Plus - prod_flow σ st p Minus <= total_supply st p.
Proof.
  intros Hw Hp Hb Ht Hs.
  assert (Hrow : forall n, In n (node_list st) ->
            zsum (map σ (out_vars st (node_id n) p)) - zsum (map σ (in_vars st (node_id n) p))
            <= calc_supply_demand n p).
  { intros n Hn; apply sat_balance.
    unfold balance_block in Hb; rewrite Forall_flat_map in Hb.
    specialize (Hb n Hn); rewrite Forall_map_iff in Hb; exact (Hb p Hp). }
  pose proof (zsum_map_le _ _ _ Hrow) as H.
  rewrite zsum_map_minus in H. unfold out_vars, in_vars in H.
  rewrite (zsum_map_ext _ (fun n => _ + (_ + _))) in H
    by (intros; rewrite !map_app, !zsum_app, !zsum_map_vars; reflexivity).
  rewrite (zsum_map_ext (fun n => zsum (map σ (_ ++ _ ++ _))) (fun n => _ + (_ + _))) in H
    by (intros; rewrite !map_app, !zsum_app, !zsum_map_vars; reflexivity).
  rewrite !zsum_map_plus in H.
  destruct Hw as [Hd Hwt Hwp Hws].
  rewrite (node_sum _ (fun e => node_id (t_source e))),
    (node_sum _ (fun e => node_id (t_target e))),
    (node_sum _ (fun e => node_id (p_source e))), (node_sum _ (fun e => node_id (p_target e))),
    (node_sum _ (fun e => node_id (s_source e))), (node_sum _ (fun e => node_id (s_target e))) in H
    by (first [exact Hd | intros e He; first [apply (Hwt e He) | apply (Hwp e He) | apply (Hws e He)]]).
  unfold total_supply, prod_flow, edge_flow.
  rewrite (zsum_map_ext (fun ie => σ (XT (fst ie) p Plus)) (fun ie => σ (XT (fst ie) p Minus))) in H
    by (intros [i e] Hi; apply Ht, (in_map fst _ _ Hi)).
  rewrite (zsum_map_ext (fun ie => σ (XS (fst ie) p Plus)) (fun ie => σ (XS (fst ie) p Minus))) in H
    by (intros [k e] Hk; apply Hs, (in_map fst _ _ Hk)).
  lia.
Qed.

(** A (product, sign) that the table bounds by zero gets the capacity
    value 0, whatever the edge's capacity is. *)
Lemma prod_calc_capacity_zero f p s cap :
  f <> WetStorage -> bom_bound f p s = 0 -> prod_calc_capacity f p s cap = inr (pv_of_int 0).
Proof.
  intros Hf Hb; destruct f; [..| congruence]; destruct p, s; cbn in Hb |- *;
    (discriminate || reflexivity).
Qed.

Lemma p_cap_cons_storage j e cs : p_cap_cons (j, e) = inr cs -> p_function e <> WetStorage.
Proof. destruct e as [n f c k]; cbn [p_function]; intros H ->; cbn in H; discriminate. Qed.

Lemma p_cap_cons_zero σ j e cs :
  p_cap_cons (j, e) = inr cs -> Forall (sat σ) cs ->
  forall p s, bom_bound (p_function e) p s = 0 -> σ (XP j p s) <= 0.
Proof.
  intros H Hs p s Hb. pose proof (p_cap_cons_storage _ _ _ H) as Hf.
  rewrite (exc_concat_map_Forall _ _ _ _ H) in Hs.
  specialize (Hs (p, s) [cle (lvar (XP j p s)) (lconst (inject_Z 0))] (in_prods_signs p s)).
  cbn [fst snd] in Hs; rewrite (prod_calc_capacity_zero _ _ _ _ Hf Hb) in Hs.
  specialize (Hs eq_refl); apply Forall_cons_iff in Hs as [Hs _]; apply sat_le_int in Hs; exact Hs.
Qed.

(** The flows of one production edge in a feasible solution, whatever
    its function: no steel produced, no installed turbine consumed, the
    conversions of the B-matrix, and at least one module consumed per
    half-hull 1 and three per half-hull 3 produced. *)
Lemma production_flow_facts σ st cs j e :
  gen_constraints st = inr cs -> feasible σ cs -> In (j, e) (ienum (production_list st)) ->
  let x p s := σ (XP j p s) in
  x Steel Minus = 0 /\ x TurbineInstalled Plus = 0 /\
  x Steel Plus = x Module Minus /\ x HalfBody1 Plus = x HalfBody3 Plus /\
  x HalfBody1 Plus + x HalfBody3 Plus = 2 * x Foundation Minus /\
  x Foundation Plus = x Turbine Minus /\ x Turbine Plus = x TurbineInstalled Minus /\
  x HalfBody1 Minus + 3 * x HalfBody3 Minus <= x Module Plus.
Proof.
  intros Hg [Hn Hs] Hj x.
  destruct (gen_constraints_pcap _ _ _ _ Hg Hj) as [zs Hz].
  pose proof (ef_p _ _ (gen_constraints_facts _ _ _ Hg Hs) j e Hj
                (zs ++ p_vessel_cons (j, e) ++ bmat_cons (j, e))) as Hall.
  unfold p_edge_cons in Hall; rewrite Hz in Hall; specialize (Hall eq_refl).
  rewrite !Forall_app, bmat_cons_sat in Hall. destruct Hall as [Hc [_ Hb]].
  pose proof (p_cap_cons_zero _ _ _ _ Hz Hc) as Z.
  pose proof (p_cap_cons_storage _ _ _ Hz) as Hf.
  assert (N : forall p s, 0 <= σ (XP j p s)) by (intros; apply Hn).
  subst x; cbn beta in *.
  destruct (p_function e) eqn:Ef; [..| congruence].
  all: pose proof (Z Steel Minus eq_refl); pose proof (Z TurbineInstalled Plus eq_refl);
       pose proof (N Steel Minus); pose proof (N TurbineInstalled Plus);
       pose proof (N HalfBody1 Minus); pose proof (N HalfBody3 Minus); pose proof (N Module Plus).
  all: try (pose proof (Z HalfBody1 Minus eq_refl)); try (pose proof (Z HalfBody3 Minus eq_refl)).
  all: intuition lia.
Qed.

(** Per-edge relations summed over the production edges. *)
Lemma prod_flow_eq σ st p s q t :
  (forall j e, In (j, e) (ienum (production_list st)) -> σ (XP j p s) = σ (XP j q t)) ->
  prod_flow σ st p s = prod_flow σ st q t.
Proof. intros H; apply zsum_map_ext; intros [j e] Hj; exact (H j e Hj). Qed.

Lemma prod_flow_facts σ st cs :
  gen_constraints st = inr cs -> feasible σ cs ->
  let F := prod_flow σ st in
  F Steel Minus = 0 /\ F TurbineInstalled Plus = 0 /\
  F Steel Plus = F Module Minus /\ F HalfBody1 Plus = F HalfBody3 Plus /\
  F HalfBody1 Plus + F HalfBody3 Plus = 2 * F Foundation Minus /\
  F Foundation Plus = F Turbine Minus /\ F Turbine Plus = F TurbineInstalled Minus /\
  F HalfBody1 Minus + 3 * F HalfBody3 Minus <= F Module Plus.
Proof.
  intros Hg Hf F; subst F; unfold prod_flow, edge_flow.
  rewrite <- !zsum_map_plus, <- !zsum_map_scale, <- zsum_map_plus.
  assert (P := fun j e Hj => production_flow_facts σ st cs j e Hg Hf Hj); cbn beta in P.
  repeat split; first [apply zsum_map_zero | apply zsum_map_ext | apply zsum_map_le];
    intros [j e] Hj; cbn [fst]; destruct (P j e Hj) as (? & ? & ? & ? & ? & ? & ? & ?); lia.
Qed.

Lemma feasible_balance σ st cs p :
  gen_constraints st = inr cs -> feasible σ cs -> wf_network st -> In p real_products ->
  prod_flow σ st p Plus - prod_flow σ st p Minus <= total_supply st p.
Proof.
  intros Hg [Hn Hs] Hw Hp. pose proof (gen_constraints_facts _ _ _ Hg Hs) as Ef.
  apply balance_total; [exact Hw | exact Hp | exact (ef_bal _ _ Ef) | |].
  - intros i Hi; apply in_map_iff in Hi as [[i' e] [<- Hi]].
    destruct (ef_t _ _ Ef i' e Hi) as [_ [Hpm _]].
    unfold t_pm_cons in Hpm; rewrite Forall_map_iff in Hpm.
    apply sat_eq_vars, (Hpm p (in_num_product_list p)).
  - intros k Hk; apply in_map_iff in Hk as [[k' e] [<- Hk]].
    destruct (ef_s _ _ Ef k' e Hk) as [Hpm _].
    unfold s_pm_cons in Hpm; rewrite Forall_map_iff in Hpm.
    apply sat_eq_vars, (Hpm p (in_num_product_list p)).
Qed.

Lemma total_supply_intermediate st p :
  p <> Steel -> p <> TurbineInstalled -> total_supply st p = 0.
Proof. intros H1 H2; apply zsum_map_zero; intros n _; destruct p; cbn; congruence. Qed.

Lemma total_supply_installed st : total_supply st TurbineInstalled = - total_demand st.
Proof.
  unfold total_supply, total_demand.
  rewrite (zsum_map_ext _ (fun n => -1 * turbine n)) by (intros; cbn; lia).
  rewrite zsum_map_scale; lia.
Qed.

(** An intermediate product leaves production edges no faster than they
    make it. *)
Lemma feasible_intermediate σ st cs p :
  gen_constraints st = inr cs -> feasible σ cs -> wf_network st ->
  p <> Steel -> p <> TurbineInstalled -> p <> Vessel ->
  prod_flow σ st p Plus <= prod_flow σ st p Minus.
Proof.
  intros Hg Hf Hw H1 H2 H3.
  pose proof (feasible_balance _ _ _ p Hg Hf Hw) as B.
  rewrite total_supply_intermediate in B by assumption.
  enough (In p real_products) by (specialize (B H); lia).
  destruct p; cbn; tauto || congruence.
Qed.

Lemma feasible_installed σ st cs :
  gen_constraints st = inr cs -> feasible σ cs -> wf_network st ->
  prod_flow σ st TurbineInstalled Plus - prod_flow σ st TurbineInstalled Minus <= - total_demand st.
Proof.
  intros Hg Hf Hw; rewrite <- total_supply_installed.
  apply (feasible_balance _ _ cs); auto; cbn; tauto.
Qed.

(** The whole chain: installed turbines, foundations, modules and steel,
    from the demand up to the steel supply. *)
Lemma demand_chain σ st cs :
  gen_constraints st = inr cs -> feasible σ cs -> wf_network st ->
  total_demand st <= prod_flow σ st TurbineInstalled Minus /\
  total_demand st <= prod_flow σ st Foundation Minus /\
  4 * total_demand st <= prod_flow σ st Module Minus /\
  prod_flow σ st Module Minus <= total_steel st.
Proof.
  intros Hg Hf Hw.
  pose proof (prod_flow_facts _ _ _ Hg Hf) as Hp; cbn zeta in Hp.
  pose proof (feasible_installed _ _ _ Hg Hf Hw).
  pose proof (feasible_balance _ _ _ Steel Hg Hf Hw ltac:(cbn; tauto)) as BS.
  change (total_supply st Steel) with (total_steel st) in BS.
  pose proof (feasible_intermediate _ _ _ Module Hg Hf Hw).
  pose proof (feasible_intermediate _ _ _ HalfBody1 Hg Hf Hw).
  pose proof (feasible_intermediate _ _ _ HalfBody3 Hg Hf Hw).
  pose proof (feasible_intermediate _ _ _ Foundation Hg Hf Hw).
  pose proof (feasible_intermediate _ _ _ Turbine Hg Hf Hw).
  intuition (try discriminate; lia).
Qed.

Lemma wf_of_closed st :
  closed st -> List.NoDup (map node_id (node_list st)) -> wf_network st.
Proof.
  intros [Ht Hp Hs] Hd; constructor; [exact Hd|..]; intros e He.
  - destruct (Ht e He); split; apply in_map; assumption.
  - apply in_map, Hp, He.
  - destruct (Hs e He); split; apply in_map; assumption.
Qed.

(** ** The bill of materials of a feasible plan *)

(** C2: in every feasible solution of the program generated for a
    well-formed network, the production edges install at least the total
    turbine demand of the sites, and produce at least one floating
    foundation and four modules per turbine demanded. *)
Theorem production_covers_demand σ st cs :
  gen_constraints st = inr cs -> feasible σ cs -> wf_network st ->
  total_demand st <= prod_flow σ st TurbineInstalled Minus /\
  total_demand st <= prod_flow σ st Foundation Minus /\
  4 * total_demand st <= prod_flow σ st Module Minus.
Proof. intros Hg Hf Hw; destruct (demand_chain _ _ _ Hg Hf Hw) as (A & B & C & _); auto. Qed.

(** C3: every feasible solution of the program generated for a
    well-formed network needs at least four units of steel supply per
    turbine demanded: one module per unit of steel, one module per
    half-hull 1 and three per half-hull 3, one half-hull of each kind
    per foundation and one foundation per turbine.  A network whose steel
    supply is below four times its demand has no feasible plan. *)
Theorem steel_covers_demand σ st cs :
  gen_constraints st = inr cs -> feasible σ cs -> wf_network st ->
  4 * total_demand st <= total_steel st.
Proof. intros Hg Hf Hw; destruct (demand_chain _ _ _ Hg Hf Hw) as (_ & _ & C & D); lia. Qed.

(** ** Networks built from the two tables *)

(** C10: the network [build_network] builds from a facility table whose
    rows name distinct locations is well formed: node ids are unique (the
    invariant the specification states for node identity) and every edge
    joins two nodes of the node list. *)
Theorem build_network_wf node_rows edge_rows st :
  build_network node_rows edge_rows = inr st ->
  List.NoDup (map row_name (facility_rows node_rows)) ->
  wf_network st.
Proof.
  intros H Hd; apply wf_of_closed;
    [exact (build_network_closed _ _ _ H) | exact (build_network_node_ids _ _ _ H Hd)].
Qed.

(** ** The objective *)

(** Route and sink edges are the only transportation edges, and they
    charge only for the vessel. *)
Lemma tcost_ok_add_tedge st e :
  tcost_ok st -> (forall p, p <> Vessel -> t_cost e p = pv_of_int 0) -> tcost_ok (add_tedge st e).
Proof.
  intros H He e' H'; cbn [transportation_list add_tedge] in H'.
  apply in_app_iff in H' as [H'|[<-|[]]]; [exact (H e' H') | exact He].
Qed.

Lemma add_production_edges_tcost node m st st' :
  tcost_ok st -> add_production_edges node m st = inr st' -> tcost_ok st'.
Proof.
  intros Hc H; refine (exc_fold_inv _ _ _ _ _ _ Hc H).
  intros s0 [ti t] s1 _ Hc0 Hs; cbn [snd] in Hs.
  destruct (role node t); [builder_inv Hs; exact Hc0 | injection Hs as <-; exact Hc0].
Qed.

Lemma month_step_tcost row acc im acc' :
  tcost_ok (fst acc) -> month_step row acc im = inr acc' -> tcost_ok (fst acc').
Proof.
  destruct acc as [st sss], im as [index m]; cbn [fst]; intros Hc H; unfold month_step in H.
  apply exc_bind_inr in H as [[node sss'] [_ H]].
  apply exc_bind_inr in H as [st2 [H2 H]]. apply exc_bind_inr in H as [st3 [H3 H]].
  injection H as <-. apply (add_production_edges_tcost _ _ (add_node st node) _ Hc) in H2.
  unfold add_storage_edge in H3; destruct (Nat.eqb index 0); [injection H3 as <-; exact H2|].
  builder_inv H3; exact H2.
Qed.

Lemma node_row_step_tcost st row st' : tcost_ok st -> node_row_step st row = inr st' -> tcost_ok st'.
Proof.
  unfold node_row_step; intros Hc H. destruct (skip_row row); [injection H as <-; exact Hc|].
  apply exc_bind_inr in H as [[st1 sss] [H1 H]].
  apply (exc_fold_inv (fun acc => tcost_ok (fst acc)) _ _ (st, dict_empty) _
           (fun s0 x s1 _ => month_step_tcost row s0 x s1) Hc) in H1.
  unfold add_aggregate in H. apply exc_bind_inr in H as [c3 [_ H]].
  destruct (cell_is c3 kind_site); [|injection H as <-; exact H1].
  builder_inv H. refine (exc_fold_inv tcost_ok _ _ (add_node st1 _) _ _ H1 H).
  intros s0 m s1 _ Hc0 Hs; builder_inv Hs. apply tcost_ok_add_tedge; [exact Hc0 | reflexivity].
Qed.

Lemma edge_row_step_tcost st row st' : tcost_ok st -> edge_row_step st row = inr st' -> tcost_ok st'.
Proof.
  unfold edge_row_step; intros Hc H. destruct (skip_row row); [injection H as <-; exact Hc|].
  apply exc_bind_inr in H as [c0 [_ H]]. apply exc_bind_inr in H as [c1 [_ H]].
  refine (exc_fold_inv tcost_ok _ _ _ _ _ Hc H).
  intros s0 m s1 _ Hc0 Hs; unfold route_month_step in Hs; builder_inv Hs.
  apply tcost_ok_add_tedge; [exact Hc0|]. intros p Hp; destruct p; cbn; congruence.
Qed.

Lemma build_network_tcost nr er st : build_network nr er = inr st -> tcost_ok st.
Proof.
  unfold build_network, build_nodes; intros H. apply exc_bind_inr in H as [st0 [H0 H]].
  refine (exc_fold_inv tcost_ok _ _ _ _ (fun s0 r s1 _ => edge_row_step_tcost s0 r s1) _ H).
  refine (exc_fold_inv tcost_ok _ _ bstate_empty _ (fun s0 r s1 _ => node_row_step_tcost s0 r s1) _ H0).
  intros e [].
Qed.

(** The value of a list of objective terms. *)
Lemma eval_mkLin σ ts : (eval_lin σ (mkLin ts 0) == qsum (map (fun t => fst t * inject_Z (σ (snd t))) ts))%Q.
Proof. unfold eval_lin; cbn [terms const]; ring. Qed.

(** [quicksum] over the pieces [exc_concat_map] puts together. *)
Lemma concat_map_qsum {A} (f : A -> exc (list (Q * var))) (h : A -> Q) σ l ts :
  exc_concat_map f l = inr ts ->
  (forall x zs, In x l -> f x = inr zs -> qsum (map (fun t => fst t * inject_Z (σ (snd t))) zs) == h x)%Q ->
  (qsum (map (fun t => fst t * inject_Z (σ (snd t))) ts) == qsum (map h l))%Q.
Proof.
  unfold exc_concat_map. intros H Hh.
  enough (G : forall acc, exc_fold (fun acc x => zs <- f x ;; ret (acc ++ zs)) l acc = inr ts ->
                (qsum (map (fun t => fst t * inject_Z (σ (snd t))) ts) ==
                 qsum (map (fun t => fst t * inject_Z (σ (snd t))) acc) + qsum (map h l))%Q)
    by (rewrite (G [] H); cbn; ring).
  clear H; induction l as [|x l IH]; intros acc H; cbn in H |- *.
  - injection H as <-; ring.
  - destruct (f x) as [e|zs] eqn:E; cbn in H; [discriminate|].
    rewrite (IH (fun y zs' Hy => Hh y zs' (or_intror Hy)) _ H), map_app, qsum_app,
      (Hh x zs (or_introl eq_refl) E); ring.
Qed.

(** The terms of one edge: its cost of each product times the outgoing
    flow of the product. *)
Lemma cost_terms_value {E} (cost : E -> Product -> pyval) x σ i e zs :
  cost_terms cost x (i, e) = inr zs ->
  (qsum (map (fun t => fst t * inject_Z (σ (snd t))) zs) ==
   qsum (map (fun p => cost_value (cost e p) * inject_Z (σ (x i p Minus))) num_product_list))%Q.
Proof.
  unfold cost_terms; cbn [fst snd]; intros H. apply (concat_map_qsum _ _ σ _ _ H).
  intros p zs' _ Hp. apply exc_bind_inr in Hp as [c [Hc Hp]]. injection Hp as <-.
  unfold cost_value; rewrite Hc. cbn [map qsum fst snd]. ring.
Qed.

Lemma qsum_zero {A} (l : list A) : (qsum (map (fun _ => 0) l) == 0)%Q.
Proof. induction l as [|x l IH]; cbn [map qsum]; [reflexivity | rewrite IH; ring]. Qed.

(** A sum over distinct items with one nonzero term. *)
Lemma qsum_single {A} (f : A -> Q) l a :
  List.NoDup l -> In a l -> (forall b, In b l -> b <> a -> f b == 0)%Q -> (qsum (map f l) == f a)%Q.
Proof.
  induction l as [|b l IH]; intros Hnd Ha Hz; [destruct Ha|].
  apply NoDup_cons_iff in Hnd as [Hb Hnd]. cbn [map qsum].
  destruct Ha as [<-|Ha].
  - rewrite (qsum_map_ext f (fun _ => 0%Q)), qsum_zero; [ring|].
    intros x Hx; apply Hz; [right; exact Hx | intros ->; contradiction].
  - rewrite (IH Hnd Ha), (Hz b (or_introl eq_refl)); [ring | intros ->; contradiction | ].
    intros x Hx; apply Hz; right; exact Hx.
Qed.

Lemma num_product_list_NoDup : List.NoDup num_product_list.
Proof. cbn; repeat constructor; cbn; intuition discriminate. Qed.

Lemma num_product_list_all p : In p num_product_list.
Proof. destruct p; cbn; tauto. Qed.

(** A sum over the eight products with one nonzero term. *)
Lemma qsum_products_single (f : Product -> Q) p0 :
  (forall p, p <> p0 -> f p == 0)%Q -> (qsum (map f num_product_list) == f p0)%Q.
Proof.
  intros H. apply qsum_single; [exact num_product_list_NoDup | apply num_product_list_all |].
  intros b _; apply H.
Qed.

Lemma cost_value_zero : cost_value (pv_of_int 0) = 0%Q.
Proof. reflexivity. Qed.

(** C17: the objective of lines 672-691 is the cost of the plan as the
    specification prices it ([charged_cost]): on a network
    [build_network] builds, at every assignment, the objective's value is
    the vessel cost of each route times its outgoing vessel flow, plus
    each production edge's unit cost times its outgoing flow of the
    product its function outputs, plus each storage edge's cost times
    the foundations it keeps; incoming flows, inputs of a function and
    the other products carried cost nothing. *)
Theorem objective_value nr er st o σ :
  build_network nr er = inr st -> objective st = inr o -> (eval_lin σ o == charged_cost σ st)%Q.
Proof.
  intros Hb H. pose proof (build_network_tcost _ _ _ Hb) as Ht. unfold objective in H.
  apply exc_bind_inr in H as [tc [Htc H]]. apply exc_bind_inr in H as [pc [Hpc H]].
  apply exc_bind_inr in H as [sc [Hsc H]]. injection H as <-.
  rewrite eval_mkLin, !map_app, !qsum_app. unfold charged_cost.
  rewrite (concat_map_qsum _ (fun ie => cost_value (t_cost (snd ie) Vessel) * inject_Z (σ (XT (fst ie) Vessel Minus)))%Q
             σ _ _ Htc).
  2: { intros [i e] zs Hi Hz. rewrite (cost_terms_value _ _ σ _ _ _ Hz); cbn [fst snd].
       apply (qsum_products_single (fun p => cost_value (t_cost e p) * inject_Z (σ (XT i p Minus)))%Q Vessel).
       intros p Hp. rewrite (Ht e (ienum_in _ _ _ Hi) p Hp), cost_value_zero; ring. }
  rewrite (concat_map_qsum _ (fun ie => match cost_mapping (p_function (snd ie)) with
                                        | Some p => cost_value (p_cost (snd ie)) * inject_Z (σ (XP (fst ie) p Minus))
                                        | None => 0 end)%Q σ _ _ Hpc).
  2: { intros [i e] zs _ Hz. rewrite (cost_terms_value _ _ σ _ _ _ Hz). unfold p_calc_cost; cbn [fst snd].
       destruct (cost_mapping (p_function e)) as [p0|].
       - rewrite (qsum_products_single _ p0); [rewrite bool_decide_true by reflexivity; reflexivity|].
         intros p Hp. rewrite bool_decide_false by congruence. rewrite cost_value_zero; ring.
       - rewrite (qsum_map_ext _ (fun _ => 0%Q)), qsum_zero; [ring|].
         intros p _. rewrite bool_decide_false by congruence. rewrite cost_value_zero; ring. }
  rewrite (concat_map_qsum _ (fun ie => cost_value (s_cost (snd ie)) * inject_Z (σ (XS (fst ie) Foundation Minus)))%Q
             σ _ _ Hsc).
  2: { intros [i e] zs _ Hz. rewrite (cost_terms_value _ _ σ _ _ _ Hz). unfold s_calc_cost; cbn [fst snd].
       rewrite (qsum_products_single _ Foundation); [rewrite bool_decide_true by reflexivity; reflexivity|].
       intros p Hp. rewrite bool_decide_false by exact Hp. rewrite cost_value_zero; ring. }
  ring.
Qed.


