(* ===== verification/Maps.v ===== *)
(** * The monthly maps of [build_maps] (lines 742-871)

    For every month of [layer_network_list], [build_maps] builds a
    [DiGraph] of that month's locations ([month_graph]): step 1 adds
    every node of the month by name, with its position and four counts
    read from the solution (lines 751-769); step 2 adds every route of the
    month as an edge from source name to target name, with the shipped
    quantity of every product summed over all routes between the same two
    node ids (lines 773-781).  Steps 4 and 5 then draw the graph: a line
    for every edge that carries something, a circle and a text label for
    every node ([month_map]).  The folium calls are modelled by the
    elements they add to the map ([element]); the HTML they render and
    the constant CSS of step 6 are not.  [build_maps] returns the months
    with their elements in the order of [layer_network_list].

    Theorems: on a built network every node and route end of a month's
    graph has its position, so [build_maps] never raises (C21); the lines
    of a month's map are exactly its routes with a non-zero quantity,
    drawn between the positions of their ends (C22); then come, once per
    location of the month in table order, its circle and label (C24).
    The proofs carry
    two invariants through the two loops: [placed] (a position on every
    node) and the soundness of what the graph holds ([pos_sound],
    [edges_sound]). *)

From S2P Require Import Prelude Data Carry Network Constraints PyStr Graph.

Local Open Scope calc_scope.

(** ** Step 1: the nodes of a month (lines 751-769) *)

(** [int(model.getVal(quicksum(...)))] of lines 761, 765 and 767: the
    minus flow of product [p] on the production edges of node [n] whose
    function is one of [fs]. *)
Definition prod_total (σ : assignment) (st : BState) (n : Node) (fs : list Role) (p : Product) : Z :=
  zsum (map (fun je => σ (XP (fst je) p Minus))
            (List.filter (fun je => String.eqb (node_id (p_source (snd je))) (node_id n) &&
                                    existsb (fun f => bool_decide (p_function (snd je) = f)) fs)
                         (ienum (production_list st)))).

(** Line 763: the floating foundations kept on the storage edges leaving
    node [n]. *)
Definition stor_total (σ : assignment) (st : BState) (n : Node) : Z :=
  zsum (map (fun je => σ (XS (fst je) Foundation Minus))
            (List.filter (fun je => String.eqb (node_id (s_source (snd je))) (node_id n))
                         (ienum (storage_list st)))).

Definition pos_key : string := "pos".

(** The body of the loop of line 751 for one node. *)
Definition node_step (σ : assignment) (st : BState) (m : Month) (g : graph) (n : Node) : exc graph :=
  if bool_decide (month n = LMonth m) then
    let nm := name n in
    g1 <- nx_set_node_attr (nx_add_node g nm) nm pos_key (APos (lat n, lon n)) ;;
    g2 <- nx_set_node_attr (nx_add_node g1 nm) nm pos_key (APos (lat n, lon n)) ;;
    g3 <- nx_set_node_attr g2 nm "浮体生産量"
            (AInt (prod_total σ st n [FoundationFab; OffshoreFoundationFab] Foundation)) ;;
    g4 <- nx_set_node_attr g3 nm "仮置数" (AInt (stor_total σ st n)) ;;
    g5 <- nx_set_node_attr g4 nm "風車組立数" (AInt (prod_total σ st n [TurbineAssembly] Turbine)) ;;
    nx_set_node_attr g5 nm "風車設置数"
      (AInt (prod_total σ st n [TurbineInstallation] TurbineInstalled))
  else ret g.

(** ** Step 2: the routes of a month (lines 773-781) *)

(** Line 779: the minus flow of [p] summed over every route with the same
    source and target node ids as [e]. *)
Definition route_total (σ : assignment) (st : BState) (e : TEdge) (p : Product) : Z :=
  zsum (map (fun je => σ (XT (fst je) p Minus))
            (List.filter (fun je => String.eqb (node_id (t_source (snd je))) (node_id (t_source e)) &&
                                    String.eqb (node_id (t_target (snd je))) (node_id (t_target e)))
                         (ienum (transportation_list st)))).

(** The attribute dictionary lines 778-779 give a route's edge: every
    product, in the order of [num_product_list], with its quantity. *)
Definition product_attrs (f : Product -> Z) : odict attr :=
  map (fun p => (product_label p, AInt (f p))) num_product_list.

(** The body of the loop of line 773 for one route.  A sink edge has no
    month ([None]) and is never drawn. *)
Definition edge_step (σ : assignment) (st : BState) (m : Month) (g : graph) (e : TEdge) : exc graph :=
  if bool_decide (t_month e = Some m) then
    let u := name (t_source e) in
    let v := name (t_target e) in
    exc_fold (fun g' p => nx_set_edge_attr g' u v (product_label p) (AInt (route_total σ st e p)))
             num_product_list (nx_add_edge g u v)
  else ret g.

Definition month_graph (σ : assignment) (st : BState) (m : Month) : exc graph :=
  g <- exc_fold (node_step σ st m) (node_list st) graph_empty ;;
  exc_fold (edge_step σ st m) (transportation_list st) g.

(** ** Steps 4 and 5: drawing (lines 787-851) *)

(** What the folium calls add to the map: [PolyLine] (line 793),
    [CircleMarker] (line 806) and the text [Marker] with its [DivIcon]
    of size [(w, h)] anchored at its centre and its [Tooltip] (lines
    825-851). *)
Inductive element :=
| PolyLine (a b : Q * Q)
| CircleMarker (at_ : Q * Q) (tooltip : string)
| Marker (at_ : Q * Q) (text : string) (w h : Q) (anchor : Q * Q) (tooltip : string).

(** [G.nodes[u]["pos"]], unpacked into [lat, lon]. *)
Definition node_pos (g : graph) (u : string) : exc (Q * Q) :=
  d <- od_get u (g_node g) ;;
  a <- od_get pos_key d ;;
  match a with APos p => ret p | AInt _ => raise TypeError end.

(** [data.get(product_id, 0) == 0]. *)
Definition attr_zero (o : option attr) : bool :=
  match o with None => true | Some (AInt z) => Z.eqb z 0 | Some (APos _) => false end.

(** Lines 787-799: an edge is drawn unless every product's quantity is 0. *)
Definition draw_edge (g : graph) (e : string * string * odict attr) : exc (list element) :=
  let '(u, v, d) := e in
  if forallb (fun p => attr_zero (od_lookup (product_label p) d)) num_product_list then ret []
  else a <- node_pos g u ;; b <- node_pos g v ;; ret [PolyLine a b].

(** Lines 819-823: the label drops the last character of the name and is
    ten pixels wide per character; [10 * 1.2] is the float [12.0]. *)
Definition label_size (display_name : string) : Q * Q :=
  (10 * inject_Z (Z.of_nat (py_len display_name)), 10 * (12 # 10))%Q.

Definition draw_node (g : graph) (u : string) : exc (list element) :=
  p <- node_pos g u ;;
  let dn := py_drop_last u in
  let '(w, h) := label_size dn in
  ret [CircleMarker p u; Marker p dn w h (w / 2, h / 2)%Q u].

(** The map of one month: the edges, then the nodes. *)
Definition month_map (σ : assignment) (st : BState) (m : Month) : exc (list element) :=
  g <- month_graph σ st m ;;
  es <- exc_concat_map (draw_edge g) (nx_edges g) ;;
  ns <- exc_concat_map (draw_node g) (nx_nodes g) ;;
  ret (es ++ ns).

(** What the map shows of one location of the month (lines 802-851): a
    circle at its position with its name, and its label. *)
Definition location_elements (n : Node) : list element :=
  let dn := py_drop_last (name n) in
  let '(w, h) := label_size dn in
  [CircleMarker (lat n, lon n) (name n); Marker (lat n, lon n) dn w h (w / 2, h / 2)%Q (name n)].

Definition is_line (x : element) : bool := match x with PolyLine _ _ => true | _ => false end.

(** [maps_by_month], in the order of [layer_network_list]. *)
Definition build_maps (σ : assignment) (st : BState) : exc (list (Month * list element)) :=
  exc_fold (fun acc m => els <- month_map σ st m ;; ret (acc ++ [(m, els)])) layer_network_list [].

(** ** Every node of the graph has a position *)

(** The invariant of [build_maps]' graphs: well formed, and a position on
    every node. *)
Definition placed (g : graph) : Prop :=
  graph_ok g /\ forall u, In u (nx_nodes g) -> exists p, node_attr g u pos_key = Some (APos p).

(** Every position in the graph is that of a node of the month with
    that name. *)
Definition pos_sound (st : BState) (m : Month) (g : graph) : Prop :=
  forall x p, node_attr g x pos_key = Some (APos p) ->
  exists n, In n (node_list st) /\ month n = LMonth m /\ name n = x /\ p = (lat n, lon n).

(** Every edge of the graph is a route of the month between those names,
    with that route's quantities. *)
Definition edges_sound (σ : assignment) (st : BState) (m : Month) (g : graph) : Prop :=
  forall u v d, edge_attrs g u v = Some d ->
  exists e, In e (transportation_list st) /\ t_month e = Some m /\
            name (t_source e) = u /\ name (t_target e) = v /\ d = product_attrs (route_total σ st e).

(** A graph without edges, as step 1 leaves it. *)
Definition no_edges (g : graph) : Prop := forall u v, edge_attrs g u v = None.

Lemma node_pos_ok g u p : node_attr g u pos_key = Some (APos p) -> node_pos g u = inr p.
Proof.
  unfold node_attr, node_pos, od_get. destruct (od_lookup u (g_node g)); [|discriminate].
  cbn [exc_bind ret]. intros E; rewrite E; reflexivity.
Qed.

Lemma nx_add_node_present g n : In n (nx_nodes g) -> nx_add_node g n = g.
Proof.
  intros H; apply od_lookup_in in H as [d Hd]; unfold nx_add_node; rewrite Hd; reflexivity.
Qed.

(** Setting an attribute of a node keeps the nodes placed, unless it
    replaces a position by an integer. *)
Lemma set_attr_placed g n k x :
  placed g -> In n (nx_nodes g) -> (k = pos_key -> exists p, x = APos p) ->
  exists g', nx_set_node_attr g n k x = inr g' /\ placed g' /\ nx_nodes g' = nx_nodes g.
Proof.
  intros [Hok Hp] Hn Hx. destruct (nx_set_node_attr_ok g n k x Hok Hn) as (g' & E & Hok' & Hns & _ & Ha).
  exists g'; split; [exact E|]. split; [split; [exact Hok'|] | exact Hns].
  intros u Hu; rewrite Ha. rewrite Hns in Hu.
  destruct (String.eqb u n && String.eqb pos_key k) eqn:Eb; [|apply Hp, Hu].
  apply andb_true_iff in Eb as [_ Ek]; apply String.eqb_eq in Ek.
  destruct (Hx (eq_sym Ek)) as [p ->]; eauto.
Qed.

(** A new node placed at once. *)
Lemma add_then_place g n p :
  placed g ->
  exists g', nx_set_node_attr (nx_add_node g n) n pos_key (APos p) = inr g' /\ placed g' /\
             nx_nodes g' = nx_nodes (nx_add_node g n).
Proof.
  intros [Hok Hp]. assert (Hn : In n (nx_nodes (nx_add_node g n))) by (apply nx_add_node_mem; auto).
  destruct (nx_set_node_attr_ok _ n pos_key (APos p) (nx_add_node_ok g n Hok) Hn)
    as (g' & E & Hok' & Hns & _ & Ha).
  exists g'; split; [exact E|]. split; [split; [exact Hok'|] | exact Hns].
  intros u Hu; rewrite Ha. rewrite Hns in Hu.
  destruct (String.eqb_spec u n) as [->|Hne]; cbn; [eauto|].
  apply nx_add_node_mem in Hu as [Hu| ->]; [|congruence].
  rewrite nx_add_node_attr by exact Hu. apply Hp, Hu.
Qed.

Lemma node_step_placed σ st m g n :
  placed g ->
  exists g', node_step σ st m g n = inr g' /\ placed g' /\
             forall x, In x (nx_nodes g') <->
                       In x (nx_nodes g) \/ (month n = LMonth m /\ x = name n).
Proof.
  intros Hg. unfold node_step. case_bool_decide as Hm; [|exists g; split; [reflexivity|]; split; [exact Hg|]; tauto].
  destruct (add_then_place g (name n) (lat n, lon n) Hg) as (g1 & E1 & H1 & N1).
  rewrite E1; cbn [exc_bind]. assert (Hn1 : In (name n) (nx_nodes g1)) by (rewrite N1; apply nx_add_node_mem; auto).
  rewrite (nx_add_node_present g1 _ Hn1).
  destruct (set_attr_placed g1 (name n) pos_key (APos (lat n, lon n)) H1 Hn1 (fun _ => ex_intro _ _ eq_refl)) as (g2 & -> & H2 & N2).
  cbn [exc_bind]. rewrite <- N2 in Hn1.
  destruct (set_attr_placed g2 (name n) "浮体生産量" (AInt (prod_total σ st n [FoundationFab; OffshoreFoundationFab] Foundation))
              H2 Hn1 ltac:(discriminate)) as (g3 & -> & H3 & N3).
  cbn [exc_bind]. rewrite <- N3 in Hn1.
  destruct (set_attr_placed g3 (name n) "仮置数" (AInt (stor_total σ st n)) H3 Hn1 ltac:(discriminate))
    as (g4 & -> & H4 & N4).
  cbn [exc_bind]. rewrite <- N4 in Hn1.
  destruct (set_attr_placed g4 (name n) "風車組立数" (AInt (prod_total σ st n [TurbineAssembly] Turbine))
              H4 Hn1 ltac:(discriminate)) as (g5 & -> & H5 & N5).
  cbn [exc_bind]. rewrite <- N5 in Hn1.
  destruct (set_attr_placed g5 (name n) "風車設置数" (AInt (prod_total σ st n [TurbineInstallation] TurbineInstalled))
              H5 Hn1 ltac:(discriminate)) as (g6 & -> & H6 & N6).
  exists g6; split; [reflexivity | split; [exact H6|]].
  intros x; rewrite N6, N5, N4, N3, N2, N1, nx_add_node_mem. intuition congruence.
Qed.

(** Step 1 places exactly the names of the month's nodes. *)
Lemma node_phase σ st m l g :
  placed g ->
  exists g', exc_fold (node_step σ st m) l g = inr g' /\ placed g' /\
             forall x, In x (nx_nodes g') <->
                       In x (nx_nodes g) \/ exists n, In n l /\ month n = LMonth m /\ x = name n.
Proof.
  revert g; induction l as [|n l IH]; intros g Hg.
  - exists g; split; [reflexivity|]; split; [exact Hg|]. intros x; split; [auto|].
    intros [H|(n & [] & _)]; exact H.
  - destruct (node_step_placed σ st m g n Hg) as (g1 & E1 & H1 & N1).
    destruct (IH g1 H1) as (g2 & E2 & H2 & N2).
    exists g2; cbn [exc_fold]; rewrite E1; cbn [exc_bind]; split; [exact E2 | split; [exact H2|]].
    intros x; rewrite N2, N1; split.
    + intros [[H|[Hm ->]]|(n' & Hn' & Hm & ->)]; [auto | right; exists n; cbn; auto | right; exists n'; cbn; auto].
    + intros [H|(n' & [<-|Hn'] & Hm & ->)]; [auto | auto | right; exists n'; auto].
Qed.

(** Placement depends on the node dictionary alone. *)
Lemma placed_same_nodes g g' : placed g -> graph_ok g' -> g_node g' = g_node g -> placed g'.
Proof.
  intros [_ Hp] Hok E; split; [exact Hok|]. unfold nx_nodes, node_attr; rewrite E; exact Hp.
Qed.

Lemma nx_add_edge_same_nodes g u v :
  In u (nx_nodes g) -> In v (nx_nodes g) -> g_node (nx_add_edge g u v) = g_node g.
Proof.
  intros Hu Hv; rewrite nx_add_edge_nodes, (nx_add_node_present g u Hu), (nx_add_node_present g v Hv).
  reflexivity.
Qed.

(** Step 2 on one route whose ends are placed. *)
Lemma edge_step_placed σ st m g e :
  placed g ->
  (t_month e = Some m -> In (name (t_source e)) (nx_nodes g) /\ In (name (t_target e)) (nx_nodes g)) ->
  exists g', edge_step σ st m g e = inr g' /\ placed g' /\ g_node g' = g_node g.
Proof.
  intros Hg He. unfold edge_step. case_bool_decide as Hm; [|exists g; auto].
  destruct (He Hm) as [Hu Hv].
  set (u := name (t_source e)) in *; set (v := name (t_target e)) in *.
  pose proof (nx_add_edge_same_nodes g u v Hu Hv) as N1.
  destruct (exc_fold_total (fun g' => placed g' /\ g_node g' = g_node g /\ exists d, edge_attrs g' u v = Some d)
              (fun g' p => nx_set_edge_attr g' u v (product_label p) (AInt (route_total σ st e p)))
              num_product_list (nx_add_edge g u v)) as (g' & E & H' & N' & _).
  - intros g0 p _ (H0 & N0 & d & Hd).
    destruct (nx_set_edge_attr_ok g0 u v (product_label p) (AInt (route_total σ st e p)) d (proj1 H0) Hd)
      as (g1 & E1 & Hok1 & N1' & Hd1 & _).
    exists g1; split; [exact E1|]. split; [apply (placed_same_nodes g0); assumption|].
    split; [congruence | eauto].
  - split; [apply (placed_same_nodes g); [exact Hg | apply nx_add_edge_ok, (proj1 Hg) | exact N1]|].
    split; [exact N1 | apply nx_add_edge_present, (proj1 Hg)].
  - exists g'; auto.
Qed.

(** Step 2 as a whole keeps the nodes of step 1. *)
Lemma edge_phase σ st m l g :
  placed g ->
  (forall e, In e l -> t_month e = Some m ->
             In (name (t_source e)) (nx_nodes g) /\ In (name (t_target e)) (nx_nodes g)) ->
  exists g', exc_fold (edge_step σ st m) l g = inr g' /\ placed g' /\ g_node g' = g_node g.
Proof.
  intros Hg He.
  destruct (exc_fold_total (fun g' => placed g' /\ g_node g' = g_node g) (edge_step σ st m) l g)
    as (g' & E & H' & N'); [| split; [exact Hg | reflexivity] | exists g'; auto].
  intros g0 e Hin [H0 N0]. unfold nx_nodes in He; rewrite <- N0 in He.
  destruct (edge_step_placed σ st m g0 e H0 (He e Hin)) as (g1 & E1 & H1 & N1).
  exists g1; split; [exact E1 | split; [exact H1 | congruence]].
Qed.

(** ** Drawing a placed graph never fails *)

Lemma nx_edges_ends g u v d :
  graph_ok g -> In (u, v, d) (nx_edges g) -> In u (nx_nodes g) /\ In v (nx_nodes g).
Proof.
  intros [Hk _ Hs] Hin. unfold nx_edges in Hin; apply in_flat_map in Hin as ([u' nbrs] & Hun & Hin).
  apply in_map_iff in Hin as ([v' d'] & [= <- <- <-] & Hvd); cbn.
  unfold nx_nodes; split; [rewrite Hk; apply in_map_iff; exists (u', nbrs); auto|].
  eapply Hs; [exact Hun | apply in_map_iff; exists (v', d'); auto].
Qed.

Lemma placed_pos g u : placed g -> In u (nx_nodes g) -> exists p, node_pos g u = inr p.
Proof. intros [_ Hp] Hu; destruct (Hp u Hu) as [p Ep]; exists p; apply node_pos_ok, Ep. Qed.

Lemma draw_placed g :
  placed g ->
  exists es ns, exc_concat_map (draw_edge g) (nx_edges g) = inr es /\
                exc_concat_map (draw_node g) (nx_nodes g) = inr ns.
Proof.
  intros Hg.
  destruct (exc_concat_map_ok (draw_edge g) (nx_edges g)) as [es Es].
  { intros [[u v] d] Hin; destruct (nx_edges_ends g u v d (proj1 Hg) Hin) as [Hu Hv].
    unfold draw_edge. destruct (placed_pos g u Hg Hu) as [a ->], (placed_pos g v Hg Hv) as [b ->].
    try destruct (forallb _ _); cbn; eauto. }
  destruct (exc_concat_map_ok (draw_node g) (nx_nodes g)) as [ns Ns].
  { intros u Hu; unfold draw_node. destruct (placed_pos g u Hg Hu) as [p ->]; cbn.
    destruct (label_size (py_drop_last u)); eauto. }
  eauto.
Qed.

(** ** The maps of a built network *)

(** Every route of a month joins two nodes of that month. *)
Lemma build_network_route_ends nr er st e m :
  build_network nr er = inr st -> In e (transportation_list st) -> t_month e = Some m ->
  (In (t_source e) (node_list st) /\ month (t_source e) = LMonth m) /\
  (In (t_target e) (node_list st) /\ month (t_target e) = LMonth m).
Proof.
  intros H He Hm. destruct (cl_t _ (build_network_closed _ _ _ H) e He) as [Hs Ht].
  assert (Hsh : shaped st).
  { unfold build_network, build_nodes in H; apply exc_bind_inr in H as [st0 [H0 H]].
    refine (exc_fold_inv shaped _ _ _ _ (fun s0 r s1 _ => edge_row_step_shaped s0 r s1) _ H).
    exact (exc_fold_inv shaped _ _ _ _ (fun s0 r s1 _ => node_row_step_shaped s0 r s1) shaped_empty H0). }
  destruct (sh_t _ Hsh e He) as [(m' & Hm' & Es & Et)|(m' & Hm' & _)]; [|congruence].
  rewrite Hm in Hm'; injection Hm' as <-. unfold node_key in Es, Et; cbn in Es, Et. auto.
Qed.

(** The graph of a month of a built network: placed, with the names of
    the month's nodes as its nodes. *)
Lemma month_graph_placed σ nr er st m :
  build_network nr er = inr st ->
  exists g, month_graph σ st m = inr g /\ placed g /\
            forall x, In x (nx_nodes g) <-> exists n, In n (node_list st) /\ month n = LMonth m /\ x = name n.
Proof.
  intros H. destruct (node_phase σ st m (node_list st) graph_empty (conj graph_ok_empty (fun _ H => False_ind _ H)))
    as (g1 & E1 & H1 & N1).
  assert (N1' : forall x, In x (nx_nodes g1) <-> exists n, In n (node_list st) /\ month n = LMonth m /\ x = name n).
  { intros x; rewrite N1; cbn; split; [intros [[]|Hx]; exact Hx | auto]. }
  destruct (edge_phase σ st m (transportation_list st) g1 H1) as (g2 & E2 & H2 & N2).
  - intros e He Hm. destruct (build_network_route_ends _ _ _ e m H He Hm) as [[Hs Ms] [Ht Mt]].
    split; apply N1'; eauto.
  - exists g2; unfold month_graph; rewrite E1; cbn [exc_bind]; split; [exact E2 | split; [exact H2|]].
    intros x; unfold nx_nodes; rewrite N2; apply N1'.
Qed.

(** When [build_maps] returns, it has one map per month, in order. *)
Lemma build_maps_months σ st maps :
  build_maps σ st = inr maps -> map fst maps = layer_network_list.
Proof.
  intros E. refine (eq_trans (exc_fold_trace _ (map fst) (fun m => [m]) _ _ _ _ E) eq_refl).
  intros acc m acc' _ Hs. apply exc_bind_inr in Hs as [els [_ Hs]]; injection Hs as <-.
  rewrite map_app; reflexivity.
Qed.

(** C21: [build_maps] never raises on a network [optimize] builds: every
    node and every end of a drawn route has the position step 1 stores,
    so it returns one map for each month, in the order of
    [layer_network_list], whatever the solution. *)
Theorem build_maps_total σ nr er st :
  build_network nr er = inr st ->
  exists maps, build_maps σ st = inr maps /\ map fst maps = layer_network_list.
Proof.
  intros H. unfold build_maps.
  destruct (exc_fold_total (fun _ => True)
              (fun acc m => els <- month_map σ st m ;; ret (acc ++ [(m, els)])) layer_network_list [])
    as (maps & E & _); [| exact I |].
  - intros acc m _ _. destruct (month_graph_placed σ nr er st m H) as (g & Eg & Hg & _).
    destruct (draw_placed g Hg) as (es & ns & Es & Ns).
    unfold month_map; rewrite Eg; cbn [exc_bind]; rewrite Es; cbn [exc_bind]; rewrite Ns; cbn.
    eexists; split; [reflexivity | exact I].
  - exists maps; split; [exact E | exact (build_maps_months _ _ _ E)].
Qed.

(** ** Which routes are drawn *)

Lemma exc_concat_map_In {A B} (f : A -> exc (list B)) l ys y :
  exc_concat_map f l = inr ys ->
  In y ys <-> exists x zs, In x l /\ f x = inr zs /\ In y zs.
Proof.
  unfold exc_concat_map. intros H.
  enough (G : forall acc, exc_fold (fun acc x => zs <- f x ;; ret (acc ++ zs)) l acc = inr ys ->
                          In y ys <-> In y acc \/ exists x zs, In x l /\ f x = inr zs /\ In y zs)
    by (rewrite (G [] H); cbn; tauto).
  clear H; induction l as [|x l IH]; intros acc H; cbn in H.
  - injection H as ->; split; [auto | intros [H|(? & ? & [] & _)]; exact H].
  - destruct (f x) as [e|zs] eqn:E; cbn in H; [discriminate|]. rewrite (IH _ H), in_app_iff. split.
    + intros [[Ha|Hz]|(x' & zs' & Hx' & Ex' & Hy)]; [auto | right; exists x, zs; cbn; auto |].
      right; exists x', zs'; cbn; auto.
    + intros [Ha|(x' & zs' & [<-|Hx'] & Ex' & Hy)]; [auto | | right; exists x', zs'; auto].
      rewrite E in Ex'; injection Ex' as <-; auto.
Qed.

Lemma NoDup_map_eq {A B} (f : A -> B) l x y :
  List.NoDup (map f l) -> In x l -> In y l -> f x = f y -> x = y.
Proof.
  induction l as [|a l IH]; cbn; [intros _ []|]. intros Hd Hx Hy E; inversion_clear Hd as [|? ? Hn Hd'].
  destruct Hx as [<-|Hx], Hy as [<-|Hy]; auto.
  - exfalso; apply Hn; rewrite E; apply in_map, Hy.
  - exfalso; apply Hn; rewrite <- E; apply in_map, Hx.
Qed.

(** Two nodes of one month with one name have one id. *)
Lemma node_id_of_name n n' m :
  month n = LMonth m -> month n' = LMonth m -> name n = name n' -> node_id n = node_id n'.
Proof. unfold node_id; intros -> -> ->; reflexivity. Qed.

Lemma route_total_ids σ st e e' :
  node_id (t_source e) = node_id (t_source e') -> node_id (t_target e) = node_id (t_target e') ->
  route_total σ st e = route_total σ st e'.
Proof. unfold route_total; intros -> ->; reflexivity. Qed.

(** Setting every product's quantity on an edge, in the order of
    [num_product_list], fills a fresh dictionary and leaves a filled one
    as it is. *)
Lemma fill_product_attrs (f : Product -> Z) d :
  d = [] \/ d = product_attrs f ->
  fold_left (fun d p => od_set (product_label p) (AInt (f p)) d) num_product_list d = product_attrs f.
Proof. intros [-> | ->]; reflexivity. Qed.

(** The loop of lines 778-779 on an existing edge. *)
Lemma set_edge_fold (f : Product -> Z) ps g u v d :
  graph_ok g -> edge_attrs g u v = Some d ->
  exists g', exc_fold (fun g' p => nx_set_edge_attr g' u v (product_label p) (AInt (f p))) ps g = inr g' /\
             graph_ok g' /\ g_node g' = g_node g /\
             edge_attrs g' u v = Some (fold_left (fun d p => od_set (product_label p) (AInt (f p)) d) ps d) /\
             forall u' v', String.eqb u' u && String.eqb v' v = false -> edge_attrs g' u' v' = edge_attrs g u' v'.
Proof.
  revert g d; induction ps as [|p ps IH]; intros g d Hg Hd; [exists g; auto|].
  destruct (nx_set_edge_attr_ok g u v (product_label p) (AInt (f p)) d Hg Hd) as (g1 & E1 & H1 & N1 & D1 & O1).
  destruct (IH g1 _ H1 D1) as (g2 & E2 & H2 & N2 & D2 & O2).
  exists g2; cbn [exc_fold]; rewrite E1; cbn [exc_bind]. split; [exact E2|].
  split; [exact H2 | split; [congruence | split; [exact D2|]]].
  intros u' v' Hne; rewrite O2, O1 by exact Hne; reflexivity.
Qed.

Section Soundness.
Variables (σ : assignment) (st : BState) (m : Month).
(** The routes of a month join nodes of that month ([build_network_route_ends]). *)
Hypothesis route_months : forall e m', In e (transportation_list st) -> t_month e = Some m' ->
  month (t_source e) = LMonth m' /\ month (t_target e) = LMonth m'.

Lemma pos_sound_nodes g g' : g_node g' = g_node g -> pos_sound st m g -> pos_sound st m g'.
Proof. unfold pos_sound, node_attr; intros ->; exact id. Qed.

Lemma add_sound g nm : pos_sound st m g /\ no_edges g -> pos_sound st m (nx_add_node g nm) /\ no_edges (nx_add_node g nm).
Proof.
  intros [Hp He]; split; [intros x p; rewrite nx_add_node_attr_any; apply Hp|].
  intros u v; rewrite nx_add_node_edge_attrs; apply He.
Qed.

Lemma set_sound g nm k x g' :
  pos_sound st m g /\ no_edges g -> nx_set_node_attr g nm k x = inr g' ->
  (k = pos_key -> exists n, In n (node_list st) /\ month n = LMonth m /\ name n = nm /\ x = APos (lat n, lon n)) ->
  pos_sound st m g' /\ no_edges g'.
Proof.
  intros [Hp He] E Hk. destruct (nx_set_node_attr_spec _ _ _ _ _ E) as [Ea Ha]. split.
  - intros y p; rewrite Ha. destruct (String.eqb_spec y nm) as [->|]; [|apply Hp].
    destruct (String.eqb_spec pos_key k) as [<-|]; [|apply Hp].
    destruct (Hk eq_refl) as (n & Hn & Hm & Hnm & ->); intros [= <-]; eauto.
  - intros u v; unfold edge_attrs; rewrite Ea; apply He.
Qed.

Lemma node_step_sound g n g' :
  In n (node_list st) -> pos_sound st m g /\ no_edges g -> node_step σ st m g n = inr g' ->
  pos_sound st m g' /\ no_edges g'.
Proof.
  intros Hn HI. unfold node_step. case_bool_decide as Hm; [|intros [= <-]; exact HI].
  intros H; exc_inv H.
  assert (Hpos : pos_key = pos_key -> exists n', In n' (node_list st) /\ month n' = LMonth m /\
                   name n' = name n /\ APos (lat n, lon n) = APos (lat n', lon n')) by eauto.
  pose proof (set_sound _ _ _ _ _ (add_sound _ _ HI) Ha Hpos) as I1.
  pose proof (set_sound _ _ _ _ _ (add_sound _ _ I1) Ha0 Hpos) as I2.
  pose proof (set_sound _ _ _ _ _ I2 Ha1 ltac:(discriminate)) as I3.
  pose proof (set_sound _ _ _ _ _ I3 Ha2 ltac:(discriminate)) as I4.
  pose proof (set_sound _ _ _ _ _ I4 Ha3 ltac:(discriminate)) as I5.
  exact (set_sound _ _ _ _ _ I5 H ltac:(discriminate)).
Qed.


Lemma edge_step_sound g e g' :
  In e (transportation_list st) -> placed g -> pos_sound st m g -> edges_sound σ st m g ->
  (t_month e = Some m -> In (name (t_source e)) (nx_nodes g) /\ In (name (t_target e)) (nx_nodes g)) ->
  edge_step σ st m g e = inr g' ->
  placed g' /\ pos_sound st m g' /\ edges_sound σ st m g' /\ g_node g' = g_node g /\
  (t_month e = Some m -> edge_attrs g' (name (t_source e)) (name (t_target e)) <> None) /\
  (forall u v, edge_attrs g u v <> None -> edge_attrs g' u v <> None).
Proof.
  intros He Hg Hp Hs Hn. unfold edge_step. case_bool_decide as Hm;
    [|intros [= <-]; split; [exact Hg|]; split; [exact Hp|]; split; [exact Hs|];
      split; [reflexivity|]; split; [intros H; contradiction | auto]].
  destruct (Hn Hm) as [Hu Hv].
  set (u := name (t_source e)) in *; set (v := name (t_target e)) in *.
  pose proof (nx_add_edge_same_nodes g u v Hu Hv) as N1.
  pose proof (nx_add_edge_attrs g u v) as A1. pose proof (A1 u v) as D1; rewrite !String.eqb_refl in D1.
  destruct (set_edge_fold (route_total σ st e) num_product_list (nx_add_edge g u v) u v _
              (nx_add_edge_ok g u v (proj1 Hg)) D1) as (g2 & E2 & H2 & N2 & D2 & O2).
  rewrite E2; intros [= <-].
  assert (Other : forall u' v', String.eqb u' u && String.eqb v' v = false -> edge_attrs g2 u' v' = edge_attrs g u' v')
    by (intros u' v' Hne; rewrite O2, A1, Hne by exact Hne; reflexivity).
  split; [apply (placed_same_nodes g); [exact Hg | exact H2 | congruence]|].
  split; [apply (pos_sound_nodes g); [congruence | exact Hp]|].
  split; [|split; [congruence | split; [intros _; rewrite D2; discriminate|]]].
  - intros u' v' d Hd. destruct (String.eqb u' u && String.eqb v' v) eqn:Eb; [|rewrite Other in Hd by exact Eb; auto].
    apply andb_true_iff in Eb as [Eu Ev]; apply String.eqb_eq in Eu, Ev; subst u' v'.
    rewrite D2 in Hd; injection Hd as <-. exists e; repeat split; auto.
    apply fill_product_attrs. destruct (edge_attrs g u v) as [d0|] eqn:E0; [right; cbn [default]|left; reflexivity].
    destruct (Hs u v d0 E0) as (e0 & He0 & Hm0 & Hs0 & Ht0 & ->).
    destruct (route_months e0 m He0 Hm0) as [Ms0 Mt0], (route_months e m He Hm) as [Ms Mt].
    transitivity (product_attrs (route_total σ st e0)); [reflexivity|].
    f_equal; apply route_total_ids; apply (node_id_of_name _ _ m); auto.
  - intros u' v' Hd. destruct (String.eqb u' u && String.eqb v' v) eqn:Eb; [|rewrite Other by exact Eb; exact Hd].
    apply andb_true_iff in Eb as [Eu Ev]; apply String.eqb_eq in Eu, Ev; subst u' v'.
    rewrite D2; discriminate.
Qed.

Lemma edge_phase_sound l g g' :
  (forall e, In e l -> In e (transportation_list st)) ->
  placed g -> pos_sound st m g -> edges_sound σ st m g ->
  (forall e, In e l -> t_month e = Some m ->
             In (name (t_source e)) (nx_nodes g) /\ In (name (t_target e)) (nx_nodes g)) ->
  exc_fold (edge_step σ st m) l g = inr g' ->
  placed g' /\ pos_sound st m g' /\ edges_sound σ st m g' /\ g_node g' = g_node g /\
  (forall u v, edge_attrs g u v <> None -> edge_attrs g' u v <> None) /\
  (forall e, In e l -> t_month e = Some m -> edge_attrs g' (name (t_source e)) (name (t_target e)) <> None).
Proof.
  revert g; induction l as [|e l IH]; intros g Hl Hg Hp Hs Hn E; cbn in E.
  - injection E as <-; split; [exact Hg|]; split; [exact Hp|]; split; [exact Hs|].
    split; [reflexivity|]; split; [auto | intros e []].
  - destruct (edge_step σ st m g e) as [err|g1] eqn:E1; cbn in E; [discriminate|].
    destruct (edge_step_sound g e g1 (Hl e (or_introl eq_refl)) Hg Hp Hs (Hn e (or_introl eq_refl)) E1)
      as (H1 & P1 & S1 & N1 & New1 & Mono1).
    destruct (IH g1 (fun e' H => Hl e' (or_intror H)) H1 P1 S1) as (H2 & P2 & S2 & N2 & Mono2 & New2);
      [intros e' He' Hm'; unfold nx_nodes; rewrite N1; apply (Hn e' (or_intror He') Hm') | exact E |].
    split; [exact H2 | split; [exact P2 | split; [exact S2 | split; [congruence | split]]]].
    + intros u v Hd; apply Mono2, Mono1, Hd.
    + intros e' [<-|He'] Hm'; [apply Mono2, New1, Hm' | apply New2; assumption].
Qed.

End Soundness.

(** The graph of a month of a built network with everything known of it. *)
Lemma month_graph_sound σ nr er st m g :
  build_network nr er = inr st -> month_graph σ st m = inr g ->
  placed g /\ pos_sound st m g /\ edges_sound σ st m g /\
  (forall x, In x (nx_nodes g) <-> exists n, In n (node_list st) /\ month n = LMonth m /\ x = name n) /\
  (forall e, In e (transportation_list st) -> t_month e = Some m ->
             edge_attrs g (name (t_source e)) (name (t_target e)) <> None).
Proof.
  intros H E.
  assert (RM : forall e m', In e (transportation_list st) -> t_month e = Some m' ->
                            month (t_source e) = LMonth m' /\ month (t_target e) = LMonth m')
    by (intros e m' He Hm; destruct (build_network_route_ends _ _ _ e m' H He Hm) as [[_ ?] [_ ?]]; auto).
  unfold month_graph in E; apply exc_bind_inr in E as [g1 [E1 E2]].
  destruct (node_phase σ st m (node_list st) graph_empty (conj graph_ok_empty (fun _ H => False_ind _ H)))
    as (g1' & E1' & H1 & N1).
  rewrite E1 in E1'; injection E1' as <-.
  assert (N1' : forall x, In x (nx_nodes g1) <-> exists n, In n (node_list st) /\ month n = LMonth m /\ x = name n).
  { intros x; rewrite N1; cbn; split; [intros [[]|Hx]; exact Hx | auto]. }
  assert (S1 : pos_sound st m g1 /\ no_edges g1).
  { refine (exc_fold_inv _ _ _ _ _ (fun g0 n g0' Hn HI Hs => node_step_sound σ st m g0 n g0' Hn HI Hs) _ E1).
    split; [intros x p Hx; discriminate Hx | intros u v; reflexivity]. }
  destruct S1 as [P1 Z1].
  destruct (edge_phase_sound σ st m RM (transportation_list st) g1 g (fun _ H => H) H1 P1
              (fun u v d Hd => ltac:(rewrite Z1 in Hd; discriminate Hd))) as (H2 & P2 & S2 & N2 & _ & New2);
    [|exact E2|].
  - intros e He Hm. destruct (build_network_route_ends _ _ _ e m H He Hm) as [[Hs Ms] [Ht Mt]].
    split; apply N1'; eauto.
  - split; [exact H2 | split; [exact P2 | split; [exact S2 | split; [|exact New2]]]].
    intros x; unfold nx_nodes; rewrite N2; apply N1'.
Qed.

(** With distinct node ids, a location's position in the graph of a
    month is that of its node of the month. *)
Lemma month_pos σ nr er st m g n :
  build_network nr er = inr st -> List.NoDup (map node_id (node_list st)) -> month_graph σ st m = inr g ->
  In n (node_list st) -> month n = LMonth m -> node_pos g (name n) = inr (lat n, lon n).
Proof.
  intros H Hd E Hn Hm. destruct (month_graph_sound σ _ _ _ m g H E) as ([_ Hpl] & Hp & _ & Hx & _).
  destruct (Hpl (name n) (proj2 (Hx _) (ex_intro _ n (conj Hn (conj Hm eq_refl))))) as [p Ep].
  destruct (Hp _ _ Ep) as (n' & Hn' & Hm' & Hnm & ->).
  rewrite (NoDup_map_eq node_id _ n' n Hd Hn' Hn (node_id_of_name n' n m Hm' Hm Hnm)) in Ep.
  apply node_pos_ok, Ep.
Qed.

(** The edge of a route of the month carries that route's quantities. *)
Lemma month_edge_attrs σ nr er st m g e :
  build_network nr er = inr st -> month_graph σ st m = inr g ->
  In e (transportation_list st) -> t_month e = Some m ->
  edge_attrs g (name (t_source e)) (name (t_target e)) = Some (product_attrs (route_total σ st e)).
Proof.
  intros H E He Hm. destruct (month_graph_sound σ _ _ _ m g H E) as (_ & _ & Hs & _ & New).
  destruct (edge_attrs g _ _) as [d|] eqn:Ed; [|exfalso; exact (New e He Hm Ed)].
  destruct (Hs _ _ _ Ed) as (e0 & He0 & Hm0 & Hs0 & Ht0 & ->).
  destruct (build_network_route_ends _ _ _ e0 m H He0 Hm0) as [[_ Ms0] [_ Mt0]].
  destruct (build_network_route_ends _ _ _ e m H He Hm) as [[_ Ms] [_ Mt]].
  do 2 f_equal; apply route_total_ids; apply (node_id_of_name _ _ m); auto.
Qed.

Lemma forallb_false_ex {A} (P : A -> bool) l :
  forallb P l = false <-> exists x, In x l /\ P x = false.
Proof.
  induction l as [|x l IH]; cbn; [split; [discriminate | intros (? & [] & _)]|].
  rewrite andb_false_iff, IH. split.
  - intros [H|(y & Hy & Py)]; [exists x | exists y]; auto.
  - intros (y & [<-|Hy] & Py); [left | right; exists y]; auto.
Qed.

Lemma product_attrs_zero (f : Product -> Z) :
  forallb (fun p => attr_zero (od_lookup (product_label p) (product_attrs f))) num_product_list = false <->
  exists p, f p <> 0%Z.
Proof.
  change (forallb (fun p => Z.eqb (f p) 0) num_product_list = false <-> exists p, f p <> 0%Z).
  rewrite forallb_false_ex. split.
  - intros (p & _ & Hp); exists p; apply Z.eqb_neq, Hp.
  - intros [p Hp]; exists p; split; [apply in_num_product_list | apply Z.eqb_neq, Hp].
Qed.

Lemma draw_edge_cases g u v d zs :
  draw_edge g (u, v, d) = inr zs ->
  (zs = [] /\ forallb (fun p => attr_zero (od_lookup (product_label p) d)) num_product_list = true) \/
  (exists a b, zs = [PolyLine a b] /\
               forallb (fun p => attr_zero (od_lookup (product_label p) d)) num_product_list = false /\
               node_pos g u = inr a /\ node_pos g v = inr b).
Proof.
  unfold draw_edge. destruct (forallb _ _) eqn:Ez; [intros [= <-]; auto|].
  intros H; exc_inv H. injection H as <-. right; exists a, a0; auto.
Qed.

Lemma draw_node_no_line g u zs a b : draw_node g u = inr zs -> ~ In (PolyLine a b) zs.
Proof.
  unfold draw_node. intros H; exc_inv H. destruct (label_size (py_drop_last u)).
  injection H as <-; cbn; intuition discriminate.
Qed.

(** C22: the lines of the map of a month are exactly the month's routes
    that carry something, each drawn from its source's position to its
    target's position: a route whose quantities are all 0 is not drawn,
    and nothing else is.  This holds when node ids are distinct, as they
    are when location names are (C10); otherwise two locations of one
    name share one graph node. *)
Theorem drawn_routes σ nr er st m els a b :
  build_network nr er = inr st -> List.NoDup (map node_id (node_list st)) ->
  month_map σ st m = inr els ->
  In (PolyLine a b) els <->
  exists e, In e (transportation_list st) /\ t_month e = Some m /\
            (exists p, route_total σ st e p <> 0%Z) /\
            a = (lat (t_source e), lon (t_source e)) /\ b = (lat (t_target e), lon (t_target e)).
Proof.
  intros H Hd E. unfold month_map in E. exc_inv E. injection E as <-. rename a0 into g, a1 into es, a2 into ns.
  destruct (month_graph_sound σ _ _ _ m g H Ha) as ([Hok _] & _ & Hs & _ & _).
  rewrite in_app_iff, (exc_concat_map_In _ _ _ _ Ha0). split.
  - intros [([[u v] d] & zs & Hin & Ez & Hy)|Hn].
    + apply (nx_edges_spec g u v d Hok) in Hin.
      destruct (Hs _ _ _ Hin) as (e & He & Hm & <- & <- & ->).
      destruct (draw_edge_cases _ _ _ _ _ Ez) as [[-> _]|(a' & b' & -> & Hz & Pa & Pb)]; [destruct Hy|].
      destruct Hy as [[= <- <-]|[]].
      destruct (build_network_route_ends _ _ _ e m H He Hm) as [[Hs' Ms] [Ht Mt]].
      rewrite (month_pos σ _ _ _ m g _ H Hd Ha Hs' Ms) in Pa.
      rewrite (month_pos σ _ _ _ m g _ H Hd Ha Ht Mt) in Pb.
      injection Pa as <-; injection Pb as <-. exists e; repeat split; auto.
      apply product_attrs_zero, Hz.
    + exfalso. apply (exc_concat_map_In _ _ _ _ Ha1) in Hn as (u & zs & _ & Ez & Hy).
      exact (draw_node_no_line _ _ _ _ _ Ez Hy).
  - intros (e & He & Hm & Hz & -> & ->). left.
    exists (name (t_source e), name (t_target e), product_attrs (route_total σ st e)).
    destruct (build_network_route_ends _ _ _ e m H He Hm) as [[Hs' Ms] [Ht Mt]].
    exists [PolyLine (lat (t_source e), lon (t_source e)) (lat (t_target e), lon (t_target e))].
    split; [apply nx_edges_spec; [exact Hok | exact (month_edge_attrs σ _ _ _ m g e H Ha He Hm)]|].
    split; [|left; reflexivity].
    unfold draw_edge. rewrite (proj2 (product_attrs_zero _) Hz).
    rewrite (month_pos σ _ _ _ m g _ H Hd Ha Hs' Ms), (month_pos σ _ _ _ m g _ H Hd Ha Ht Mt).
    reflexivity.
Qed.

(** ** Which locations are drawn *)

Lemma exc_concat_map_acc {A B} (f : A -> exc (list B)) l acc :
  exc_fold (fun acc x => ys <- f x ;; ret (acc ++ ys)) l acc =
  match exc_concat_map f l with inr ys => inr (acc ++ ys) | inl e => inl e end.
Proof.
  unfold exc_concat_map. revert acc; induction l as [|x l IH]; intros acc; cbn; [rewrite app_nil_r; reflexivity|].
  destruct (f x) as [e|ys]; cbn; [reflexivity|]. rewrite (IH (acc ++ ys)), (IH ys).
  destruct (exc_fold _ l []); [reflexivity|]. rewrite app_assoc; reflexivity.
Qed.

Lemma exc_concat_map_cons {A B} (f : A -> exc (list B)) x l :
  exc_concat_map f (x :: l) = (ys <- f x ;; zs <- exc_concat_map f l ;; ret (ys ++ zs)).
Proof.
  pose proof (exc_concat_map_acc f l) as Acc. unfold exc_concat_map in *; cbn [exc_fold].
  destruct (f x) as [e|ys]; cbn; [reflexivity|].
  rewrite Acc. destruct (exc_fold _ l []); reflexivity.
Qed.

(** Step 1 lists the month's locations once each, in table order, when
    node ids are distinct. *)
Lemma node_phase_nodes σ st m l g g' :
  List.NoDup (map node_id l) ->
  (forall n, In n l -> month n = LMonth m -> ~ In (name n) (nx_nodes g)) ->
  exc_fold (node_step σ st m) l g = inr g' ->
  nx_nodes g' = nx_nodes g ++ map name (List.filter (fun n => bool_decide (month n = LMonth m)) l).
Proof.
  revert g; induction l as [|n l IH]; intros g Hd Hn E; cbn in E; [injection E as <-; rewrite app_nil_r; reflexivity|].
  destruct (node_step σ st m g n) as [err|g1] eqn:E1; cbn in E; [discriminate|].
  inversion_clear Hd as [|? ? Hid Hd'].
  assert (N1 : nx_nodes g1 = nx_nodes g ++ (if bool_decide (month n = LMonth m) then [name n] else [])).
  { unfold node_step in E1. case_bool_decide as Hm; [|injection E1 as <-; rewrite app_nil_r; reflexivity].
    exc_inv E1. rewrite (nx_set_node_attr_nodes _ _ _ _ _ E1), (nx_set_node_attr_nodes _ _ _ _ _ Ha3),
      (nx_set_node_attr_nodes _ _ _ _ _ Ha2), (nx_set_node_attr_nodes _ _ _ _ _ Ha1),
      (nx_set_node_attr_nodes _ _ _ _ _ Ha0), nx_add_node_nodes, (nx_set_node_attr_nodes _ _ _ _ _ Ha).
    rewrite decide_True by (rewrite nx_add_node_mem; auto).
    rewrite nx_add_node_nodes, decide_False by (apply Hn; [left|]; auto). reflexivity. }
  assert (Hn1 : forall n', In n' l -> month n' = LMonth m -> ~ In (name n') (nx_nodes g1)).
  { intros n' Hn' Hm'. rewrite N1, in_app_iff. intros [H|H]; [exact (Hn n' (or_intror Hn') Hm' H)|].
    case_bool_decide as Hm; [|destruct H]. destruct H as [H|[]].
    apply Hid. rewrite (node_id_of_name n n' m Hm Hm' H). apply in_map, Hn'. }
  rewrite (IH g1 Hd' Hn1 E), N1; cbn [List.filter map].
  case_bool_decide; cbn; rewrite <- app_assoc; reflexivity.
Qed.

Lemma month_graph_nodes σ nr er st m g :
  build_network nr er = inr st -> List.NoDup (map node_id (node_list st)) -> month_graph σ st m = inr g ->
  nx_nodes g = map name (List.filter (fun n => bool_decide (month n = LMonth m)) (node_list st)).
Proof.
  intros H Hd E. unfold month_graph in E; apply exc_bind_inr in E as [g1 [E1 E2]].
  pose proof (node_phase_nodes σ st m _ graph_empty g1 Hd (fun _ _ _ H => H) E1) as N1.
  destruct (node_phase σ st m (node_list st) graph_empty (conj graph_ok_empty (fun _ H => False_ind _ H)))
    as (g1' & E1' & H1 & Nm).
  rewrite E1 in E1'; injection E1' as <-.
  destruct (edge_phase σ st m (transportation_list st) g1 H1) as (g2 & E2' & _ & N2).
  - intros e He Hm. destruct (build_network_route_ends _ _ _ e m H He Hm) as [[Hs Ms] [Ht Mt]].
    split; apply Nm; right; eauto.
  - rewrite E2 in E2'; injection E2' as <-. unfold nx_nodes; rewrite N2. exact N1.
Qed.

Lemma draw_nodes_eq g L ns :
  (forall n, In n L -> node_pos g (name n) = inr (lat n, lon n)) ->
  exc_concat_map (draw_node g) (map name L) = inr ns -> ns = flat_map location_elements L.
Proof.
  revert ns; induction L as [|n L IH]; intros ns Hp E; [injection E as <-; reflexivity|].
  cbn [map] in E; rewrite exc_concat_map_cons in E. exc_inv E. injection E as <-.
  unfold draw_node in Ha; rewrite (Hp n (or_introl eq_refl)) in Ha; cbn [exc_bind] in Ha.
  cbn [flat_map]; rewrite <- (IH a0 (fun n' H => Hp n' (or_intror H)) Ha0); f_equal.
  unfold location_elements. destruct (label_size _); injection Ha as <-; reflexivity.
Qed.

(** C24: with distinct node ids, the map of a month draws its route
    lines first, then, for every location in the order of the facility
    table, one circle at its position with its name and one label: the
    name without its last character, ten pixels wide per character.
    Every location of the month appears exactly once. *)
Theorem drawn_locations σ nr er st m els :
  build_network nr er = inr st -> List.NoDup (map node_id (node_list st)) ->
  month_map σ st m = inr els ->
  exists lines, forallb is_line lines = true /\
    els = lines ++ flat_map location_elements (List.filter (fun n => bool_decide (month n = LMonth m)) (node_list st)).
Proof.
  intros H Hd E. unfold month_map in E. exc_inv E. injection E as <-.
  exists a0; split.
  - apply forallb_forall; intros y Hy.
    apply (exc_concat_map_In _ _ _ _ Ha0) in Hy as ([[u v] d] & zs & _ & Ez & Hy).
    destruct (draw_edge_cases _ _ _ _ _ Ez) as [[-> _]|(a' & b' & -> & _)]; [destruct Hy|].
    destruct Hy as [<-|[]]; reflexivity.
  - f_equal. rewrite (month_graph_nodes σ _ _ _ m a H Hd Ha) in Ha1.
    apply (draw_nodes_eq a); [|exact Ha1].
    intros n Hn; apply List.filter_In in Hn as [Hn Hm]; apply bool_decide_eq_true in Hm.
    exact (month_pos σ _ _ _ m a n H Hd Ha Hn Hm).
Qed.
