(* ===== verification/Results.v ===== *)
(** * Solving, the result tables and the web handler

    [optimize] ends by asking SCIP for an optimal solution (lines 693-695)
    and returns the network and the model only when the status is
    ["optimal"] (lines 702-739), and [None] otherwise.  The solver is an
    interface here ([IPSolver]): whatever it is, a solution it reports
    optimal satisfies every constraint it was given.

    [sample.py] runs [optimize] on an upload (line 29), groups the positive
    production and storage flows by (month, location) into two tables
    (lines 32-81), renders one map per month ([build_maps], file [Maps]) and stores
    everything in the process-wide [GLOBAL_CACHE] (lines 87-92); a [GET] reads the cache back (lines
    96-110).  The handler is a function from the cache and a request to
    the new cache and a response; a sequence of requests served one at a
    time is a run of it ([serve]).  The development server runs requests
    on threads, which file [Server] models on top of [show].

    [optimize] also fills three flat dictionaries from variable name to
    value (lines 697-732) that it never returns; they are modelled as
    functions of the solution ([flat_results]).

    The theorems show that the tables report, for each production edge,
    exactly the quantity of the product its function makes (the code
    records the function but not the product), that served one at a time
    the cache holds the results of the last successful run or nothing,
    and that an infeasible run crashes the handler instead of reporting
    failure. *)

From S2P Require Import Prelude Data Graph Carry Network Constraints Balance Maps.

Local Open Scope calc_scope.
Local Open Scope Z_scope.

(** ** The solver *)

Inductive status := Optimal | NotOptimal.

(** What [optimize] needs of [model.optimize()] and [model.getVal]: a
    status, the values of the variables, and soundness of an optimal
    answer. *)
Class IPSolver := {
  solve : list cons -> lin -> status * assignment;
  solve_sound : forall cs o σ, solve cs o = (Optimal, σ) -> feasible σ cs
}.

(** A solver that checks a candidate solution against the constraints
    and reports it optimal when it satisfies them all: a lawful instance,
    used to run the pipeline on concrete tables. *)
Definition certificate_solver (σ0 : assignment) (Hn : nonneg σ0) : IPSolver.
Proof.
  refine {| solve cs o := if forallb (satb σ0) cs then (Optimal, σ0) else (NotOptimal, σ0) |}.
  intros cs o σ E; destruct (forallb (satb σ0) cs) eqn:Ec; [|discriminate].
  injection E as <-; split; [exact Hn|].
  apply List.Forall_forall; intros c Hc; apply satb_sat.
  rewrite forallb_forall in Ec; apply Ec, Hc.
Defined.

(** The network and the solved model returned on line 735. *)
Record run := mkRun { r_net : BState; r_val : assignment }.

Section Optimize.
Context `{IPSolver}.

(** [optimize(node_rows, edge_rows)]: [None] when the status is not
    optimal (the function falls off its end). *)
Definition optimize (node_rows edge_rows : list (list cell)) : exc (option run) :=
  st <- build_network node_rows edge_rows ;;
  cs <- gen_constraints st ;;
  o <- objective st ;;
  let '(stat, σ) := solve cs o in
  match stat with
  | Optimal => ret (Some (mkRun st σ))
  | NotOptimal => ret None
  end.

End Optimize.

(** ** The result tables of [sample.py] *)

(** [value >= 0.1] on the value [getVal] returns. *)
Definition material (v : Z) : bool := Qle_bool (1 # 10) (inject_Z v).

(** The dictionary key [(pe.source.month, pe.source.name)]. *)
Definition table_key (n : Node) : string * string := (layer_label (month n), name n).

Abbreviation table V := (list ((string * string) * list V)).

(** [d.setdefault(k, [])]: a new key goes to the end. *)
Fixpoint setdefault {V} (d : table V) (k : string * string) : table V :=
  match d with
  | [] => [(k, [])]
  | (k', l) :: d' => if decide (k = k') then d else (k', l) :: setdefault d' k
  end.

(** [d[k].append(x)] on a key that [setdefault] has put in. *)
Fixpoint append_at {V} (d : table V) (k : string * string) (x : V) : table V :=
  match d with
  | [] => []
  | (k', l) :: d' => if decide (k = k') then (k', l ++ [x]) :: d' else (k', l) :: append_at d' k x
  end.

Fixpoint table_lookup {V} (d : table V) (k : string * string) : option (list V) :=
  match d with
  | [] => None
  | (k', l) :: d' => if decide (k = k') then Some l else table_lookup d' k
  end.

(** Lines 40-55: the minus flows of at least 0.1 of one production edge,
    each recorded with the edge's function. *)
Definition prod_values (σ : assignment) (j : nat) (pe : PEdge) : list (Role * Z) :=
  flat_map (fun ps =>
              if bool_decide (snd ps = Minus) && material (σ (XP j (fst ps) (snd ps)))
              then [(p_function pe, σ (XP j (fst ps) (snd ps)))] else [])
           prods_signs.

Definition storage_function : string := "仮置".

(** Lines 66-81, for a storage edge. *)
Definition stor_values (σ : assignment) (k : nat) (se : SEdge) : list (string * Z) :=
  flat_map (fun ps =>
              if bool_decide (snd ps = Minus) && material (σ (XS k (fst ps) (snd ps)))
              then [(storage_function, σ (XS k (fst ps) (snd ps)))] else [])
           prods_signs.

(** One iteration of the loops of lines 33 and 59. *)
Definition table_step {E V} (key : E -> string * string) (vals : nat -> E -> list V)
    (d : table V) (je : nat * E) : table V :=
  let '(j, e) := je in
  fold_left (fun d x => append_at d (key e) x) (vals j e) (setdefault d (key e)).

Definition production_results (σ : assignment) (P : list PEdge) : table (Role * Z) :=
  fold_left (table_step (fun pe => table_key (p_source pe)) (prod_values σ)) (ienum P) [].

Definition storage_results (σ : assignment) (S : list SEdge) : table (string * Z) :=
  fold_left (table_step (fun se => table_key (s_source se)) (stor_values σ)) (ienum S) [].

(** ** The flat result dictionaries of [optimize] (lines 697-732) *)

(** The variable names of lines 708, 718 and 728. *)
Definition t_var_name (e : TEdge) (p : Product) (s : Sign) : string :=
  "transportation_" ++ node_id (t_source e) ++ "_" ++ node_id (t_target e) ++ "_輸送_" ++
  product_label p ++ "_" ++ sign_label s.

Definition p_var_name (e : PEdge) (p : Product) (s : Sign) : string :=
  "production_" ++ node_id (p_source e) ++ "_" ++ node_id (p_target e) ++ "_" ++
  role_label (p_function e) ++ "_" ++ product_label p ++ "_" ++ sign_label s.

Definition s_var_name (e : SEdge) (p : Product) (s : Sign) : string :=
  "storage_" ++ node_id (s_source e) ++ "_" ++ node_id (s_target e) ++ "_" ++ storage_function ++ "_" ++
  product_label p ++ "_" ++ sign_label s.

(** The three nested loops of one dictionary: every edge, product and
    sign; a value of at least 0.1 that passes [keep] is stored under its
    variable name, a later one overwriting an earlier one of the same
    name. *)
Definition flat_results {E} (key : E -> Product -> Sign -> string) (val : nat -> Product -> Sign -> Z)
    (keep : Product -> Sign -> bool) (l : list (nat * E)) : odict Z :=
  fold_left (fun d je =>
               fold_left (fun d ps =>
                            let '(p, s) := ps in
                            if material (val (fst je) p s) && keep p s
                            then od_set (key (snd je) p s) (val (fst je) p s) d else d)
                         prods_signs d)
            l [].

(** An entry [k : v] that the loops store for edge [j] ([e]), product [p]
    and sign [s]. *)
Definition flat_entry {E} (key : E -> Product -> Sign -> string) (val : nat -> Product -> Sign -> Z)
    (keep : Product -> Sign -> bool) (k : string) (v : Z) (j : nat) (e : E) (p : Product) (s : Sign) : Prop :=
  material (val j p s) && keep p s = true /\ k = key e p s /\ v = val j p s.

(** Lines 705-712: minus flows of every product but the vessel. *)
Definition flat_transportation_results (σ : assignment) (st : BState) : odict Z :=
  flat_results t_var_name (fun i p s => σ (XT i p s))
               (fun p s => bool_decide (s = Minus) && negb (bool_decide (p = Vessel)))
               (ienum (transportation_list st)).

(** Lines 715-722. *)
Definition flat_production_results (σ : assignment) (st : BState) : odict Z :=
  flat_results p_var_name (fun j p s => σ (XP j p s)) (fun _ s => bool_decide (s = Minus))
               (ienum (production_list st)).

(** Lines 725-732. *)
Definition flat_storage_results (σ : assignment) (st : BState) : odict Z :=
  flat_results s_var_name (fun k p s => σ (XS k p s)) (fun _ s => bool_decide (s = Minus))
               (ienum (storage_list st)).

(** ** The handler and its cache *)

Record cache := mkCache {
  c_maps : option (list (Month * list element));
  c_nodes : option (list Node);
  c_production : option (table (Role * Z));
  c_storage : option (table (string * Z));
  c_active : option string
}.

Definition cache_init : cache := mkCache None None None None None.

Inductive request :=
| Post (node_rows edge_rows : list (list cell))
| Get (month_arg : option string).

Inductive response :=
| Redirect
| Page (maps : option (list (Month * list element))) (nodes : list Node) (prod : table (Role * Z))
       (stor : table (string * Z)) (active : option string)
| ServerError (e : py_error).

(** Lines 87-90: the maps, the nodes and the two tables of a run; the
    active month is not yet touched. *)
Definition store_results (c : cache) (r : run) (maps : list (Month * list element)) : cache :=
  mkCache (Some maps) (Some (node_list (r_net r)))
          (Some (production_results (r_val r) (production_list (r_net r))))
          (Some (storage_results (r_val r) (storage_list (r_net r))))
          (c_active c).

(** Line 92: [next(iter(maps_by_month.keys()))]. *)
Definition first_month (maps : list (Month * list element)) : exc string :=
  match maps with
  | [] => raise StopIteration
  | (m, _) :: _ => ret (month_label m)
  end.

(** The cache after a successful run and its maps. *)
Definition cache_of (r : run) (maps : list (Month * list element)) : cache :=
  mkCache (Some maps) (Some (node_list (r_net r)))
          (Some (production_results (r_val r) (production_list (r_net r))))
          (Some (storage_results (r_val r) (storage_list (r_net r))))
          (option_map (fun mm => month_label (fst mm)) (head maps)).

Section Handler.
Context `{IPSolver}.

(** [show()] (lines 22-110).  An exception before line 87 leaves the
    cache as it was and answers with a server error; [None] from
    [optimize] fails the tuple unpacking of line 29 with [TypeError].
    The cache is written field by field (lines 87-92), so an exception on
    line 92 would leave the new results with the old active month. *)
Definition show (c : cache) (req : request) : cache * response :=
  match req with
  | Post nr er =>
      match optimize nr er with
      | inl e => (c, ServerError e)
      | inr None => (c, ServerError TypeError)
      | inr (Some r) =>
          match build_maps (r_val r) (r_net r) with
          | inl e => (c, ServerError e)
          | inr maps =>
              let c1 := store_results c r maps in
              match first_month maps with
              | inl e => (c1, ServerError e)
              | inr a => (mkCache (c_maps c1) (c_nodes c1) (c_production c1) (c_storage c1) (Some a),
                          Redirect)
              end
          end
      end
  | Get arg =>
      (c, Page (c_maps c) (default [] (c_nodes c)) (default [] (c_production c))
               (default [] (c_storage c))
               (match arg with Some m => Some m | None => c_active c end))
  end.

(** The process serving a sequence of requests. *)
Fixpoint serve (c : cache) (reqs : list request) : cache * list response :=
  match reqs with
  | [] => (c, [])
  | r :: rs => let '(c1, resp) := show c r in
               let '(c2, resps) := serve c1 rs in (c2, resp :: resps)
  end.

(** The run of a request and its maps, when it is a [POST] whose run
    and rendering succeed. *)
Definition post_result (req : request) : option (run * list (Month * list element)) :=
  match req with
  | Post nr er =>
      match optimize nr er with
      | inr (Some r) => match build_maps (r_val r) (r_net r) with
                        | inr maps => Some (r, maps)
                        | inl _ => None
                        end
      | _ => None
      end
  | Get _ => None
  end.

(** The last successful run of a sequence of requests. *)
Fixpoint last_success (reqs : list request) : option (run * list (Month * list element)) :=
  match reqs with
  | [] => None
  | r :: rs => match last_success rs with Some x => Some x | None => post_result r end
  end.

End Handler.

(** ** What the tables should hold *)

(** The quantity a production edge makes of the product its function
    outputs ([cost_mapping]), when it is at least 0.1. *)
Definition out_entry (σ : assignment) (j : nat) (pe : PEdge) : list (Role * Z) :=
  match cost_mapping (p_function pe) with
  | Some out => if material (σ (XP j out Minus)) then [(p_function pe, σ (XP j out Minus))] else []
  | None => []
  end.

(** The foundations a storage edge carries, when at least 0.1. *)
Definition stored_entry (σ : assignment) (k : nat) : list (string * Z) :=
  if material (σ (XS k Foundation Minus)) then [(storage_function, σ (XS k Foundation Minus))] else [].

(** ** The tables group the edges by key *)

Section Tables.
Context {E V : Type} (key : E -> string * string) (vals : nat -> E -> list V).

Lemma lookup_setdefault (d : table V) k k' :
  table_lookup (setdefault d k) k' =
  if decide (k' = k) then Some (default [] (table_lookup d k)) else table_lookup d k'.
Proof.
  induction d as [|[k0 l] d IH]; cbn.
  - destruct (decide (k' = k)); reflexivity.
  - destruct (decide (k = k0)) as [->|Hne]; cbn.
    + destruct (decide (k' = k0)); reflexivity.
    + rewrite IH. destruct (decide (k' = k0)) as [->|]; [|reflexivity].
      destruct (decide (k0 = k)); [congruence | reflexivity].
Qed.

Lemma lookup_append_at (d : table V) k x k' :
  table_lookup (append_at d k x) k' =
  if decide (k' = k) then option_map (fun l => l ++ [x]) (table_lookup d k) else table_lookup d k'.
Proof.
  induction d as [|[k0 l] d IH]; cbn; [destruct (decide (k' = k)); reflexivity|].
  destruct (decide (k = k0)) as [->|Hne]; cbn.
  - destruct (decide (k' = k0)); reflexivity.
  - rewrite IH. destruct (decide (k' = k0)) as [->|]; [|reflexivity].
    destruct (decide (k0 = k)); [congruence | reflexivity].
Qed.

Lemma lookup_appends (d : table V) k xs k' :
  table_lookup (fold_left (fun d x => append_at d k x) xs d) k' =
  if decide (k' = k) then option_map (fun l => l ++ xs) (table_lookup d k) else table_lookup d k'.
Proof.
  revert d; induction xs as [|x xs IH]; intros d; cbn.
  - destruct (decide (k' = k)) as [->|]; [destruct (table_lookup d k); cbn; rewrite ?app_nil_r|]; reflexivity.
  - rewrite IH, !lookup_append_at. destruct (decide (k' = k)) as [->|]; [|reflexivity].
    destruct (decide (k = k)); [|congruence].
    destruct (table_lookup d k); cbn; rewrite <- ?app_assoc; reflexivity.
Qed.

Lemma lookup_table_step (d : table V) je k' :
  table_lookup (table_step key vals d je) k' =
  if decide (k' = key (snd je)) then Some (default [] (table_lookup d k') ++ vals (fst je) (snd je))
  else table_lookup d k'.
Proof.
  destruct je as [j e]; cbn [table_step fst snd].
  rewrite lookup_appends, !lookup_setdefault. destruct (decide (k' = key e)) as [->|]; [|reflexivity].
  destruct (decide (key e = key e)); [reflexivity | congruence].
Qed.

Lemma lookup_table_fold_some (l : list (nat * E)) (d : table V) k l0 :
  table_lookup d k = Some l0 ->
  table_lookup (fold_left (table_step key vals) l d) k =
  Some (l0 ++ flat_map (fun je => vals (fst je) (snd je))
                       (List.filter (fun je => bool_decide (key (snd je) = k)) l)).
Proof.
  revert d l0; induction l as [|je l IH]; intros d l0 Hd; cbn [fold_left List.filter].
  - rewrite Hd; cbn; rewrite app_nil_r; reflexivity.
  - rewrite (IH _ (if decide (k = key (snd je)) then l0 ++ vals (fst je) (snd je) else l0)).
    + case_bool_decide as Hk; cbn [flat_map]; [rewrite decide_True by auto; rewrite app_assoc|];
        [reflexivity|rewrite decide_False by congruence; reflexivity].
    + rewrite lookup_table_step, Hd. destruct (decide (k = key (snd je))); reflexivity.
Qed.

(** The entry of a key lists the values of the edges with that key, in
    the order of the edge list; a key no edge has is absent. *)
Lemma lookup_table_fold (l : list (nat * E)) (d : table V) k :
  table_lookup d k = None ->
  table_lookup (fold_left (table_step key vals) l d) k =
  match List.filter (fun je => bool_decide (key (snd je) = k)) l with
  | [] => None
  | fl => Some (flat_map (fun je => vals (fst je) (snd je)) fl)
  end.
Proof.
  revert d; induction l as [|je l IH]; intros d Hd; cbn [fold_left List.filter]; [exact Hd|].
  case_bool_decide as Hk.
  - rewrite (lookup_table_fold_some _ _ _ (vals (fst je) (snd je))); [reflexivity|].
    rewrite lookup_table_step, Hd, decide_True by auto; reflexivity.
  - apply IH. rewrite lookup_table_step, Hd, decide_False by congruence; reflexivity.
Qed.

End Tables.

(** ** A successful run reports a feasible plan *)

Lemma optimize_feasible `{IPSolver} nr er r :
  optimize nr er = inr (Some r) ->
  exists cs, build_network nr er = inr (r_net r) /\ gen_constraints (r_net r) = inr cs /\
             feasible (r_val r) cs.
Proof.
  unfold optimize; intros Hr.
  apply exc_bind_inr in Hr as [st [Hb Hr]]. apply exc_bind_inr in Hr as [cs [Hg Hr]].
  apply exc_bind_inr in Hr as [o [_ Hr]].
  destruct (solve cs o) as [[|] σ] eqn:E; [|discriminate].
  injection Hr as <-; cbn [r_net r_val]. exists cs; split; [exact Hb | split; [exact Hg|]].
  exact (solve_sound _ _ _ E).
Qed.

Lemma feasible_prod_zero σ st cs j e :
  gen_constraints st = inr cs -> feasible σ cs -> In (j, e) (ienum (production_list st)) ->
  p_function e <> WetStorage /\
  forall p s, bom_bound (p_function e) p s = 0 -> σ (XP j p s) = 0.
Proof.
  intros Hg [Hn Hs] Hj.
  destruct (gen_constraints_pcap _ _ _ _ Hg Hj) as [zs Hz].
  split; [exact (p_cap_cons_storage _ _ _ Hz)|].
  pose proof (ef_p _ _ (gen_constraints_facts _ _ _ Hg Hs) j e Hj
                (zs ++ p_vessel_cons (j, e) ++ bmat_cons (j, e))) as Hall.
  unfold p_edge_cons in Hall; rewrite Hz in Hall; specialize (Hall eq_refl).
  apply Forall_app in Hall as [Hc _].
  intros p s Hb; pose proof (p_cap_cons_zero _ _ _ _ Hz Hc p s Hb); specialize (Hn (XP j p s)); lia.
Qed.

(** With the zero bounds of its function, an edge's recorded values are
    its output quantity alone. *)
Lemma prod_values_out σ j pe :
  p_function pe <> WetStorage ->
  (forall p s, bom_bound (p_function pe) p s = 0 -> σ (XP j p s) = 0) ->
  prod_values σ j pe = out_entry σ j pe.
Proof.
  intros Hf Hz; unfold prod_values, out_entry, prods_signs, num_product_list, sign.
  destruct (p_function pe) eqn:Ef; [..|congruence]; cbn [cost_mapping list_prod map app flat_map fst snd];
    try rewrite (Hz Steel Minus) by reflexivity; try rewrite (Hz Module Minus) by reflexivity;
    try rewrite (Hz HalfBody1 Minus) by reflexivity; try rewrite (Hz HalfBody3 Minus) by reflexivity;
    try rewrite (Hz Foundation Minus) by reflexivity; try rewrite (Hz Turbine Minus) by reflexivity;
    try rewrite (Hz TurbineInstalled Minus) by reflexivity; try rewrite (Hz Vessel Minus) by reflexivity;
    rewrite ?(bool_decide_eq_true_2 (Minus = Minus)) by reflexivity;
    rewrite ?(bool_decide_eq_false_2 (Plus = Minus)) by discriminate;
    replace (material 0) with false by reflexivity; cbn [andb app];
    destruct (material _); reflexivity.
Qed.

(** C12: after a successful run, the production table of [sample.py] has
    an entry exactly for the (month, location) of each production edge,
    and the entry lists, edge by edge in the order of [production_list],
    the quantity each edge makes of its function's output product when
    it is at least 0.1.  The code records every minus flow of at least
    0.1 with the function only; the capacity bounds of a feasible plan
    make the output product the only one that can appear. *)
Theorem production_table_reports_output `{IPSolver} nr er r k :
  optimize nr er = inr (Some r) ->
  table_lookup (production_results (r_val r) (production_list (r_net r))) k =
  match List.filter (fun je => bool_decide (table_key (p_source (snd je)) = k))
                    (ienum (production_list (r_net r))) with
  | [] => None
  | fl => Some (flat_map (fun je => out_entry (r_val r) (fst je) (snd je)) fl)
  end.
Proof.
  intros Hr; destruct (optimize_feasible _ _ _ Hr) as [cs [_ [Hg Hf]]].
  unfold production_results; rewrite lookup_table_fold by reflexivity.
  destruct (List.filter _ _) as [|je fl] eqn:Ef; [reflexivity|].
  f_equal; apply flat_map_ext_in; intros [j pe] Hin.
  rewrite <- Ef in Hin; apply filter_In in Hin as [Hin _].
  destruct (feasible_prod_zero _ _ _ _ _ Hg Hf Hin) as [Hw Hz].
  apply prod_values_out; assumption.
Qed.

(** Every storage edge of a network whose constraints are generated
    has its capacity rows generated, and in a feasible plan it carries
    nothing but foundations (lines 541-545 bound every other product by 0). *)
(** Every storage edge of a network whose constraints are generated has
    its capacity rows generated. *)
Lemma gen_constraints_scap st cs k e :
  gen_constraints st = inr cs -> In (k, e) (ienum (storage_list st)) -> exists zs, s_cap_cons (k, e) = inr zs.
Proof.
  unfold gen_constraints; intros Hg Hk.
  destruct (exc_concat_map t_cap_cons _) as [|tcap]; simpl in Hg; [discriminate|].
  destruct (exc_concat_map p_cap_cons _) as [|pcap]; simpl in Hg; [discriminate|].
  destruct (exc_concat_map s_cap_cons _) as [|scap] eqn:Es; simpl in Hg; [discriminate|].
  exact (exc_concat_map_each _ _ _ _ Es Hk).
Qed.

Lemma feasible_stor_zero σ st cs k e :
  gen_constraints st = inr cs -> feasible σ cs -> In (k, e) (ienum (storage_list st)) ->
  forall p s, p <> Foundation -> σ (XS k p s) = 0.
Proof.
  intros Hg [Hn Hs] Hk p s Hp.
  destruct (gen_constraints_scap _ _ _ _ Hg Hk) as [zs Hz].
  destruct (ef_s _ _ (gen_constraints_facts _ _ _ Hg Hs) k e Hk) as [_ [_ Hcap]].
  specialize (Hcap zs Hz); rewrite (exc_concat_map_Forall _ _ _ _ Hz) in Hcap.
  specialize (Hcap (p, s) [cle (lvar (XS k p s)) (lconst 0)] (in_prods_signs p s)).
  cbn [fst snd] in Hcap; unfold s_calc_capacity in Hcap.
  rewrite bool_decide_eq_false_2 in Hcap by exact Hp.
  specialize (Hcap eq_refl); apply Forall_cons_iff in Hcap as [Hc _].
  apply sat_le_const in Hc.
  assert (σ (XS k p s) <= 0)%Z by (rewrite Zle_Qle; exact Hc); specialize (Hn (XS k p s)); lia.
Qed.

(** With every other product at 0, a storage edge's recorded values are
    its outgoing foundations alone. *)
Lemma stor_values_stored σ k se :
  (forall p s, p <> Foundation -> σ (XS k p s) = 0) ->
  stor_values σ k se = stored_entry σ k.
Proof.
  intros Hz; unfold stor_values, stored_entry, prods_signs, num_product_list, sign.
  cbn [list_prod map app flat_map fst snd].
  rewrite (Hz Steel Minus), (Hz Module Minus), (Hz HalfBody1 Minus), (Hz HalfBody3 Minus),
    (Hz Turbine Minus), (Hz TurbineInstalled Minus), (Hz Vessel Minus) by discriminate.
  rewrite ?(bool_decide_eq_true_2 (Minus = Minus)) by reflexivity;
    rewrite ?(bool_decide_eq_false_2 (Plus = Minus)) by discriminate;
    replace (material 0) with false by reflexivity; cbn [andb app].
  destruct (material _); reflexivity.
Qed.

(** C18: after a successful run, the storage table of [sample.py] has an
    entry exactly for the (month, location) each storage edge leaves, and
    the entry lists, edge by edge in the order of [storage_list], the
    floating foundations the edge keeps into the next month, labelled
    ["仮置"], when at least 0.1.  The code records every minus flow of the
    edge; the capacity rows of a feasible plan leave only foundations. *)
Theorem storage_table_reports_foundations `{IPSolver} nr er r k :
  optimize nr er = inr (Some r) ->
  table_lookup (storage_results (r_val r) (storage_list (r_net r))) k =
  match List.filter (fun je => bool_decide (table_key (s_source (snd je)) = k))
                    (ienum (storage_list (r_net r))) with
  | [] => None
  | fl => Some (flat_map (fun je => stored_entry (r_val r) (fst je)) fl)
  end.
Proof.
  intros Hr; destruct (optimize_feasible _ _ _ Hr) as [cs [_ [Hg Hf]]].
  unfold storage_results; rewrite lookup_table_fold by reflexivity.
  destruct (List.filter _ _) as [|je fl] eqn:Ef; [reflexivity|].
  f_equal; apply flat_map_ext_in; intros [k' se] Hin.
  rewrite <- Ef in Hin; apply filter_In in Hin as [Hin _].
  apply stor_values_stored, (feasible_stor_zero _ _ _ _ _ Hg Hf Hin).
Qed.

(** ** The flat dictionaries hold exactly the material flows *)

Lemma od_set_keeps {V} (k k' : string) (v : V) d : od_lookup k' d <> None -> od_lookup k' (od_set k v d) <> None.
Proof. rewrite od_lookup_set; destruct (String.eqb k' k); [discriminate | exact id]. Qed.

Section Flat.
Context {E : Type} (key : E -> Product -> Sign -> string) (val : nat -> Product -> Sign -> Z)
        (keep : Product -> Sign -> bool).

Lemma flat_inner j (e : E) pss d :
  let d' := fold_left (fun d ps => let '(p, s) := ps in
                                   if material (val j p s) && keep p s
                                   then od_set (key e p s) (val j p s) d else d) pss d in
  (forall k v, od_lookup k d' = Some v -> od_lookup k d = Some v \/
     exists p s, In (p, s) pss /\ flat_entry key val keep k v j e p s) /\
  (forall k, od_lookup k d <> None -> od_lookup k d' <> None) /\
  (forall p s, In (p, s) pss -> material (val j p s) && keep p s = true -> od_lookup (key e p s) d' <> None).
Proof.
  revert d; induction pss as [|[p s] pss IH]; intros d; cbn [fold_left].
  - split; [auto | split; [auto | intros ? ? []]].
  - set (d1 := if material (val j p s) && keep p s then od_set (key e p s) (val j p s) d else d).
    destruct (IH d1) as (S1 & M1 & C1). split; [|split].
    + intros k v Hk. destruct (S1 k v Hk) as [Hd|(p' & s' & Hin & He)]; [|right; exists p', s'; cbn; auto].
      unfold d1 in Hd. destruct (material (val j p s) && keep p s) eqn:Ec; [|auto].
      rewrite od_lookup_set in Hd. destruct (String.eqb_spec k (key e p s)) as [->|]; [|auto].
      injection Hd as <-; right; exists p, s; split; [left; reflexivity | repeat split; auto].
    + intros k Hk; apply M1; unfold d1; destruct (_ && _); [apply od_set_keeps|]; exact Hk.
    + intros p' s' [[= <- <-]|Hin] Hc; [|apply C1; assumption].
      apply M1; unfold d1; rewrite Hc, od_lookup_set, String.eqb_refl; discriminate.
Qed.

Lemma flat_outer l d0 :
  let d' := fold_left (fun d je =>
               fold_left (fun d ps => let '(p, s) := ps in
                            if material (val (fst je) p s) && keep p s
                            then od_set (key (snd je) p s) (val (fst je) p s) d else d)
                         prods_signs d) l d0 in
  (forall k v, od_lookup k d' = Some v -> od_lookup k d0 = Some v \/
     exists j e p s, In (j, e) l /\ flat_entry key val keep k v j e p s) /\
  (forall k, od_lookup k d0 <> None -> od_lookup k d' <> None) /\
  (forall j e p s, In (j, e) l -> material (val j p s) && keep p s = true -> od_lookup (key e p s) d' <> None).
Proof.
  revert d0; induction l as [|[j e] l IH]; intros d0; cbn [fold_left fst snd].
  - split; [auto | split; [auto | intros ? ? ? ? []]].
  - destruct (flat_inner j e prods_signs d0) as (S0 & M0 & C0).
    match goal with |- context [fold_left _ l ?d1] => destruct (IH d1) as (S1 & M1 & C1) end.
    split; [|split].
    + intros k v Hk. destruct (S1 k v Hk) as [Hd|(j' & e' & p & s & Hin & He)];
        [|right; exists j', e', p, s; cbn; auto].
      destruct (S0 k v Hd) as [H0|(p & s & _ & He)]; [auto | right; exists j, e, p, s; cbn; auto].
    + intros k Hk; apply M1, M0, Hk.
    + intros j' e' p s [[= <- <-]|Hin] Hc; [apply M1, (C0 p s (in_prods_signs p s) Hc) | eapply C1; eassumption].
Qed.

End Flat.

(** The flat transportation dictionary of [optimize] (lines
    705-712) holds, under each variable name, an outgoing flow of at least
    0.1 of a product other than the vessel on some route, and every such
    flow has an entry under its name.  Distinct routes between the same
    two nodes share their names, so the later one's value is kept. *)
Lemma flat_transportation_spec σ st :
  (forall k v, od_lookup k (flat_transportation_results σ st) = Some v ->
     exists i e p, In (i, e) (ienum (transportation_list st)) /\ p <> Vessel /\
                   k = t_var_name e p Minus /\ v = σ (XT i p Minus) /\ (1 # 10 <= inject_Z v)%Q) /\
  (forall i e p, In (i, e) (ienum (transportation_list st)) -> p <> Vessel ->
     (1 # 10 <= inject_Z (σ (XT i p Minus)))%Q ->
     od_lookup (t_var_name e p Minus) (flat_transportation_results σ st) <> None).
Proof.
  destruct (flat_outer t_var_name (fun i p s => σ (XT i p s))
              (fun p s => bool_decide (s = Minus) && negb (bool_decide (p = Vessel)))
              (ienum (transportation_list st)) []) as (S & _ & C).
  split.
  - intros k v Hk. destruct (S k v Hk) as [H0|(i & e & p & s & Hin & Hc & -> & ->)]; [discriminate|].
    apply andb_true_iff in Hc as [Hm Hkeep]; apply andb_true_iff in Hkeep as [Hs Hv].
    apply bool_decide_eq_true in Hs as ->; apply negb_true_iff, bool_decide_eq_false in Hv.
    exists i, e, p; repeat split; auto. apply Qle_bool_iff; exact Hm.
  - intros i e p Hin Hv Hm. apply (C i e p Minus Hin). unfold material.
    rewrite (proj2 (Qle_bool_iff _ _) Hm), bool_decide_eq_true_2, bool_decide_eq_false_2 by auto.
    reflexivity.
Qed.

(** C25: a location whose wet-storage flag is set but whose capacity cell
    is empty gets storage edges with capacity [None] (lines 216 and 331);
    the capacity row of line 566 then fails on [None], so the upload never
    yields a run: [optimize] raises, and the handler answers with a server
    error.  The specification asks for missing numeric cells to be taken
    as absent rather than to raise. *)
Theorem missing_wet_capacity_fails `{IPSolver} nr er st k e :
  build_network nr er = inr st -> In (k, e) (ienum (storage_list st)) -> s_capacity e = PNone ->
  exists err, optimize nr er = inl err.
Proof.
  intros Hb Hk Hc. unfold optimize; rewrite Hb; cbn [exc_bind].
  destruct (gen_constraints st) as [err|cs] eqn:G; [exists err; reflexivity | exfalso].
  destruct (gen_constraints_scap _ _ _ _ G Hk) as [zs Hz]. unfold s_cap_cons in Hz.
  destruct (exc_concat_map_each _ _ _ (Foundation, Plus) Hz (in_prods_signs _ _)) as [ys Hy].
  cbn [fst snd] in Hy. unfold s_calc_capacity in Hy.
  rewrite bool_decide_eq_true_2 in Hy by reflexivity. rewrite Hc in Hy. discriminate.
Qed.

(** Every production edge of a network whose objective is assembled has
    its cost terms. *)
Lemma objective_pterms st o j e :
  objective st = inr o -> In (j, e) (ienum (production_list st)) ->
  exists ts, cost_terms p_calc_cost XP (j, e) = inr ts.
Proof.
  unfold objective; intros Ho Hj.
  destruct (exc_concat_map (cost_terms t_cost XT) _) as [|tc]; simpl in Ho; [discriminate|].
  destruct (exc_concat_map (cost_terms p_calc_cost XP) _) as [|pc] eqn:Ep; simpl in Ho; [discriminate|].
  exact (exc_concat_map_each _ _ _ _ Ep Hj).
Qed.

(** C23: an active capability whose cost cell is empty gets cost [None]
    (line 265), copied to its production edges (line 303) and into the
    cost of its output product (line 479); the objective of lines 672-691
    multiplies that cost by a flow and fails, so the upload never yields
    a run.  The specification asks for a missing cost to be taken as
    absent. *)
Theorem missing_cost_fails `{IPSolver} nr er st j e out :
  build_network nr er = inr st -> In (j, e) (ienum (production_list st)) ->
  p_cost e = PNone -> cost_mapping (p_function e) = Some out ->
  exists err, optimize nr er = inl err.
Proof.
  intros Hb Hj Hc Hout. unfold optimize; rewrite Hb; cbn [exc_bind].
  destruct (gen_constraints st) as [err|cs]; [exists err; reflexivity|]; cbn [exc_bind].
  destruct (objective st) as [err|o] eqn:Ho; [exists err; reflexivity | exfalso].
  destruct (objective_pterms _ _ _ _ Ho Hj) as [ts Hts]. unfold cost_terms in Hts.
  destruct (exc_concat_map_each _ _ _ out Hts (in_num_product_list out)) as [ys Hy].
  cbn [snd] in Hy. unfold p_calc_cost in Hy. rewrite bool_decide_eq_true_2 in Hy by exact Hout.
  rewrite Hc in Hy; discriminate.
Qed.

(** ** The global cache *)

Lemma show_cache `{IPSolver} c req :
  fst (show c req) = match post_result req with Some (r, maps) => cache_of r maps | None => c end.
Proof.
  destruct req as [nr er|arg]; cbn [show post_result]; [|reflexivity].
  destruct (optimize nr er) as [e|[r|]]; try reflexivity.
  destruct (build_maps (r_val r) (r_net r)) as [e|maps] eqn:E; [reflexivity|].
  pose proof (build_maps_months _ _ _ E) as Hm.
  destruct maps as [|[m0 els] maps]; [discriminate|]; reflexivity.
Qed.

(** Served one request at a time, the cache after a sequence of requests
    holds the fields of the last [POST] whose run and rendering
    succeeded, with its first month active, or its initial contents when
    there was none: a failing upload leaves the previous results in
    place.  The threaded server of [app.run] only keeps the weaker
    invariant of [Server.interleaved_fields_produced]. *)
Lemma serve_cache `{IPSolver} c reqs :
  fst (serve c reqs) = match last_success reqs with Some (r, maps) => cache_of r maps | None => c end.
Proof.
  revert c; induction reqs as [|req reqs IH]; intros c; [reflexivity|].
  cbn [serve last_success].
  destruct (show c req) as [c1 resp] eqn:E.
  destruct (serve c1 reqs) as [c2 resps] eqn:E2; cbn [fst].
  replace c2 with (fst (serve c1 reqs)) by (rewrite E2; reflexivity).
  rewrite IH. destruct (last_success reqs) as [[r maps]|]; [reflexivity|].
  replace c1 with (fst (show c req)) by (rewrite E; reflexivity). apply show_cache.
Qed.
