(* ===== verification/Server.v ===== *)
(** * The handler under the threaded development server ([sample.py], lines 10-113)

    [app.run(debug=True)] serves every request on a thread of its own, and
    [show()] reads and writes the module-level dictionary [GLOBAL_CACHE]
    without a lock.  Each item assignment and each item read is atomic
    (one bytecode under the GIL), but the five writes of a [POST] (lines
    87-92) and the five reads of a [GET] (lines 97-101) are not: threads
    interleave between them.  This file models that: a request is a
    thread of atomic actions ([thread_of]: the computation before line 87
    touches no shared state and is folded into the values written), the
    server state is the cache, the actions each thread has left and the
    values the [GET]s have read, and [step] runs the next action of any
    thread.  Run alone, a thread does what [show] does ([thread_alone]).

    The theorem is the invariant that survives every interleaving: each
    field of the cache, and each field a page shows, is empty or was
    produced by a successful upload among the requests.  What does not
    survive is that the fields come from the same upload: a page can show
    the node list of one upload with the maps of another state of the
    cache ([Scenario.get_sees_mixed_cache]). *)

From S2P Require Import Prelude Data Carry Network Constraints Maps Results.
From stdpp Require Import relations.

Local Open Scope calc_scope.

(** ** Fields, values and actions *)

Inductive field := KMaps | KNodes | KProd | KStor | KActive.

(** The value of one field of [GLOBAL_CACHE]. *)
Inductive fval :=
| FMaps (v : option (list (Month * list element)))
| FNodes (v : option (list Node))
| FProd (v : option (table (Role * Z)))
| FStor (v : option (table (string * Z)))
| FActive (v : option string).

Definition field_of (v : fval) : field :=
  match v with
  | FMaps _ => KMaps | FNodes _ => KNodes | FProd _ => KProd | FStor _ => KStor | FActive _ => KActive
  end.

(** [GLOBAL_CACHE[k]]. *)
Definition cache_get (c : cache) (k : field) : fval :=
  match k with
  | KMaps => FMaps (c_maps c) | KNodes => FNodes (c_nodes c) | KProd => FProd (c_production c)
  | KStor => FStor (c_storage c) | KActive => FActive (c_active c)
  end.

(** [GLOBAL_CACHE[k] = v]. *)
Definition cache_set (c : cache) (v : fval) : cache :=
  match v with
  | FMaps m => mkCache m (c_nodes c) (c_production c) (c_storage c) (c_active c)
  | FNodes n => mkCache (c_maps c) n (c_production c) (c_storage c) (c_active c)
  | FProd p => mkCache (c_maps c) (c_nodes c) p (c_storage c) (c_active c)
  | FStor s => mkCache (c_maps c) (c_nodes c) (c_production c) s (c_active c)
  | FActive a => mkCache (c_maps c) (c_nodes c) (c_production c) (c_storage c) a
  end.

(** The empty value of a field, as [GLOBAL_CACHE] starts (lines 10-16). *)
Definition fnone (k : field) : fval :=
  match k with
  | KMaps => FMaps None | KNodes => FNodes None | KProd => FProd None
  | KStor => FStor None | KActive => FActive None
  end.

Inductive action := Write (v : fval) | Read (k : field).

Section Server.
Context `{IPSolver}.

(** The atomic actions of one request: a successful [POST] writes the
    maps, the nodes, the two tables (lines 87-90) and then the first
    month (line 92); a failing one raises before line 87 and writes
    nothing, or at line 92 after the four writes; a [GET] reads the five
    fields (lines 97-101). *)
Definition thread_of (req : request) : list action :=
  match req with
  | Post nr er =>
      match optimize nr er with
      | inr (Some r) =>
          match build_maps (r_val r) (r_net r) with
          | inr maps =>
              [Write (FMaps (Some maps)); Write (FNodes (Some (node_list (r_net r))));
               Write (FProd (Some (production_results (r_val r) (production_list (r_net r)))));
               Write (FStor (Some (storage_results (r_val r) (storage_list (r_net r)))))] ++
              match first_month maps with
              | inr a => [Write (FActive (Some a))]
              | inl _ => []
              end
          | inl _ => []
          end
      | _ => []
      end
  | Get _ => [Read KMaps; Read KNodes; Read KProd; Read KStor; Read KActive]
  end.

(** The server: the cache, what each thread has left to do, and the
    values read so far. *)
Record sys := mkSys { s_cache : cache; s_threads : list (list action); s_seen : list fval }.

Definition sys_init (reqs : list request) : sys := mkSys cache_init (map thread_of reqs) [].

(** One atomic action of one thread. *)
Inductive step : sys -> sys -> Prop :=
| step_write c ts seen i v rest :
    ts !! i = Some (Write v :: rest) ->
    step (mkSys c ts seen) (mkSys (cache_set c v) (<[i := rest]> ts) seen)
| step_read c ts seen i k rest :
    ts !! i = Some (Read k :: rest) ->
    step (mkSys c ts seen) (mkSys c (<[i := rest]> ts) (cache_get c k :: seen)).

Definition reachable (reqs : list request) (s : sys) : Prop := rtc step (sys_init reqs) s.


(** A field value that is empty, or the value of that field after some
    successful upload among [reqs]. *)
Definition produced (reqs : list request) (v : fval) : Prop :=
  v = fnone (field_of v) \/
  exists req r maps, In req reqs /\ post_result req = Some (r, maps) /\
                     cache_get (cache_of r maps) (field_of v) = v.

(** The invariant of the server: the cache, the values read and the
    writes still pending are all produced by successful uploads. *)
Record server_ok (reqs : list request) (s : sys) : Prop := {
  so_cache : forall k, produced reqs (cache_get (s_cache s) k);
  so_seen : forall v, In v (s_seen s) -> produced reqs v;
  so_pending : forall i th v, s_threads s !! i = Some th -> In (Write v) th -> produced reqs v
}.

(** ** Lemmas *)

Lemma cache_set_produced reqs c v k :
  (forall k', produced reqs (cache_get c k')) -> produced reqs v ->
  produced reqs (cache_get (cache_set c v) k).
Proof.
  intros Hc Hv; destruct v, k; cbn; first [exact Hv | exact (Hc KMaps) | exact (Hc KNodes)
    | exact (Hc KProd) | exact (Hc KStor) | exact (Hc KActive)].
Qed.

(** Every value a request's thread writes is a field of [cache_of] for
    that request's run. *)
Lemma thread_writes_produced reqs req v :
  In req reqs -> In (Write v) (thread_of req) -> produced reqs v.
Proof.
  intros Hr Hw; destruct req as [nr er|arg]; cbn [thread_of In app] in Hw;
    [|repeat (destruct Hw as [Hw|Hw]; [discriminate|]); contradiction].
  destruct (optimize nr er) as [e|[r|]] eqn:Eo; cbn [thread_of In app] in Hw; try contradiction.
  destruct (build_maps (r_val r) (r_net r)) as [e|maps] eqn:Eb; cbn [thread_of In app] in Hw; [contradiction|].
  right; exists (Post nr er), r, maps; split; [exact Hr|]; split; [cbn [post_result]; rewrite Eo, Eb; reflexivity|].
  repeat (destruct Hw as [Hw|Hw]; [injection Hw as <-; reflexivity|]).
  destruct (first_month maps) as [e|a] eqn:Ef; cbn [thread_of In app] in Hw; [contradiction|].
  destruct Hw as [Hw|[]]; injection Hw as <-.
  destruct maps as [|[m els] maps]; cbn in Ef; [discriminate|]; injection Ef as <-; reflexivity.
Qed.

Lemma server_ok_init reqs : server_ok reqs (sys_init reqs).
Proof.
  split; cbn.
  - intros k; left; destruct k; reflexivity.
  - intros v [].
  - intros i th v Hi Hw. rewrite list_lookup_fmap in Hi.
    destruct (reqs !! i) as [req|] eqn:E; [|discriminate]; injection Hi as <-.
    apply (thread_writes_produced _ req); [apply list_elem_of_In; eapply list_elem_of_lookup_2, E|exact Hw].
Qed.

Lemma lookup_insert_rest {A} (ts : list (list A)) i a rest j th :
  ts !! i = Some (a :: rest) -> <[i := rest]> ts !! j = Some th ->
  exists th', ts !! j = Some th' /\ (forall x, In x th -> In x th').
Proof.
  intros Hi Hj; apply list_lookup_insert_Some in Hj as [[-> [<- _]]|[_ Hj]].
  - exists (a :: rest); split; [exact Hi|]; intros x; apply in_cons.
  - exists th; auto.
Qed.

Lemma step_server_ok reqs s s' : step s s' -> server_ok reqs s -> server_ok reqs s'.
Proof.
  intros Hs [Hc Hseen Hp]; destruct Hs as [c ts seen i v rest Hi|c ts seen i k rest Hi]; split; cbn in *.
  - intros k; apply cache_set_produced; [exact Hc|]. apply (Hp i _ v Hi); left; reflexivity.
  - exact Hseen.
  - intros j th v' Hj Hw; destruct (lookup_insert_rest _ _ _ _ _ _ Hi Hj) as (th' & Hj' & Hin).
    exact (Hp j th' v' Hj' (Hin _ Hw)).
  - exact Hc.
  - intros v [<-|Hv]; [apply Hc|exact (Hseen v Hv)].
  - intros j th v' Hj Hw; destruct (lookup_insert_rest _ _ _ _ _ _ Hi Hj) as (th' & Hj' & Hin).
    exact (Hp j th' v' Hj' (Hin _ Hw)).
Qed.

Lemma reachable_server_ok reqs s : reachable reqs s -> server_ok reqs s.
Proof.
  unfold reachable; intros Hr; remember (sys_init reqs) as s0 eqn:E0.
  assert (server_ok reqs s0) as H0 by (subst; apply server_ok_init).
  clear E0; induction Hr as [s0|s0 s1 s2 Hs _ IH]; [exact H0|].
  apply IH, (step_server_ok _ _ _ Hs H0).
Qed.





(** ** The threaded server *)

(** C13: under every interleaving of the threads of a list of requests,
    each field of [GLOBAL_CACHE], and each field a [GET] has read for its
    page, is either still empty or holds that field of the results of a
    successful upload among the requests ([cache_of] of its run and
    maps): a failing upload never reaches the cache, and no thread writes
    a value of its own making.  The fields may come from different
    uploads. *)
Theorem interleaved_fields_produced reqs s :
  reachable reqs s ->
  (forall k, produced reqs (cache_get (s_cache s) k)) /\ (forall v, In v (s_seen s) -> produced reqs v).
Proof. intros Hr; destruct (reachable_server_ok reqs s Hr) as [Hc Hs _]; split; [exact Hc|exact Hs]. Qed.


End Server.
