(* ===== verification/Scenario.v ===== *)
(** * A small network with a feasible plan

    A large shipyard [A] (two months), a base port [B] and an installation
    site with its aggregate demand node: [A] turns four units of steel into four modules, one
    half-hull of each kind and one floating foundation in November, stores
    the foundation into December and ships it to [B], which assembles the
    turbine and ships it to the site, where it is installed and collected
    by the sink edge into the aggregate node, which demands one.  The assignment [demo_sigma] is checked feasible for every
    constraint [gen_constraints] generates, by evaluation; the witnesses
    of the feasibility theorems are taken at this network. *)

From stdpp Require Import relations.
From S2P Require Import Prelude Data PyStr Graph Carry Network NetworkSpec Totality Constraints Balance Maps Results Server.

Local Open Scope calc_scope.
Local Open Scope Z_scope.

(** ** The network *)

Definition demo_node (nm : string) (m : Month) (roles : list Role) (st tb : Z) : Node :=
  {| name := nm; month := LMonth m; lat := 0; lon := 0; kind := CEmpty;
     role := fun r => bool_decide (r ∈ roles); cost := dict_empty; capacity := dict_empty;
     wet_storage_capacity := None; wet_storage_cost := None; steel := st; turbine := tb |}.

Definition yard_roles : list Role := [ModuleFab; HalfBody1Fab; HalfBody3Fab; FoundationFab].

Definition node_A11 : Node := demo_node "A" M11 yard_roles 4 0.
Definition node_A12 : Node := demo_node "A" M12 yard_roles 0 0.
Definition node_B12 : Node := demo_node "B" M12 [TurbineAssembly] 0 0.
Definition node_C12 : Node := demo_node "能代沖" M12 [TurbineInstallation] 0 0.

(** The aggregate demand node of the site, as line 340-360 builds it. *)
Definition node_N : Node :=
  {| name := "能代沖"; month := LSentinel; lat := 0; lon := 0; kind := CText kind_site;
     role := fun r => bool_decide (r = TurbineInstallation); cost := dict_empty;
     capacity := dict_empty; wet_storage_capacity := None; wet_storage_cost := None;
     steel := 0; turbine := 1 |}.

Definition demo_sink : TEdge :=
  mkTEdge node_C12 node_N None (fun _ => pv_of_int 0) (fun _ => pv_of_int 10000).

Definition demo_pedge (n : Node) (f : Role) : PEdge := mkPEdge n f (pv_of_int 0) (pv_of_int 4).

Definition demo_route (src tgt : Node) : TEdge :=
  mkTEdge src tgt (Some M12) (fun _ => pv_of_int 0) (route_capacity (CInt 5)).

Definition demo_storage : SEdge := mkSEdge node_A11 node_A12 M11 (pv_of_int 0) (pv_of_int 2).

Definition demo_network : BState :=
  {| node_list := [node_A11; node_A12; node_B12; node_C12; node_N];
     transportation_list := [demo_route node_A12 node_B12; demo_route node_B12 node_C12;
                             demo_sink];
     production_list := [demo_pedge node_A11 ModuleFab; demo_pedge node_A11 HalfBody1Fab;
                         demo_pedge node_A11 HalfBody3Fab; demo_pedge node_A11 FoundationFab;
                         demo_pedge node_B12 TurbineAssembly;
                         demo_pedge node_C12 TurbineInstallation];
     storage_list := [demo_storage] |}.

(** ** The plan *)

Definition demo_t (i : nat) (p : Product) : N :=
  match i, p with
  | 0%nat, (Foundation | Vessel) => 1
  | 1%nat, (Turbine | Vessel) => 1
  | 2%nat, TurbineInstalled => 1
  | _, _ => 0
  end.

Definition demo_p (j : nat) (p : Product) (s : Sign) : N :=
  match j, p, s with
  | 0%nat, Steel, Plus => 4 | 0%nat, Module, Minus => 4
  | 1%nat, Module, Plus => 1 | 1%nat, HalfBody1, Minus => 1
  | 2%nat, Module, Plus => 3 | 2%nat, HalfBody3, Minus => 1
  | 3%nat, (HalfBody1 | HalfBody3), Plus => 1 | 3%nat, Foundation, Minus => 1
  | 4%nat, Foundation, Plus => 1 | 4%nat, Turbine, Minus => 1
  | 5%nat, Turbine, Plus => 1 | 5%nat, TurbineInstalled, Minus => 1
  | _, _, _ => 0
  end.

Definition demo_s (k : nat) (p : Product) : N :=
  match k, p with 0%nat, Foundation => 1 | _, _ => 0 end.

Definition demo_sigma (x : var) : Z :=
  Z.of_N match x with
         | XT i p _ | XTV i p _ => demo_t i p
         | XP j p s => demo_p j p s
         | XS k p _ | XSV k p _ => demo_s k p
         end.

Definition demo_cs : list cons :=
  match gen_constraints demo_network with inr cs => cs | inl _ => [] end.

(** ** The same chain from the two CSV tables

    A facility table with a large shipyard [A] (steel 4 per month, one
    unit of each fabrication capacity), a base port [B] (one assembly per
    month) and an installation site [S] (one installation per month from
    November, demand one), and a route table [A -> B -> S].  The network
    is the one [build_network] builds (37 nodes, 36 routes, 72 production
    and 33 storage edges); the plan runs the whole chain in November. *)

Definition yard_row : list cell :=
  [CText "A"; CInt 35; CInt 139; CText kind_large; CText "FALSE"; CEmpty; CEmpty; CText "FALSE"; CEmpty;
   CInt 0; CInt 1; CEmpty;  CInt 0; CInt 1; CEmpty;  CInt 0; CInt 1; CEmpty;  CInt 0; CInt 1; CEmpty;
   CEmpty; CEmpty; CEmpty;  CEmpty; CEmpty; CEmpty;  CEmpty; CEmpty; CInt 4; CEmpty; CEmpty].
Definition port_row : list cell :=
  [CText "B"; CInt 35; CInt 139; CText kind_base_port; CText "FALSE"; CEmpty; CEmpty; CText "FALSE"; CEmpty;
   CEmpty; CEmpty; CEmpty;  CEmpty; CEmpty; CEmpty;  CEmpty; CEmpty; CEmpty;  CEmpty; CEmpty; CEmpty;
   CEmpty; CEmpty; CEmpty;  CInt 0; CInt 1; CEmpty;  CEmpty; CEmpty; CEmpty; CEmpty; CEmpty].
Definition site_row : list cell :=
  [CText "S"; CInt 40; CInt 140; CText kind_site; CText "FALSE"; CEmpty; CEmpty; CText "FALSE"; CEmpty;
   CEmpty; CEmpty; CEmpty;  CEmpty; CEmpty; CEmpty;  CEmpty; CEmpty; CEmpty;  CEmpty; CEmpty; CEmpty;
   CEmpty; CEmpty; CEmpty;  CEmpty; CEmpty; CEmpty;  CInt 0; CInt 1; CEmpty; CInt 1; CInt 11].
Definition facility_table : list (list cell) := [[CText "name"]; yard_row; port_row; site_row].
Definition route_table : list (list cell) := [[CText "from"]; [CText "A"; CText "B"; CEmpty; CInt 0; CInt 5];
                           [CText "B"; CText "S"; CEmpty; CInt 0; CInt 5]].
Definition run_t (i : nat) (p : Product) : N :=
  match i, p with
  | 0%nat, TurbineInstalled => 1
  | 12%nat, (Foundation | Vessel) => 1
  | 24%nat, (Turbine | Vessel) => 1
  | _, _ => 0 end.
Definition run_p (j : nat) (p : Product) (s : Sign) : N :=
  match j, p, s with
  | 0%nat, Steel, Plus => 4 | 0%nat, Module, Minus => 4
  | 1%nat, Module, Plus => 1 | 1%nat, HalfBody1, Minus => 1
  | 2%nat, Module, Plus => 3 | 2%nat, HalfBody3, Minus => 1
  | 3%nat, (HalfBody1 | HalfBody3), Plus => 1 | 3%nat, Foundation, Minus => 1
  | 48%nat, Foundation, Plus => 1 | 48%nat, Turbine, Minus => 1
  | 60%nat, Turbine, Plus => 1 | 60%nat, TurbineInstalled, Minus => 1
  | _, _, _ => 0 end.
Definition run_sigma (x : var) : Z :=
  Z.of_N match x with
         | XT i p _ | XTV i p _ => run_t i p
         | XP j p s => run_p j p s
         | XS _ _ _ | XSV _ _ _ => 0%N end.
Definition run_net : BState :=
  match build_network facility_table route_table with inr st => st | inl _ => bstate_empty end.

Definition run0 : run := mkRun run_net run_sigma.

Definition run_cs : list cons :=
  match gen_constraints run_net with inr cs => cs | inl _ => [] end.

(** The solver that accepts [run_sigma] exactly when it satisfies every
    constraint. *)
Definition run_solver : IPSolver := certificate_solver run_sigma (fun x => N2Z.is_nonneg _).

(** The facility table without the steel supply of the shipyard. *)
Definition no_steel_table : list (list cell) :=
  [[CText "name"]; firstn 29 yard_row ++ [CEmpty; CEmpty; CEmpty]; port_row; site_row].

Definition run_objective_lin : lin :=
  match objective run_net with inr o => o | inl _ => mkLin [] 0 end.

(** A route row naming a location the facility table does not have. *)
Definition unknown_route_row : list cell := [CText "A"; CText "Z"; CEmpty; CInt 0; CInt 5].

(** Two facility rows naming the same location. *)
Definition duplicate_table : list (list cell) := [[CText "name"]; yard_row; yard_row].

(** ** Evaluated facts *)

Lemma forallb_satb σ cs : forallb (satb σ) cs = true -> Forall (sat σ) cs.
Proof.
  rewrite forallb_forall, List.Forall_forall; intros H c Hc; apply satb_sat, H, Hc.
Qed.

Lemma demo_gen : gen_constraints demo_network = inr demo_cs.
Proof. vm_compute; reflexivity. Qed.

Lemma demo_sigma_nonneg : nonneg demo_sigma.
Proof. intros x; apply N2Z.is_nonneg. Qed.

Lemma demo_feasible : feasible demo_sigma demo_cs.
Proof. split; [exact demo_sigma_nonneg | apply forallb_satb; vm_compute; reflexivity]. Qed.

Lemma demo_wf : wf_network demo_network.
Proof. apply wf_networkb_spec; vm_compute; reflexivity. Qed.

(** ** Witnesses *)

Ltac demo_hyp :=
  first [ exact demo_gen | exact demo_feasible | exact demo_wf | exact demo_sigma_nonneg
        | exact (proj2 demo_feasible) | reflexivity | discriminate | cbn; tauto ].

Lemma production_edge_constraints_witness :
  exists cs, p_edge_cons (2%nat, demo_pedge node_A11 HalfBody3Fab) = inr cs /\
  (Forall (sat demo_sigma) cs <->
   bom_spec HalfBody3Fab 4 (fun p s => demo_sigma (XP 2 p s))).
Proof. apply (production_edge_constraints demo_sigma 2 (demo_pedge node_A11 HalfBody3Fab) 4); demo_hyp. Defined.

Lemma production_covers_demand_witness :
  total_demand demo_network <= prod_flow demo_sigma demo_network TurbineInstalled Minus /\
  total_demand demo_network <= prod_flow demo_sigma demo_network Foundation Minus /\
  4 * total_demand demo_network <= prod_flow demo_sigma demo_network Module Minus.
Proof. apply (production_covers_demand demo_sigma demo_network demo_cs); demo_hyp. Defined.

Lemma steel_covers_demand_witness :
  0 < total_demand demo_network /\ 4 * total_demand demo_network <= total_steel demo_network.
Proof.
  split; [vm_compute; reflexivity|].
  apply (steel_covers_demand demo_sigma demo_network demo_cs); demo_hyp.
Defined.

Lemma transport_edge_feasible_witness :
  demo_sigma (XT 0 Foundation Plus) = demo_sigma (XT 0 Foundation Minus) /\
  5 * demo_sigma (XT 0 Module Minus) + 6 * demo_sigma (XT 0 HalfBody1 Minus) +
  24 * demo_sigma (XT 0 HalfBody3 Minus) + 30 * demo_sigma (XT 0 Foundation Minus) +
  60 * demo_sigma (XT 0 Steel Minus) + 60 * demo_sigma (XT 0 Turbine Minus)
  <= 60 * demo_sigma (XT 0 Vessel Minus).
Proof.
  destruct (transport_edge_feasible demo_sigma demo_network demo_cs 0
              (demo_route node_A12 node_B12)) as [Hpm Hv]; try demo_hyp.
  split; [apply Hpm | apply Hv].
Defined.

Lemma storage_edge_feasible_witness :
  demo_sigma (XS 0 Foundation Plus) = demo_sigma (XS 0 Foundation Minus) /\
  demo_sigma (XS 0 Foundation Minus) <= 2 /\ demo_sigma (XS 0 Turbine Plus) = 0.
Proof.
  destruct (storage_edge_feasible demo_sigma demo_network demo_cs 0 demo_storage 2)
    as [Hpm [Hc Hz]]; try demo_hyp.
  split; [apply Hpm | split; [apply Hc | apply Hz; discriminate]].
Defined.

Lemma special_route_no_cargo_witness : demo_sigma (XT 2 Turbine Minus) = 0.
Proof. apply (special_route_no_cargo demo_sigma demo_network demo_cs 2 demo_sink); demo_hyp. Defined.

(** ** The pipeline on the CSV tables *)

Lemma run_build : build_network facility_table route_table = inr run_net.
Proof.
  unfold run_net.
  assert (H : match build_network facility_table route_table with inr _ => true | inl _ => false end
              = true) by (vm_compute; reflexivity).
  destruct (build_network facility_table route_table); [discriminate | reflexivity].
Qed.

Lemma run_gen : gen_constraints run_net = inr run_cs.
Proof.
  unfold run_cs.
  assert (H : match gen_constraints run_net with inr _ => true | inl _ => false end = true)
    by (vm_compute; reflexivity).
  destruct (gen_constraints run_net); [discriminate | reflexivity].
Qed.

Lemma run_check : forallb (satb run_sigma) run_cs = true.
Proof. vm_compute; reflexivity. Qed.

Lemma run_feasible : feasible run_sigma run_cs.
Proof. split; [intros x; apply N2Z.is_nonneg | apply forallb_satb, run_check]. Qed.

Lemma run_objective_ok : objective run_net = inr run_objective_lin.
Proof.
  unfold run_objective_lin.
  assert (H : match objective run_net with inr _ => true | inl _ => false end = true)
    by (vm_compute; reflexivity).
  destruct (objective run_net); [discriminate | reflexivity].
Qed.

Lemma run_optimize : @optimize run_solver facility_table route_table = inr (Some run0).
Proof.
  unfold optimize; rewrite run_build; cbn [exc_bind]; rewrite run_gen; cbn [exc_bind].
  rewrite run_objective_ok; cbn [exc_bind].
  change (@solve run_solver run_cs run_objective_lin) with
    (if forallb (satb run_sigma) run_cs then (Optimal, run_sigma) else (NotOptimal, run_sigma)).
  rewrite run_check; reflexivity.
Qed.

(** The maps of the run. *)
Definition run_maps : list (Month * list element) :=
  match build_maps run_sigma run_net with inr ms => ms | inl _ => [] end.

Lemma run_build_maps : build_maps run_sigma run_net = inr run_maps.
Proof.
  unfold run_maps.
  assert (H : match build_maps run_sigma run_net with inr _ => true | inl _ => false end = true)
    by (vm_compute; reflexivity).
  destruct (build_maps run_sigma run_net); [discriminate | reflexivity].
Qed.

(** The upload of the two tables succeeds: the handler redirects and
    caches the run, its maps and November as the active month. *)
Example run_upload :
  @show run_solver cache_init (Post facility_table route_table) = (cache_of run0 run_maps, Redirect).
Proof.
  unfold show; rewrite run_optimize; cbn [r_val r_net run0]; rewrite run_build_maps.
  vm_compute; reflexivity.
Qed.

Lemma run_names : List.NoDup (map row_name (facility_rows facility_table)).
Proof. apply (bool_decide_unpack _); vm_compute; reflexivity. Qed.

Lemma build_network_wf_witness : wf_network run_net.
Proof. apply (build_network_wf facility_table route_table); [exact run_build | exact run_names]. Defined.

(** Node identity is not enforced: two rows naming the same location give
    a network in which two nodes share every id. *)
Example duplicate_names_duplicate_ids :
  exists st, build_network duplicate_table [[CText "from"]] = inr st /\
             ~ List.NoDup (map node_id (node_list st)).
Proof.
  assert (H : match build_network duplicate_table [[CText "from"]] with
              | inr st => bool_decide (List.NoDup (map node_id (node_list st)))
              | inl _ => true end = false) by (vm_compute; reflexivity).
  destruct (build_network duplicate_table [[CText "from"]]) as [|st]; [discriminate|].
  exists st; split; [reflexivity|]. intros N; apply (bool_decide_eq_true_2 _) in N; congruence.
Qed.

Lemma production_table_reports_output_witness :
  table_lookup (production_results (r_val run0) (production_list (r_net run0)))
               ("11月"%string, "A"%string) =
  match List.filter (fun je => bool_decide (table_key (p_source (snd je)) = ("11月"%string, "A"%string)))
                    (ienum (production_list (r_net run0))) with
  | [] => None
  | fl => Some (flat_map (fun je => out_entry (r_val run0) (fst je) (snd je)) fl)
  end.
Proof. apply (@production_table_reports_output run_solver facility_table route_table run0), run_optimize. Defined.

Lemma storage_table_reports_foundations_witness :
  table_lookup (storage_results (r_val run0) (storage_list (r_net run0)))
               ("11月"%string, "A"%string) =
  match List.filter (fun je => bool_decide (table_key (s_source (snd je)) = ("11月"%string, "A"%string)))
                    (ienum (storage_list (r_net run0))) with
  | [] => None
  | fl => Some (flat_map (fun je => stored_entry (r_val run0) (fst je)) fl)
  end.
Proof. apply (@storage_table_reports_foundations run_solver facility_table route_table run0), run_optimize. Defined.

(** The November entry of the shipyard lists four modules, one
    half-hull of each kind and one foundation. *)
Example run_production_table :
  table_lookup (production_results run_sigma (production_list run_net)) ("11月"%string, "A"%string) =
  Some [(ModuleFab, 4); (HalfBody1Fab, 1); (HalfBody3Fab, 1); (FoundationFab, 1)].
Proof. vm_compute; reflexivity. Qed.

(** An upload without steel has no feasible plan: the handler fails with
    the [TypeError] of unpacking [None] and keeps the previous results. *)
Example no_steel_upload_crashes :
  fst (@show run_solver (cache_of run0 run_maps) (Post no_steel_table route_table)) = cache_of run0 run_maps /\
  snd (@show run_solver (cache_of run0 run_maps) (Post no_steel_table route_table)) = ServerError TypeError.
Proof. split; vm_compute; reflexivity. Qed.

Lemma build_network_shaped_witness : shaped run_net.
Proof. apply (build_network_shaped facility_table route_table), run_build. Defined.

Lemma route_unknown_location_witness : edge_row_step run_net unknown_route_row = inl ValueError.
Proof.
  apply (route_unknown_location run_net unknown_route_row (CText "A") (CText "Z"));
    [reflexivity | reflexivity | reflexivity |].
  right. assert (H : forallb (fun n => negb (String.eqb (name n) "Z")) (node_list run_net) = true)
    by (vm_compute; reflexivity).
  revert H; generalize (node_list run_net) as l; intros l H n Hn E.
  apply (proj1 (forallb_forall _ l)) with (x := n) in H; [|exact Hn].
  rewrite E in H; discriminate.
Defined.

Lemma vessel_cost_closed_form_witness :
  (0 <= 100 <= max_route_km)%Z /\
  vessel_cost node_B12 node_C12 100 = (5948000 * ((1000 * 100 + 222239) / 222240) + 100)%Z /\
  (5948000 + 100 <= vessel_cost node_B12 node_C12 100)%Z.
Proof.
  assert (Hd : (0 <= 100 <= max_route_km)%Z) by (unfold max_route_km; lia).
  destruct (vessel_cost_closed_form node_B12 node_C12 100 Hd) as [A B].
  split; [exact Hd | split; [exact A | apply B; lia]].
Defined.

Lemma objective_value_witness :
  (eval_lin run_sigma run_objective_lin == charged_cost run_sigma run_net)%Q.
Proof. exact (objective_value facility_table route_table run_net run_objective_lin run_sigma run_build run_objective_ok). Defined.

Lemma build_maps_total_witness :
  exists maps, build_maps run_sigma run_net = inr maps /\ map fst maps = layer_network_list.
Proof. apply (build_maps_total run_sigma facility_table route_table run_net), run_build. Defined.

(** The November map of the run: the two routes that carry cargo, then
    a circle and a label for each location. *)
Example run_november_map :
  head run_maps =
  Some (M11, [PolyLine (35, 139)%Q (35, 139)%Q; PolyLine (35, 139)%Q (40, 140)%Q;
              CircleMarker (35, 139)%Q "A"; Marker (35, 139)%Q "" 0 (120 # 10) (0 # 2, 120 # 20)%Q "A";
              CircleMarker (35, 139)%Q "B"; Marker (35, 139)%Q "" 0 (120 # 10) (0 # 2, 120 # 20)%Q "B";
              CircleMarker (40, 140)%Q "S"; Marker (40, 140)%Q "" 0 (120 # 10) (0 # 2, 120 # 20)%Q "S"]).
Proof. vm_compute; reflexivity. Qed.

(** The November map of the run, as [month_map] draws it. *)
Definition run_november : list element :=
  match month_map run_sigma run_net M11 with inr els => els | inl _ => [] end.

Lemma run_month_map : month_map run_sigma run_net M11 = inr run_november.
Proof.
  unfold run_november.
  assert (H : match month_map run_sigma run_net M11 with inr _ => true | inl _ => false end = true)
    by (vm_compute; reflexivity).
  destruct (month_map run_sigma run_net M11); [discriminate | reflexivity].
Qed.

Lemma drawn_routes_witness :
  In (PolyLine (35, 139)%Q (40, 140)%Q) run_november <->
  exists e, In e (transportation_list run_net) /\ t_month e = Some M11 /\
            (exists p, route_total run_sigma run_net e p <> 0%Z) /\
            (35, 139)%Q = (lat (t_source e), lon (t_source e)) /\
            (40, 140)%Q = (lat (t_target e), lon (t_target e)).
Proof.
  apply (drawn_routes run_sigma facility_table route_table run_net M11 run_november); [exact run_build | |].
  - exact (build_network_node_ids _ _ _ run_build run_names).
  - exact run_month_map.
Defined.

(** The shipyard row with the wet-storage flag set and no capacity. *)
Definition wet_yard_row : list cell :=
  [CText "A"; CInt 35; CInt 139; CText kind_large; CText "TRUE"; CInt 1; CEmpty; CText "FALSE"; CEmpty;
   CInt 0; CInt 1; CEmpty;  CInt 0; CInt 1; CEmpty;  CInt 0; CInt 1; CEmpty;  CInt 0; CInt 1; CEmpty;
   CEmpty; CEmpty; CEmpty;  CEmpty; CEmpty; CEmpty;  CEmpty; CEmpty; CInt 4; CEmpty; CEmpty].
Definition wet_table : list (list cell) := [[CText "name"]; wet_yard_row; port_row; site_row].
Definition wet_net : BState :=
  match build_network wet_table route_table with inr st => st | inl _ => bstate_empty end.
Definition wet_edge : SEdge := hd (mkSEdge node_A11 node_A11 M11 PNone PNone) (storage_list wet_net).

Lemma wet_build : build_network wet_table route_table = inr wet_net.
Proof.
  unfold wet_net.
  assert (H : match build_network wet_table route_table with inr _ => true | inl _ => false end = true)
    by (vm_compute; reflexivity).
  destruct (build_network wet_table route_table); [discriminate | reflexivity].
Qed.

Lemma wet_edge_first : In (0%nat, wet_edge) (ienum (storage_list wet_net)).
Proof.
  unfold wet_edge, ienum.
  assert (H : match storage_list wet_net with [] => false | _ => true end = true) by (vm_compute; reflexivity).
  destruct (storage_list wet_net) as [|e l]; [discriminate|]. left; reflexivity.
Qed.

Lemma missing_wet_capacity_fails_witness :
  exists err, @optimize run_solver wet_table route_table = inl err.
Proof.
  apply (@missing_wet_capacity_fails run_solver wet_table route_table wet_net 0 wet_edge);
    [exact wet_build | exact wet_edge_first | vm_compute; reflexivity].
Defined.

(** The upload fails on the [None] capacity: the handler answers with a
    server error and the cache stays as it was. *)
Example wet_upload_crashes :
  @show run_solver cache_init (Post wet_table route_table) = (cache_init, ServerError NotImplementedError).
Proof. vm_compute; reflexivity. Qed.

Lemma drawn_locations_witness :
  exists lines, forallb is_line lines = true /\
    run_november = lines ++ flat_map location_elements
                              (List.filter (fun n => bool_decide (month n = LMonth M11)) (node_list run_net)).
Proof.
  apply (drawn_locations run_sigma facility_table route_table run_net M11 run_november);
    [exact run_build | exact (build_network_node_ids _ _ _ run_build run_names) | exact run_month_map].
Defined.

(** The shipyard row with an empty module-fabrication cost. *)
Definition nocost_yard_row : list cell :=
  [CText "A"; CInt 35; CInt 139; CText kind_large; CText "FALSE"; CEmpty; CEmpty; CText "FALSE"; CEmpty;
   CEmpty; CInt 1; CEmpty;  CInt 0; CInt 1; CEmpty;  CInt 0; CInt 1; CEmpty;  CInt 0; CInt 1; CEmpty;
   CEmpty; CEmpty; CEmpty;  CEmpty; CEmpty; CEmpty;  CEmpty; CEmpty; CInt 4; CEmpty; CEmpty].
Definition nocost_table : list (list cell) := [[CText "name"]; nocost_yard_row; port_row; site_row].
Definition nocost_net : BState :=
  match build_network nocost_table route_table with inr st => st | inl _ => bstate_empty end.
Definition nocost_edge : PEdge := hd (mkPEdge node_A11 WetStorage PNone PNone) (production_list nocost_net).

Lemma nocost_build : build_network nocost_table route_table = inr nocost_net.
Proof.
  unfold nocost_net.
  assert (H : match build_network nocost_table route_table with inr _ => true | inl _ => false end = true)
    by (vm_compute; reflexivity).
  destruct (build_network nocost_table route_table); [discriminate | reflexivity].
Qed.

Lemma nocost_edge_first : In (0%nat, nocost_edge) (ienum (production_list nocost_net)).
Proof.
  unfold nocost_edge, ienum.
  assert (H : match production_list nocost_net with [] => false | _ => true end = true) by (vm_compute; reflexivity).
  destruct (production_list nocost_net) as [|e l]; [discriminate|]. left; reflexivity.
Qed.

Lemma missing_cost_fails_witness :
  exists err, @optimize run_solver nocost_table route_table = inl err.
Proof.
  apply (@missing_cost_fails run_solver nocost_table route_table nocost_net 0 nocost_edge Module);
    [exact nocost_build | exact nocost_edge_first | vm_compute; reflexivity | vm_compute; reflexivity].
Defined.

Lemma build_network_production_witness :
  map pedge_key (production_list run_net) = flat_map row_production (facility_rows facility_table) /\
  List.length (flat_map row_production (facility_rows facility_table)) = 72%nat.
Proof. split; [apply (build_network_production facility_table route_table), run_build | vm_compute; reflexivity]. Defined.

Lemma build_network_total_witness :
  forallb facility_row_ok (facility_rows facility_table) = true /\
  forallb (route_row_ok (map row_name (facility_rows facility_table))) (tl route_table) = true /\
  exists st, build_network facility_table route_table = inr st.
Proof.
  assert (Hn : forallb facility_row_ok (facility_rows facility_table) = true) by (vm_compute; reflexivity).
  assert (He : forallb (route_row_ok (map row_name (facility_rows facility_table))) (tl route_table) = true)
    by (vm_compute; reflexivity).
  split; [exact Hn|]; split; [exact He|]. exact (build_network_total facility_table route_table Hn He).
Defined.

(** ** The threaded server *)

(** A [GET] and the upload of the two tables, served concurrently. *)
Definition mix_reqs : list request := [Get None; Post facility_table route_table].

(** The [GET] has read the maps before the upload and the nodes after it. *)
Definition mix_state : sys :=
  mkSys (cache_of run0 run_maps) [[Read KProd; Read KStor; Read KActive]; []]
        [FNodes (Some (node_list run_net)); FMaps None].

Lemma run_post_thread :
  @thread_of run_solver (Post facility_table route_table) =
  map (fun k => Write (cache_get (cache_of run0 run_maps) k)) [KMaps; KNodes; KProd; KStor; KActive].
Proof.
  unfold thread_of; rewrite run_optimize; cbn [r_val r_net run0]; rewrite run_build_maps.
  vm_compute; reflexivity.
Qed.

Lemma mix_reachable : @reachable run_solver mix_reqs mix_state.
Proof.
  unfold reachable, sys_init, mix_reqs; cbn [map]; rewrite run_post_thread; cbn [map].
  eapply rtc_l; [apply (step_read _ _ _ 0 KMaps); reflexivity|].
  do 5 (eapply rtc_l; [apply (step_write _ _ _ 1); reflexivity|]).
  eapply rtc_l; [apply (step_read _ _ _ 0 KNodes); reflexivity|].
  apply rtc_refl.
Qed.

Lemma interleaved_fields_produced_witness :
  (forall k, @produced run_solver mix_reqs (cache_get (s_cache mix_state) k)) /\
  (forall v, In v (s_seen mix_state) -> @produced run_solver mix_reqs v).
Proof. apply (@interleaved_fields_produced run_solver mix_reqs mix_state); exact mix_reachable. Defined.

(** Under threads, a page can show fields of two states of the cache: the
    [GET] renders no maps and the node list of the upload that ran
    between its two reads, which no serial order of the two requests
    shows. *)
Example get_sees_mixed_cache :
  @reachable run_solver mix_reqs mix_state /\
  In (FMaps None) (s_seen mix_state) /\ In (FNodes (Some (node_list run_net))) (s_seen mix_state).
Proof. split; [exact mix_reachable|cbn; tauto]. Qed.
